(* ===== verification/_CoqProject ===== *)
-Q . S2P
Prelude.v
Abi.v
Notify.v
Bytes.v
Paths.v
Vmem.v
GuestMem.v
Signals.v
Pipe.v
Sema.v
Stdio.v
FdTable.v
Pids.v
Shm.v
MemFS.v
Socket.v
World.v
Alarm.v
Process.v
Lifecycle.v
Host.v
Poll.v
HostLaws.v
System.v
Clone.v
Tar.v
WasmObj.v
ObjLaws.v
Server.v
ServerLaws.v
Osfs.v
Modules.v
Runtime.v
Guest.v
Listener.v
Bindings.v
BindLaws.v
Text.v
GenAbi.v
Localize.v
MkTar.v
PgRun.v
PgX.v
Cluster.v
