(* ===== verification/Prelude.v ===== *)
(** * pgzero: a verification library

    pgzero runs Postgres, compiled to WebAssembly, inside a Go process: every
    Postgres process is an instance of the component, and a kernel written in Go
    ([src/internal/kernel]) gives the instances what an operating system would:
    processes, signals, descriptors, pipes, sockets, shared memory and
    semaphores.  This library models that kernel, the guest memory it works on
    ([src/internal/vmem]), its filesystems ([src/internal/memfs],
    [src/internal/osfs]), the server around it ([src/pgzero.go]) and the tools
    that link the extension modules ([src/wasm]), and proves what they promise.

    ** Parts and files

    - [Prelude] (this file): record update, machine integers, byte slices, sums
      over maps, reachability; [Bytes]: byte order; [Text]: trimming, fields and
      lines of text; [Abi]: the constants and
      layouts of [internal/abi].
    - [Notify]: [notify.go].  A channel is named by its generation; [Waitable]
      is the interface of whatever can be waited for, and [no_lost_wakeup] the
      theorem every implementer inherits.
    - [Vmem]: [vmem.go].  Memories and shared segments over [HostMMU], the part
      of [mmap] the code uses, with [HostMMULaws] its documented behaviour and
      [Sim] an instance of it.  [GuestMem]: the accessors of host.go.
    - [Pipe], [Stdio], [Socket], [Shm], [Sema]: pipe.go, stdio.go, socket.go,
      shm.go, sema.go.  One Record per struct, one definition per method, under
      the method's name.  A method that locks is one step; a goroutine
      ([pump], [readLoop], [writeLoop], [acceptLoop]) is a state machine whose
      steps are what it does between taking and releasing the lock.
    - [FdTable]: fdtable.go.  [FileOps] is the interface [file]; descriptions
      are shared, so they live in a heap, with their reference counts.
    - [World]: all kinds of file behind [FileOps], in one state.
    - [Signals]: signals and [block] of process.go; [Alarm]: its timer; [Pids]:
      the pids of kernel.go; [Process]: processes, [Start], [spawn], [waitpid],
      [kill], [exit], [finish], [Close]; [Lifecycle]: all that as a transition
      system, with its invariant.
    - [Host]: the handlers of host.go on the calling process and its kernel's
      files; [Poll]: poll.go; [HostLaws]: what they do for a guest; [System]:
      all calls as one type, what every one of them keeps, and the kernel that
      runs them as an instance of [Lifecycle].
    - [Bindings]: the six interfaces of [internal/gen], every function in both
      directions: [<interface>_wrap<Function>] lifts the arguments from the
      guest's stack, calls the method and stores its result
      ([<interface>.bind.go]); [<interface>Wrapper_<Method>] lowers arguments
      for a component and calls it ([<interface>.wrap.go]).  [BindLaws]: that
      both are the reading of the function's type, that they fit each other, and
      the host of the kernel behind them.
    - [Guest]: [NewRuntime] and [execute], with its deferred calls; [Runtime]:
      the programs all kernels share, loaded by the first process that starts
      one; [Listener]: the rendezvous of connections inside a kernel.  The last
      two are transition systems over goroutines.
    - [Paths]: [Clean], [Join] and [Base] of Go's path package, mounts and host
      paths of kernel.go, names in a host directory (osfs.go), and the check of
      template entries (pgzero.go).  [Osfs]: the operations of osfs.go, as the
      calls they make to the operating system.
    - [MemFS]: the files and directories of memfs.go.  Nodes live in a heap, as
      links share them.  [Clone]: [Open] and [Clone]; [Tar]: [mkdirAll] and
      [AddTar].
    - [Server]: pgzero.go, with the readiness probe and [initDataDir] in monads
      of their own; [ServerLaws]: what the server promises.
    - [WasmObj]: the object reader wasmobj.go and wasmlocalize; [ObjLaws]: both
      against a grammar of object files; [Localize]: wasmlocalize with its file
      of names; [Modules]: genmodules, the symbol
      tables of modules and the C source printed for them; [GenAbi]: genabi, the
      evaluator of C constant expressions and the table of constants; [MkTar]:
      mktar, the archive of a directory tree, which [Tar] unpacks.
    - [PgRun]: pgzero-run, from the parsed flags to the exit status, written
      with its deferred calls.
    - [PgX]: the adapter of pgzerox.go, over a [pgx], what it uses of that
      library, with the laws its documentation gives.
    - [Cluster]: the way of a database cluster through mktar, [AddTar], [Clone]
      and [initDataDir], to the paths a server opens: the parts above put
      together, with a host directory tree that answers as POSIX says.

    A Go method [m] of a type that clashes with another is named after its type
    ([pipeReader_read], [fdHost_Pipe]); otherwise it keeps its name.

    ** Conventions

    Integers are [Z], with [u32], [i32], ... where Go's wrap around; bytes are
    [list Z].  An error is a negative or positive errno as in the code.  A value
    that may panic is an [option], or an [outcome] or [result] with a case for
    it.  A call that blocks takes a schedule: what the rest of the system does
    each time it is blocked, and how [block] ends; a schedule that ends too
    early gives "still blocked".  Time is an argument.

    ** What the theorems show

    - Data: a pipe and both directions of a socket are first-in first-out
      streams of bounded size; small writes are not split; a byte written to a
      descriptor comes out of the other end in the guest's memory; files of the
      in-memory filesystem hold what was written.
    - No lost wake-ups: for pipes, sockets, semaphores, signals and [waitpid],
      nobody sleeps while what it waits for is there.
    - Resources: descriptions are released once, segments are freed exactly
      when nothing refers to them, pids do not leak, no descriptor dangles.
    - Functional behaviour: [poll] answers as poll(2) says, [waitpid] reports
      every child once, a signal sets its bit, addresses round-trip, paths stay
      in their mounts, renames move one entry and end, calls on bad descriptors
      fail and change nothing, and no read writes outside the buffer.
    - Files: a clone is the same tree, hard links included; what an archive
      holds is what is read back; a host directory confines its guest; a server
      finds the same cluster in memory and in a host directory, under the same
      guest paths.
    - Life cycles: [execute], [Start] and pgzero-run give back what they acquired whatever
      fails; a program is loaded once for all who wait for it; dials and accepts
      pair off and nobody outlives a closed listener; programs compiled ahead
      are there for later callers; pgx configurations lead to their server.
    - Formats: the object reader ends on any bytes and inverts the encoding of
      object files; wasmlocalize changes the binding of the chosen symbols and
      nothing else; the probe, connection strings and module tables say what
      their formats require; [eval] of genabi gives an expression the value it
      has in C; a tree packed by mktar and unpacked by [AddTar] is the same
      tree.
    - The boundary: whatever words a guest leaves on its stack, every function
      it is given gets arguments in the range of their types, changes the first
      word of the stack at most, and is some steps of the kernel.
    - [System.system_refines_lifecycle] carries the theorems of [Lifecycle] to
      the kernel with its real calls, and [System.kernel_well_formed] is the
      type invariant of its state.

    ** Bounds and fuel

    - [GuestMem.cstring] has the fuel of the code's own bound, 2^16.
    - [GuestMem.strings] takes fuel; [HostLaws.spawn_returns] shows 2^30 to be
      enough in a memory of less than 4 GiB.
    - [FdTable.free_fd] searches one place more than there are descriptors.
    - [MemFS.RenameAt] walks up a directory chain: [rename_terminates] shows
      that the number of nodes is enough.
    - [allocPid] makes the code's own 2^11 attempts.
    - [Clone.Clone] recurses as deep as there are nodes, plus one: enough by
      [clone_same_tree].
    - [WasmObj] counts an entry read as a unit of fuel, of as many units as the
      object has bytes: enough by [symbols_total], as every entry takes a byte.
    - [GenAbi.eval] calls itself on shorter text: one more than the length of
      the text is enough by [eval_total].

    ** What is not modelled, and why

    - The runtime that executes guests (wazero and its component layer): third
      party.  Whether its calls succeed is a parameter ([Guest.wasm]); that a
      component made of host functions calls them is the hypothesis [exports]
      of [BindLaws].
    - Go's [net], [io] and [os]: parameters ([HostIO], [Osfs], [Server]).  In
      [Socket] the rendezvous of a connection inside the kernel is the parameter
      [vdial], which [Listener] models by itself; a call of [connect], [bind] or
      [listen] is one step.
    - The adapters in memfs.go and osfs.go to the file interfaces of the
      runtime, which only rename methods.
    - What the commands do besides: parsing flags, running [clang], formatting
      source, compressing and writing files; [archive/tar] is modelled by what
      its writer refuses and what its reader delivers.
    - [internal/assets] embeds files: no logic of its own.  pgx is third party:
      [PgX.pgx] and its laws. *)
From Stdlib Require Export ZArith Lia.
From stdpp Require Export base tactics option list gmap fin_maps strings numbers relations sorting.

#[export] Set Default Goal Selector "!".
Open Scope Z_scope.

(** * Record update

    [r <| f := v |>] is [r] with field [f] replaced by [v], and
    [r <| f ::= g |>] applies [g] to the field.  A record type gives an [Eta]
    instance (its eta expansion); the update of one field is derived from it. *)
Class Eta (R : Type) := eta : R → R.
Class Update {R E : Type} (proj : R → E) := upd : (E → E) → R → R.
#[global] Hint Mode Eta ! : typeclass_instances.
Arguments upd {R E} proj {Update} f r / : rename.

Ltac solve_update :=
  match goal with
  | |- @Update ?R ?E ?proj =>
      let f := fresh "f" in
      let r := fresh "r" in
      intros f r;
      let inst := constr:(_ : Eta R) in
      let h := lazymatch inst with
               | ?g _ _ _ => g | ?g _ _ => g | ?g _ => g | ?g => g end in
      let b := eval cbv beta delta [h] in (inst r) in
      let x := eval cbv beta in (proj r) in
      let b' := eval pattern x in b in
      lazymatch b' with
      | ?g _ => let res := eval cbv beta in (g (f x)) in exact res
      end
  end.
#[global] Hint Extern 1 (Update _) => solve_update : typeclass_instances.

Declare Scope pgz_scope.
Delimit Scope pgz_scope with pgz.
Notation "r <| f := v |>" := (upd f (λ _, v) r)
  (at level 1, left associativity, f at level 0, v at level 99) : pgz_scope.
Notation "r <| f ::= g |>" := (upd f g r)
  (at level 1, left associativity, f at level 0, g at level 99) : pgz_scope.
Open Scope pgz_scope.

(** * Machine integers

    Go's fixed-width integers are [Z] with the wrap-around written out. *)
Definition wrapU (w z : Z) : Z := z mod 2 ^ w.
Definition wrapS (w z : Z) : Z := (z + 2 ^ (w - 1)) mod 2 ^ w - 2 ^ (w - 1).
Abbreviation u16 := (wrapU 16) (only parsing).
Abbreviation u32 := (wrapU 32) (only parsing).
Abbreviation u64 := (wrapU 64) (only parsing).
Abbreviation i16 := (wrapS 16) (only parsing).
Abbreviation i32 := (wrapS 32) (only parsing).
Abbreviation i64 := (wrapS 64) (only parsing).

Lemma wrapU_range w z : 0 ≤ w → 0 ≤ wrapU w z < 2 ^ w.
Proof. intros. unfold wrapU. apply Z.mod_pos_bound, Z.pow_pos_nonneg; lia. Qed.

Lemma wrapU_small w z : 0 ≤ z < 2 ^ w → wrapU w z = z.
Proof. intros. unfold wrapU. by apply Z.mod_small. Qed.

Lemma wrapS_range w z : 1 ≤ w → - 2 ^ (w - 1) ≤ wrapS w z < 2 ^ (w - 1).
Proof.
  intros Hw. unfold wrapS.
  assert (2 ^ w = 2 * 2 ^ (w - 1)) as Hp.
  { rewrite <- Z.pow_succ_r by lia. f_equal. lia. }
  pose proof (Z.mod_pos_bound (z + 2 ^ (w - 1)) (2 ^ w)
                (Z.pow_pos_nonneg 2 w ltac:(lia) ltac:(lia))). lia.
Qed.

Lemma wrapS_small w z : 1 ≤ w → - 2 ^ (w - 1) ≤ z < 2 ^ (w - 1) → wrapS w z = z.
Proof.
  intros Hw Hz. unfold wrapS.
  assert (2 ^ w = 2 * 2 ^ (w - 1)) as Hp.
  { rewrite <- Z.pow_succ_r by lia. f_equal. lia. }
  rewrite Z.mod_small; lia.
Qed.

(** [i32 (u32 z)] and [u32 (i32 z)] are the conversions between [int32] and
    [uint32], which are inverse to each other. *)
Lemma wrapU_wrapS w z : 1 ≤ w → wrapU w (wrapS w z) = wrapU w z.
Proof.
  intros Hw. unfold wrapU, wrapS.
  rewrite Zminus_mod_idemp_l. f_equal. lia.
Qed.

Lemma wrapS_wrapU w z : 1 ≤ w → wrapS w (wrapU w z) = wrapS w z.
Proof. intros Hw. unfold wrapU, wrapS. by rewrite Zplus_mod_idemp_l. Qed.

(** * Byte sequences and Go slices *)
Abbreviation bytes := (list Z) (only parsing).
Definition is_byte (b : Z) : Prop := 0 ≤ b < 256.

Definition zlen {A} (l : list A) : Z := Z.of_nat (length l).
Definition ztake {A} (n : Z) (l : list A) : list A := take (Z.to_nat n) l.
Definition zdrop {A} (n : Z) (l : list A) : list A := drop (Z.to_nat n) l.
Definition znth {A} (l : list A) (i : Z) : option A :=
  if i <? 0 then None else l !! Z.to_nat i.
Definition zrepeat {A} (n : Z) (x : A) : list A := replicate (Z.to_nat n) x.

Lemma zlen_nil {A} : zlen (@nil A) = 0.
Proof. done. Qed.
Lemma zlen_cons {A} (x : A) l : zlen (x :: l) = 1 + zlen l.
Proof. unfold zlen. simpl. lia. Qed.
Lemma zlen_app {A} (l k : list A) : zlen (l ++ k) = zlen l + zlen k.
Proof. unfold zlen. rewrite length_app. lia. Qed.
Lemma zlen_nonneg {A} (l : list A) : 0 ≤ zlen l.
Proof. unfold zlen. lia. Qed.
Lemma zlen_take {A} n (l : list A) : zlen (ztake n l) = Z.min (Z.max 0 n) (zlen l).
Proof. unfold zlen, ztake. rewrite length_take. lia. Qed.
Lemma zlen_drop {A} n (l : list A) : zlen (zdrop n l) = Z.max 0 (zlen l - Z.max 0 n).
Proof. unfold zlen, zdrop. rewrite length_drop. lia. Qed.
Lemma zlen_repeat {A} n (x : A) : zlen (zrepeat n x) = Z.max 0 n.
Proof. unfold zlen, zrepeat. rewrite length_replicate. lia. Qed.
Lemma zlen_zero {A} (l : list A) : zlen l = 0 ↔ l = [].
Proof. unfold zlen. split; [|by intros ->]. destruct l; [done|]. simpl. lia. Qed.
Lemma zlen_pos {A} (l : list A) : 0 < zlen l ↔ l ≠ [].
Proof. pose proof (zlen_nonneg l). rewrite <- zlen_zero. lia. Qed.
Lemma zlen_fmap {A B} (f : A → B) l : zlen (f <$> l) = zlen l.
Proof. unfold zlen. by rewrite length_fmap. Qed.
Lemma ztake_all {A} n (l : list A) : zlen l ≤ n → ztake n l = l.
Proof. unfold zlen, ztake. intros. apply take_ge. lia. Qed.
Lemma ztake_drop {A} n (l : list A) : ztake n l ++ zdrop n l = l.
Proof. apply take_drop. Qed.
Lemma zdrop_all {A} n (l : list A) : zlen l ≤ n → zdrop n l = [].
Proof. unfold zlen, zdrop. intros. apply drop_ge. lia. Qed.
Lemma zdrop_0 {A} (l : list A) : zdrop 0 l = l.
Proof. done. Qed.
Lemma ztake_le_0 {A} n (l : list A) : n ≤ 0 → ztake n l = [].
Proof. intros. unfold ztake. by rewrite Z2Nat.nonpos by lia. Qed.

Create Rewrite HintDb zlen.
#[export] Hint Rewrite @zlen_nil @zlen_cons @zlen_app @zlen_take @zlen_drop
  @zlen_repeat @zlen_fmap : zlen.

(** [zlia] decides linear goals about lengths of the sequences in context. *)
Ltac zlen_facts :=
  repeat match goal with
  | |- context [zlen ?l] =>
      lazymatch goal with H : 0 ≤ zlen l |- _ => fail | _ => pose proof (zlen_nonneg l) end
  | _ : context [zlen ?l] |- _ =>
      lazymatch goal with H : 0 ≤ zlen l |- _ => fail | _ => pose proof (zlen_nonneg l) end
  end.
Ltac zlia := autorewrite with zlen in *; zlen_facts; lia.

(** Case analysis on the boolean integer tests the code is full of. *)
Ltac zcase :=
  match goal with
  | |- context [?a <? ?b] => destruct (Z.ltb_spec a b)
  | |- context [?a <=? ?b] => destruct (Z.leb_spec a b)
  | |- context [?a =? ?b] => destruct (Z.eqb_spec a b)
  | _ : context [?a <? ?b] |- _ => destruct (Z.ltb_spec a b)
  | _ : context [?a <=? ?b] |- _ => destruct (Z.leb_spec a b)
  | _ : context [?a =? ?b] |- _ => destruct (Z.eqb_spec a b)
  end; simpl in *.
Ltac zcases := repeat zcase.

(** Evaluates a decidable proposition. *)
Ltac decided := apply (bool_decide_unpack _); vm_compute; exact I.

(** * Reachability of step relations *)
Section reach.
Context {S : Type} (init : S → Prop) (step : relation S).

Definition reachable (s : S) : Prop := ∃ s0, init s0 ∧ rtc step s0 s.

Lemma reachable_inv (I : S → Prop) :
  (∀ s, init s → I s) →
  (∀ s s', reachable s → I s → step s s' → I s') →
  ∀ s, reachable s → I s.
Proof.
  intros Hi Hs s (s0 & Hs0 & Hsteps).
  revert s Hsteps. apply rtc_ind_r; [by apply Hi|].
  intros y z Hy Hyz HI. by apply (Hs y); [exists s0|..].
Qed.
End reach.

(** Slices of slices and of concatenations. *)
Lemma ztake_app_le {A} n (l k : list A) : n ≤ zlen l → ztake n (l ++ k) = ztake n l.
Proof. unfold ztake, zlen. intros. apply take_app_le. lia. Qed.
Lemma ztake_app_ge {A} n (l k : list A) : zlen l ≤ n → ztake n (l ++ k) = l ++ ztake (n - zlen l) k.
Proof.
  unfold ztake, zlen. intros. rewrite take_app_ge by lia. do 2 f_equal. lia.
Qed.
Lemma ztake_ztake {A} n m (l : list A) : ztake n (ztake m l) = ztake (Z.min n m) l.
Proof. unfold ztake. rewrite take_take. f_equal. lia. Qed.
Lemma ztake_zdrop {A} n m (l : list A) : 0 ≤ m → ztake n (zdrop m l) = zdrop m (ztake (m + n) l).
Proof.
  unfold ztake, zdrop. intros. rewrite skipn_firstn_comm. f_equal.
  destruct (decide (0 ≤ n)); [lia|]. lia.
Qed.
Lemma zdrop_app_ge {A} n (l k : list A) : zlen l ≤ n → zdrop n (l ++ k) = zdrop (n - zlen l) k.
Proof. unfold zdrop, zlen. intros. rewrite drop_app_ge by lia. f_equal. lia. Qed.
Lemma zdrop_app_le {A} n (l k : list A) : n ≤ zlen l → zdrop n (l ++ k) = zdrop n l ++ k.
Proof. unfold zdrop, zlen. intros. apply drop_app_le. lia. Qed.

(** * Sums over a finite map *)
Section sum.
Context {K V : Type} `{Countable K}.

Definition map_sum (f : V → Z) (m : gmap K V) : Z := map_fold (λ _ v n, f v + n) 0 m.

Lemma map_sum_insert_new f m k v :
  m !! k = None → map_sum f (<[k:=v]> m) = f v + map_sum f m.
Proof.
  intros Hk. unfold map_sum. rewrite map_fold_insert_L; [done|..|done]. intros. lia.
Qed.

Lemma map_sum_delete f m k v :
  m !! k = Some v → map_sum f m = f v + map_sum f (delete k m).
Proof.
  intros Hk. rewrite <- (insert_delete_id m k v Hk) at 1.
  by rewrite map_sum_insert_new by apply lookup_delete_eq.
Qed.

Lemma map_sum_insert f m k v :
  map_sum f (<[k:=v]> m) = f v + map_sum f m - from_option f 0 (m !! k).
Proof.
  destruct (m !! k) as [u|] eqn:Hk; simpl.
  - rewrite <- insert_delete_eq, map_sum_insert_new by apply lookup_delete_eq.
    rewrite (map_sum_delete f m k u Hk). lia.
  - rewrite map_sum_insert_new by done. lia.
Qed.

Lemma map_sum_delete_any f m k :
  map_sum f (delete k m) = map_sum f m - from_option f 0 (m !! k).
Proof.
  destruct (m !! k) as [u|] eqn:Hk; simpl.
  - rewrite (map_sum_delete f m k u Hk). lia.
  - rewrite delete_id by done. lia.
Qed.

Lemma map_sum_empty f : map_sum f ∅ = 0.
Proof. done. Qed.

Lemma map_sum_ext f g m : (∀ k v, m !! k = Some v → f v = g v) → map_sum f m = map_sum g m.
Proof.
  induction m as [|k v m Hk IH] using map_ind; [done|]. intros Hfg.
  rewrite !map_sum_insert_new by done. rewrite (Hfg k v) by apply lookup_insert_eq.
  rewrite IH; [done|]. intros k' v' Hk'. apply (Hfg k').
  rewrite lookup_insert_ne; [done|]. by intros ->; simplify_eq.
Qed.

Lemma map_sum_nonneg f m : (∀ v, 0 ≤ f v) → 0 ≤ map_sum f m.
Proof.
  intros Hf. induction m as [|k v m Hk IH] using map_ind; [done|].
  rewrite map_sum_insert_new by done. specialize (Hf v). lia.
Qed.

Lemma map_sum_ge f m k v : (∀ v, 0 ≤ f v) → m !! k = Some v → f v ≤ map_sum f m.
Proof.
  intros Hf Hk. rewrite (map_sum_delete f m k v Hk).
  pose proof (map_sum_nonneg f (delete k m) Hf). lia.
Qed.

Lemma map_sum_zero f m k v :
  (∀ v, 0 ≤ f v) → map_sum f m = 0 → m !! k = Some v → f v = 0.
Proof. intros Hf Hm Hk. pose proof (map_sum_ge f m k v Hf Hk). specialize (Hf v). lia. Qed.

Lemma map_sum_pos f m :
  (∀ v, 0 ≤ f v) → 0 < map_sum f m → ∃ k v, m !! k = Some v ∧ 0 < f v.
Proof.
  intros Hf. induction m as [|k v m Hk IH] using map_ind; [rewrite map_sum_empty; lia|].
  rewrite map_sum_insert_new by done. intros Hpos.
  destruct (decide (0 < f v)); [exists k, v; by rewrite lookup_insert_eq|].
  destruct IH as (k' & v' & Hk' & Hv'); [specialize (Hf v); lia|].
  exists k', v'. rewrite lookup_insert_ne; [done|]. by intros ->; simplify_eq.
Qed.

Definition map_count (P : V → bool) : gmap K V → Z := map_sum (λ v, if P v then 1 else 0).

Lemma map_count_nonneg P m : 0 ≤ map_count P m.
Proof. apply map_sum_nonneg. intros v. by destruct (P v). Qed.

Lemma map_count_insert P m k v :
  map_count P (<[k:=v]> m) =
    (if P v then 1 else 0) + map_count P m
    - match m !! k with Some u => if P u then 1 else 0 | None => 0 end.
Proof. unfold map_count. rewrite map_sum_insert. by destruct (m !! k). Qed.

Lemma map_count_zero P m k v : map_count P m = 0 → m !! k = Some v → P v = false.
Proof.
  intros Hm Hk. assert ((if P v then 1 else 0) = 0) as Hv.
  { apply (map_sum_zero (λ v, if P v then 1 else 0) m k v); [|done..]. intros u. by destruct (P u). }
  by destruct (P v).
Qed.

Lemma map_count_pos P m k v : m !! k = Some v → P v = true → 0 < map_count P m.
Proof.
  intros Hk HP.
  pose proof (map_sum_ge (λ v, if P v then 1 else 0) m k v) as Hge. simpl in Hge.
  rewrite HP in Hge. unfold map_count. enough (1 ≤ map_sum (λ v, if P v then 1 else 0) m) by lia.
  apply Hge; [|done]. intros u. by destruct (P u).
Qed.
End sum.
