(* ===== verification/Abi.v ===== *)
(** The guest ABI ([src/internal/abi]): the wasi-libc constants of consts.go and the
    struct layouts of abi.go, as integers.  [abi] is the hint database that unfolds
    them; [abi_lia] decides arithmetic goals about them. *)
From S2P Require Import Prelude.

(** ** abi.go *)
Definition FDBase : Z := Z.shiftl 1 20.
Definition SizeofPollfd : Z := 8.
Definition OffPollfdFD : Z := 0.
Definition OffPollfdEvents : Z := 4.
Definition OffPollfdRevents : Z := 6.
Definition SizeofSockaddrIn : Z := 16.
Definition SizeofSockaddrIn6 : Z := 32.
Definition SizeofSockaddrUn : Z := 110.
Definition SunPathLen : Z := 108.
Definition SizeofSigblock : Z := 24.
(** ** consts.go *)
Definition EPERM : Z := 63.
Definition ENOENT : Z := 44.
Definition ESRCH : Z := 71.
Definition EINTR : Z := 27.
Definition EIO : Z := 29.
Definition EBADF : Z := 8.
Definition ECHILD : Z := 12.
Definition EAGAIN : Z := 6.
Definition ENOMEM : Z := 48.
Definition EACCES : Z := 2.
Definition EFAULT : Z := 21.
Definition EEXIST : Z := 20.
Definition ENOTDIR : Z := 54.
Definition EISDIR : Z := 31.
Definition EINVAL : Z := 28.
Definition ENFILE : Z := 41.
Definition EMFILE : Z := 33.
Definition ENOSPC : Z := 51.
Definition ESPIPE : Z := 70.
Definition EPIPE : Z := 64.
Definition ERANGE : Z := 68.
Definition ENOSYS : Z := 52.
Definition ENOTSOCK : Z := 57.
Definition EDESTADDRREQ : Z := 17.
Definition EMSGSIZE : Z := 35.
Definition EPROTOTYPE : Z := 67.
Definition ENOPROTOOPT : Z := 50.
Definition EPROTONOSUPPORT : Z := 66.
Definition EOPNOTSUPP : Z := 58.
Definition EAFNOSUPPORT : Z := 5.
Definition EADDRINUSE : Z := 3.
Definition EADDRNOTAVAIL : Z := 4.
Definition ENETDOWN : Z := 38.
Definition ENETUNREACH : Z := 40.
Definition ECONNABORTED : Z := 13.
Definition ECONNRESET : Z := 15.
Definition ENOBUFS : Z := 42.
Definition EISCONN : Z := 30.
Definition ENOTCONN : Z := 53.
Definition ETIMEDOUT : Z := 73.
Definition ECONNREFUSED : Z := 14.
Definition EHOSTUNREACH : Z := 23.
Definition EALREADY : Z := 7.
Definition EINPROGRESS : Z := 26.
Definition POLLIN : Z := 1.
Definition POLLOUT : Z := 2.
Definition POLLERR : Z := 4096.
Definition POLLHUP : Z := 8192.
Definition POLLNVAL : Z := 16384.
Definition POLLPRI : Z := 512.
Definition POLLRDNORM : Z := 1.
Definition POLLWRNORM : Z := 2.
Definition AF_UNSPEC : Z := 0.
Definition AF_INET : Z := 1.
Definition AF_INET6 : Z := 2.
Definition AF_UNIX : Z := 3.
Definition SOCK_STREAM : Z := 6.
Definition SOCK_DGRAM : Z := 5.
Definition SOCK_NONBLOCK : Z := 16384.
Definition SOCK_CLOEXEC : Z := 8192.
Definition SHUT_RD : Z := 1.
Definition SHUT_WR : Z := 2.
Definition SHUT_RDWR : Z := 3.
Definition MSG_PEEK : Z := 2.
Definition MSG_DONTWAIT : Z := 64.
Definition MSG_NOSIGNAL : Z := 16384.
Definition SOL_SOCKET : Z := 2147483647.
Definition SO_REUSEADDR : Z := 2.
Definition SO_KEEPALIVE : Z := 9.
Definition SO_ERROR : Z := 4.
Definition SO_RCVBUF : Z := 8.
Definition SO_SNDBUF : Z := 7.
Definition SO_TYPE : Z := 3.
Definition IPPROTO_TCP : Z := 6.
Definition IPPROTO_IPV6 : Z := 41.
Definition IPV6_V6ONLY : Z := 26.
Definition TCP_NODELAY : Z := 1.
Definition TCP_KEEPIDLE : Z := 4.
Definition TCP_KEEPINTVL : Z := 5.
Definition TCP_KEEPCNT : Z := 6.
Definition O_CREAT : Z := 4096.
Definition O_EXCL : Z := 16384.
Definition O_TRUNC : Z := 32768.
Definition O_RDWR : Z := 335544320.
Definition O_NONBLOCK : Z := 4.
Definition O_CLOEXEC : Z := 0.
Definition F_GETFD : Z := 1.
Definition F_SETFD : Z := 2.
Definition F_GETFL : Z := 3.
Definition F_SETFL : Z := 4.
Definition F_DUPFD : Z := 5.
Definition F_DUPFD_CLOEXEC : Z := 6.
Definition FD_CLOEXEC : Z := 1.
Definition SIGHUP : Z := 1.
Definition SIGINT : Z := 2.
Definition SIGQUIT : Z := 3.
Definition SIGILL : Z := 4.
Definition SIGTRAP : Z := 5.
Definition SIGABRT : Z := 6.
Definition SIGBUS : Z := 7.
Definition SIGFPE : Z := 8.
Definition SIGKILL : Z := 9.
Definition SIGUSR1 : Z := 10.
Definition SIGSEGV : Z := 11.
Definition SIGUSR2 : Z := 12.
Definition SIGPIPE : Z := 13.
Definition SIGALRM : Z := 14.
Definition SIGTERM : Z := 15.
Definition SIGCHLD : Z := 17.
Definition SIGCONT : Z := 18.
Definition SIGSTOP : Z := 19.
Definition SIGTSTP : Z := 20.
Definition SIGTTIN : Z := 21.
Definition SIGTTOU : Z := 22.
Definition SIGURG : Z := 23.
Definition SIGXCPU : Z := 24.
Definition SIGXFSZ : Z := 25.
Definition SIGVTALRM : Z := 26.
Definition SIGPROF : Z := 27.
Definition SIGWINCH : Z := 28.
Definition SIGIO : Z := 29.
Definition SIGSYS : Z := 31.
Definition NSIG : Z := 65.
Definition WNOHANG : Z := 1.

Create HintDb abi.
#[export] Hint Unfold FDBase SizeofPollfd OffPollfdFD OffPollfdEvents OffPollfdRevents SizeofSockaddrIn SizeofSockaddrIn6 SizeofSockaddrUn : abi.
#[export] Hint Unfold SunPathLen SizeofSigblock EPERM ENOENT ESRCH EINTR EIO EBADF : abi.
#[export] Hint Unfold ECHILD EAGAIN ENOMEM EACCES EFAULT EEXIST ENOTDIR EISDIR : abi.
#[export] Hint Unfold EINVAL ENFILE EMFILE ENOSPC ESPIPE EPIPE ERANGE ENOSYS : abi.
#[export] Hint Unfold ENOTSOCK EDESTADDRREQ EMSGSIZE EPROTOTYPE ENOPROTOOPT EPROTONOSUPPORT EOPNOTSUPP EAFNOSUPPORT : abi.
#[export] Hint Unfold EADDRINUSE EADDRNOTAVAIL ENETDOWN ENETUNREACH ECONNABORTED ECONNRESET ENOBUFS EISCONN : abi.
#[export] Hint Unfold ENOTCONN ETIMEDOUT ECONNREFUSED EHOSTUNREACH EALREADY EINPROGRESS POLLIN POLLOUT : abi.
#[export] Hint Unfold POLLERR POLLHUP POLLNVAL POLLPRI POLLRDNORM POLLWRNORM AF_UNSPEC AF_INET : abi.
#[export] Hint Unfold AF_INET6 AF_UNIX SOCK_STREAM SOCK_DGRAM SOCK_NONBLOCK SOCK_CLOEXEC SHUT_RD SHUT_WR : abi.
#[export] Hint Unfold SHUT_RDWR MSG_PEEK MSG_DONTWAIT MSG_NOSIGNAL SOL_SOCKET SO_REUSEADDR SO_KEEPALIVE SO_ERROR : abi.
#[export] Hint Unfold SO_RCVBUF SO_SNDBUF SO_TYPE IPPROTO_TCP IPPROTO_IPV6 IPV6_V6ONLY TCP_NODELAY TCP_KEEPIDLE : abi.
#[export] Hint Unfold TCP_KEEPINTVL TCP_KEEPCNT O_CREAT O_EXCL O_TRUNC O_RDWR O_NONBLOCK O_CLOEXEC : abi.
#[export] Hint Unfold F_GETFD F_SETFD F_GETFL F_SETFL F_DUPFD F_DUPFD_CLOEXEC FD_CLOEXEC SIGHUP : abi.
#[export] Hint Unfold SIGINT SIGQUIT SIGILL SIGTRAP SIGABRT SIGBUS SIGFPE SIGKILL : abi.
#[export] Hint Unfold SIGUSR1 SIGSEGV SIGUSR2 SIGPIPE SIGALRM SIGTERM SIGCHLD SIGCONT : abi.
#[export] Hint Unfold SIGSTOP SIGTSTP SIGTTIN SIGTTOU SIGURG SIGXCPU SIGXFSZ SIGVTALRM : abi.
#[export] Hint Unfold SIGPROF SIGWINCH SIGIO SIGSYS NSIG WNOHANG : abi.

Ltac abi_unfold := autounfold with abi in *.
Ltac abi_lia := abi_unfold; lia.
