(* ===== verification/Notify.v ===== *)
(** The wake-up protocol of the kernel's blocking calls
    ([src/internal/kernel/notify.go]).

    A [notifier] hands out a channel that is closed at the next [notify].
    Every channel a notifier ever made is named by its generation: the
    channels below [ntf_gen] are the closed ones, and generation [ntf_gen]
    itself is the open channel while [ntf_open] holds.  The second half of
    the file states, once for all the users of a notifier, that taking the
    channel before checking the condition loses no wake-up. *)
From S2P Require Import Prelude.

Record notifier := Notifier { ntf_gen : nat; ntf_open : bool }.
#[export] Instance eta_notifier : Eta notifier :=
  λ r, {| ntf_gen := ntf_gen r; ntf_open := ntf_open r |}.
#[export] Instance notifier_eq_dec : EqDecision notifier.
Proof. solve_decision. Defined.

Definition new_notifier : notifier := Notifier 0 false.

(** [n.ch == nil] makes a channel; the current channel is returned. *)
Definition notifier_wait (n : notifier) : nat * notifier :=
  (ntf_gen n, n <| ntf_open := true |>).

(** [n.ch != nil] closes the current channel and forgets it. *)
Definition notifier_notify (n : notifier) : notifier :=
  if ntf_open n then Notifier (S (ntf_gen n)) false else n.

Definition chan_closed (n : notifier) (c : nat) : bool := bool_decide (c < ntf_gen n)%nat.

(** A channel handed out by [n] that may still be waited on. *)
Inductive chan_known (n : notifier) (c : nat) : Prop :=
| known_closed : (c < ntf_gen n)%nat → chan_known n c
| known_current : c = ntf_gen n → ntf_open n = true → chan_known n c.

Lemma wait_known n : chan_known (notifier_wait n).2 (notifier_wait n).1.
Proof. by right. Qed.

Lemma wait_open n : chan_closed (notifier_wait n).2 (notifier_wait n).1 = false.
Proof. unfold chan_closed, notifier_wait. simpl. apply bool_decide_eq_false. lia. Qed.

Lemma known_wait n c : chan_known n c → chan_known (notifier_wait n).2 c.
Proof. intros [?|? ?]; [by left|by right]. Qed.

Lemma known_notify n c : chan_known n c → chan_closed (notifier_notify n) c = true.
Proof.
  unfold chan_closed, notifier_notify. intros Hc. apply bool_decide_eq_true.
  destruct Hc as [?| -> ->]; [destruct (ntf_open n); simpl; lia|simpl; lia].
Qed.

Lemma closed_known n c : chan_closed n c = true → chan_known n c.
Proof. intros ?%bool_decide_eq_true. by left. Qed.

Lemma closed_wait n c : chan_closed (notifier_wait n).2 c = chan_closed n c.
Proof. done. Qed.

Lemma closed_notify n c : chan_closed n c = true → chan_closed (notifier_notify n) c = true.
Proof. intros. by apply known_notify, closed_known. Qed.
#[global] Arguments notifier_wait : simpl never.
#[export] Hint Resolve wait_known known_wait known_notify closed_known closed_notify : core.

(** * No lost wake-ups

    [Waitable S]: a state [S] guarded by a lock, with a notifier, an operation
    [wt_try] that fails while it would block, and the other operations
    [wt_op], each with what it does to the notifier: nothing, a notification
    under the lock, or one after the lock was released. *)
Inductive effect := Silent | NotifyNow | NotifyLater.

Class Waitable (S : Type) := {
  wt_ntf : S → notifier;
  wt_set_ntf : notifier → S → S;
  wt_try : S → option S;
  wt_op : S → S → effect → Prop;
}.

Definition wt_after (e : effect) (n : notifier) : notifier :=
  match e with NotifyNow => notifier_notify n | _ => n end.

Class WaitableLaws (S : Type) `{Waitable S} := {
  wt_ntf_set n (s : S) : wt_ntf (wt_set_ntf n s) = n;
  wt_try_set n (s : S) : is_Some (wt_try (wt_set_ntf n s)) ↔ is_Some (wt_try s);
  wt_op_ntf (s s' : S) e : wt_op s s' e → wt_ntf s' = wt_after e (wt_ntf s);
  wt_op_ready (s s' : S) e :
    wt_op s s' e → wt_try s = None → is_Some (wt_try s') → e ≠ Silent;
  wt_try_ntf (s s' : S) :
    wt_try s = Some s' → wt_ntf s' = wt_ntf s ∨ wt_ntf s' = notifier_notify (wt_ntf s);
}.

Section wakeup.
Context {S : Type} `{WaitableLaws S}.

(** A goroutine in the loop [for { ch := n.wait(); try; block(ch) }]. *)
Inductive waiter := Running | Took (c : nat) | Asleep (c : nat).

Record system := System {
  sys_state : S;
  sys_pending : nat; (* operations that released the lock but have yet to notify *)
  sys_waiters : gmap nat waiter;
}.

Inductive sys_step : relation system :=
| step_take s k ws t :
    ws !! t = Some Running →
    sys_step (System s k ws)
      (System (wt_set_ntf (notifier_wait (wt_ntf s)).2 s) k
              (<[t := Took (notifier_wait (wt_ntf s)).1]> ws))
| step_try s s' k ws t c :
    ws !! t = Some (Took c) → wt_try s = Some s' →
    sys_step (System s k ws) (System s' k (<[t := Running]> ws))
| step_sleep s k ws t c :
    ws !! t = Some (Took c) → wt_try s = None →
    sys_step (System s k ws) (System s k (<[t := Asleep c]> ws))
| step_wake s k ws t c :
    ws !! t = Some (Asleep c) → chan_closed (wt_ntf s) c = true →
    sys_step (System s k ws) (System s k (<[t := Running]> ws))
| step_interrupt s k ws t c :
    ws !! t = Some (Asleep c) →
    sys_step (System s k ws) (System s k (<[t := Running]> ws))
| step_op s s' e k ws :
    wt_op s s' e →
    sys_step (System s k ws)
      (System s' (match e with NotifyLater => 1 + k | _ => k end)%nat ws)
| step_notify s k ws :
    sys_step (System s (1 + k) ws)
      (System (wt_set_ntf (notifier_notify (wt_ntf s)) s) k ws).

Definition sys_init (s0 : S) (y : system) : Prop :=
  sys_state y = s0 ∧ sys_pending y = 0%nat ∧
  ∀ t w, sys_waiters y !! t = Some w → w = Running.

Lemma sys_init_one s0 : sys_init s0 (System s0 0 {[0%nat := Running]}).
Proof. split; [done|]. split; [done|]. simpl. by intros t w [_ <-]%lookup_singleton_Some. Qed.

Definition waiter_ok (y : system) (w : waiter) : Prop :=
  match w with
  | Running => True
  | Took c => chan_known (wt_ntf (sys_state y)) c
  | Asleep c => chan_known (wt_ntf (sys_state y)) c ∧
      (is_Some (wt_try (sys_state y)) →
       chan_closed (wt_ntf (sys_state y)) c = true ∨ (0 < sys_pending y)%nat)
  end.

Definition sys_inv (y : system) : Prop :=
  ∀ t w, sys_waiters y !! t = Some w → waiter_ok y w.

(** What a change of the shared state must keep for a waiter it does not touch. *)
Lemma waiter_ok_mono s s' k k' ws ws' w :
  (∀ c, chan_known (wt_ntf s) c → chan_known (wt_ntf s') c) →
  (∀ c, chan_known (wt_ntf s) c →
    (is_Some (wt_try s) → chan_closed (wt_ntf s) c = true ∨ (0 < k)%nat) →
    is_Some (wt_try s') → chan_closed (wt_ntf s') c = true ∨ (0 < k')%nat) →
  waiter_ok (System s k ws) w → waiter_ok (System s' k' ws') w.
Proof.
  intros Hk Hc. destruct w as [|c|c]; simpl; [done|by apply Hk|].
  intros [??]. split; [by apply Hk|]. by apply Hc.
Qed.

Lemma known_after n c e : chan_known n c → chan_known (wt_after e n) c.
Proof. destruct e; simpl; auto. Qed.

Lemma sys_inv_step y y' : sys_inv y → sys_step y y' → sys_inv y'.
Proof.
  intros Hinv Hstep.
  destruct Hstep as [s k ws t Ht|s s' k ws t c Ht Htry|s k ws t c Ht Htry
                    |s k ws t c Ht Hc|s k ws t c Ht|s s' e k ws Hop|s k ws];
    intros t' w Hw; simpl in Hw.
  - apply lookup_insert_Some in Hw as [[<- <-]|[Hne Hw]]; simpl.
    + rewrite wt_ntf_set. by apply wait_known.
    + apply (waiter_ok_mono s _ k _ ws); [..|by apply (Hinv t')];
        intros c'; rewrite ?wt_ntf_set, ?wt_try_set; [apply known_wait|auto].
  - apply lookup_insert_Some in Hw as [[<- <-]|[Hne Hw]]; [done|].
    apply (waiter_ok_mono s _ k _ ws); [..|by apply (Hinv t')];
      destruct (wt_try_ntf s s' Htry) as [-> | ->]; auto.
  - apply lookup_insert_Some in Hw as [[<- <-]|[Hne Hw]].
    + pose proof (Hinv t _ Ht) as Hk. simpl in *. split; [done|].
      rewrite Htry. intros []%is_Some_None.
    + apply (waiter_ok_mono s _ k _ ws); [by auto..|by apply (Hinv t')].
  - apply lookup_insert_Some in Hw as [[<- <-]|[Hne Hw]]; [done|].
    apply (waiter_ok_mono s _ k _ ws); [by auto..|by apply (Hinv t')].
  - apply lookup_insert_Some in Hw as [[<- <-]|[Hne Hw]]; [done|].
    apply (waiter_ok_mono s _ k _ ws); [by auto..|by apply (Hinv t')].
  - apply (waiter_ok_mono s _ k _ ws); [..|by apply (Hinv t')];
      rewrite (wt_op_ntf s s' e Hop); [auto using known_after|].
    intros c Hc Hrd Hrd'. destruct (wt_try s) eqn:Htry.
    + destruct (Hrd (mk_is_Some _ _ eq_refl)) as [Hcl|Hp].
      * left. destruct e; simpl; auto.
      * right. destruct e; lia.
    + pose proof (wt_op_ready s s' e Hop Htry Hrd'). destruct e; [done| |].
      * left. simpl. auto.
      * right. lia.
  - apply (waiter_ok_mono s _ (1 + k) _ ws); [..|by apply (Hinv t')];
      intros c; rewrite !wt_ntf_set; auto.
Qed.

Lemma sys_inv_reachable s0 y : reachable (sys_init s0) sys_step y → sys_inv y.
Proof.
  apply reachable_inv.
  - intros y0 (_ & _ & Hw) t w Ht. by rewrite (Hw t w Ht).
  - intros y1 y2 _. apply sys_inv_step.
Qed.

(** The run used to show the theorem at work: one waiter goes to sleep in
    state [s1], then one operation is carried out. *)
Lemma one_sleeper s0 s1 s2 e :
  rtc (λ s s', wt_op s s' NotifyNow) s0 s1 →
  let s1' := wt_set_ntf (notifier_wait (wt_ntf s1)).2 s1 in
  let c := (notifier_wait (wt_ntf s1)).1 in
  wt_try s1' = None → wt_op s1' s2 e →
  reachable (sys_init s0) sys_step
    (System s2 (match e with NotifyLater => 1 | _ => 0 end)
       (<[0%nat := Asleep c]> (<[0%nat := Took c]> {[0%nat := Running]}))).
Proof.
  intros Hops s1' c Htry Hop. exists (System s0 0 {[0%nat := Running]}).
  split; [apply sys_init_one|].
  trans (System s1 0 {[0%nat := Running]}).
  { clear -H Hops. induction Hops as [s|s s' s'' Hs _ IH]; [apply rtc_refl|].
    eapply rtc_l; [by apply (step_op s s' NotifyNow)|]. exact IH. }
  eapply rtc_l; [by apply (step_take s1 0 {[0%nat := Running]} 0)|].
  eapply rtc_l; [by eapply (step_sleep s1' 0 _ 0 c); [apply lookup_insert_eq|]|].
  eapply rtc_l; [by apply (step_op s1' s2 e)|]. destruct e; apply rtc_refl.
Qed.

(** A sleeping waiter that could proceed has been woken, or the operation
    that made it able to proceed is about to wake it. *)
Lemma no_lost_wakeup s0 y t c :
  reachable (sys_init s0) sys_step y →
  sys_waiters y !! t = Some (Asleep c) → is_Some (wt_try (sys_state y)) →
  chan_closed (wt_ntf (sys_state y)) c = true ∨ (0 < sys_pending y)%nat.
Proof. intros Hr Hw. by destruct (sys_inv_reachable s0 y Hr t _ Hw). Qed.
End wakeup.
Arguments system : clear implicits.
Arguments sys_step {S _}.
Arguments sys_init {S}.
