(* ===== verification/Paths.v ===== *)
(** Slash-separated paths: what the repository uses of Go's [path] and
    [filepath] (on Unix), the kernel's mount table ([mountFor], [hostPath] of
    [src/internal/kernel/kernel.go]), the confinement of host directories
    ([src/internal/osfs/osfs.go]) and of the cluster unpacked into a data
    directory ([initDataDir] of [src/pgzero.go]). *)
From S2P Require Import Prelude.
From Stdlib Require Import Ascii.

Definition slash : ascii := "/"%char.

(** [strings.Split(s, "/")] and its inverse. *)
Fixpoint split_slash (s : string) : list string :=
  match s with
  | EmptyString => [""]
  | String c s =>
      if decide (c = slash) then "" :: split_slash s
      else match split_slash s with
           | h :: t => String c h :: t
           | [] => [String c ""]
           end
  end.

Fixpoint join_slash (l : list string) : string :=
  match l with
  | [] => ""
  | [x] => x
  | x :: l => x +:+ String slash (join_slash l)
  end.

Definition IsAbs (s : string) : bool :=
  match s with String c _ => bool_decide (c = slash) | EmptyString => false end.

(** [path.Clean]: [out] is the list of components kept so far, the last first. *)
Fixpoint clean_go (rooted : bool) (parts out : list string) : list string :=
  match parts with
  | [] => rev out
  | p :: parts =>
      if decide (p = "" ∨ p = ".") then clean_go rooted parts out
      else if decide (p = "..") then
        match out with
        | x :: out' =>
            if decide (x = "..") then clean_go rooted parts (".." :: out)
            else clean_go rooted parts out'
        | [] => clean_go rooted parts (if rooted then [] else [".."])
        end
      else clean_go rooted parts (p :: out)
  end.

Definition clean_parts (s : string) : list string := clean_go (IsAbs s) (split_slash s) [].

Definition Clean (s : string) : string :=
  if IsAbs s then String slash (join_slash (clean_parts s))
  else match clean_parts s with [] => "." | l => join_slash l end.

(** [path.Base]: the last component, trailing slashes aside. *)
Definition Base (s : string) : string :=
  if decide (s = "") then "."
  else match filter (λ p, p ≠ "") (split_slash s) with
       | [] => "/"
       | l => default "/" (last l)
       end.

Definition Join (l : list string) : string :=
  match filter (λ p, p ≠ "") l with [] => "" | l => Clean (join_slash l) end.

(** [strings.HasPrefix], [TrimPrefix] and [TrimSuffix]. *)
Fixpoint strip_prefix (p s : string) : option string :=
  match p, s with
  | EmptyString, _ => Some s
  | String a p, String b s => if decide (a = b) then strip_prefix p s else None
  | String _ _, EmptyString => None
  end.
Definition HasPrefix (s p : string) : bool := bool_decide (is_Some (strip_prefix p s)).
Definition TrimPrefix (s p : string) : string := default s (strip_prefix p s).

Fixpoint TrimSlash (s : string) : string := (* TrimSuffix(s, "/") *)
  match s with
  | EmptyString => ""
  | String c EmptyString => if decide (c = slash) then "" else s
  | String c s => String c (TrimSlash s)
  end.

(** ** Mounts *)
Record Mount := mkMount { GuestPath : string; HostPath : string; m_FS : bool }.

Definition mount_covers (guest : string) (m : Mount) : bool :=
  let mp := Clean (GuestPath m) in
  bool_decide (guest = mp) || HasPrefix guest (TrimSlash mp +:+ "/").

(** The longest match; of equally long ones, the first. *)
Fixpoint mount_best (guest : string) (best : option Mount) (l : list Mount) : option Mount :=
  match l with
  | [] => best
  | m :: l =>
      let best' :=
        if mount_covers guest m then
          match best with
          | None => Some m
          | Some b =>
              if bool_decide (String.length (Clean (GuestPath b)) < String.length (Clean (GuestPath m)))%nat
              then Some m else best
          end
        else best in
      mount_best guest best' l
  end.

Definition mountFor (mounts : list Mount) (guest : string) : option (Mount * string) :=
  let guest := Clean guest in
  match mount_best guest None mounts with
  | None => None
  | Some m => Some (m, TrimPrefix (TrimPrefix guest (Clean (GuestPath m))) "/")
  end.

Definition hostPath (mounts : list Mount) (guest : string) : option string :=
  match mountFor mounts guest with
  | None => None
  | Some (m, rel) => if decide (HostPath m = "") then None else Some (Join [HostPath m; rel])
  end.

(** ** Host directories: [File.resolve], [None] for [fs.ErrPermission] *)
Definition osfs_resolve (fpath name : string) : option string :=
  let clean := Clean name in
  if IsAbs clean || bool_decide (clean = "..") || HasPrefix clean "../" then None
  else Some (Join [fpath; clean]).

(** ** Where [initDataDir] writes an archive member; [None]: "bad path" *)
Definition init_target (dir name : string) : option string :=
  let target := Join [dir; name] in
  if HasPrefix target (Clean dir +:+ "/") then Some target else None.

(** * Lemmas *)
Fixpoint no_slash (s : string) : Prop :=
  match s with EmptyString => True | String c s => c ≠ slash ∧ no_slash s end.

(** A component that names an entry. *)
Definition normal (p : string) : Prop := p ≠ "" ∧ p ≠ "." ∧ p ≠ ".." ∧ no_slash p.

Lemma split_nonempty s : split_slash s ≠ [].
Proof. destruct s as [|c s]; simpl; [done|]. case_decide; [done|]. by destruct (split_slash s). Qed.

Lemma join_cons x l : l ≠ [] → join_slash (x :: l) = x +:+ String slash (join_slash l).
Proof. by destruct l. Qed.

Lemma join_split s : join_slash (split_slash s) = s.
Proof.
  induction s as [|c s IH]; [done|]. simpl. case_decide as Hc.
  - subst. rewrite join_cons by apply split_nonempty. by rewrite IH.
  - pose proof (split_nonempty s). destruct (split_slash s) as [|h t]; [done|].
    rewrite <- IH. by destruct t.
Qed.

Lemma split_no_slash s : Forall no_slash (split_slash s).
Proof.
  induction s as [|c s IH]; simpl; [by repeat constructor|]. case_decide; [by constructor|].
  pose proof (split_nonempty s). destruct (split_slash s) as [|h t]; [done|].
  inversion_clear IH. by constructor.
Qed.

Lemma append_nil_r x : x +:+ "" = x.
Proof.
  induction x as [|c x IH]; [done|]. change (String c (x +:+ "") = String c x). by rewrite IH.
Qed.

Lemma split_app x s : no_slash x →
  split_slash (x +:+ s) = match split_slash s with h :: t => (x +:+ h) :: t | [] => [] end.
Proof.
  induction x as [|c x IH]; simpl.
  - intros _. change ("" +:+ s) with s. pose proof (split_nonempty s). by destruct (split_slash s).
  - intros [Hc Hx]. rewrite decide_False by done.
    rewrite (IH Hx).
    pose proof (split_nonempty s). by destruct (split_slash s).
Qed.

Lemma split_cons x s : no_slash x → split_slash (x +:+ String slash s) = x :: split_slash s.
Proof.
  intros Hx. rewrite split_app by done. simpl. f_equal. apply append_nil_r.
Qed.

Lemma split_single x : no_slash x → split_slash x = [x].
Proof.
  induction x as [|c x IH]; [done|]. intros [Hc Hx]. simpl. rewrite decide_False by done.
  by rewrite (IH Hx).
Qed.

Lemma split_join l : l ≠ [] → Forall no_slash l → split_slash (join_slash l) = l.
Proof.
  induction l as [|x l IH]; [done|]. intros _ [Hx Hl]%Forall_cons.
  destruct l as [|y l]; [by apply split_single|].
  rewrite join_cons, split_cons by done. f_equal. by apply IH.
Qed.

Lemma split_app_slash a b : split_slash (a +:+ String slash b) = split_slash a ++ split_slash b.
Proof.
  induction a as [|c a IH]; [done|].
  change (split_slash (String c (a +:+ String slash b)) = split_slash (String c a) ++ split_slash b).
  simpl. rewrite IH. case_decide; [done|]. pose proof (split_nonempty a). by destruct (split_slash a).
Qed.

(** ** [Clean] *)
Lemma rev_replicate {A} n (x : A) : rev (replicate n x) = replicate n x.
Proof.
  induction n as [|n IH]; [done|]. simpl. rewrite IH. clear IH.
  induction n as [|n IH]; [done|]. simpl. by rewrite IH.
Qed.

Lemma clean_go_normal rooted parts out ups :
  Forall no_slash parts →
  (∃ ns, out = rev ns ++ replicate ups ".." ∧ Forall normal ns) → (rooted = true → ups = 0%nat) →
  ∃ ns k, clean_go rooted parts out = replicate k ".." ++ ns ∧ Forall normal ns ∧
    (rooted = true → k = 0%nat).
Proof.
  revert out ups. induction parts as [|p parts IH]; intros out ups Hp (ns & -> & Hns) Hups; simpl.
  - exists ns, ups. rewrite rev_app_distr, rev_involutive, rev_replicate. split_and!; done.
  - apply Forall_cons in Hp as [Hsl Hp]. case_decide as H1; [apply (IH _ ups); by eauto|].
    case_decide as H2.
    + destruct (rev ns) as [|x xs] eqn:E.
      * apply (f_equal (@rev string)) in E. rewrite rev_involutive in E. subst ns. simpl.
        destruct ups as [|u]; simpl.
        -- destruct rooted; [apply (IH _ 0%nat)|apply (IH _ 1%nat)]; try done; by exists [].
        -- apply (IH _ (S (S u))); [done|by exists []|].
           intros Hr. specialize (Hups Hr). done.
      * simpl. apply (f_equal (@rev string)) in E. rewrite rev_involutive in E. simpl in E. subst ns.
        apply Forall_app in Hns as [Hns Hx]. apply Forall_cons in Hx as [Hx _].
        rewrite decide_False by (by destruct Hx as (_ & _ & ? & _)).
        apply (IH _ ups); [done| |done]. exists (rev xs). by rewrite rev_involutive.
    + apply (IH _ ups); [done| |done]. exists (ns ++ [p]). rewrite rev_app_distr. simpl.
      split; [done|]. apply Forall_app. split; [done|]. apply Forall_singleton.
      unfold normal. split_and!; [by intros ->; apply H1; left|by intros ->; apply H1; right|done|done].
Qed.

Lemma clean_parts_spec s : ∃ k ns, clean_parts s = replicate k ".." ++ ns ∧ Forall normal ns ∧
  (IsAbs s = true → k = 0%nat).
Proof.
  destruct (clean_go_normal (IsAbs s) (split_slash s) [] 0 (split_no_slash s)) as (ns & k & ? & ? & ?);
    [by exists []|done|by exists k, ns].
Qed.

Lemma clean_go_normals rooted ns out : Forall normal ns → clean_go rooted ns out = rev out ++ ns.
Proof.
  revert out. induction ns as [|p ns IH]; intros out; simpl; [by rewrite app_nil_r|].
  intros [(H1 & H2 & H3 & _) Hns]%Forall_cons. rewrite decide_False by (by intros []).
  rewrite decide_False by done. rewrite IH by done. simpl. by rewrite <- app_assoc.
Qed.

Lemma clean_go_app rooted parts ns out :
  Forall normal ns → clean_go rooted (parts ++ ns) out = clean_go rooted parts out ++ ns.
Proof.
  intros Hns. revert out. induction parts as [|p parts IH]; intros out; simpl; [by apply clean_go_normals|].
  repeat case_decide; try apply IH. destruct out as [|x out]; [apply IH|]. case_decide; apply IH.
Qed.

Lemma clean_go_ups (u k : nat) ns :
  Forall normal ns → clean_go false (replicate k ".." ++ ns) (replicate u "..") = replicate (u + k) ".." ++ ns.
Proof.
  intros Hns. revert u. induction k as [|k IH]; intros u; simpl.
  - rewrite clean_go_normals by done. by rewrite rev_replicate, Nat.add_0_r.
  - specialize (IH (S u)). replace (u + S k)%nat with (S u + k)%nat by lia. rewrite <- IH.
    by destruct u as [|u].
Qed.

Lemma parts_no_slash k ns : Forall normal ns → Forall no_slash (replicate k ".." ++ ns).
Proof.
  intros Hns. apply Forall_app. split.
  - apply Forall_replicate. simpl. split_and!; done.
  - eapply Forall_impl; [done|]. by intros p (_ & _ & _ & ?).
Qed.

Lemma IsAbs_join l : (∀ p, p ∈ l → p ≠ "" ∧ no_slash p) → IsAbs (join_slash l) = false.
Proof.
  destruct l as [|p l]; [done|]. intros Hl. destruct (Hl p) as [Hp Hs]; [constructor|].
  destruct p as [|c p]; [done|]. destruct Hs as [Hc _].
  destruct l; simpl; by apply bool_decide_eq_false.
Qed.

Lemma IsAbs_parts k ns : Forall normal ns → IsAbs (join_slash (replicate k ".." ++ ns)) = false.
Proof.
  intros Hns. apply IsAbs_join. intros p [Hp|Hp]%elem_of_app.
  - apply elem_of_replicate in Hp as [-> _]. simpl. by split_and!.
  - rewrite Forall_forall in Hns. by destruct (Hns p Hp) as (? & _ & _ & ?).
Qed.

(** The components of a path and of its clean form are the same. *)
Lemma clean_parts_Clean s : clean_parts (Clean s) = clean_parts s ∧ IsAbs (Clean s) = IsAbs s.
Proof.
  destruct (clean_parts_spec s) as (k & ns & Hs & Hns & Hk). unfold Clean.
  destruct (IsAbs s) eqn:Habs.
  - rewrite Hs, (Hk eq_refl). simpl. split; [|done]. unfold clean_parts. simpl.
    destruct ns as [|n ns]; [done|].
    rewrite split_join by (done || by apply (parts_no_slash 0)).
    by rewrite clean_go_normals.
  - rewrite Hs. destruct (replicate k ".." ++ ns) as [|p l] eqn:E.
    + by rewrite <- E, (proj1 (app_nil _ _)) at 1 || done.
    + rewrite <- E. pose proof (IsAbs_parts k ns Hns) as Ha. split; [|done].
      unfold clean_parts. rewrite Ha, split_join by (congruence || by apply parts_no_slash).
      by apply (clean_go_ups 0).
Qed.

Lemma Clean_Clean s : Clean (Clean s) = Clean s.
Proof.
  destruct (clean_parts_Clean s) as [Hp Ha]. unfold Clean at 1. rewrite Hp, Ha. done.
Qed.

(** ** Prefixes *)
Lemma strip_prefix_Some p s r : strip_prefix p s = Some r ↔ s = p +:+ r.
Proof.
  revert s. induction p as [|a p IH]; intros s; simpl.
  - split; [by intros [= ->]|by intros ->].
  - destruct s as [|b s]; [done|]. case_decide as Hab.
    + subst. rewrite IH. split; [by intros ->|]. by intros [= ->].
    + split; [done|]. by intros [= ->].
Qed.

Lemma HasPrefix_true s p : HasPrefix s p = true ↔ ∃ r, s = p +:+ r.
Proof.
  unfold HasPrefix. rewrite bool_decide_eq_true. split.
  - intros [r Hr]. exists r. by apply strip_prefix_Some.
  - intros [r Hr]. exists r. by apply strip_prefix_Some.
Qed.

Lemma TrimPrefix_app p r : TrimPrefix (p +:+ r) p = r.
Proof. unfold TrimPrefix. by rewrite (proj2 (strip_prefix_Some p (p +:+ r) r) eq_refl). Qed.

Lemma append_assoc a b c : a +:+ (b +:+ c) = (a +:+ b) +:+ c.
Proof. induction a as [|x a IH]; [done|]. change (String x (a +:+ (b +:+ c)) = String x ((a +:+ b) +:+ c)). by rewrite IH. Qed.

Lemma TrimSlash_spec s : TrimSlash s = s ∨ s = TrimSlash s +:+ "/".
Proof.
  induction s as [|c s IH]; [by left|]. destruct s as [|d s].
  - simpl. case_decide; [right; by subst|by left].
  - change (TrimSlash (String c (String d s))) with (String c (TrimSlash (String d s))).
    destruct IH as [->|IH]; [by left|right].
    change (String c (String d s) = String c (TrimSlash (String d s) +:+ "/")). by rewrite <- IH.
Qed.

Lemma IsAbs_app a b : a ≠ "" → IsAbs (a +:+ b) = IsAbs a.
Proof. by destruct a. Qed.

(** The components of a clean path. *)
Lemma split_Clean s : split_slash (Clean s) =
  (if IsAbs s then [""] else []) ++
  match clean_parts s with [] => if IsAbs s then [""] else ["."] | l => l end.
Proof.
  destruct (clean_parts_spec s) as (k & ns & Hs & Hns & Hk).
  pose proof (parts_no_slash k ns Hns) as Hsl. rewrite <- Hs in Hsl.
  unfold Clean. destruct (IsAbs s) eqn:Ha.
  - simpl. destruct (clean_parts s) eqn:E; [done|]. by rewrite <- E in *; rewrite split_join by congruence.
  - destruct (clean_parts s) eqn:E; [done|]. rewrite <- E in *. by rewrite split_join by congruence.
Qed.

(** A clean path ends in a slash only if it is the root. *)
Lemma Clean_trailing s a : Clean s = a +:+ "/" → Clean s = "/".
Proof.
  intros H. pose proof (f_equal split_slash H) as Hs. rewrite split_Clean in Hs.
  change "/" with (String slash "") in Hs. rewrite split_app_slash in Hs.
  apply (f_equal last) in Hs. change (split_slash "") with [""] in Hs. rewrite last_snoc in Hs.
  destruct (clean_parts_spec s) as (k & ns & Hp & Hns & Hk). unfold Clean.
  destruct (clean_parts s) as [|p l] eqn:E; [by destruct (IsAbs s)|]. exfalso.
  rewrite last_app_cons in Hs. rewrite Hp in Hs. apply last_Some_elem_of in Hs.
  apply elem_of_app in Hs as [Hs%elem_of_replicate|Hs]; [by destruct Hs|].
  rewrite Forall_forall in Hns. by destruct (Hns _ Hs).
Qed.

Lemma Join_two a b : a ≠ "" →
  Join [a; b] = if decide (b = "") then Clean a else Clean (a +:+ String slash b).
Proof.
  intros Ha. unfold Join. rewrite !filter_cons, filter_nil. rewrite decide_True by done.
  destruct (decide (b = "")) as [->|Hb]; [by rewrite decide_False by (by intros H; apply H)|].
  by rewrite decide_True.
Qed.

Lemma join_normal_nonempty rel : rel ≠ [] → Forall normal rel → join_slash rel ≠ "".
Proof.
  destruct rel as [|p rel]; [done|]. intros _ [(Hp & _) _]%Forall_cons. destruct p; [done|]. by destruct rel.
Qed.

Lemma Join_normals a rel : a ≠ "" → Forall normal rel →
  clean_parts (Join [a; join_slash rel]) = clean_parts a ++ rel ∧ IsAbs (Join [a; join_slash rel]) = IsAbs a.
Proof.
  intros Ha Hrel. rewrite Join_two by done. destruct (decide (rel = [])) as [->|Hne].
  - rewrite decide_True by done. rewrite app_nil_r. apply clean_parts_Clean.
  - rewrite decide_False by (by apply join_normal_nonempty).
    destruct (clean_parts_Clean (a +:+ String slash (join_slash rel))) as [-> ->].
    unfold clean_parts. rewrite IsAbs_app by done. split; [|done].
    rewrite split_app_slash, split_join; [by apply clean_go_app|done|by apply (parts_no_slash 0)].
Qed.

Lemma TrimSlash_root mp : TrimSlash mp +:+ "/" = "/" → clean_parts mp = [].
Proof.
  intros Ht. assert (TrimSlash mp = "") as Hz.
  { destruct (TrimSlash mp) as [|c s]; [done|]. change (String c (s +:+ "/") = "/") in Ht.
    injection Ht as _ Ht. by destruct s. }
  destruct (TrimSlash_spec mp) as [Hm|Hm]; rewrite Hz in Hm; by subst mp || (rewrite Hm; done).
Qed.

(** The path relative to a mount that covers it. *)
Lemma mount_rel guest m : IsAbs guest = true → mount_covers (Clean guest) m = true →
  ∃ rel, Forall normal rel ∧
    TrimPrefix (TrimPrefix (Clean guest) (Clean (GuestPath m))) "/" = join_slash rel ∧
    clean_parts guest = clean_parts (GuestPath m) ++ rel.
Proof.
  intros Habs Hc. unfold mount_covers in Hc. set (mp := Clean (GuestPath m)) in *.
  destruct (clean_parts_spec guest) as (k & ns & Hp & Hns & Hk).
  rewrite (Hk Habs) in Hp. simpl in Hp.
  assert (clean_parts mp = clean_parts (GuestPath m)) as Hmp by (by destruct (clean_parts_Clean (GuestPath m))).
  apply orb_true_iff in Hc as [Heq%bool_decide_eq_true|(r & Hr)%HasPrefix_true].
  - exists []. split; [done|]. rewrite Heq, <- (append_nil_r mp) at 1. rewrite TrimPrefix_app.
    split; [done|]. rewrite app_nil_r, <- Hmp, <- Heq. symmetry. apply clean_parts_Clean.
  - pose proof (split_Clean guest) as Hs. rewrite Habs, Hp, Hr in Hs.
    rewrite <- append_assoc in Hs. change ("/" +:+ r) with (String slash r) in Hs.
    rewrite split_app_slash in Hs.
    assert (r = "" ∨ Forall normal (split_slash r)) as Hnr.
    { pose proof (split_nonempty (TrimSlash mp)). destruct (split_slash (TrimSlash mp)) as [|p l]; [done|].
      injection Hs as _ Hs. destruct ns as [|n ns].
      - left. apply app_singleton in Hs as [[_ Hs]|[_ Hs]]; [|by destruct (split_nonempty r)].
        by rewrite <- (join_split r), Hs.
      - right. rewrite <- Hs in Hns. by apply Forall_app in Hns as [_ ?]. }
    assert (TrimPrefix (TrimPrefix (Clean guest) mp) "/" = r) as Hrel.
    { rewrite Hr. destruct (TrimSlash_spec mp) as [->|Htr].
      - rewrite <- append_assoc, TrimPrefix_app. apply (TrimPrefix_app "/").
      - rewrite <- Htr. rewrite TrimPrefix_app. destruct r as [|c r]; [done|].
        unfold TrimPrefix. simpl. case_decide; [|done]. exfalso. subst c.
        destruct Hnr as [|Hnr]; [done|]. simpl in Hnr. apply Forall_cons in Hnr as [(? & _) _]. done. }
    rewrite Hrel.
    exists (if decide (r = "") then [] else split_slash r).
    destruct (decide (r = "")) as [->|Hne].
    + split; [done|]. split; [done|]. rewrite app_nil_r.
      pose proof (Clean_trailing guest (TrimSlash mp)) as H1. rewrite append_nil_r in Hr.
      specialize (H1 Hr). rewrite H1 in Hr. rewrite <- Hmp.
      assert (clean_parts guest = []) as ->.
      { destruct (clean_parts_Clean guest) as [<- _]. by rewrite H1. }
      symmetry. by apply (TrimSlash_root mp).
    + destruct Hnr as [|Hnr]; [done|]. split; [done|]. split; [by rewrite join_split|].
      destruct (clean_parts_Clean guest) as [<- Ha]. unfold clean_parts at 1. rewrite Ha, Habs, Hr.
      rewrite <- append_assoc. change ("/" +:+ r) with (String slash r).
      rewrite split_app_slash, clean_go_app by done. f_equal. rewrite <- Hmp.
      destruct (TrimSlash_spec mp) as [Htr|Htr].
      * rewrite Htr in *. unfold clean_parts. destruct (decide (mp = "")) as [->|Hmpne]; [done|].
        enough (IsAbs mp = true) as -> by done.
        rewrite Hr, <- append_assoc, IsAbs_app in Ha by done. congruence.
      * pose proof (Clean_trailing _ _ Htr) as H1. fold mp in H1. rewrite H1. done.
Qed.

Lemma mount_best_spec guest l best :
  (∀ b, best = Some b → mount_covers guest b = true) →
  match mount_best guest best l with
  | Some m => (m ∈ l ∨ best = Some m) ∧ mount_covers guest m = true ∧
      ∀ m', m' ∈ l ∨ best = Some m' → mount_covers guest m' = true →
        (String.length (Clean (GuestPath m')) <= String.length (Clean (GuestPath m)))%nat
  | None => best = None ∧ ∀ m', m' ∈ l → mount_covers guest m' = false
  end.
Proof.
  revert best. induction l as [|m l IH]; intros best Hb; simpl.
  - destruct best as [b|]; [|split; [done|by intros ? ?%not_elem_of_nil]].
    split; [by right|]. split; [by apply Hb|]. by intros m' [?%not_elem_of_nil|[= ->]].
  - set (best' := if mount_covers guest m then _ else best).
    assert (∀ b, best' = Some b → mount_covers guest b = true) as Hb'.
    { subst best'. intros b. destruct (mount_covers guest m) eqn:Hm; [|apply Hb].
      destruct best as [b0|]; [|by intros [= <-]]. case_bool_decide; [by intros [= <-]|apply Hb]. }
    specialize (IH best' Hb'). destruct (mount_best guest best' l) as [r|].
    + destruct IH as (Hin & Hr & Hmax). split_and!; [|done|].
      * destruct Hin as [?|Hin]; [left; by constructor|]. subst best'.
        destruct (mount_covers guest m); [|by right]. destruct best as [b0|].
        -- case_bool_decide; [|by right]. left. injection Hin as ->. constructor.
        -- left. injection Hin as ->. constructor.
      * intros m' Hm' Hc.
        assert (∀ x, best' = Some x → (String.length (Clean (GuestPath x)) <= String.length (Clean (GuestPath r)))%nat) as Hx.
        { intros x Hx. apply Hmax; [by right|by apply Hb']. }
        destruct Hm' as [Hm'|Hm'].
        -- apply elem_of_cons in Hm' as [->|Hm']; [|apply Hmax; [by left|done]].
           subst best'. rewrite Hc in Hx. destruct best as [b0|]; [|by apply Hx].
           case_bool_decide; [by apply Hx|]. specialize (Hx b0 eq_refl). lia.
        -- subst best'. subst best. destruct (mount_covers guest m); [|by apply Hx].
           case_bool_decide; [|by apply Hx]. specialize (Hx m eq_refl). lia.
    + destruct IH as [Hnone Hall]. subst best'. destruct (mount_covers guest m) eqn:Hm.
      * destruct best as [b0|]; [|done]. by case_bool_decide.
      * split; [done|]. intros m' [->|Hm']%elem_of_cons; [done|by apply Hall].
Qed.

(** * Properties *)

(** C20. A guest path reaches the host only below its mount: when [hostPath] maps an
    absolute guest path, the result is inside the host directory of a mount
    that covers the path, at the same relative place; no [..] in the guest's
    path leads out of the directory. *)
Theorem hostPath_confined mounts guest p :
  IsAbs guest = true → hostPath mounts guest = Some p →
  ∃ m rel, m ∈ mounts ∧ HostPath m ≠ "" ∧ Forall normal rel ∧
    clean_parts p = clean_parts (HostPath m) ++ rel ∧ IsAbs p = IsAbs (HostPath m) ∧
    clean_parts guest = clean_parts (GuestPath m) ++ rel.
Proof.
  intros Habs. unfold hostPath, mountFor.
  pose proof (mount_best_spec (Clean guest) mounts None ltac:(done)) as Hspec.
  destruct (mount_best (Clean guest) None mounts) as [m|]; [|done].
  destruct Hspec as ([Hin|?] & Hc & _); [|done].
  destruct (mount_rel guest m Habs Hc) as (rel & Hrel & -> & Hg).
  case_decide as Hh; [done|]. intros [= <-].
  destruct (Join_normals (HostPath m) rel Hh Hrel) as [Hp Ha]. exists m, rel. by split_and!.
Qed.

Lemma hostPath_confined_witness :
  hostPath [mkMount "/data" "/srv/pg" false; mkMount "/" "" true] "/data/x/../../data/./base/1" = Some "/srv/pg/base/1" ∧
  ∃ m rel, m ∈ [mkMount "/data" "/srv/pg" false; mkMount "/" "" true] ∧
    clean_parts "/srv/pg/base/1" = clean_parts (HostPath m) ++ rel.
Proof.
  assert (hostPath [mkMount "/data" "/srv/pg" false; mkMount "/" "" true] "/data/x/../../data/./base/1"
    = Some "/srv/pg/base/1") as E by reflexivity.
  split; [exact E|].
  destruct (hostPath_confined [mkMount "/data" "/srv/pg" false; mkMount "/" "" true]
    "/data/x/../../data/./base/1" "/srv/pg/base/1" eq_refl E) as (m & rel & Hm & _ & _ & Hp & _).
  exists m, rel. by split.
Defined.

(** A path is served by the most specific mount: [mountFor] finds a mount
    exactly when one covers the path, and no covering mount is longer. *)
Theorem mountFor_longest mounts guest :
  match mountFor mounts guest with
  | Some (m, _) => m ∈ mounts ∧ mount_covers (Clean guest) m = true ∧
      ∀ m', m' ∈ mounts → mount_covers (Clean guest) m' = true →
        (String.length (Clean (GuestPath m')) <= String.length (Clean (GuestPath m)))%nat
  | None => ∀ m', m' ∈ mounts → mount_covers (Clean guest) m' = false
  end.
Proof.
  unfold mountFor. pose proof (mount_best_spec (Clean guest) mounts None ltac:(done)) as Hspec.
  destruct (mount_best (Clean guest) None mounts) as [m|].
  - destruct Hspec as ([Hin|?] & Hc & Hmax); [|done]. split_and!; [done|done|]. intros m' Hm'.
    apply Hmax. by left.
  - by destruct Hspec.
Qed.

(** An open host directory confines the names resolved against it: a name that
    resolves stays below the directory, and the names refused are exactly the
    absolute ones and those that climb above it. *)
Theorem osfs_resolve_confined fpath name :
  fpath ≠ "" →
  match osfs_resolve fpath name with
  | Some p => ∃ rel, Forall normal rel ∧ clean_parts p = clean_parts fpath ++ rel ∧
                clean_parts name = rel ∧ IsAbs p = IsAbs fpath
  | None => IsAbs name = true ∨ ∃ l, clean_parts name = ".." :: l
  end.
Proof.
  intros Hf. unfold osfs_resolve.
  destruct (clean_parts_Clean name) as [Hp ->]. destruct (IsAbs name) eqn:Ha; [by left|]. simpl.
  destruct (clean_parts_spec name) as (k & ns & Hs & Hns & _).
  assert (Clean name = match clean_parts name with [] => "." | l => join_slash l end) as Hc.
  { unfold Clean. by rewrite Ha. }
  destruct k as [|k]; simpl in Hs.
  - assert (bool_decide (Clean name = "..") || HasPrefix (Clean name) "../" = false) as ->.
    { pose proof (split_Clean name) as Hsp. rewrite Ha, Hs in Hsp. simpl in Hsp.
      apply orb_false_iff. split.
      - apply bool_decide_eq_false. intros E. rewrite E in Hsp. change (split_slash "..") with [".."] in Hsp.
        destruct ns as [|n ns]; [done|]. injection Hsp as <- _. apply Forall_cons in Hns as [Hn _].
        by destruct Hn as (_ & _ & ? & _).
      - destruct (HasPrefix (Clean name) "../") eqn:Hpre; [|done].
        apply HasPrefix_true in Hpre as [r Hr]. rewrite Hr in Hsp.
        change ("../" +:+ r) with (".." +:+ String slash r) in Hsp. rewrite split_app_slash in Hsp.
        destruct ns as [|n ns]; [done|]. injection Hsp as <- _. apply Forall_cons in Hns as [Hn _].
        by destruct Hn as (_ & _ & ? & _). }
    exists ns. rewrite Hc, Hs. split; [done|]. split; [|split; [done|]].
    + destruct ns as [|n ns]; [|by apply Join_normals].
      rewrite Join_two by done. simpl. destruct (clean_parts_Clean (fpath +:+ String slash ".")) as [-> _].
      unfold clean_parts. rewrite IsAbs_app, split_app_slash by done.
      rewrite app_nil_r. generalize (@nil string). induction (split_slash fpath) as [|x l IH]; intros out; simpl; [done|].
      repeat case_decide; try apply IH. destruct out; [apply IH|]. case_decide; apply IH.
    + destruct ns as [|n ns]; [|by apply Join_normals].
      rewrite Join_two by done. simpl. destruct (clean_parts_Clean (fpath +:+ String slash ".")) as [_ ->].
      by apply IsAbs_app.
  - assert (bool_decide (Clean name = "..") || HasPrefix (Clean name) "../" = true) as ->.
    { rewrite Hc, Hs. apply orb_true_iff. destruct (replicate k ".." ++ ns) as [|x l].
      - left. by apply bool_decide_eq_true.
      - right. apply HasPrefix_true. by eexists. }
    right. by eexists.
Qed.

Lemma osfs_resolve_confined_witness :
  osfs_resolve "/srv/pg" "base/../../x" = None ∧ osfs_resolve "/srv/pg" "base/../x" = Some "/srv/pg/x" ∧
  ∃ rel, Forall normal rel ∧ clean_parts "/srv/pg/x" = clean_parts "/srv/pg" ++ rel.
Proof.
  split; [reflexivity|]. split; [reflexivity|].
  destruct (osfs_resolve_confined "/srv/pg" "base/../x" ltac:(done)) as (rel & Hr & Hp & _).
  exists rel. by split.
Defined.

Lemma join_slash_app d ds rel : rel ≠ [] →
  join_slash ((d :: ds) ++ rel) = (join_slash (d :: ds) +:+ "/") +:+ join_slash rel.
Proof.
  intros Hne. revert d. induction ds as [|e ds IH]; intros d.
  - simpl. destruct rel; [done|]. by rewrite <- append_assoc.
  - change ((d :: e :: ds) ++ rel) with (d :: (e :: ds) ++ rel).
    rewrite join_cons by done. rewrite IH.
    change (join_slash (d :: e :: ds)) with (d +:+ String slash (join_slash (e :: ds))).
    rewrite <- !append_assoc. done.
Qed.

(** Unpacking a cluster into a data directory accepts every member below the
    directory, except that it refuses all of them when the directory is the
    current directory or the root: the prefix it looks for, the clean
    directory and a slash, is then not a prefix of the member's path. *)
Theorem init_target_exact dir rel :
  dir ≠ "" → Forall normal rel → rel ≠ [] →
  init_target dir (join_slash rel) =
    if decide (Clean dir = "." ∨ Clean dir = "/") then None else Some (Join [dir; join_slash rel]).
Proof.
  intros Hd Hrel Hne. unfold init_target.
  destruct (Join_normals dir rel Hd Hrel) as [Hp Ha].
  assert (Clean (Join [dir; join_slash rel]) = Join [dir; join_slash rel]) as Hcl.
  { rewrite Join_two by done. case_decide; apply Clean_Clean. }
  set (target := Join [dir; join_slash rel]) in *.
  assert (target = (if IsAbs dir then "/" else "") +:+ join_slash (clean_parts dir ++ rel)) as Ht.
  { rewrite <- Hcl. unfold Clean. rewrite Ha, Hp. destruct (IsAbs dir); [done|].
    destruct (clean_parts dir ++ rel) as [|x l] eqn:E; [by apply app_nil in E as [_ ?]|done]. }
  destruct (clean_parts dir) as [|d ds] eqn:Hdp.
  - assert (Clean dir = if IsAbs dir then "/" else ".") as Hcd.
    { unfold Clean. by rewrite Hdp. }
    rewrite decide_True by (rewrite Hcd; destruct (IsAbs dir); [by right|by left]).
    destruct (HasPrefix target (Clean dir +:+ "/")) eqn:Hpre; [|done]. exfalso.
    apply HasPrefix_true in Hpre as [r Hr]. rewrite Ht, Hcd in Hr.
    destruct rel as [|x rel]; [done|]. apply Forall_cons in Hrel as [(Hx & Hdot & _ & Hsl) Hrel].
    assert (split_slash (join_slash (x :: rel)) = x :: rel) as Hsp.
    { apply split_join; [done|]. constructor; [done|]. by apply (parts_no_slash 0). }
    simpl app in Hr. destruct (IsAbs dir).
    + change ("/" +:+ join_slash (x :: rel)) with (String slash (join_slash (x :: rel))) in Hr.
      change (("/" +:+ "/") +:+ r) with (String slash (String slash r)) in Hr.
      assert (join_slash (x :: rel) = String slash r) as Hr' by congruence.
      rewrite Hr' in Hsp. simpl in Hsp. injection Hsp as Hsp _. by subst x.
    + change ("" +:+ join_slash (x :: rel)) with (join_slash (x :: rel)) in Hr.
      change (("." +:+ "/") +:+ r) with ("." +:+ String slash r) in Hr.
      rewrite Hr, split_app_slash in Hsp. simpl in Hsp. injection Hsp as Hsp _. by subst x.
  - rewrite decide_False.
    + assert (HasPrefix target (Clean dir +:+ "/") = true) as ->; [|done].
      apply HasPrefix_true. exists (join_slash rel). rewrite Ht. unfold Clean. rewrite Hdp.
      rewrite join_slash_app by done. by destruct (IsAbs dir).
    + pose proof (split_Clean dir) as Hsp. rewrite Hdp in Hsp.
      destruct (clean_parts_spec dir) as (k & ns & Hs & Hns & Hk). rewrite Hdp in Hs.
      assert (d ≠ "" ∧ d ≠ ".") as [Hd1 Hd2].
      { destruct k; simpl in Hs.
        - destruct ns as [|n ns]; [done|]. injection Hs as -> _. apply Forall_cons in Hns as [Hn _].
          by destruct Hn as (? & ? & _).
        - by injection Hs as -> _. }
      intros [E|E]; rewrite E in Hsp; destruct (IsAbs dir); simpl in Hsp; congruence.
Qed.

Lemma init_target_exact_witness :
  init_target "." "base/1" = None ∧ init_target "pgdata" "base/1" = Some "pgdata/base/1" ∧
  init_target "." (join_slash ["PG_VERSION"]) = None.
Proof.
  split; [reflexivity|]. split; [reflexivity|].
  rewrite (init_target_exact "." ["PG_VERSION"]); [reflexivity|done| |done].
  apply Forall_singleton. by split_and!.
Defined.
