(* ===== verification/Vmem.v ===== *)
(** Linear memories with shared overlays ([src/internal/vmem/vmem.go]).

    The operating system's memory management ([mmap], [mprotect], temporary
    files) is not part of the repository: [HostMMU] is what the code calls and
    [HostMMULaws] the documented behaviour it relies on, stated through the
    [cell] a virtual address is backed by.  [Sim] is a small concrete instance
    that satisfies the laws; the witnesses run on it. *)
From S2P Require Import Prelude.

(** A byte of storage: private to an address space, or of a shared segment. *)
Inductive cell := Priv (asid addr : Z) | Shared (seg off : Z).
#[export] Instance cell_eq_dec : EqDecision cell.
Proof. solve_decision. Defined.
#[export] Instance cell_countable : Countable cell.
Proof.
  refine (inj_countable' (λ c, match c with Priv a b => inl (a, b) | Shared a b => inr (a, b) end)
            (λ s, match s with inl (a, b) => Priv a b | inr (a, b) => Shared a b end) _).
  by intros [].
Defined.

Class HostMMU (OS : Type) := {
  os_cell : OS → Z → Z → option cell;     (* what backs an address; [None]: no access *)
  os_byte : OS → cell → Z;
  os_poke : cell → Z → OS → OS;
  os_reserve : Z → OS → option (Z * OS);  (* mmap PROT_NONE; returns the address space *)
  os_mprotect : Z → Z → Z → OS → option OS;        (* space, first, end: read-write *)
  os_map_shared : Z → Z → Z → Z → OS → option OS;  (* space, segment, addr, length; MAP_FIXED *)
  os_map_anon : Z → Z → Z → OS → option OS;        (* space, addr, length; MAP_FIXED *)
  os_munmap : Z → OS → OS;
  os_tmpfile : OS → option (Z * OS);
  os_ftruncate : Z → Z → OS → option OS;
  os_map_view : Z → Z → OS → option OS;
  os_close : Z → OS → OS;
}.

Class HostMMULaws (OS : Type) `{HostMMU OS} := {
  os_cell_poke o c v p a : os_cell (os_poke c v o) p a = os_cell o p a;
  os_byte_poke o c v c' :
    os_byte (os_poke c v o) c' = if decide (c = c') then v else os_byte o c';
  os_reserve_spec n o p o' : os_reserve n o = Some (p, o') →
    (∀ a, os_cell o' p a = None) ∧ (∀ a, os_byte o' (Priv p a) = 0) ∧
    ∀ q a, q ≠ p → os_cell o' q a = os_cell o q a;
  os_mprotect_cell p lo hi o o' q a : os_mprotect p lo hi o = Some o' →
    os_cell o' q a = if decide (q = p ∧ lo ≤ a < hi ∧ os_cell o p a = None)
                     then Some (Priv p a) else os_cell o q a;
  os_mprotect_byte p lo hi o o' c : os_mprotect p lo hi o = Some o' → os_byte o' c = os_byte o c;
  os_map_shared_cell p s x n o o' q a : os_map_shared p s x n o = Some o' →
    os_cell o' q a = if decide (q = p ∧ x ≤ a < x + n) then Some (Shared s (a - x))
                     else os_cell o q a;
  os_map_shared_byte p s x n o o' c : os_map_shared p s x n o = Some o' → os_byte o' c = os_byte o c;
  os_map_anon_cell p x n o o' q a : os_map_anon p x n o = Some o' →
    os_cell o' q a = if decide (q = p ∧ x ≤ a < x + n) then Some (Priv p a)
                     else os_cell o q a;
  os_map_anon_byte p x n o o' c : os_map_anon p x n o = Some o' →
    os_byte o' c = match c with
                   | Priv q a => if decide (q = p ∧ x ≤ a < x + n) then 0 else os_byte o c
                   | Shared _ _ => os_byte o c
                   end;
  os_close_cell s o p a : os_cell (os_close s o) p a = os_cell o p a;
  os_close_byte s o c : os_byte (os_close s o) c = os_byte o c;
}.

Definition PageSize : Z := 65536.

(** [(n + PageSize - 1) &^ (PageSize - 1)] on [uint64]. *)
Definition alignUp (n : Z) : Z := Z.ldiff (u64 (n + PageSize - 1)) (PageSize - 1).

(** [m_buf] is the address space and the length of the reservation, [None]
    once it has been freed. *)
Record memory := Memory {
  m_buf : option (Z * Z);
  m_committed : Z;
  m_size : Z;
}.
#[export] Instance eta_memory : Eta memory := λ r,
  {| m_buf := m_buf r; m_committed := m_committed r; m_size := m_size r |}.

Definition m_space (m : memory) : Z := match m_buf m with Some (p, _) => p | None => 0 end.
Definition m_reserved (m : memory) : Z := match m_buf m with Some (_, n) => n | None => 0 end.

Record vsegment := VSegment { seg_f : Z; seg_size : Z }.

Inductive map_result (OS : Type) :=
| MapOk (o : OS)
| MapErr       (* an error is returned *)
| MapPanic.    (* an index is out of range *)
Arguments MapOk {OS}. Arguments MapErr {OS}. Arguments MapPanic {OS}.

Section vmem.
Context {OS : Type} `{HostMMU OS}.

Definition Reserve (max : Z) (o : OS) : option (memory * OS) :=
  let max := if max =? 0 then PageSize else max in
  let max := alignUp max in
  match os_reserve max o with
  | None => None
  | Some (p, o') => Some (Memory (Some (p, max)) 0 0, o')
  end.

(** The slice [m.buf[:size]] is its length; [None] is the nil slice. *)
Definition Reallocate (size : Z) (m : memory) (o : OS) : option Z * memory * OS :=
  if m_reserved m <? size then (None, m, o)
  else
    let want := alignUp size in
    if m_committed m <? want then
      match os_mprotect (m_space m) (m_committed m) want o with
      | None => (None, m, o)
      | Some o' => (Some size, m <| m_committed := want |> <| m_size := size |>, o')
      end
    else (Some size, m <| m_size := size |>, o).

(** [Slice] returns the range [addr, end) of guest memory. *)
Definition Slice (addr n : Z) (m : memory) : option (Z * Z) :=
  let e := addr + n in
  if m_size m <? e then None else Some (addr, e).

Definition Uint64Ptr (addr : Z) (m : memory) : option Z :=
  if negb (addr mod 8 =? 0) || (m_size m <? addr + 8) then None else Some addr.

Definition Free (m : memory) (o : OS) : memory * OS :=
  match m_buf m with
  | Some (p, _) => (Memory None 0 0, os_munmap p o)
  | None => (m, o)
  end.

(** What the WebAssembly runtime is given: a memory, or [failedMemory], from which
    no memory ever comes.  [Allocator] also says which memory [onAlloc], when it
    is not nil, is called with. *)
Inductive linearMemory := LMemory (m : memory) | LFailed.

Definition Allocator (onAlloc : bool) (max : Z) (o : OS) : linearMemory * option memory * OS :=
  match Reserve max o with
  | None => (LFailed, None, o)
  | Some (m, o) => (LMemory m, if onAlloc then Some m else None, o)
  end.

Definition lm_Reallocate (size : Z) (l : linearMemory) (o : OS) : option Z * linearMemory * OS :=
  match l with
  | LMemory m => let '(r, m, o) := Reallocate size m o in (r, LMemory m, o)
  | LFailed => (None, LFailed, o)
  end.

Definition lm_Free (l : linearMemory) (o : OS) : linearMemory * OS :=
  match l with
  | LMemory m => let '(m, o) := Free m o in (LMemory m, o)
  | LFailed => (LFailed, o)
  end.

Definition MapRange (addr : Z) (seg : vsegment) (length : Z) (m : memory) (o : OS) : map_result OS :=
  if negb (addr mod PageSize =? 0) || negb (length mod PageSize =? 0) || (length =? 0)
  then MapErr
  else if seg_size seg <? length then MapErr
  else
    let e := u64 (addr + length) in
    if m_committed m <? e then MapErr
    else if m_reserved m <=? addr then MapPanic
    else match os_map_shared (m_space m) (seg_f seg) addr length o with
         | None => MapErr
         | Some o' => MapOk o'
         end.

Definition Map (addr : Z) (seg : vsegment) (m : memory) (o : OS) : map_result OS :=
  MapRange addr seg (seg_size seg) m o.

Definition Unmap (addr length : Z) (m : memory) (o : OS) : map_result OS :=
  if negb (addr mod PageSize =? 0) || negb (length mod PageSize =? 0) then MapErr
  else if m_committed m <? u64 (addr + length) then MapErr
  else if m_reserved m <=? addr then MapPanic
  else match os_map_anon (m_space m) addr length o with
       | None => MapErr
       | Some o' => MapOk o'
       end.

(** Creates and sizes a temporary file and maps the host's view of it; the
    file is closed again when a step fails. *)
Definition NewSegment (size : Z) (o : OS) : option vsegment * OS :=
  let size := alignUp size in
  match os_tmpfile o with
  | None => (None, o)
  | Some (f, o1) =>
      match os_ftruncate f size o1 with
      | None => (None, os_close f o1)
      | Some o2 =>
          match os_map_view f size o2 with
          | None => (None, os_close f o2)
          | Some o3 => (Some (VSegment f size), o3)
          end
      end
  end.

Definition Segment_Close (s : vsegment) (o : OS) : OS := os_close (seg_f s) o.

(** ** Reading and writing guest memory through a slice *)
Definition load (o : OS) (m : memory) (a : Z) : Z :=
  match os_cell o (m_space m) a with Some c => os_byte o c | None => 0 end.
Definition store (m : memory) (a v : Z) (o : OS) : OS :=
  match os_cell o (m_space m) a with Some c => os_poke c v o | None => o end.

Definition mem_read (o : OS) (m : memory) (addr n : Z) : bytes :=
  (λ i, load o m (addr + Z.of_nat i)) <$> seq 0 (Z.to_nat n).
Fixpoint mem_write (m : memory) (addr : Z) (b : bytes) (o : OS) : OS :=
  match b with
  | [] => o
  | v :: b' => mem_write m (addr + 1) b' (store m addr v o)
  end.
End vmem.

(** * Lemmas *)
Lemma alignUp_spec n : 0 ≤ n → n + PageSize ≤ 2 ^ 64 →
  n ≤ alignUp n < n + PageSize ∧ (PageSize | alignUp n).
Proof.
  intros Hn Hb. unfold alignUp, PageSize in *.
  change (65536 - 1) with (Z.ones 16).
  rewrite wrapU_small by (split; [lia|]; change (Z.ones 16) with 65535 in *; lia).
  rewrite Z.ldiff_ones_r, Z.shiftl_mul_pow2, Z.shiftr_div_pow2 by lia.
  change (2 ^ 16) with 65536.
  pose proof (Z.div_mod (n + 65536 - 1) 65536 ltac:(lia)).
  pose proof (Z.mod_pos_bound (n + 65536 - 1) 65536 ltac:(lia)).
  split; [lia|]. by exists ((n + 65536 - 1) / 65536).
Qed.

Lemma alignUp_aligned n : (PageSize | n) → 0 ≤ n → n + PageSize ≤ 2 ^ 64 → alignUp n = n.
Proof.
  intros [k ->] Hn Hb. destruct (alignUp_spec (k * PageSize) Hn Hb) as [Hle [j Hj]].
  rewrite Hj in *. unfold PageSize in *. nia.
Qed.

Section vmem_laws.
Context {OS : Type} `{HostMMULaws OS}.

(** Private storage is reachable only through its own address. *)
Definition os_wf (o : OS) : Prop :=
  ∀ q a p x, os_cell o q a = Some (Priv p x) → p = q ∧ x = a.

Record mem_wf (m : memory) : Prop := {
  wf_size : 0 ≤ m_size m ≤ m_committed m;
  wf_committed : m_committed m ≤ m_reserved m;
  wf_reserved : m_reserved m ≤ 2 ^ 48;
  wf_page : (PageSize | m_committed m);
  wf_page_res : (PageSize | m_reserved m);
}.

(** Everything below [m_committed] is accessible, nothing above it is, and
    what is not yet accessible will read as zero. *)
Record mem_ok (o : OS) (m : memory) : Prop := {
  ok_wf : mem_wf m;
  ok_live : is_Some (m_buf m);
  ok_cells a : 0 ≤ a < m_committed m → is_Some (os_cell o (m_space m) a);
  ok_none a : m_committed m ≤ a → os_cell o (m_space m) a = None;
  ok_zero a : m_committed m ≤ a → os_byte o (Priv (m_space m) a) = 0;
}.

Lemma Reserve_ok max o m o' :
  0 ≤ max ≤ 2 ^ 47 → Reserve max o = Some (m, o') → mem_ok o' m ∧ m_size m = 0.
Proof.
  unfold Reserve. intros Hm HR.
  set (mx := if max =? 0 then PageSize else max) in *.
  assert (0 < mx ≤ 2 ^ 47) as Hmx by (subst mx; unfold PageSize; zcase; lia).
  destruct (alignUp_spec mx ltac:(lia) ltac:(unfold PageSize; lia)) as [Ha Hd].
  destruct (os_reserve (alignUp mx) o) as [[p o2]|] eqn:E; simplify_eq.
  destruct (os_reserve_spec _ _ _ _ E) as (Hc & Hz & _).
  split; [|done]. unfold PageSize in *.
  split; simpl; [|by eexists|lia|by intros; apply Hc|by intros; apply Hz].
  split; unfold m_reserved; simpl; [lia|lia|lia|apply Z.divide_0_r|done].
Qed.

(** Growing never moves the memory and keeps every byte; the new range reads
    as zero. *)
Lemma Reallocate_spec size m o r m' o' :
  mem_ok o m → m_size m ≤ size < 2 ^ 47 →
  Reallocate size m o = (r, m', o') →
  mem_ok o' m' ∧ m_buf m' = m_buf m ∧ m_committed m ≤ m_committed m' ∧
  (∀ a, 0 ≤ a < m_committed m → os_cell o' (m_space m) a = os_cell o (m_space m) a) ∧
  (∀ q a, q ≠ m_space m → os_cell o' q a = os_cell o q a) ∧
  (∀ c, os_byte o' c = os_byte o c) ∧
  (∀ a, m_committed m ≤ a < m_committed m' → load o' m' a = 0) ∧
  (∀ n, r = Some n → n = size ∧ m_size m' = size) ∧
  (r = None → m' = m ∧ o' = o).
Proof.
  intros Hok Hsz. unfold Reallocate. destruct Hok as [[Hs Hc Hr Hp Hpr] Hl Hcells Hnone Hz].
  zcase.
  { intros [= <- <- <-]. split_and!; try done; lia. }
  destruct (alignUp_spec size ltac:(lia) ltac:(unfold PageSize; lia)) as [Ha Hd].
  assert (alignUp size ≤ m_reserved m) as Hres.
  { destruct Hd as [k Hk], Hpr as [j Hj]. rewrite Hk, Hj in *. unfold PageSize in *. nia. }
  zcase.
  - destruct (os_mprotect (m_space m) (m_committed m) (alignUp size) o) as [o2|] eqn:E.
    2: { intros [= <- <- <-]. split_and!; try done; lia. }
    intros [= <- <- <-].
    pose proof (λ q a, os_mprotect_cell _ _ _ _ _ q a E) as Hcell.
    pose proof (λ c, os_mprotect_byte _ _ _ _ _ c E) as Hbyte.
    assert (∀ a, m_committed m ≤ a < alignUp size →
      os_cell o2 (m_space m) a = Some (Priv (m_space m) a)) as Hnew.
    { intros a Ha'. rewrite Hcell, decide_True; [done|].
      split; [done|]. split; [lia|]. apply Hnone. lia. }
    assert (∀ a, 0 ≤ a < m_committed m →
      os_cell o2 (m_space m) a = os_cell o (m_space m) a) as Hold.
    { intros a Ha'. rewrite Hcell, decide_False; [done|]. lia. }
    split; [|split_and!; simpl; try done; try lia].
    + split; simpl; [split; simpl; try done; lia|done|..]; intros a Ha'.
      * destruct (decide (a < m_committed m)).
        { change (is_Some (os_cell o2 (m_space m) a)). rewrite Hold by lia. apply Hcells. lia. }
        change (is_Some (os_cell o2 (m_space m) a)). rewrite Hnew by lia. eauto.
      * change (os_cell o2 (m_space m) a = None).
        rewrite Hcell, decide_False by lia. apply Hnone. lia.
      * change (os_byte o2 (Priv (m_space m) a) = 0). rewrite Hbyte. apply Hz. lia.
    + intros q a Hq. rewrite Hcell, decide_False; [done|]. by intros [].
    + intros a Ha'. unfold load. change (m_space _) with (m_space m).
      rewrite Hnew, Hbyte by lia. apply Hz. lia.
    + intros n [= <-]. done.
  - intros [= <- <- <-]. split_and!; simpl; try done; try lia.
    + split; simpl; [split; simpl; try done; lia|done|exact Hcells|exact Hnone|exact Hz].
    + intros n [= <-]. done.
Qed.

Lemma Slice_spec o m addr n a e :
  mem_ok o m → 0 ≤ addr → 0 ≤ n → Slice addr n m = Some (a, e) →
  a = addr ∧ e = addr + n ∧ e ≤ m_size m ∧
  ∀ x, a ≤ x < e → is_Some (os_cell o (m_space m) x).
Proof.
  intros Hok Ha Hn. unfold Slice. zcase; [done|]. intros [= <- <-].
  split_and!; try done; try lia.
  intros x Hx. apply (ok_cells _ _ Hok). pose proof (wf_size _ (ok_wf _ _ Hok)). lia.
Qed.

Lemma MapRange_no_panic addr seg n m o :
  mem_wf m → 0 ≤ addr < 2 ^ 63 → 0 ≤ n < 2 ^ 63 → MapRange addr seg n m o ≠ MapPanic.
Proof.
  intros [Hs Hc Hr Hp Hpr] Ha Hn. unfold MapRange.
  destruct (_ || _) eqn:E; [done|]. apply orb_false_iff in E as [_ E].
  rewrite (wrapU_small 64) by lia. zcases; try done; try lia.
  by destruct (os_map_shared _ _ _ _ _).
Qed.

(** What [MapRange] does when it succeeds. *)
Lemma MapRange_ok addr seg n m o o' :
  0 ≤ addr < 2 ^ 63 → 0 ≤ n < 2 ^ 63 →
  MapRange addr seg n m o = MapOk o' →
  os_map_shared (m_space m) (seg_f seg) addr n o = Some o' ∧
  (PageSize | addr) ∧ (PageSize | n) ∧ 0 < n ≤ seg_size seg ∧ addr + n ≤ m_committed m.
Proof.
  intros Ha Hn. unfold MapRange.
  destruct (Z.eqb_spec (addr mod PageSize) 0); [|done].
  destruct (Z.eqb_spec (n mod PageSize) 0); [|done].
  rewrite (wrapU_small 64) by lia. simpl. zcases; try done.
  destruct (os_map_shared _ _ _ _ _) eqn:E; [|done]. intros [= ->].
  split_and!; try done; try lia; by apply Z.mod_divide.
Qed.

Lemma Unmap_ok addr n m o o' :
  0 ≤ addr < 2 ^ 63 → 0 ≤ n < 2 ^ 63 →
  Unmap addr n m o = MapOk o' →
  os_map_anon (m_space m) addr n o = Some o' ∧
  (PageSize | addr) ∧ (PageSize | n) ∧ addr + n ≤ m_committed m.
Proof.
  intros Ha Hn. unfold Unmap.
  destruct (Z.eqb_spec (addr mod PageSize) 0); [|done].
  destruct (Z.eqb_spec (n mod PageSize) 0); [|done].
  rewrite (wrapU_small 64) by lia. simpl. zcases; try done.
  destruct (os_map_anon _ _ _ _) eqn:E; [|done]. intros [= ->].
  split_and!; try done; try lia; by apply Z.mod_divide.
Qed.

(** The invariant of a memory survives every operation on it and on the
    other memories of the machine. *)
Lemma mem_ok_other o o' m :
  mem_ok o m →
  (∀ a, is_Some (os_cell o' (m_space m) a) ↔ is_Some (os_cell o (m_space m) a)) →
  (∀ a, m_committed m ≤ a →
     os_byte o' (Priv (m_space m) a) = os_byte o (Priv (m_space m) a)) →
  mem_ok o' m.
Proof.
  intros [Hw Hl Hc Hn Hz] Hcell Hbyte. split; try done.
  - intros a Ha. apply Hcell. by apply Hc.
  - intros a Ha. apply eq_None_not_Some. rewrite Hcell.
    apply eq_None_not_Some. by apply Hn.
  - intros a Ha. rewrite Hbyte by done. by apply Hz.
Qed.

Lemma mem_ok_store o m m' a v : os_wf o → mem_ok o m → mem_ok (store m' a v o) m.
Proof.
  intros Hwf Hok. unfold store. destruct (os_cell o (m_space m') a) as [c|] eqn:E; [|done].
  apply (mem_ok_other o); [done|by intros; rewrite os_cell_poke|].
  intros x Hx. rewrite os_byte_poke. case_decide as Hc; [|done]. subst c.
  destruct (Hwf _ _ _ _ E) as [Hp ->]. rewrite <- Hp in E.
  by rewrite (ok_none _ _ Hok a Hx) in E.
Qed.

Lemma mem_ok_map addr seg n m m' o o' :
  0 ≤ addr < 2 ^ 63 → 0 ≤ n < 2 ^ 63 → mem_ok o m → mem_ok o m' →
  (m_space m' = m_space m → m' = m) →
  MapRange addr seg n m' o = MapOk o' → mem_ok o' m.
Proof.
  intros Ha Hn Hok Hok' Hsame HM.
  destruct (MapRange_ok addr seg n m' o o' Ha Hn HM) as (E & _ & _ & _ & Hb).
  apply (mem_ok_other o); [done|..].
  - intros a. rewrite (os_map_shared_cell _ _ _ _ _ _ _ _ E). case_decide as Hd; [|done].
    destruct Hd as [Hq Hd]. rewrite (Hsame (eq_sym Hq)) in *.
    split; [|by eauto]. intros _. apply (ok_cells _ _ Hok). lia.
  - intros a _. by rewrite (os_map_shared_byte _ _ _ _ _ _ _ E).
Qed.
End vmem_laws.

(** * A concrete machine *)
Module Sim.
Inductive target := Anon | Seg (s : Z).
Record vmap := VMap { vm_space : Z; vm_lo : Z; vm_hi : Z; vm_target : target }.
(** [sim_maps]: the mappings, the newest first.  Every call fails while
    [sim_fail] is set. *)
Record sim := SimOS {
  sim_next : Z; sim_maps : list vmap; sim_mem : gmap cell Z; sim_fail : bool }.
#[global] Instance eta_sim : Eta sim := λ r,
  {| sim_next := sim_next r; sim_maps := sim_maps r; sim_mem := sim_mem r; sim_fail := sim_fail r |}.

Definition boot : sim := SimOS 1 [] ∅ false.

Definition covers (p a : Z) (v : vmap) : bool :=
  (vm_space v =? p) && (vm_lo v <=? a) && (a <? vm_hi v).

Fixpoint find_cell (p a : Z) (l : list vmap) : option cell :=
  match l with
  | [] => None
  | v :: l' =>
      if covers p a v then
        Some (match vm_target v with Anon => Priv p a | Seg s => Shared s (a - vm_lo v) end)
      else find_cell p a l'
  end.

Definition stale (p lo hi : Z) (c : cell) : bool :=
  match c with Priv q a => (q =? p) && (lo <=? a) && (a <? hi) | Shared _ _ => false end.

Definition get_byte (m : gmap cell Z) (c : cell) : Z :=
  match m !! c with Some v => v | None => 0 end.
Definition clear_bytes (f : cell → bool) (m : gmap cell Z) : gmap cell Z :=
  filter (λ kv, f kv.1 = false) m.
Definition unless_fail {A} (o : sim) (x : A) : option A :=
  if sim_fail o then None else Some x.

#[global] Instance sim_mmu : HostMMU sim := {
  os_cell o p a := find_cell p a (sim_maps o);
  os_byte o c := get_byte (sim_mem o) c;
  os_poke c v o := o <| sim_mem ::= <[c := v]> |>;
  os_reserve n o := unless_fail o
    (sim_next o, o <| sim_next ::= Z.succ |>
       <| sim_maps ::= filter (λ v, vm_space v ≠ sim_next o) |>
       <| sim_mem ::= clear_bytes (λ c, match c with Priv q _ => q =? sim_next o | _ => false end) |>);
  os_mprotect p lo hi o := unless_fail o (o <| sim_maps ::= λ l, l ++ [VMap p lo hi Anon] |>);
  os_map_shared p s x n o := unless_fail o (o <| sim_maps ::= λ l, VMap p x (x + n) (Seg s) :: l |>);
  os_map_anon p x n o := unless_fail o
    (o <| sim_maps ::= λ l, VMap p x (x + n) Anon :: l |>
       <| sim_mem ::= clear_bytes (stale p x (x + n)) |>);
  os_munmap p o := o <| sim_maps ::= filter (λ v, vm_space v ≠ p) |>;
  os_tmpfile o := unless_fail o (sim_next o, o <| sim_next ::= Z.succ |>);
  os_ftruncate f n o := unless_fail o o;
  os_map_view f n o := unless_fail o o;
  os_close f o := o;
}.

Lemma find_cell_app p a l k :
  find_cell p a (l ++ k) =
    match find_cell p a l with Some c => Some c | None => find_cell p a k end.
Proof. induction l as [|v l IH]; [done|]. simpl. by destruct (covers p a v). Qed.

Lemma find_cell_filter p q a l :
  q ≠ p → find_cell q a (filter (λ v, vm_space v ≠ p) l) = find_cell q a l.
Proof.
  intros Hq. induction l as [|v l IH]; [done|]. rewrite filter_cons.
  case_decide as Hv; simpl; [by rewrite IH|].
  unfold covers. destruct (Z.eqb_spec (vm_space v) q); [|done]. simpl.
  congruence.
Qed.

Lemma find_cell_gone p a l : find_cell p a (filter (λ v, vm_space v ≠ p) l) = None.
Proof.
  induction l as [|v l IH]; [done|]. rewrite filter_cons.
  case_decide as Hv; simpl; [|done]. unfold covers.
  destruct (Z.eqb_spec (vm_space v) p); [done|]. done.
Qed.

Lemma get_byte_clear f m c :
  get_byte (clear_bytes f m) c = if f c then 0 else get_byte m c.
Proof.
  unfold get_byte, clear_bytes. rewrite map_lookup_filter.
  destruct (m !! c) as [v|]; simpl; [|by destruct (f c)].
  case_guard as Hf; simpl; [by rewrite Hf|]. by destruct (f c).
Qed.

Lemma unless_fail_Some {A} o (x y : A) : unless_fail o x = Some y → x = y.
Proof. unfold unless_fail. destruct (sim_fail o); congruence. Qed.

#[global] Instance sim_laws : HostMMULaws sim.
Proof.
  split.
  - done.
  - intros o c v c'. simpl. unfold get_byte. rewrite lookup_insert. by case_decide.
  - intros n o p o' [= <- <-]%unless_fail_Some. simpl. split_and!.
    + intros a. apply find_cell_gone.
    + intros a. rewrite get_byte_clear. by rewrite Z.eqb_refl.
    + intros q a Hq. by apply find_cell_filter.
  - intros p lo hi o o' q a <-%unless_fail_Some. simpl. rewrite find_cell_app. simpl.
    destruct (find_cell q a (sim_maps o)) eqn:E.
    + rewrite decide_False; [done|]. intros (-> & _ & E2). congruence.
    + unfold covers. simpl. case_decide as Hd.
      * destruct Hd as (-> & Hd & _). zcases; try lia. done.
      * zcases; try done. exfalso. apply Hd. subst. done.
  - by intros p lo hi o o' c <-%unless_fail_Some.
  - intros p s x n o o' q a <-%unless_fail_Some. simpl. unfold covers. simpl.
    case_decide; zcases; try done; lia.
  - by intros p s x n o o' c <-%unless_fail_Some.
  - intros p x n o o' q a <-%unless_fail_Some. simpl. unfold covers. simpl.
    case_decide; zcases; try lia; try done; subst; done.
  - intros p x n o o' c <-%unless_fail_Some. simpl. rewrite get_byte_clear.
    destruct c as [q a|]; simpl; [|done]. case_decide; zcases; done || lia.
  - done.
  - done.
Qed.
End Sim.

(** * Properties *)
Section vmem_properties.
Context {OS : Type} `{HostMMULaws OS}.

Lemma os_wf_map o o' p s x n : os_wf o → os_map_shared p s x n o = Some o' → os_wf o'.
Proof.
  intros Hwf E q a p' y. rewrite (os_map_shared_cell _ _ _ _ _ _ _ _ E).
  case_decide; [done|apply Hwf].
Qed.

Lemma os_wf_anon o o' p x n : os_wf o → os_map_anon p x n o = Some o' → os_wf o'.
Proof.
  intros Hwf E q a p' y. rewrite (os_map_anon_cell _ _ _ _ _ _ _ E).
  case_decide as Hd; [|apply Hwf]. destruct Hd as [-> _]. by intros [= <- <-].
Qed.

Lemma mapped_cell addr seg n m o o' off :
  0 ≤ addr < 2 ^ 63 → 0 ≤ n < 2 ^ 63 → 0 ≤ off < n →
  MapRange addr seg n m o = MapOk o' →
  os_cell o' (m_space m) (addr + off) = Some (Shared (seg_f seg) off).
Proof.
  intros Ha Hn Hoff HM. destruct (MapRange_ok _ _ _ _ _ _ Ha Hn HM) as (E & _).
  rewrite (os_map_shared_cell _ _ _ _ _ _ _ _ E), decide_True by lia.
  do 2 f_equal. lia.
Qed.

(** A memory of the allocator is empty and well formed, so that all that is said
    of memories holds of it, and it is the one reported; when the reservation
    failed, growing gives nothing and nothing is reported. *)
Lemma Allocator_ok onAlloc max (o : OS) l r o' : 0 ≤ max < 2 ^ 47 → Allocator onAlloc max o = (l, r, o') →
  match l with
  | LMemory m => mem_ok o' m ∧ m_size m = 0 ∧ (onAlloc = true → r = Some m)
  | LFailed => r = None ∧ o' = o ∧ ∀ size o, (lm_Reallocate size l o).1.1 = None
  end.
Proof.
  intros Hmax. unfold Allocator. destruct (Reserve max o) as [[m o1]|] eqn:E; intros [= <- <- <-]; [|done].
  destruct (Reserve_ok max o m o1 ltac:(lia) E) as [Hok Hz]. split_and!; [done..|by intros ->].
Qed.

(** C9. Growing a linear memory (Reallocate) keeps its base and every byte the
    guest could see, and exposes zeroed memory: the guest never loses data
    or reads another process's data by growing. *)
Theorem grow_keeps_memory size m (o : OS) n m' o' :
  mem_ok o m → m_size m ≤ size < 2 ^ 47 →
  Reallocate size m o = (Some n, m', o') →
  m_buf m' = m_buf m ∧ n = size ∧ m_size m' = size ∧ mem_ok o' m' ∧
  (∀ a, 0 ≤ a < m_size m → load o' m' a = load o m a) ∧
  (∀ a, m_committed m ≤ a < size → load o' m' a = 0).
Proof.
  intros Hok Hsz HR.
  destruct (Reallocate_spec _ _ _ _ _ _ Hok Hsz HR) as (Hok' & Hb & Hc & Hcell & _ & Hby & Hz & Hn & _).
  destruct (Hn n eq_refl) as [-> Hs]. split_and!; try done.
  - intros a Ha. unfold load, m_space in *. rewrite Hb.
    pose proof (wf_size _ (ok_wf _ _ Hok)). rewrite Hcell by lia.
    destruct (os_cell o _ a); [apply Hby|done].
  - intros a Ha. apply Hz. pose proof (wf_size _ (ok_wf _ _ Hok')). lia.
Qed.

(** A slice handed to a host call lies inside accessible memory: every address
    of it is backed by storage, so reading or writing it cannot fault. *)
Theorem slice_in_bounds (o : OS) m addr n a e :
  mem_ok o m → 0 ≤ addr < 2 ^ 32 → 0 ≤ n < 2 ^ 32 →
  Slice addr n m = Some (a, e) →
  a = addr ∧ e = addr + n ∧ ∀ x, a ≤ x < e → is_Some (os_cell o (m_space m) x).
Proof.
  intros Hok Ha Hn HS.
  destruct (Slice_spec o m addr n a e Hok ltac:(lia) ltac:(lia) HS) as (? & ? & _ & ?). done.
Qed.

(** Shared memory is genuinely shared: once a segment is mapped into two
    memories, at whatever addresses, a byte written through one mapping is
    the byte read at the same offset through the other. *)
Theorem shared_mapping_coherent (o o1 o2 : OS) m1 m2 seg a1 a2 n1 n2 off v :
  m_space m1 ≠ m_space m2 →
  0 ≤ a1 < 2 ^ 63 → 0 ≤ n1 < 2 ^ 63 → 0 ≤ a2 < 2 ^ 63 → 0 ≤ n2 < 2 ^ 63 →
  MapRange a1 seg n1 m1 o = MapOk o1 → MapRange a2 seg n2 m2 o1 = MapOk o2 →
  0 ≤ off < Z.min n1 n2 →
  load (store m1 (a1 + off) v o2) m2 (a2 + off) = v ∧
  load o2 m1 (a1 + off) = load o2 m2 (a2 + off).
Proof.
  intros Hne Ha1 Hn1 Ha2 Hn2 HM1 HM2 Hoff.
  pose proof (mapped_cell a1 seg n1 m1 o o1 off Ha1 Hn1 ltac:(lia) HM1) as C1.
  pose proof (mapped_cell a2 seg n2 m2 o1 o2 off Ha2 Hn2 ltac:(lia) HM2) as C2.
  assert (os_cell o2 (m_space m1) (a1 + off) = Some (Shared (seg_f seg) off)) as C1'.
  { destruct (MapRange_ok _ _ _ _ _ _ Ha2 Hn2 HM2) as (E & _).
    rewrite (os_map_shared_cell _ _ _ _ _ _ _ _ E), decide_False; [done|]. by intros []. }
  unfold load, store. rewrite C1', os_cell_poke, C2.
  rewrite os_byte_poke, decide_True by done. done.
Qed.

(** Unmapping gives private zeroed memory again: the range reads as zero, and
    what is written there is seen by no other process, while every byte
    outside the range is as before. *)
Theorem unmap_is_private (o o' : OS) m m2 addr n off v x :
  os_wf o → m_space m2 ≠ m_space m → 0 ≤ addr < 2 ^ 63 → 0 ≤ n < 2 ^ 63 →
  Unmap addr n m o = MapOk o' → 0 ≤ off < n → ¬ (addr ≤ x < addr + n) →
  load o' m (addr + off) = 0 ∧ load o' m x = load o m x ∧
  load (store m (addr + off) v o') m2 x = load o m2 x.
Proof.
  intros Hwf Hne Ha Hn HU Hoff Hx. destruct (Unmap_ok _ _ _ _ _ Ha Hn HU) as (E & _).
  pose proof (λ q a, os_map_anon_cell _ _ _ _ _ q a E) as C.
  pose proof (λ c, os_map_anon_byte _ _ _ _ _ c E) as B.
  assert (os_cell o' (m_space m) (addr + off) = Some (Priv (m_space m) (addr + off))) as Cp.
  { by rewrite C, decide_True by lia. }
  assert (∀ q c, ¬ (q = m_space m ∧ addr ≤ x < addr + n) → os_cell o q x = Some c →
    os_byte o' c = os_byte o c) as Hbyte.
  { intros q [p y|s y] Hq Hc; rewrite B; [|done]. rewrite decide_False; [done|].
    intros [Hp Hy]. destruct (Hwf _ _ _ _ Hc) as [Hp' ->]. apply Hq. split; [congruence|done]. }
  split_and!.
  - unfold load. rewrite Cp, B, decide_True by lia. done.
  - unfold load. rewrite C, decide_False by lia.
    destruct (os_cell o (m_space m) x) as [c|] eqn:Hc; [|done]. apply (Hbyte (m_space m)); [lia|done].
  - unfold store. rewrite Cp. unfold load. rewrite os_cell_poke, C, decide_False by (by intros []).
    destruct (os_cell o (m_space m2) x) as [c|] eqn:Hc; [|done].
    rewrite os_byte_poke, decide_False; [apply (Hbyte (m_space m2)); [by intros []|done]|].
    intros <-. by destruct (Hwf _ _ _ _ Hc).
Qed.
End vmem_properties.

(** ** The properties at work on the concrete machine *)
Definition demo_boot : memory * Sim.sim :=
  match Reserve (4 * PageSize) Sim.boot with
  | Some (m, o) => let '(_, m', o') := Reallocate (2 * PageSize) m o in (m', o')
  | None => (Memory None 0 0, Sim.boot)
  end.

Lemma demo_boot_ok : mem_ok demo_boot.2 demo_boot.1.
Proof.
  destruct (Reserve (4 * PageSize) Sim.boot) as [[m o]|] eqn:E; [|done].
  destruct (Reserve_ok (4 * PageSize) _ _ _ ltac:(unfold PageSize; lia) E) as [Hok Hs].
  unfold demo_boot. rewrite E. destruct (Reallocate (2 * PageSize) m o) as [[r m'] o'] eqn:E2.
  eapply (Reallocate_spec _ _ _ _ _ _ Hok); [|exact E2]. rewrite Hs. unfold PageSize. lia.
Qed.

Lemma sim_os_wf (o : Sim.sim) : os_wf o.
Proof.
  intros q a p x. simpl. induction (Sim.sim_maps o) as [|v l IH]; [done|]. simpl.
  destruct (Sim.covers q a v); [|done]. by destruct (Sim.vm_target v) as [|s]; intros [=].
Qed.

Lemma grow_keeps_memory_witness :
  let '(r, m', o') := Reallocate (3 * PageSize) demo_boot.1 demo_boot.2 in
  r = Some (3 * PageSize) ∧ m_size m' = 3 * PageSize ∧
  ∀ a, 2 * PageSize ≤ a < 3 * PageSize → load o' m' a = 0.
Proof.
  destruct (Reallocate (3 * PageSize) demo_boot.1 demo_boot.2) as [[r m'] o'] eqn:E.
  assert (r = Some (3 * PageSize)) as -> by (vm_compute in E; injection E as <- _ _; reflexivity).
  destruct (grow_keeps_memory (3 * PageSize) _ _ _ _ _ demo_boot_ok ltac:(by vm_compute) E)
    as (_ & _ & Hs & _ & _ & Hz).
  split; [done|]. split; [exact Hs|]. intros a Ha. apply Hz. exact Ha.
Defined.

Lemma slice_in_bounds_witness :
  Slice 65530 16 demo_boot.1 = Some (65530, 65546) ∧
  ∀ x, 65530 ≤ x < 65546 → is_Some (os_cell demo_boot.2 (m_space demo_boot.1) x).
Proof.
  split; [reflexivity|].
  apply (slice_in_bounds demo_boot.2 demo_boot.1 65530 16); [exact demo_boot_ok|lia|lia|reflexivity].
Defined.

(** Two processes with one segment mapped at different addresses. *)
Definition demo_two : option (memory * memory * vsegment * Sim.sim) :=
  let '(m1, o) := demo_boot in
  match Reserve (4 * PageSize) o with
  | Some (m2, o) =>
      let '(_, m2, o) := Reallocate (4 * PageSize) m2 o in
      match NewSegment 100 o with
      | (Some s, o) => Some (m1, m2, s, o)
      | (None, o) => None
      end
  | None => None
  end.

Lemma shared_mapping_coherent_witness :
  ∃ m1 m2 s o o1 o2, demo_two = Some (m1, m2, s, o) ∧
  MapRange PageSize s PageSize m1 o = MapOk o1 ∧ MapRange 0 s PageSize m2 o1 = MapOk o2 ∧
  load (store m1 (PageSize + 7) 42 o2) m2 (0 + 7) = 42.
Proof.
  do 6 eexists. split; [vm_compute; reflexivity|].
  match goal with |- ?P ∧ ?Q ∧ _ => assert (P ∧ Q) as [H1 H2] by (split; vm_compute; reflexivity) end.
  split; [exact H1|]. split; [exact H2|].
  eapply (shared_mapping_coherent _ _ _ _ _ _ PageSize 0 PageSize PageSize 7 42); [..|exact H1|exact H2|];
    unfold PageSize; try lia. done.
Defined.

Lemma unmap_is_private_witness :
  ∃ o', Unmap 0 PageSize demo_boot.1 demo_boot.2 = MapOk o' ∧ load o' demo_boot.1 (0 + 3) = 0.
Proof.
  eexists. split; [vm_compute; reflexivity|].
  eapply (unmap_is_private demo_boot.2 _ demo_boot.1 (Memory (Some (7, 0)) 0 0) 0 PageSize 3 0 PageSize);
    [apply sim_os_wf|done| | |vm_compute; reflexivity|..]; unfold PageSize; lia.
Defined.
