(* ===== verification/GuestMem.v ===== *)
(** The guest memory helpers of the host ([src/internal/kernel/host.go]):
    32-bit words, 64-bit words, NUL-terminated strings and NULL-terminated
    string arrays, read and written through [Vmem.Slice]. *)
From S2P Require Import Prelude Abi Bytes Vmem.

Section guest.
Context {OS : Type} `{HostMMU OS}.

Definition readU32 (o : OS) (m : memory) (addr : Z) : option Z :=
  match Slice addr 4 m with
  | None => None
  | Some (a, _) => Some (le_val (mem_read o m a 4))
  end.

Definition writeU32 (m : memory) (addr v : Z) (o : OS) : bool * OS :=
  match Slice addr 4 m with
  | None => (false, o)
  | Some (a, _) => (true, mem_write m a (le_bytes 4 v) o)
  end.

(** The atomic 64-bit accesses through a [*uint64] into guest memory. *)
Definition load64 (o : OS) (m : memory) (a : Z) : Z := le_val (mem_read o m a 8).
Definition store64 (m : memory) (a v : Z) (o : OS) : OS := mem_write m a (le_bytes 8 v) o.

(** The loop of [cstring] from offset [n] on, [fuel] offsets left. *)
Fixpoint cstring_from (o : OS) (m : memory) (addr n : Z) (fuel : nat) : option string :=
  match fuel with
  | O => None
  | S fuel' =>
      match Slice (u32 (addr + n)) 1 m with
      | None => None
      | Some (a, _) =>
          if load o m a =? 0
          then Some (string_of_bytes
                       match Slice addr n m with Some (s, _) => mem_read o m s n | None => [] end)
          else cstring_from o m addr (n + 1) fuel'
      end
  end.
Definition cstring (o : OS) (m : memory) (addr : Z) : option string :=
  cstring_from o m addr 0 (Z.to_nat (Z.shiftl 1 16)).

(** [strings] reads a NULL-terminated [char*[]]; [None] stands for a loop that
    has not ended within [fuel] entries, [Some None] for a failed read. *)
Fixpoint strings_from (o : OS) (m : memory) (addr i : Z) (fuel : nat) : option (option (list string)) :=
  match fuel with
  | O => None
  | S fuel' =>
      match readU32 o m (u32 (addr + 4 * i)) with
      | None => Some None
      | Some ptr =>
          if ptr =? 0 then Some (Some [])
          else match cstring o m ptr with
               | None => Some None
               | Some s =>
                   match strings_from o m addr (u32 (i + 1)) fuel' with
                   | Some (Some l) => Some (Some (s :: l))
                   | r => r
                   end
               end
      end
  end.
Definition strings (o : OS) (m : memory) (addr : Z) (fuel : nat) : option (option (list string)) :=
  strings_from o m addr 0 fuel.
End guest.

(** * Lemmas about private guest memory *)
Section guest_laws.
Context {OS : Type} `{HostMMULaws OS}.

(** An address backed by its own private byte, as everything the guest has not
    overlaid with shared memory is. *)
Definition priv_at (o : OS) (m : memory) (x : Z) : Prop :=
  os_cell o (m_space m) x = Some (Priv (m_space m) x).
Definition priv_range (o : OS) (m : memory) (a n : Z) : Prop :=
  ∀ x, a ≤ x < a + n → priv_at o m x.

Lemma store_cell m a v (o : OS) p x : os_cell (store m a v o) p x = os_cell o p x.
Proof. unfold store. destruct (os_cell o _ a); [apply os_cell_poke|done]. Qed.

Lemma mem_write_cell m a b (o : OS) p x : os_cell (mem_write m a b o) p x = os_cell o p x.
Proof.
  revert a o. induction b as [|v b IH]; intros a o; simpl; [done|].
  by rewrite IH, store_cell.
Qed.

Lemma load_store o m a v x : priv_at o m a → priv_at o m x →
  load (store m a v o) m x = if decide (a = x) then v else load o m x.
Proof.
  unfold priv_at. intros Ha Hx. unfold load, store. rewrite Ha, os_cell_poke, Hx, os_byte_poke.
  repeat case_decide; congruence.
Qed.

Lemma load_mem_write o m a b x : priv_range o m a (zlen b) → priv_at o m x →
  load (mem_write m a b o) m x =
    match znth b (x - a) with Some v => v | None => load o m x end.
Proof.
  revert a o. induction b as [|v b IH]; intros a o Hr Hx; simpl.
  { unfold znth. by zcase. }
  rewrite zlen_cons in Hr. pose proof (zlen_nonneg b).
  assert (priv_at o m a) as Hpa by (apply Hr; lia).
  rewrite IH.
  2: { intros y Hy. unfold priv_at. rewrite store_cell. apply Hr. lia. }
  2: { unfold priv_at. by rewrite store_cell. }
  unfold znth. zcases; try lia.
  - rewrite load_store by done. by rewrite decide_False by lia.
  - replace (x - a) with 0 by lia. simpl. rewrite load_store by done.
    by rewrite decide_True by lia.
  - replace (Z.to_nat (x - a)) with (S (Z.to_nat (x - (a + 1)))) by lia. simpl.
    destruct (b !! _); [done|]. rewrite load_store by done. by rewrite decide_False by lia.
Qed.

Lemma mem_read_write o m a b : priv_range o m a (zlen b) →
  mem_read (mem_write m a b o) m a (zlen b) = b.
Proof.
  intros Hr. apply list_eq. intros i. unfold mem_read.
  rewrite list_lookup_fmap. unfold zlen. rewrite Nat2Z.id.
  destruct (decide (i < length b)%nat) as [Hi|Hi].
  - rewrite (proj2 (lookup_seq _ _ i i)) by lia. simpl.
    rewrite load_mem_write; [|done|].
    + unfold znth. zcase; [lia|]. replace (Z.to_nat _) with i by lia.
      by destruct (lookup_lt_is_Some_2 b i Hi) as [v ->].
    + apply Hr. unfold zlen. lia.
  - rewrite (lookup_ge_None_2 b) by lia. rewrite lookup_ge_None_2; [done|].
    rewrite length_seq. lia.
Qed.

Lemma mem_read_other o m a b x n :
  priv_range o m a (zlen b) → priv_range o m x n → x + n ≤ a ∨ a + zlen b ≤ x →
  mem_read (mem_write m a b o) m x n = mem_read o m x n.
Proof.
  intros Hr Hx Hd. unfold mem_read. apply list_fmap_ext. intros i y Hi.
  apply lookup_seq in Hi as [-> Hi]. rewrite load_mem_write; [|done|apply Hx; lia].
  unfold znth. zcase; [done|]. rewrite lookup_ge_None_2; [done|]. unfold zlen in *. lia.
Qed.

Lemma load64_store64 o m a v : priv_range o m a 8 → 0 ≤ v < 2 ^ 64 →
  load64 (store64 m a v o) m a = v.
Proof.
  intros Hr Hv. unfold load64, store64.
  assert (zlen (le_bytes 8 v) = 8) as Hl by (unfold zlen; by rewrite length_le_bytes).
  rewrite <- Hl at 1. rewrite mem_read_write by (by rewrite Hl).
  rewrite le_val_bytes. by apply Z.mod_small.
Qed.

Lemma load64_store64_other o m a v x :
  priv_range o m a 8 → priv_range o m x 8 → x + 8 ≤ a ∨ a + 8 ≤ x →
  load64 (store64 m a v o) m x = load64 o m x.
Proof.
  intros Ha Hx Hd. unfold load64, store64. rewrite mem_read_other; try done;
    unfold zlen; by rewrite length_le_bytes.
Qed.

Lemma readU32_writeU32 o m addr v o' :
  priv_range o m addr 4 → 0 ≤ v < 2 ^ 32 → writeU32 m addr v o = (true, o') →
  readU32 o' m addr = Some v.
Proof.
  intros Hr Hv. unfold writeU32, readU32. unfold Slice.
  destruct (Z.ltb_spec (m_size m) (addr + 4)); [done|]. intros Hw.
  apply (f_equal snd) in Hw. cbn [snd] in Hw. subst o'. f_equal.
  pose proof (mem_read_write o m addr (le_bytes 4 v) Hr) as Hrw.
  change (zlen (le_bytes 4 v)) with 4 in Hrw. rewrite Hrw.
  rewrite le_val_bytes. by apply Z.mod_small.
Qed.

(** What is read from a string in memory: the bytes up to the first NUL. *)
Lemma cstring_from_spec o m addr b n fuel :
  0 ≤ addr → 0 ≤ n →
  (∀ i v, b !! i = Some v → load o m (addr + n + Z.of_nat i) = v ∧ v ≠ 0) →
  load o m (addr + n + zlen b) = 0 →
  addr + n + zlen b < m_size m → m_size m ≤ 2 ^ 32 → (length b < fuel)%nat →
  cstring_from o m addr n fuel = Some (string_of_bytes (mem_read o m addr (n + zlen b))).
Proof.
  revert n fuel. induction b as [|v b IH]; intros n fuel Ha Hn Hb Hz Hsz H32 Hf;
    (destruct fuel as [|fuel]; [simpl in Hf; lia|]); simpl.
  - change (zlen []) with 0 in *. rewrite !Z.add_0_r in *.
    rewrite (wrapU_small 32) by lia. unfold Slice. zcase; [lia|]. rewrite Hz.
    simpl. zcase; [lia|]. done.
  - rewrite zlen_cons in *. pose proof (zlen_nonneg b).
    destruct (Hb 0%nat v eq_refl) as [Hv Hv0]. rewrite Z.add_0_r in Hv.
    rewrite (wrapU_small 32) by lia. unfold Slice at 1. zcase; [lia|].
    rewrite Hv. destruct (Z.eqb_spec v 0); [done|].
    replace (n + (1 + zlen b)) with (n + 1 + zlen b) by lia.
    apply IH; try lia; try done.
    + intros i w Hi. destruct (Hb (S i) w Hi) as [Hw Hw0]. split; [|done].
      rewrite <- Hw. f_equal. lia.
    + rewrite <- Hz. f_equal. lia.
Qed.
End guest_laws.

#[global] Arguments mem_write : simpl never.
#[global] Arguments mem_read : simpl never.
#[global] Arguments load64 : simpl never.
#[global] Arguments store64 : simpl never.

(** The memory of [Vmem.demo_boot] is private and holds bytes. *)
Lemma demo_private x : 0 ≤ x < 2 * PageSize → priv_at demo_boot.2 demo_boot.1 x.
Proof.
  intros Hx. unfold priv_at.
  change (Sim.find_cell 1 x [Sim.VMap 1 0 (2 * PageSize) Sim.Anon] = Some (Priv 1 x)).
  simpl. unfold Sim.covers. simpl. zcases; done || lia.
Qed.
Lemma demo_bytes x : 0 ≤ os_byte demo_boot.2 (Priv (m_space demo_boot.1) x) < 256.
Proof. change (0 ≤ Sim.get_byte ∅ (Priv 1 x) < 256). unfold Sim.get_byte. by rewrite lookup_empty. Qed.
