(* ===== verification/Signals.v ===== *)
(** Signals and blocking ([src/internal/kernel/process.go]): the signal state of
    a process, the control block it shares with the guest, and
    [Process.block], the wait every blocking host call ends in.

    [Signal] is its two steps in the code's order: the pending bit is set under
    the lock ([signal_post]), then a token is put into the one-place channel
    [sigWake] ([signal_token]); other goroutines may run in between. *)
From S2P Require Import Prelude Abi Bytes Vmem GuestMem.

(** How a blocked call ends, and how a host call unwinds the guest. *)
Inductive wakeReason := woken | interrupted | timedOut | killed.
Inductive unwind := errExit | errKilled.
#[export] Instance wakeReason_eq_dec : EqDecision wakeReason.
Proof. solve_decision. Defined.

(** [sg_ctl] is [sigPending], the address of the control block once it has
    been registered; [sg_wake] holds when the channel [sigWake] has its token;
    [sg_killed] when the process's context is cancelled. *)
Record sigstate := SigState {
  sg_ctl : option Z;
  sg_early : Z;
  sg_wake : bool;
  sg_killed : bool;
}.
#[export] Instance eta_sigstate : Eta sigstate := λ r,
  {| sg_ctl := sg_ctl r; sg_early := sg_early r; sg_wake := sg_wake r; sg_killed := sg_killed r |}.

Definition new_sigstate : sigstate := SigState None 0 false false.

(** [1 << sig] on [uint64]. *)
Definition sigbit (sig : Z) : Z := u64 (Z.shiftl 1 sig).

Section signals.
Context {OS : Type} `{HostMMU OS}.

Definition signal_post (m : memory) (sig : Z) (sg : sigstate) (o : OS) : sigstate * OS :=
  match sg_ctl sg with
  | Some a => (sg, store64 m a (Z.lor (load64 o m a) (sigbit sig)) o)
  | None => (sg <| sg_early ::= λ e, Z.lor e (sigbit sig) |>, o)
  end.
Definition signal_token (sg : sigstate) : sigstate := sg <| sg_wake := true |>.
Definition signal_cancel (sg : sigstate) : sigstate := sg <| sg_killed := true |>.

Definition Signal (m : memory) (sig : Z) (sg : sigstate) (o : OS) : sigstate * OS :=
  if sig =? SIGKILL then (signal_cancel sg, o)
  else let '(sg1, o1) := signal_post m sig sg o in (signal_token sg1, o1).

Definition stopSignals (sg : sigstate) : sigstate := sg <| sg_ctl := None |>.

Definition registerSignals (m : memory) (addr : Z) (sg : sigstate) (o : OS) : Z * sigstate * OS :=
  match Uint64Ptr addr m with
  | None => (- EFAULT, sg, o)
  | Some a =>
      match Slice addr SizeofSigblock m with
      | None => (- EFAULT, sg, o)
      | Some _ =>
          (0, sg <| sg_ctl := Some a |> <| sg_early := 0 |>,
           store64 m a (Z.lor (load64 o m a) (sg_early sg)) o)
      end
  end.

(** The words of the control block: pending, blocked, ignored. *)
Definition ctl_mask (o : OS) (m : memory) (a : Z) : Z :=
  Z.ldiff (Z.ldiff (load64 o m a) (load64 o m (a + 8))) (load64 o m (a + 16)).

Definition is_interrupted (m : memory) (sg : sigstate) (o : OS) : bool :=
  match sg_ctl sg with
  | None => negb (sg_early sg =? 0)
  | Some a => negb (ctl_mask o m a =? 0)
  end.

(** ** block *)

(** The tests at the top of the loop of [block]. *)
Definition block_check (m : memory) (sg : sigstate) (o : OS) : option wakeReason :=
  if sg_killed sg then Some killed
  else if is_interrupted m sg o then Some interrupted
  else None.

(** What the select does once case [i] has been chosen; [None] goes round the
    loop again. *)
Definition block_case (i : Z) (sg : sigstate) : option wakeReason * sigstate :=
  if i =? 0 then (Some killed, sg)
  else if i =? 1 then (None, sg <| sg_wake := false |>)
  else if i =? 2 then (Some timedOut, sg)
  else (Some woken, sg).

(** A run of [block]: each element of the schedule is what other goroutines do
    until the select proceeds and the case it then chooses; [None] is a call
    that is still blocked when the schedule ends. *)
Fixpoint block (m : memory) (sched : list ((sigstate → OS → sigstate * OS) * Z))
    (sg : sigstate) (o : OS) : option (wakeReason * sigstate * OS) :=
  match block_check m sg o with
  | Some r => Some (r, sg, o)
  | None =>
      match sched with
      | [] => None
      | (env, i) :: sched' =>
          let '(sg1, o1) := env sg o in
          match block_case i sg1 with
          | (Some r, sg2) => Some (r, sg2, o1)
          | (None, sg2) => block m sched' sg2 o1
          end
      end
  end.

(** The same as a transition system, with the goroutines that signal the
    process: [bk_inflight] of them have set a bit and have yet to put their
    token. *)
Inductive block_pc := AtCheck | AtSelect | Returned (r : wakeReason).
Record blocked := Blocked {
  bk_sg : sigstate; bk_os : OS; bk_pc : block_pc; bk_inflight : nat }.

Inductive block_step (m : memory) : relation blocked :=
| blk_check_ret sg o k r :
    block_check m sg o = Some r →
    block_step m (Blocked sg o AtCheck k) (Blocked sg o (Returned r) k)
| blk_check_wait sg o k :
    block_check m sg o = None →
    block_step m (Blocked sg o AtCheck k) (Blocked sg o AtSelect k)
| blk_sel_killed sg o k :
    sg_killed sg = true →
    block_step m (Blocked sg o AtSelect k) (Blocked sg o (Returned killed) k)
| blk_sel_signal sg o k :
    sg_wake sg = true →
    block_step m (Blocked sg o AtSelect k) (Blocked (block_case 1 sg).2 o AtCheck k)
| blk_sel_other sg o k i r :
    2 ≤ i → (block_case i sg).1 = Some r →
    block_step m (Blocked sg o AtSelect k) (Blocked sg o (Returned r) k)
| blk_env_post sg o pc k sig :
    block_step m (Blocked sg o pc k)
      (Blocked (signal_post m sig sg o).1 (signal_post m sig sg o).2 pc (S k))
| blk_env_token sg o pc k :
    block_step m (Blocked sg o pc (S k)) (Blocked (signal_token sg) o pc k)
| blk_env_kill sg o pc k :
    block_step m (Blocked sg o pc k) (Blocked (signal_cancel sg) o pc k)
| blk_env_mem sg o o' pc k :
    (∀ a, sg_ctl sg = Some a → ctl_mask o' m a = ctl_mask o m a) →
    block_step m (Blocked sg o pc k) (Blocked sg o' pc k).

Definition block_init (b : blocked) : Prop := bk_pc b = AtCheck ∧ bk_inflight b = 0%nat.

(** Waiting in the select with an interrupting signal pending: the token is
    there, or about to be put. *)
Definition block_inv (m : memory) (b : blocked) : Prop :=
  bk_pc b = AtSelect → is_interrupted m (bk_sg b) (bk_os b) = true →
  sg_wake (bk_sg b) = true ∨ (0 < bk_inflight b)%nat.
End signals.
Arguments blocked : clear implicits.

(** * Lemmas *)
Lemma sigbit_spec sig : 0 ≤ sig < 64 → sigbit sig = 2 ^ sig.
Proof.
  intros Hs. unfold sigbit. rewrite Z.shiftl_1_l. apply wrapU_small.
  split; [apply Z.pow_nonneg; lia|apply Z.pow_lt_mono_r; lia].
Qed.

Lemma sigbit_testbit sig i : 0 ≤ sig < 64 → 0 ≤ i →
  Z.testbit (sigbit sig) i = bool_decide (i = sig).
Proof.
  intros Hs Hi. rewrite sigbit_spec by done. case_bool_decide as He.
  - subst. apply Z.pow2_bits_true. lia.
  - apply Z.pow2_bits_false. lia.
Qed.

Lemma lor_range w a b : 0 ≤ w → 0 ≤ a < 2 ^ w → 0 ≤ b < 2 ^ w → 0 ≤ Z.lor a b < 2 ^ w.
Proof.
  intros Hw Ha Hb. split; [apply Z.lor_nonneg; lia|].
  destruct (Z.eq_dec (Z.lor a b) 0) as [->|Hz]; [apply Z.pow_pos_nonneg; lia|].
  assert (0 ≤ Z.lor a b) by (apply Z.lor_nonneg; lia).
  apply Z.log2_lt_pow2; [lia|].
  rewrite Z.log2_lor by lia. apply Z.max_lub_lt.
  - destruct (Z.eq_dec a 0) as [->|]; [|apply Z.log2_lt_pow2; lia].
    assert (0 < w); [|done]. destruct (Z.eq_dec w 0) as [->|]; [|lia].
    change (2 ^ 0) with 1 in *. assert (b = 0) as -> by lia. done.
  - destruct (Z.eq_dec b 0) as [->|]; [|apply Z.log2_lt_pow2; lia].
    assert (0 < w); [|done]. destruct (Z.eq_dec w 0) as [->|]; [|lia].
    change (2 ^ 0) with 1 in *. assert (a = 0) as -> by lia. done.
Qed.

Section signal_laws.
Context {OS : Type} `{HostMMULaws OS}.

Lemma load64_range (o : OS) m a :
  priv_range o m a 8 → (∀ x, 0 ≤ os_byte o (Priv (m_space m) x) < 256) →
  0 ≤ load64 o m a < 2 ^ 64.
Proof.
  intros Hr Hb. unfold load64.
  assert (bytes_ok (mem_read o m a 8)) as Hok.
  { apply Forall_forall. intros v Hv. unfold mem_read in Hv.
    apply list_elem_of_fmap in Hv as (i & -> & Hi). apply elem_of_seq in Hi.
    unfold load. rewrite Hr by lia. apply Hb. }
  apply le_val_range in Hok. done.
Qed.

(** A control block of a process: 24 private bytes of guest memory. *)
Definition ctl_ok (o : OS) (m : memory) (a : Z) : Prop :=
  priv_range o m a 24 ∧ ∀ x, 0 ≤ os_byte o (Priv (m_space m) x) < 256.

Lemma ctl_ok_word o m a k : ctl_ok o m a → 0 ≤ k ≤ 16 →
  priv_range o m (a + k) 8 ∧ 0 ≤ load64 o m (a + k) < 2 ^ 64.
Proof.
  intros [Hr Hb] Hk. assert (priv_range o m (a + k) 8) as Hp by (intros x Hx; apply Hr; lia).
  split; [done|]. by apply load64_range.
Qed.

Lemma signal_post_words m sig sg a (o : OS) :
  sg_ctl sg = Some a → ctl_ok o m a → 0 ≤ sig < 64 →
  let '(sg', o') := signal_post m sig sg o in
  sg' = sg ∧ load64 o' m a = Z.lor (load64 o m a) (sigbit sig) ∧
  load64 o' m (a + 8) = load64 o m (a + 8) ∧ load64 o' m (a + 16) = load64 o m (a + 16).
Proof.
  intros Ha Hok Hs. unfold signal_post. rewrite Ha.
  destruct (ctl_ok_word o m a 0 Hok ltac:(lia)) as [H0p H0r]. rewrite Z.add_0_r in *.
  destruct (ctl_ok_word o m a 8 Hok ltac:(lia)) as [H8p _].
  destruct (ctl_ok_word o m a 16 Hok ltac:(lia)) as [H16p _].
  split; [done|]. split; [|split; apply load64_store64_other; done || lia].
  apply load64_store64; [done|]. apply lor_range; [lia|done|]. apply (wrapU_range 64). lia.
Qed.

Lemma ldiff_lor_bits p q b i : 0 ≤ i →
  Z.testbit (Z.ldiff (Z.ldiff p b) q) i =
    Z.testbit p i && negb (Z.testbit b i) && negb (Z.testbit q i).
Proof. intros. by rewrite !Z.ldiff_spec. Qed.

Lemma nonzero_testbit n : 0 ≤ n → negb (n =? 0) = true ↔ ∃ i, 0 ≤ i ∧ Z.testbit n i = true.
Proof.
  intros Hn. rewrite negb_true_iff, Z.eqb_neq. split.
  - intros Hz. exists (Z.log2 n). split; [apply Z.log2_nonneg|]. apply Z.bit_log2. lia.
  - intros (i & _ & Hi) ->. by rewrite Z.bits_0 in Hi.
Qed.

(** Signal delivery to a registered process: the bit of the signal, and no
    other, is added to the pending word of the guest's control block, the
    blocked and ignored words are untouched, a waiting call gets its wake-up
    token, and the process now counts as interrupted exactly when it did
    before or the signal is neither blocked nor ignored. *)
Theorem signal_delivered m sig sg a (o : OS) :
  sg_ctl sg = Some a → ctl_ok o m a → 0 ≤ sig < 64 → sig ≠ SIGKILL →
  let '(sg', o') := Signal m sig sg o in
  (∀ i, 0 ≤ i → Z.testbit (load64 o' m a) i = Z.testbit (load64 o m a) i || bool_decide (i = sig)) ∧
  load64 o' m (a + 8) = load64 o m (a + 8) ∧ load64 o' m (a + 16) = load64 o m (a + 16) ∧
  sg_wake sg' = true ∧
  (is_interrupted m sg' o' = true ↔
     is_interrupted m sg o = true ∨
     Z.testbit (load64 o m (a + 8)) sig = false ∧ Z.testbit (load64 o m (a + 16)) sig = false).
Proof.
  intros Ha Hok Hs Hk. unfold Signal. destruct (Z.eqb_spec sig SIGKILL); [done|].
  pose proof (signal_post_words m sig sg a o Ha Hok Hs) as Hw.
  destruct (signal_post m sig sg o) as [sg' o']. destruct Hw as (-> & Hp & Hb & Hi).
  destruct (ctl_ok_word o m a 0 Hok ltac:(lia)) as [_ Hr0]. rewrite Z.add_0_r in Hr0.
  assert (∀ i, 0 ≤ i → Z.testbit (load64 o' m a) i = Z.testbit (load64 o m a) i || bool_decide (i = sig)) as Hbit.
  { intros i Hi0. by rewrite Hp, Z.lor_spec, sigbit_testbit. }
  assert (0 ≤ load64 o' m a) as Hp0.
  { rewrite Hp. apply Z.lor_nonneg. split; [lia|]. apply (wrapU_range 64). lia. }
  split; [done|]. split; [done|]. split; [done|]. split; [done|].
  unfold is_interrupted, signal_token. simpl. rewrite Ha. unfold ctl_mask.
  rewrite !nonzero_testbit by (rewrite !Z.ldiff_nonneg; tauto). rewrite Hb, Hi. split.
  - intros (i & Hi0 & Ht). rewrite ldiff_lor_bits, Hbit in Ht by done.
    destruct (Z.testbit (load64 o m a) i) eqn:E.
    + left. exists i. split; [done|]. by rewrite ldiff_lor_bits, E.
    + right. case_bool_decide; [subst i|done]. simpl in Ht.
      by apply andb_true_iff in Ht as [?%negb_true_iff ?%negb_true_iff].
  - intros [(i & Hi0 & Ht)|[E8 E16]].
    + exists i. split; [done|]. rewrite ldiff_lor_bits in Ht |- * by done.
      rewrite Hbit by done. by destruct (Z.testbit (load64 o m a) i).
    + exists sig. split; [lia|]. rewrite ldiff_lor_bits, Hbit, bool_decide_true, E8, E16 by lia.
      by rewrite orb_true_r.
Qed.

(** Signals sent before the guest has registered its control block. *)
Fixpoint signals_early (m : memory) (sigs : list Z) (sg : sigstate) (o : OS) : sigstate * OS :=
  match sigs with
  | [] => (sg, o)
  | s :: sigs' => let '(sg1, o1) := Signal m s sg o in signals_early m sigs' sg1 o1
  end.

Lemma signals_early_spec m sigs sg (o : OS) :
  sg_ctl sg = None → Forall (λ s, 0 ≤ s < 64 ∧ s ≠ SIGKILL) sigs → 0 ≤ sg_early sg < 2 ^ 64 →
  let '(sg', o') := signals_early m sigs sg o in
  o' = o ∧ sg_ctl sg' = None ∧ 0 ≤ sg_early sg' < 2 ^ 64 ∧
  ∀ i, 0 ≤ i → Z.testbit (sg_early sg') i = Z.testbit (sg_early sg) i || bool_decide (i ∈ sigs).
Proof.
  intros Hc Hs. revert sg Hc. induction Hs as [|s sigs [Hs Hk] Hsigs IH]; intros sg Hc He; simpl.
  { split_and!; try done; try lia. intros i _. by rewrite orb_false_r. }
  unfold Signal. destruct (Z.eqb_spec s SIGKILL); [done|].
  unfold signal_post. rewrite Hc. unfold signal_token. simpl.
  set (sg1 := {| sg_ctl := _ |}). specialize (IH sg1 Hc).
  destruct (signals_early m sigs sg1 o) as [sg' o'].
  destruct IH as (-> & Hc' & He' & Hb).
  { simpl. apply lor_range; [lia|done|]. apply (wrapU_range 64). lia. }
  split_and!; try done; try lia. intros i Hi. rewrite Hb by done. simpl.
  rewrite Z.lor_spec, sigbit_testbit by done. rewrite <- orb_assoc. f_equal.
  rewrite <- bool_decide_or. apply bool_decide_ext. by rewrite elem_of_cons.
Qed.

(** No signal sent during start-up is lost: those sent before the guest
    registers its control block are kept aside, and registering it makes
    exactly those pending, on top of what the block already held. *)
Theorem early_signals_delivered m sigs a (o : OS) :
  Forall (λ s, 0 ≤ s < 64 ∧ s ≠ SIGKILL) sigs → ctl_ok o m a →
  a mod 8 = 0 → 0 ≤ a → a + SizeofSigblock ≤ m_size m →
  let '(sg1, o1) := signals_early m sigs new_sigstate o in
  let '(r, sg2, o2) := registerSignals m a sg1 o1 in
  r = 0 ∧ sg_ctl sg2 = Some a ∧ sg_early sg2 = 0 ∧
  ∀ i, 0 ≤ i → Z.testbit (load64 o2 m a) i = Z.testbit (load64 o m a) i || bool_decide (i ∈ sigs).
Proof.
  intros Hs Hok Ha Ha0 Hsz.
  pose proof (signals_early_spec m sigs new_sigstate o eq_refl Hs) as He.
  destruct (signals_early m sigs new_sigstate o) as [sg1 o1].
  destruct He as (-> & Hc & Hr & Hb); [done|].
  unfold registerSignals, Uint64Ptr, Slice.
  destruct (Z.eqb_spec (a mod 8) 0); [|done]. simpl. unfold SizeofSigblock in *.
  destruct (Z.ltb_spec (m_size m) (a + 8)); [lia|].
  destruct (Z.ltb_spec (m_size m) (a + 24)); [lia|].
  split; [done|]. split; [done|]. split; [done|]. intros i Hi.
  destruct (ctl_ok_word o m a 0 Hok ltac:(lia)) as [Hp Hr0]. rewrite Z.add_0_r in *.
  rewrite load64_store64; [|done|apply lor_range; done || lia].
  rewrite Z.lor_spec, Hb by done. simpl. by rewrite Z.bits_0.
Qed.

Lemma is_interrupted_mem m sg (o o' : OS) :
  (∀ a, sg_ctl sg = Some a → ctl_mask o' m a = ctl_mask o m a) →
  is_interrupted m sg o' = is_interrupted m sg o.
Proof.
  unfold is_interrupted. intros Hm. destruct (sg_ctl sg) as [a|]; [|done]. by rewrite Hm.
Qed.

Lemma block_inv_step m (b b' : blocked OS) : block_inv m b → block_step m b b' → block_inv m b'.
Proof.
  unfold block_inv. intros Hinv Hstep.
  destruct Hstep as [sg o k r E|sg o k E|sg o k E|sg o k E|sg o k i r Hi E|sg o pc k sig
                    |sg o pc k|sg o pc k|sg o o' pc k Hm]; simpl in *; try done; auto.
  - intros _ Hint. unfold block_check in E. rewrite Hint in E.
    by destruct (sg_killed sg).
  - intros _ _. right. lia.
  - intros Hpc Hint. apply Hinv; [done|]. by rewrite <- (is_interrupted_mem m sg o o').
Qed.

(** C21. A call blocked in the host never misses a signal: whenever it waits in its
    select while an interrupting signal is pending, the wake-up token is there
    to be received, or a goroutine that has set the signal's bit is about to
    put it; and a killed process's select can always proceed. *)
Theorem block_signal_not_lost m (b : blocked OS) :
  reachable block_init (block_step m) b → bk_pc b = AtSelect →
  (is_interrupted m (bk_sg b) (bk_os b) = true →
     sg_wake (bk_sg b) = true ∨ (0 < bk_inflight b)%nat) ∧
  (sg_killed (bk_sg b) = true ∨ sg_wake (bk_sg b) = true → ∃ b', block_step m b b' ∧ bk_pc b' ≠ AtSelect).
Proof.
  intros Hr Hpc. split.
  - cut (block_inv m b); [unfold block_inv; auto|].
    revert b Hr Hpc. intros b Hr _. revert b Hr. apply reachable_inv.
    + intros b [Hpc _] Hpc'. congruence.
    + intros b b' _. apply block_inv_step.
  - destruct b as [sg o pc k]. simpl in *. subst pc. intros [Hk|Hw].
    + eexists. split; [by apply blk_sel_killed|done].
    + eexists. split; [by apply blk_sel_signal|done].
Qed.
End signal_laws.

(** ** The properties at work on the concrete machine *)
Lemma demo_ctl_ok : ctl_ok demo_boot.2 demo_boot.1 64.
Proof. split; [intros x Hx; apply demo_private; unfold PageSize; lia|apply demo_bytes]. Qed.

Lemma signal_delivered_witness :
  let sg := SigState (Some 64) 0 false false in
  let '(sg', o') := Signal demo_boot.1 SIGTERM sg demo_boot.2 in
  load64 o' demo_boot.1 64 = 2 ^ SIGTERM ∧ is_interrupted demo_boot.1 sg' o' = true.
Proof.
  intros sg.
  pose proof (signal_delivered demo_boot.1 SIGTERM sg 64 demo_boot.2 eq_refl demo_ctl_ok
                ltac:(abi_lia) ltac:(abi_lia)) as H.
  destruct (Signal demo_boot.1 SIGTERM sg demo_boot.2) as [sg' o'] eqn:E.
  split; [vm_compute in E; injection E as <- <-; reflexivity|].
  apply (proj2 (proj2 (proj2 (proj2 (proj2 H))))). right. split; reflexivity.
Defined.

Lemma early_signals_delivered_witness :
  let '(sg1, o1) := signals_early demo_boot.1 [SIGHUP; SIGCHLD] new_sigstate demo_boot.2 in
  let '(r, sg2, o2) := registerSignals demo_boot.1 64 sg1 o1 in
  r = 0 ∧ sg_ctl sg2 = Some 64 ∧ sg_early sg2 = 0 ∧
  ∀ i, 0 ≤ i → Z.testbit (load64 o2 demo_boot.1 64) i
               = Z.testbit (load64 demo_boot.2 demo_boot.1 64) i || bool_decide (i ∈ [SIGHUP; SIGCHLD]).
Proof.
  apply (early_signals_delivered demo_boot.1 [SIGHUP; SIGCHLD] 64 demo_boot.2);
    [repeat constructor; abi_lia|exact demo_ctl_ok|reflexivity|lia|by vm_compute].
Defined.

(** A process blocked with nothing pending, then killed from outside: the
    select proceeds. *)
Lemma block_signal_not_lost_witness :
  let b := Blocked (signal_cancel new_sigstate) demo_boot.2 AtSelect 0 in
  ∃ b', block_step demo_boot.1 b b' ∧ bk_pc b' ≠ AtSelect.
Proof.
  intros b. apply (block_signal_not_lost demo_boot.1 b); [|done|by left].
  exists (Blocked new_sigstate demo_boot.2 AtCheck 0). split; [done|].
  eapply rtc_l; [by apply blk_check_wait|].
  apply rtc_once. apply blk_env_kill.
Defined.

(** Signal 64, which [kill] accepts, has no bit: it wakes the process and is
    gone. *)
Lemma signal_64_lost {OS : Type} `{HostMMU OS} (m : memory) (sg : sigstate) (o : OS) :
  sg_ctl sg = None → Signal m 64 sg o = (signal_token sg, o).
Proof.
  intros E. unfold Signal, signal_post. rewrite E. change (sigbit 64) with 0. destruct sg as [c e w k]. cbn.
  by rewrite Z.lor_0_r.
Qed.
