(* ===== verification/Pipe.v ===== *)
(** In-memory pipes ([src/internal/kernel/pipe.go]).

    One Record for [pipe], one definition per method of [pipeReader] and
    [pipeWriter].  [read] takes the length of the caller's buffer and returns
    the bytes copied into it; both return the errno of the Go method.  The
    theorems: a pipe is a first-in first-out byte stream of bounded size,
    small writes are never split, [poll] tells the truth, and a blocked reader
    or writer is always woken. *)
From S2P Require Import Prelude Abi Notify.

Definition pipeCapacity : Z := Z.shiftl 64 10.
Definition pipeAtomic : Z := 4096.

Record pipe := Pipe {
  p_buf : bytes;
  p_readers : Z;
  p_writers : Z;
  p_n : notifier;
}.
#[export] Instance eta_pipe : Eta pipe := λ r,
  {| p_buf := p_buf r; p_readers := p_readers r; p_writers := p_writers r; p_n := p_n r |}.

Definition newPipe : pipe := Pipe [] 1 1 new_notifier.

(** ** The read end *)
Definition pipeReader_read (n : Z) (p : pipe) : (bytes * Z) * pipe :=
  if n =? 0 then (([], 0), p)
  else if 0 <? zlen (p_buf p) then
    let k := Z.min n (zlen (p_buf p)) in
    ((ztake k (p_buf p), 0),
     p <| p_buf := zdrop k (p_buf p) |> <| p_n ::= notifier_notify |>)
  else if p_writers p =? 0 then (([], 0), p)
  else (([], EAGAIN), p).

Definition pipeReader_write (b : bytes) : Z * Z := (0, EBADF).

Definition pipeReader_poll (p : pipe) : Z :=
  let ev := if 0 <? zlen (p_buf p) then POLLIN else 0 in
  if p_writers p =? 0 then Z.lor ev POLLHUP else ev.

Definition pipe_changed (p : pipe) : nat * pipe :=
  let '(ch, n) := notifier_wait (p_n p) in (ch, p <| p_n := n |>).

(** [release] is [drop] under the lock, then a notification. *)
Definition pipeReader_drop (p : pipe) : pipe := p <| p_readers ::= λ r, r - 1 |>.
Definition pipeReader_release (p : pipe) : pipe :=
  pipeReader_drop p <| p_n ::= notifier_notify |>.

(** ** The write end *)
Definition pipeWriter_read (n : Z) : bytes * Z := ([], EBADF).

Definition pipeWriter_write (b : bytes) (p : pipe) : (Z * Z) * pipe :=
  if p_readers p =? 0 then ((0, EPIPE), p)
  else if zlen b =? 0 then ((0, 0), p)
  else
    let space := pipeCapacity - zlen (p_buf p) in
    if (space <=? 0) || ((zlen b <=? pipeAtomic) && (space <? zlen b))
    then ((0, EAGAIN), p)
    else
      let n := Z.min (zlen b) space in
      ((n, 0),
       p <| p_buf ::= λ buf, buf ++ ztake n b |> <| p_n ::= notifier_notify |>).

Definition pipeWriter_poll (p : pipe) : Z :=
  if p_readers p =? 0 then POLLERR
  else if pipeAtomic <=? pipeCapacity - zlen (p_buf p) then POLLOUT
  else 0.

Definition pipeWriter_drop (p : pipe) : pipe := p <| p_writers ::= λ w, w - 1 |>.
Definition pipeWriter_release (p : pipe) : pipe :=
  pipeWriter_drop p <| p_n ::= notifier_notify |>.

(** ** Runs of operations *)
Inductive pipe_op := PRead (n : Z) | PWrite (b : bytes) | PCloseRead | PCloseWrite | PWait.

(** The result of one operation: what a read returned, what a write took. *)
Inductive pipe_res := RRead (b : bytes) (errno : Z) | RWrote (b : bytes) (errno : Z) | RNone.

Definition pipe_exec (o : pipe_op) (p : pipe) : pipe_res * pipe :=
  match o with
  | PRead n => let '((b, e), p') := pipeReader_read n p in (RRead b e, p')
  | PWrite b => let '((n, e), p') := pipeWriter_write b p in (RWrote (ztake n b) e, p')
  | PCloseRead => (RNone, pipeReader_release p)
  | PCloseWrite => (RNone, pipeWriter_release p)
  | PWait => (RNone, (pipe_changed p).2)
  end.

Fixpoint pipe_run (os : list pipe_op) (p : pipe) : list pipe_res * pipe :=
  match os with
  | [] => ([], p)
  | o :: os' =>
      let '(r, p1) := pipe_exec o p in
      let '(rs, p2) := pipe_run os' p1 in (r :: rs, p2)
  end.

Definition res_read (r : pipe_res) : bytes := match r with RRead b _ => b | _ => [] end.
Definition res_written (r : pipe_res) : bytes := match r with RWrote b _ => b | _ => [] end.

(** A buffer has no negative length. *)
Definition op_ok (o : pipe_op) : Prop := match o with PRead n => 0 ≤ n | _ => True end.
Definition pipe_reads_ok (os : list pipe_op) : Prop := Forall op_ok os.

(** * Lemmas *)
Lemma pipe_read_split n p :
  0 ≤ n →
  (pipeReader_read n p).1.1 ++ p_buf (pipeReader_read n p).2 = p_buf p.
Proof.
  intros Hn. unfold pipeReader_read. zcases; try done. apply ztake_drop.
Qed.

Lemma pipe_write_append b p :
  p_buf (pipeWriter_write b p).2 = p_buf p ++ ztake (pipeWriter_write b p).1.1 b.
Proof.
  unfold pipeWriter_write. zcases; rewrite ?ztake_le_0, ?app_nil_r by lia; done.
Qed.

Lemma pipe_exec_stream o p :
  op_ok o →
  res_read (pipe_exec o p).1 ++ p_buf (pipe_exec o p).2
  = p_buf p ++ res_written (pipe_exec o p).1.
Proof.
  intros Hn. destruct o as [n|b| | |]; simpl.
  - pose proof (pipe_read_split n p Hn) as H.
    destruct (pipeReader_read n p) as [[b e] p']. simpl in *. by rewrite app_nil_r.
  - pose proof (pipe_write_append b p) as H.
    destruct (pipeWriter_write b p) as [[n e] p']. done.
  - by rewrite app_nil_r.
  - by rewrite app_nil_r.
  - by rewrite app_nil_r.
Qed.

Lemma pipe_run_stream os p :
  pipe_reads_ok os →
  concat (res_read <$> (pipe_run os p).1) ++ p_buf (pipe_run os p).2
  = p_buf p ++ concat (res_written <$> (pipe_run os p).1).
Proof.
  revert p. induction os as [|o os IH]; intros p Hos; simpl; [by rewrite app_nil_r|].
  apply Forall_cons in Hos as [Hop Hos].
  pose proof (pipe_exec_stream o p) as Ho.
  destruct (pipe_exec o p) as [r p1] eqn:E1. simpl in Ho.
  specialize (IH p1). destruct (pipe_run os p1) as [rs p2]. csimpl in *.
  rewrite <- app_assoc, IH by done. rewrite app_assoc, Ho by done.
  by rewrite app_assoc.
Qed.

Definition pipe_wf (p : pipe) : Prop := zlen (p_buf p) ≤ pipeCapacity.

Lemma pipe_exec_wf o p :
  op_ok o → pipe_wf p → pipe_wf (pipe_exec o p).2.
Proof.
  unfold pipe_wf. intros Hn Hp. destruct o as [n|b| | |]; simpl; [..|done|done|done].
  - simpl in Hn. unfold pipeReader_read. zcases; zlia.
  - unfold pipeWriter_write. zcases; zlia.
Qed.

Lemma pipe_run_wf os p : pipe_reads_ok os → pipe_wf p → pipe_wf (pipe_run os p).2.
Proof.
  revert p. induction os as [|o os IH]; intros p Hos Hp; simpl; [done|].
  apply Forall_cons in Hos as [Hop Hos].
  pose proof (pipe_exec_wf o p) as Ho.
  destruct (pipe_exec o p) as [r p1]. specialize (IH p1).
  destruct (pipe_run os p1) as [rs p2]. simpl in *. auto.
Qed.

(** ** Waiting on a pipe *)

(** What another goroutine may do to a pipe between two looks at it, with what
    it does to the notifier. *)
Inductive pipe_other : pipe → pipe → effect → Prop :=
| po_read p m : 0 ≤ m →
    pipe_other p (pipeReader_read m p).2
      (if 0 <? zlen (pipeReader_read m p).1.1 then NotifyNow else Silent)
| po_write p b :
    pipe_other p (pipeWriter_write b p).2
      (if 0 <? (pipeWriter_write b p).1.1 then NotifyNow else Silent)
| po_drop_reader p : pipe_other p (pipeReader_drop p) NotifyLater
| po_drop_writer p : pipe_other p (pipeWriter_drop p) NotifyLater.

Lemma pipe_read_effect m p : 0 ≤ m →
  (pipeReader_read m p).2 = p ∧ zlen (pipeReader_read m p).1.1 = 0
  ∨ p_n (pipeReader_read m p).2 = notifier_notify (p_n p)
    ∧ 0 < zlen (pipeReader_read m p).1.1.
Proof.
  intros Hm. unfold pipeReader_read. zcases; auto. right. split; [done|]. zlia.
Qed.

Lemma pipe_write_effect b p :
  (pipeWriter_write b p).2 = p ∧ (pipeWriter_write b p).1.1 = 0
  ∨ p_n (pipeWriter_write b p).2 = notifier_notify (p_n p)
    ∧ 0 < (pipeWriter_write b p).1.1.
Proof. unfold pipeWriter_write. zcases; auto; right; (split; [done|]); zlia. Qed.

Lemma pipe_other_ntf p p' e : pipe_other p p' e → p_n p' = wt_after e (p_n p).
Proof.
  destruct 1 as [p m Hm|p b|p|p]; simpl; [| |done|done].
  - destruct (pipe_read_effect m p Hm) as [[-> ->]|[-> ?]]; [done|].
    zcases; [done|lia].
  - destruct (pipe_write_effect b p) as [[-> ->]|[-> ?]]; [done|].
    zcases; [done|lia].
Qed.

(** A silent operation changed nothing. *)
Lemma pipe_other_silent p p' : pipe_other p p' Silent → p' = p.
Proof.
  inversion 1 as [? m Hm He|? b He| |]; subst.
  - destruct (pipe_read_effect m p Hm) as [[-> _]|[_ ?]]; [done|].
    zcases; [done|lia].
  - destruct (pipe_write_effect b p) as [[-> _]|[_ ?]]; [done|].
    zcases; [done|lia].
Qed.

Definition pipe_try_read (n : Z) (p : pipe) : option pipe :=
  if (pipeReader_read n p).1.2 =? EAGAIN then None else Some (pipeReader_read n p).2.
Definition pipe_try_write (b : bytes) (p : pipe) : option pipe :=
  if (pipeWriter_write b p).1.2 =? EAGAIN then None else Some (pipeWriter_write b p).2.

#[export] Instance pipe_read_wait (n : Z) : Waitable pipe := {
  wt_ntf := p_n; wt_set_ntf := λ m p, p <| p_n := m |>;
  wt_try := pipe_try_read n; wt_op := pipe_other }.
#[export] Instance pipe_write_wait (b : bytes) : Waitable pipe := {
  wt_ntf := p_n; wt_set_ntf := λ m p, p <| p_n := m |>;
  wt_try := pipe_try_write b; wt_op := pipe_other }.

Lemma pipe_read_wait_laws (n : Z) : 0 ≤ n → @WaitableLaws pipe (pipe_read_wait n).
Proof.
  intros Hn. constructor; simpl.
  - done.
  - intros m p. unfold pipe_try_read, pipeReader_read. simpl.
    rewrite <- !not_eq_None_Some. zcases; done.
  - apply pipe_other_ntf.
  - intros p p' e Ho Hno Hyes ->. apply pipe_other_silent in Ho as ->.
    rewrite Hno in Hyes. by apply is_Some_None in Hyes.
  - intros p p'. unfold pipe_try_read. zcase; [done|]. intros [= <-].
    destruct (pipe_read_effect n p Hn) as [[-> _]|[-> _]]; auto.
Qed.

Lemma pipe_write_wait_laws (b : bytes) : @WaitableLaws pipe (pipe_write_wait b).
Proof.
  constructor; simpl.
  - done.
  - intros m p. unfold pipe_try_write, pipeWriter_write. simpl.
    rewrite <- !not_eq_None_Some. zcases; simpl; zcases; done.
  - apply pipe_other_ntf.
  - intros p p' e Ho Hno Hyes ->. apply pipe_other_silent in Ho as ->.
    rewrite Hno in Hyes. by apply is_Some_None in Hyes.
  - intros p p'. unfold pipe_try_write. zcase; [done|]. intros [= <-].
    destruct (pipe_write_effect b p) as [[-> _]|[-> _]]; auto.
Qed.

(** * Properties *)

(** C1. A pipe is a bounded first-in first-out byte stream: whatever is done to a
    new pipe, the bytes read so far followed by the bytes in the buffer are the
    bytes written so far, in order, and the buffer never exceeds the pipe's
    capacity. *)
Theorem pipe_stream (os : list pipe_op) :
  pipe_reads_ok os →
  let '(rs, p) := pipe_run os newPipe in
  concat (res_read <$> rs) ++ p_buf p = concat (res_written <$> rs)
  ∧ zlen (p_buf p) ≤ pipeCapacity.
Proof.
  intros Hos. pose proof (pipe_run_stream os newPipe Hos) as Hs.
  pose proof (pipe_run_wf os newPipe Hos) as Hw.
  destruct (pipe_run os newPipe) as [rs p]. split; [done|]. by apply Hw.
Qed.

Lemma pipe_stream_witness :
  let '(rs, p) := pipe_run [PWrite [1;2;3]; PRead 2; PWrite [4]; PCloseWrite; PRead 9; PRead 9] newPipe in
  concat (res_read <$> rs) ++ p_buf p = concat (res_written <$> rs)
  ∧ zlen (p_buf p) ≤ pipeCapacity.
Proof.
  apply (pipe_stream [PWrite [1;2;3]; PRead 2; PWrite [4]; PCloseWrite; PRead 9; PRead 9]).
  repeat constructor; simpl; lia.
Defined.

(** A write of at most PIPE_BUF bytes on a pipe that still has a reader is all
    or nothing: it takes every byte, or it would block and changes nothing;
    a longer write takes as much as fits and blocks only on a full pipe. *)
Theorem pipe_write_atomic (b : bytes) (p : pipe) :
  p_readers p ≠ 0 → b ≠ [] →
  let '((n, e), p') := pipeWriter_write b p in
  (e = 0 ∧ 0 < n ∧ p_buf p' = p_buf p ++ ztake n b ∧
     (zlen b ≤ pipeAtomic → n = zlen b) ∨
   e = EAGAIN ∧ n = 0 ∧ p' = p ∧ pipeCapacity - zlen (p_buf p) < Z.min (zlen b) pipeAtomic).
Proof.
  intros Hr Hb. apply zlen_pos in Hb. unfold pipeWriter_write.
  assert (0 < pipeAtomic) by done.
  zcases; try lia;
    first [right; repeat split; (done || zlia) | left; repeat split; (done || zlia)].
Qed.

Lemma pipe_write_atomic_witness :
  let p := Pipe (zrepeat 65533 7) 1 1 new_notifier in
  let '((n, e), p') := pipeWriter_write [1;2;3;4] p in
  (e = 0 ∧ 0 < n ∧ p_buf p' = p_buf p ++ ztake n [1;2;3;4] ∧
     (zlen [1;2;3;4] ≤ pipeAtomic → n = zlen [1;2;3;4]) ∨
   e = EAGAIN ∧ n = 0 ∧ p' = p ∧
   pipeCapacity - zlen (p_buf p) < Z.min (zlen [1;2;3;4]) pipeAtomic).
Proof.
  apply (pipe_write_atomic [1;2;3;4] (Pipe (zrepeat 65533 7) 1 1 new_notifier)); done.
Defined.

(** Readiness is truthful.  On the read end POLLIN is reported exactly when a
    read returns data, POLLHUP exactly when there is no writer left, and a
    read that would block is one that reports nothing.  On the write end
    POLLERR means that every write fails with EPIPE, and POLLOUT that a write
    of up to PIPE_BUF bytes is taken whole. *)
Theorem pipe_poll_truthful (n : Z) (b : bytes) (p : pipe) :
  0 < n →
  (Z.testbit (pipeReader_poll p) 0 = true ↔ 0 < zlen (pipeReader_read n p).1.1) ∧
  (Z.testbit (pipeReader_poll p) 13 = true ↔ p_writers p = 0) ∧
  ((pipeReader_read n p).1.2 = EAGAIN ↔ pipeReader_poll p = 0) ∧
  (pipeWriter_poll p = POLLERR ↔ (pipeWriter_write b p).1 = (0, EPIPE)) ∧
  (pipeWriter_poll p = POLLOUT → zlen b ≤ pipeAtomic → (pipeWriter_write b p).1 = (zlen b, 0)).
Proof.
  intros Hn. unfold pipeReader_poll, pipeReader_read, pipeWriter_poll, pipeWriter_write.
  assert (pipeAtomic = 4096) as Ha by done. assert (pipeCapacity = 65536) as Hc by done.
  repeat split; zcases; try done; try lia; try zlia.
  all: intros _ _; f_equal; zlia.
Qed.

Lemma pipe_poll_truthful_witness :
  pipeReader_poll (Pipe [7] 1 0 new_notifier) = Z.lor POLLIN POLLHUP ∧
  (Z.testbit (pipeReader_poll (Pipe [7] 1 0 new_notifier)) 0 = true
   ↔ 0 < zlen (pipeReader_read 4 (Pipe [7] 1 0 new_notifier)).1.1).
Proof.
  split; [reflexivity|].
  apply (pipe_poll_truthful 4 [] (Pipe [7] 1 0 new_notifier)). done.
Defined.

(** No reader is left asleep on a readable pipe: among any number of
    goroutines in [Process.io] reading [n] bytes, and whatever writers, other
    readers and closing ends do, a reader that is asleep while a read would not
    block holds a channel that has been closed, or the end that is being
    released is still to notify. *)
Theorem pipe_reader_woken (n : Z) (y : system pipe) (t c : nat) :
  0 ≤ n →
  reachable (@sys_init pipe (newPipe)) (@sys_step pipe (pipe_read_wait n)) y →
  sys_waiters y !! t = Some (Asleep c) →
  (pipeReader_read n (sys_state y)).1.2 ≠ EAGAIN →
  chan_closed (p_n (sys_state y)) c = true ∨ (0 < sys_pending y)%nat.
Proof.
  intros Hn Hr Ht He.
  apply (@no_lost_wakeup pipe (pipe_read_wait n) (pipe_read_wait_laws n Hn) newPipe y t c Hr Ht).
  simpl. unfold pipe_try_read. apply Z.eqb_neq in He. rewrite He. eauto.
Qed.

(** The same for writers: a writer asleep on a pipe whose read end has made
    room, or has gone away, has been woken or is about to be. *)
Theorem pipe_writer_woken (b : bytes) (y : system pipe) (t c : nat) :
  reachable (@sys_init pipe (newPipe)) (@sys_step pipe (pipe_write_wait b)) y →
  sys_waiters y !! t = Some (Asleep c) →
  (pipeWriter_write b (sys_state y)).1.2 ≠ EAGAIN →
  chan_closed (p_n (sys_state y)) c = true ∨ (0 < sys_pending y)%nat.
Proof.
  intros Hr Ht He.
  apply (@no_lost_wakeup pipe (pipe_write_wait b) (pipe_write_wait_laws b) newPipe y t c Hr Ht).
  simpl. unfold pipe_try_write. apply Z.eqb_neq in He. rewrite He. eauto.
Qed.

(** One reader asleep on an empty pipe, then a write of one byte. *)
Lemma pipe_reader_woken_witness :
  let p := (pipeWriter_write [5] (pipe_changed newPipe).2).2 in
  chan_closed (p_n p) 0 = true ∨ (0 < 0)%nat.
Proof.
  intros p. eapply (pipe_reader_woken 3 (System p 0 _) 0 0);
    [lia| |apply lookup_insert_eq|by vm_compute].
  apply (@one_sleeper pipe (pipe_read_wait 3) newPipe newPipe p NotifyNow);
    [apply rtc_refl|by vm_compute|].
  apply (po_write (pipe_changed newPipe).2 [5]).
Defined.

(** A writer asleep on a full pipe, then the release of the read end. *)
Lemma pipe_writer_woken_witness :
  let p1 := (pipeWriter_write (zrepeat pipeCapacity 0) newPipe).2 in
  let p := pipeReader_drop (pipe_changed p1).2 in
  chan_closed (p_n p) 0 = true ∨ (0 < 1)%nat.
Proof.
  intros p1 p. eapply (pipe_writer_woken [9] (System p 1 _) 0 0);
    [|apply lookup_insert_eq|by vm_compute].
  apply (@one_sleeper pipe (pipe_write_wait [9]) newPipe p1 p NotifyLater);
    [|by vm_compute|apply (po_drop_reader (pipe_changed p1).2)].
  apply rtc_once. apply (po_write newPipe (zrepeat pipeCapacity 0)).
Defined.
