(* ===== verification/Sema.v ===== *)
(** Counting semaphores shared by all processes
    ([src/internal/kernel/sema.go] and the [sema] handlers of host.go). *)
From S2P Require Import Prelude Abi Notify Signals.

Record semaphore := Semaphore { s_count : Z; s_n : notifier }.
#[export] Instance eta_semaphore : Eta semaphore := λ r, {| s_count := s_count r; s_n := s_n r |}.

Record semaTable := SemaTable { t_sems : gmap Z semaphore; t_next : Z }.
#[export] Instance eta_semaTable : Eta semaTable := λ r, {| t_sems := t_sems r; t_next := t_next r |}.

Definition sema_init : semaTable := SemaTable ∅ 1.

Definition sema_create (initial : Z) (t : semaTable) : Z * semaTable :=
  let id := t_next t in
  (id, t <| t_next := i32 (t_next t + 1) |>
         <| t_sems ::= <[id := Semaphore initial new_notifier]> |>).

Definition sema_get (id : Z) (t : semaTable) : option semaphore := t_sems t !! id.

Definition tryLock (s : semaphore) : bool * semaphore :=
  if 0 <? s_count s then (true, s <| s_count ::= λ c, c - 1 |>) else (false, s).

(** [unlock] is the increment under the lock, then the notification. *)
Definition sema_post (s : semaphore) : semaphore := s <| s_count ::= λ c, i32 (c + 1) |>.
Definition unlock (s : semaphore) : semaphore := sema_post s <| s_n ::= notifier_notify |>.

Definition reset (s : semaphore) : semaphore := s <| s_count := 0 |>.

(** The result of a host call that may block: a value, or unwinding the guest. *)
Abbreviation hostret := (Z * option unwind)%type.

(** [semaLock] run against a schedule: each element is what the other processes
    do while this one is blocked and how [block] ends; [None] is a call still
    blocked when the schedule ends. *)
Fixpoint semaLock (sched : list ((semaphore → semaphore) * wakeReason)) (s : semaphore)
    : option (hostret * semaphore) :=
  let '(ch, n) := notifier_wait (s_n s) in
  match tryLock (s <| s_n := n |>) with
  | (true, s2) => Some ((0, None), s2)
  | (false, s2) =>
      match sched with
      | [] => None
      | (env, r) :: sched' =>
          match r with
          | interrupted => Some ((- EINTR, None), env s2)
          | killed => Some ((0, Some errKilled), env s2)
          | _ => semaLock sched' (env s2)
          end
      end
  end.

(** ** The host interface *)
Definition sema_update (id : Z) (s : semaphore) (t : semaTable) : semaTable :=
  t <| t_sems ::= <[id := s]> |>.

Definition semaHost_Create (initial : Z) (t : semaTable) : Z * semaTable := sema_create initial t.

Definition semaHost_Lock (id : Z) (sched : list ((semaphore → semaphore) * wakeReason)) (t : semaTable)
    : option (hostret * semaTable) :=
  match sema_get id t with
  | None => Some ((- EINVAL, None), t)
  | Some s =>
      match semaLock sched s with
      | None => None
      | Some (r, s') => Some (r, sema_update id s' t)
      end
  end.

Definition semaHost_TryLock (id : Z) (t : semaTable) : Z * semaTable :=
  match sema_get id t with
  | None => (- EINVAL, t)
  | Some s => let '(ok, s') := tryLock s in
              (if ok then 0 else - EAGAIN, sema_update id s' t)
  end.

Definition semaHost_Unlock (id : Z) (t : semaTable) : Z * semaTable :=
  match sema_get id t with
  | None => (- EINVAL, t)
  | Some s => (0, sema_update id (unlock s) t)
  end.

Definition semaHost_Reset (id : Z) (t : semaTable) : Z * semaTable :=
  match sema_get id t with
  | None => (- EINVAL, t)
  | Some s => (0, sema_update id (reset s) t)
  end.

(** * Mutual exclusion and conservation

    [holders] counts, per semaphore, the successful locks not yet matched by an
    unlock; it is ghost state of the specification. *)
Record sema_sys := SemaSys { y_sem : semaphore; y_held : Z }.

Inductive sema_step : relation sema_sys :=
| ss_lock s h s' : tryLock s = (true, s') → sema_step (SemaSys s h) (SemaSys s' (h + 1))
| ss_busy s h s' : tryLock s = (false, s') → sema_step (SemaSys s h) (SemaSys s' h)
| ss_unlock s h : 0 < h → sema_step (SemaSys s h) (SemaSys (unlock s) (h - 1))
| ss_wait s h : sema_step (SemaSys s h) (SemaSys (s <| s_n ::= λ n, (notifier_wait n).2 |>) h).

Definition sema_start (initial : Z) (y : sema_sys) : Prop :=
  y = SemaSys (Semaphore initial new_notifier) 0.

(** ** Waiting *)
Inductive sema_other : semaphore → semaphore → effect → Prop :=
| so_post s : sema_other s (sema_post s) NotifyLater
| so_trylock s : sema_other s (tryLock s).2 Silent
| so_reset s : sema_other s (reset s) Silent.

Definition sema_try (s : semaphore) : option semaphore :=
  match tryLock s with (true, s') => Some s' | (false, _) => None end.

#[export] Instance sema_wait : Waitable semaphore := {
  wt_ntf := s_n; wt_set_ntf := λ n s, s <| s_n := n |>; wt_try := sema_try; wt_op := sema_other }.

#[export] Instance sema_wait_laws : WaitableLaws semaphore.
Proof.
  split; simpl.
  - done.
  - intros n s. unfold sema_try, tryLock. simpl. zcases; split; intros []; eauto; done.
  - destruct 1; simpl; unfold tryLock; zcases; done.
  - destruct 1 as [s|s|s]; unfold sema_try, tryLock; simpl; zcases; try done; try lia;
      intros _ [? [=]].
  - intros s s'. unfold sema_try, tryLock. zcases; [|done]. intros [= <-]. by left.
Qed.

(** * Properties *)

(** Mutual exclusion: a semaphore created with count [n] is held at most [n]
    times at once, whatever the processes do, and its count plus the number of
    times it is held stays [n] — no unit is lost or invented. *)
Theorem sema_conservation (n : Z) (y : sema_sys) :
  0 ≤ n < 2 ^ 31 → reachable (sema_start n) sema_step y →
  s_count (y_sem y) + y_held y = n ∧ 0 ≤ s_count (y_sem y) ∧ 0 ≤ y_held y ≤ n.
Proof.
  intros Hn. cut (reachable (sema_start n) sema_step y →
    s_count (y_sem y) + y_held y = n ∧ 0 ≤ s_count (y_sem y) ∧ 0 ≤ y_held y).
  { intros Hc Hr. specialize (Hc Hr). lia. }
  revert y. apply reachable_inv.
  - intros y ->. simpl. lia.
  - intros y y' _ (Hs & H0 & Hh) Hstep.
    destruct Hstep as [s h s' E|s h s' E|s h Hp|s h]; simpl in *.
    + unfold tryLock in E. zcases; [|done]. simplify_eq. simpl. lia.
    + unfold tryLock in E. zcases; [done|]. simplify_eq. lia.
    + rewrite wrapS_small by lia. lia.
    + lia.
Qed.

Lemma sema_conservation_witness :
  let y := SemaSys (Semaphore 0 new_notifier) 1 in
  s_count (y_sem y) + y_held y = 1 ∧ 0 ≤ s_count (y_sem y) ∧ 0 ≤ y_held y ≤ 1.
Proof.
  intros y. apply (sema_conservation 1 y); [lia|].
  exists (SemaSys (Semaphore 1 new_notifier) 0). split; [done|].
  apply rtc_once. apply ss_lock. reflexivity.
Defined.

(** A process sleeping on a semaphore whose count is positive has been woken,
    or the process that unlocked it is about to notify. *)
Theorem sema_waiter_woken (initial : Z) (y : system semaphore) (t c : nat) :
  reachable (sys_init (Semaphore initial new_notifier)) sys_step y →
  sys_waiters y !! t = Some (Asleep c) → 0 < s_count (sys_state y) →
  chan_closed (s_n (sys_state y)) c = true ∨ (0 < sys_pending y)%nat.
Proof.
  intros Hr Ht Hc. apply (no_lost_wakeup _ y t c Hr Ht).
  simpl. unfold sema_try, tryLock. zcases; [eauto|lia].
Qed.

Lemma sema_waiter_woken_witness :
  let s := sema_post (Semaphore 0 (notifier_wait new_notifier).2) in
  chan_closed (s_n s) 0 = true ∨ (0 < 1)%nat.
Proof.
  intros s.
  apply (sema_waiter_woken 0
           (System s 1 (<[0%nat := Asleep 0]> (<[0%nat := Took 0]> {[0%nat := Running]}))) 0 0);
    [|apply lookup_insert_eq|by vm_compute].
  pose proof (one_sleeper (Semaphore 0 new_notifier) (Semaphore 0 new_notifier) s NotifyLater) as Hone.
  simpl in Hone. apply Hone; [apply rtc_refl|by vm_compute|].
  apply (so_post (Semaphore 0 (notifier_wait new_notifier).2)).
Defined.

(** Lock returns: 0 exactly when it took a unit, as soon as the count is
    positive when it looks; -EINTR when a signal interrupts it; and it unwinds
    when the process is killed.  It stays blocked only while every wake-up
    leaves the count at zero or below. *)
Theorem semaLock_returns (sched : list ((semaphore → semaphore) * wakeReason)) (s : semaphore) :
  (0 < s_count s → ∃ s', semaLock sched s = Some ((0, None), s') ∧ s_count s' = s_count s - 1) ∧
  (s_count s ≤ 0 → ∀ env r sched', sched = (env, r) :: sched' →
     let s1 := env (s <| s_n ::= λ n, (notifier_wait n).2 |>) in
     (r = interrupted → semaLock sched s = Some ((- EINTR, None), s1)) ∧
     (r = killed → semaLock sched s = Some ((0, Some errKilled), s1)) ∧
     (r = woken → semaLock sched s = semaLock sched' s1)) ∧
  (s_count s ≤ 0 → semaLock [] s = None).
Proof.
  split_and!.
  - intros Hc. eexists. destruct sched; simpl; unfold tryLock; simpl; (zcase; [|lia]); done.
  - intros Hc env r sched' ->. simpl. unfold tryLock. simpl. zcase; [lia|].
    split_and!; intros ->; done.
  - intros Hc. simpl. unfold tryLock. simpl. zcase; [lia|done].
Qed.

Lemma semaLock_returns_witness :
  (∃ s', semaLock [(sema_post, woken)] (Semaphore 0 new_notifier) = Some ((0, None), s')) ∧
  (∃ s', semaLock [] (Semaphore 1 new_notifier) = Some ((0, None), s') ∧ s_count s' = 1 - 1).
Proof.
  split; [eexists; reflexivity|].
  apply (semaLock_returns [] (Semaphore 1 new_notifier)). done.
Defined.
