(* ===== verification/Stdio.v ===== *)
(** Standard streams ([src/internal/kernel/stdio.go]): the read-ahead buffer in
    front of the kernel's stdin, the synchronous writer in front of its stdout
    and stderr, and /dev/null.

    The goroutine [pump] is a state machine: it is reading from the
    [io.Reader], waiting on the condition variable [room], signalled but yet to
    run again, or finished.  A step of it is what it does under the lock; when
    it reports [true] it notifies after releasing the lock. *)
From S2P Require Import Prelude Abi Notify.

Definition readerAhead : Z := Z.shiftl 64 10.
Definition pumpChunk : Z := Z.shiftl 32 10.

Inductive pump_state := PumpReading | PumpWaiting | PumpSignalled | PumpDone.
#[export] Instance pump_state_eq_dec : EqDecision pump_state.
Proof. solve_decision. Defined.

Record readerFile := ReaderFile {
  rf_buf : bytes;
  rf_eof : bool;
  rf_n : notifier;
  rf_pump : pump_state;
}.
#[export] Instance eta_readerFile : Eta readerFile := λ r,
  {| rf_buf := rf_buf r; rf_eof := rf_eof r; rf_n := rf_n r; rf_pump := rf_pump r |}.

Definition newReaderFile : readerFile := ReaderFile [] false new_notifier PumpReading.

(** The end of an iteration of [pump]: wait for room, or go on (or stop). *)
Definition pump_settle (f : readerFile) : bool * readerFile :=
  if (readerAhead <=? zlen (rf_buf f)) && negb (rf_eof f)
  then (false, f <| rf_pump := PumpWaiting |>)
  else (true, f <| rf_pump := if rf_eof f then PumpDone else PumpReading |>).

(** [r.Read(chunk)] has returned [data], and an error when [err] holds. *)
Definition pump_read (data : bytes) (err : bool) (f : readerFile) : bool * readerFile :=
  let f := f <| rf_buf ::= λ b, b ++ data |> in
  let f := if err then f <| rf_eof := true |> else f in
  pump_settle f.

Definition room_signal (f : readerFile) : readerFile :=
  match rf_pump f with PumpWaiting => f <| rf_pump := PumpSignalled |> | _ => f end.

Definition readerFile_read (n : Z) (f : readerFile) : (bytes * Z) * readerFile :=
  if 0 <? zlen (rf_buf f) then
    let k := Z.min n (zlen (rf_buf f)) in
    ((ztake k (rf_buf f), 0), room_signal (f <| rf_buf := zdrop k (rf_buf f) |>))
  else if rf_eof f then (([], 0), f)
  else (([], EAGAIN), f).

Definition readerFile_write (b : bytes) : Z * Z := (0, EBADF).

Definition readerFile_poll (f : readerFile) : Z :=
  if 0 <? zlen (rf_buf f) then POLLIN
  else if rf_eof f then POLLHUP
  else 0.

Definition readerFile_changed (f : readerFile) : nat * readerFile :=
  let '(ch, n) := notifier_wait (rf_n f) in (ch, f <| rf_n := n |>).

Definition readerFile_release (f : readerFile) : readerFile := f.

(** ** Output: the [io.Writer] is a parameter, a function that takes bytes and
    its own state to the count it wrote, whether it failed, and its new state. *)
Section writer.
Context {W : Type} (Write : bytes → W → (Z * bool) * W).

Definition writerFile_read (n : Z) : bytes * Z := ([], EBADF).
Definition writerFile_write (b : bytes) (w : W) : (Z * Z) * W :=
  let '((n, err), w') := Write b w in
  if err && (n =? 0) then ((0, EIO), w') else ((n, 0), w').
Definition writerFile_poll : Z := POLLOUT.
End writer.

Definition nullFile_read (n : Z) : bytes * Z := ([], 0).
Definition nullFile_write (b : bytes) : Z * Z := (zlen b, 0).
Definition nullFile_poll : Z := Z.lor POLLIN POLLOUT.

(** * Lemmas *)

(** The pump waits for room only while there is data to read. *)
Definition readerFile_wf (f : readerFile) : Prop :=
  zlen (rf_buf f) < readerAhead + pumpChunk ∧
  (rf_pump f = PumpWaiting → readerAhead ≤ zlen (rf_buf f) ∧ rf_eof f = false) ∧
  (rf_pump f = PumpReading → zlen (rf_buf f) < readerAhead ∧ rf_eof f = false).

Inductive rf_step : readerFile → readerFile → effect → Prop :=
| rs_read n f : 0 ≤ n → rf_step f (readerFile_read n f).2 Silent
| rs_pump data err f :
    rf_pump f = PumpReading → zlen data ≤ pumpChunk → data ≠ [] ∨ err = true →
    rf_step f (pump_read data err f).2 (if (pump_read data err f).1 then NotifyLater else Silent)
| rs_resume f :
    rf_pump f = PumpSignalled →
    rf_step f (pump_settle f).2 (if (pump_settle f).1 then NotifyLater else Silent).

Lemma room_signal_same f :
  rf_buf (room_signal f) = rf_buf f ∧ rf_eof (room_signal f) = rf_eof f ∧
  rf_n (room_signal f) = rf_n f.
Proof. unfold room_signal. by destruct (rf_pump f). Qed.

Lemma pump_settle_same f :
  rf_buf (pump_settle f).2 = rf_buf f ∧ rf_eof (pump_settle f).2 = rf_eof f ∧
  rf_n (pump_settle f).2 = rf_n f.
Proof. unfold pump_settle. destruct (_ && _); split_and!; done. Qed.

Lemma pump_read_same data err f :
  rf_buf (pump_read data err f).2 = rf_buf f ++ data ∧ rf_n (pump_read data err f).2 = rf_n f.
Proof.
  unfold pump_read, pump_settle. destruct err; simpl; destruct (_ && _); split; done.
Qed.

Lemma pump_settle_wf f :
  zlen (rf_buf f) < readerAhead + pumpChunk → readerFile_wf (pump_settle f).2.
Proof.
  intros Hb. unfold pump_settle, readerFile_wf.
  destruct (Z.leb_spec readerAhead (zlen (rf_buf f))); destruct (rf_eof f) eqn:E;
    simpl; rewrite ?E; split_and!; try done; try lia.
Qed.

Lemma rf_step_wf f f' e : readerFile_wf f → rf_step f f' e → readerFile_wf f'.
Proof.
  intros (Hb & Hw & Hr). destruct 1 as [n f Hn|data err f Hp Hd He|f Hp].
  - unfold readerFile_read, readerFile_wf. zcase; simpl.
    + unfold room_signal; destruct (rf_pump f) eqn:E; simpl; rewrite ?E;
        split_and!; try done; try zlia; intros _; destruct (Hr eq_refl); split; done || zlia.
    + by destruct (rf_eof f) eqn:E; simpl; rewrite E; split_and!; rewrite ?E in *.
  - unfold pump_read. apply pump_settle_wf. specialize (Hr Hp).
    destruct err; simpl; zlia.
  - by apply pump_settle_wf.
Qed.

Lemma rf_try_iff n (f : readerFile) :
  (readerFile_read n f).1.2 = EAGAIN ↔ rf_buf f = [] ∧ rf_eof f = false.
Proof.
  unfold readerFile_read. zcase.
  - simpl. split; [done|]. intros [Hn _]. rewrite Hn in *. done.
  - assert (rf_buf f = []) as -> by (apply zlen_zero; zlia).
    destruct (rf_eof f); simpl; split; try done; by intros [].
Qed.

Definition rf_try (n : Z) (f : readerFile) : option readerFile :=
  if (readerFile_read n f).1.2 =? EAGAIN then None else Some (readerFile_read n f).2.

Lemma rf_try_None n f : rf_try n f = None ↔ rf_buf f = [] ∧ rf_eof f = false.
Proof. rewrite <- (rf_try_iff n). unfold rf_try. by zcases. Qed.

#[export] Instance rf_wait (n : Z) : Waitable readerFile := {
  wt_ntf := rf_n; wt_set_ntf m f := f <| rf_n := m |>; wt_try := rf_try n;
  wt_op f f' e := readerFile_wf f ∧ rf_step f f' e }.

Lemma readerFile_read_ntf n f : rf_n (readerFile_read n f).2 = rf_n f.
Proof.
  unfold readerFile_read. zcase; simpl; [|by destruct (rf_eof f)].
  match goal with |- context [room_signal ?g] => by destruct (room_signal_same g) as (_ & _ & ->) end.
Qed.

Lemma rf_step_ntf f f' e : rf_step f f' e → rf_n f' = wt_after e (rf_n f).
Proof.
  destruct 1 as [n f Hn|data err f Hp Hd He|f Hp].
  - apply readerFile_read_ntf.
  - destruct (pump_read_same data err f) as [_ ->]. by destruct (pump_read data err f).1.
  - destruct (pump_settle_same f) as (_ & _ & ->). by destruct (pump_settle f).1.
Qed.

(** Data that arrives in an empty buffer never stalls the pump before it has
    notified: one chunk does not fill the buffer. *)
Lemma pump_read_notifies data err f :
  rf_buf f = [] → zlen data ≤ pumpChunk → (pump_read data err f).1 = true.
Proof.
  intros Hb Hd. unfold pump_read, pump_settle.
  assert (pumpChunk < readerAhead) by done.
  destruct err; simpl; rewrite Hb; simpl; (destruct (Z.leb_spec readerAhead (zlen data)); [lia|done]).
Qed.

Lemma rf_wait_laws (n : Z) : @WaitableLaws readerFile (rf_wait n).
Proof.
  split; simpl.
  - done.
  - intros m f. rewrite <- !not_eq_None_Some, !rf_try_None. done.
  - intros f f' e [_ Hs]. by apply rf_step_ntf.
  - intros f f' e [Hwf Hs] [Hb He]%rf_try_None Hyes ->.
    apply not_eq_None_Some in Hyes. apply Hyes. rewrite rf_try_None. clear Hyes.
    inversion Hs as [k f1 Hk|data err f1 Hp Hd Hor Heff|f1 Hp Heff]; subst.
    + assert ((readerFile_read k f).2 = f) as ->; [|done].
      unfold readerFile_read. rewrite Hb. simpl. by rewrite He.
    + rewrite (pump_read_notifies data err f Hb Hd) in *. done.
    + destruct (pump_settle_same f) as (-> & -> & _). done.
  - intros f f'. unfold rf_try. zcase; [done|]. intros [= <-]. left.
    apply readerFile_read_ntf.
Qed.

(** * Properties *)

(** The read-ahead buffer is bounded, and the pump sleeps only on a buffer
    that has data for the guest: at every point of every run fewer than
    96 KiB are buffered, and a pump waiting for room means that a read would
    return data. *)
Theorem readerFile_bounded (f : readerFile) :
  reachable (λ f, f = newReaderFile) (λ f f', ∃ e, rf_step f f' e) f →
  zlen (rf_buf f) < readerAhead + pumpChunk ∧
  (rf_pump f = PumpWaiting →
     readerFile_poll f = POLLIN ∧ ∀ n, 0 < n → 0 < zlen (readerFile_read n f).1.1).
Proof.
  intros Hr. assert (readerFile_wf f) as (Hb & Hw & _).
  { revert f Hr. apply reachable_inv; [by intros ? ->|].
    intros f f' _ Hf [e He]. by apply (rf_step_wf f f' e). }
  split; [done|]. intros Hp. destruct (Hw Hp) as [Hlen _].
  assert (0 < readerAhead) by done.
  unfold readerFile_poll, readerFile_read. split; [zcase; [done|lia]|].
  intros n Hn. zcase; [|lia]. zlia.
Qed.

Lemma readerFile_bounded_witness :
  let f := (readerFile_read 2 (pump_read [1;2;3] false newReaderFile).2).2 in
  zlen (rf_buf f) < readerAhead + pumpChunk.
Proof.
  intros f. apply (readerFile_bounded f). exists newReaderFile. split; [done|].
  apply (rtc_l _ _ (pump_read [1;2;3] false newReaderFile).2).
  - eexists. apply (rs_pump [1;2;3] false newReaderFile); [done|by vm_compute|by left].
  - apply rtc_once. eexists. by apply (rs_read 2).
Defined.

(** A process blocked reading stdin is woken: whenever it is asleep while there
    is input or end of file to report, its channel is closed or the pump is
    about to notify. *)
Theorem readerFile_woken (n : Z) (y : system readerFile) (t c : nat) :
  reachable (@sys_init readerFile newReaderFile) (@sys_step readerFile (rf_wait n)) y →
  sys_waiters y !! t = Some (Asleep c) → readerFile_poll (sys_state y) ≠ 0 →
  chan_closed (rf_n (sys_state y)) c = true ∨ (0 < sys_pending y)%nat.
Proof.
  intros Hr Ht Hp. apply (@no_lost_wakeup _ (rf_wait n) (rf_wait_laws n) newReaderFile y t c Hr Ht).
  simpl. apply not_eq_None_Some. rewrite rf_try_None. intros [Hb He].
  apply Hp. unfold readerFile_poll. by rewrite Hb, He.
Qed.

Lemma readerFile_woken_witness :
  let f := (pump_read [65] false (readerFile_changed newReaderFile).2).2 in
  chan_closed (rf_n f) 0 = true ∨ (0 < 1)%nat.
Proof.
  intros f.
  apply (readerFile_woken 8
           (System f 1 (<[0%nat := Asleep 0]> (<[0%nat := Took 0]> {[0%nat := Running]}))) 0 0);
    [|apply lookup_insert_eq|by vm_compute].
  pose proof (@one_sleeper _ (rf_wait 8) newReaderFile newReaderFile f NotifyLater) as Hone.
  simpl in Hone. apply Hone; [apply rtc_refl|by vm_compute|]. split; [by vm_compute|].
  apply (rs_pump [65] false (readerFile_changed newReaderFile).2); [done|by vm_compute|by left].
Defined.
