(* ===== verification/FdTable.v ===== *)
(** Host file descriptors ([src/internal/kernel/fdtable.go]): the interface
    every kind of file implements, open file descriptions shared by [dup] and
    [spawn] with their reference counts, a process's descriptor table, and the
    loop that makes a non-blocking operation block. *)
From S2P Require Import Prelude Abi Notify Signals Sema.

(** The interface [file].  [F] is a file, [W] the state of all the files and
    [Ch] a channel; [file_changed] is [None] when readiness never changes. *)
Class FileOps (F W Ch : Type) := {
  file_read : F → Z → W → (bytes * Z) * W;
  file_write : F → bytes → W → (Z * Z) * W;
  file_poll : F → W → Z;
  file_changed : F → W → option Ch * W;
  file_release : F → W → W;
}.

Record openFile (F : Type) := OpenFile { of_f : F; of_flags : Z; of_refs : Z }.
Arguments OpenFile {F}. Arguments of_f {F}. Arguments of_flags {F}. Arguments of_refs {F}.
#[export] Instance eta_openFile F : Eta (openFile F) := λ r,
  {| of_f := of_f r; of_flags := of_flags r; of_refs := of_refs r |}.

(** The open file descriptions by address, and the files they refer to. *)
Record ofiles (F W : Type) := OFiles {
  o_heap : gmap nat (openFile F); o_next : nat; o_files : W }.
Arguments OFiles {F W}. Arguments o_heap {F W}. Arguments o_next {F W}. Arguments o_files {F W}.
#[export] Instance eta_ofiles F W : Eta (ofiles F W) := λ r,
  {| o_heap := o_heap r; o_next := o_next r; o_files := o_files r |}.

Record fdEntry := FdEntry { fe_of : nat; fe_cloexec : bool }.
#[export] Instance eta_fdEntry : Eta fdEntry := λ r,
  {| fe_of := fe_of r; fe_cloexec := fe_cloexec r |}.
#[export] Instance fdEntry_eq_dec : EqDecision fdEntry.
Proof. solve_decision. Defined.

Abbreviation fdTable := (gmap Z fdEntry).

Definition newFDTable : fdTable := ∅.

Section fdtable.
Context {F W Ch : Type} `{FileOps F W Ch}.
Implicit Types (s : ofiles F W) (t : fdTable).

Definition newOpenFile (f : F) (flags : Z) s : nat * ofiles F W :=
  (o_next s, s <| o_heap ::= <[o_next s := OpenFile f flags 0]> |> <| o_next ::= S |>).

Definition nonblock (p : nat) s : bool :=
  match o_heap s !! p with
  | Some f => negb (Z.land (of_flags f) O_NONBLOCK =? 0)
  | None => false
  end.

Definition ref (p : nat) s : ofiles F W :=
  s <| o_heap ::= alter (λ f, f <| of_refs ::= λ n, i32 (n + 1) |>) p |>.

Definition unref (p : nat) s : ofiles F W :=
  match o_heap s !! p with
  | None => s
  | Some f =>
      let refs := i32 (of_refs f - 1) in
      let s := s <| o_heap ::= <[p := f <| of_refs := refs |>]> |> in
      if refs =? 0 then s <| o_files ::= file_release (of_f f) |> else s
  end.

(** [install] puts the file at [fd], then closes what was there. *)
Definition install (fd : Z) (p : nat) (cloexec : bool) t s : fdTable * ofiles F W :=
  let old := t !! fd in
  let s := ref p s in
  let t := <[fd := FdEntry p cloexec]> t in
  (t, match old with Some e => unref (fe_of e) s | None => s end).

(** The lowest free number at or above [fd]; [fuel] bounds the search. *)
Fixpoint free_fd (t : fdTable) (fd : Z) (fuel : nat) : Z :=
  match fuel with
  | O => fd
  | S fuel => match t !! fd with Some _ => free_fd t (i32 (fd + 1)) fuel | None => fd end
  end.

Definition fd_add (p : nat) (cloexec : bool) t s : Z * fdTable * ofiles F W :=
  let fd := free_fd t FDBase (S (size t)) in
  (fd, <[fd := FdEntry p cloexec]> t, ref p s).

Definition fd_get (fd : Z) t : option nat := fe_of <$> t !! fd.

Definition fd_close (fd : Z) t s : Z * fdTable * ofiles F W :=
  match t !! fd with
  | None => (- EBADF, delete fd t, s)
  | Some e => (0, delete fd t, unref (fe_of e) s)
  end.

Definition getCloexec (fd : Z) t : bool * bool :=
  match t !! fd with None => (false, false) | Some e => (fe_cloexec e, true) end.

Definition setCloexec (fd : Z) (cloexec : bool) t : bool * fdTable :=
  match t !! fd with
  | None => (false, t)
  | Some e => (true, <[fd := e <| fe_cloexec := cloexec |>]> t)
  end.

(** Each entry not marked close-on-exec, and a reference for each. *)
Definition cloneForExec t s : fdTable * ofiles F W :=
  let kept := filter (λ e : Z * fdEntry, fe_cloexec e.2 = false) t in
  ((λ e, FdEntry (fe_of e) false) <$> kept,
   foldr (λ e, ref (fe_of e.2)) s (map_to_list kept)).

(** The table is emptied first; then the references go, in descriptor order. *)
Definition fd_closeAll t s : fdTable * ofiles F W :=
  let keys := merge_sort Z.le (map_to_list t).*1 in
  (∅, foldl (λ s fd, match t !! fd with Some e => unref (fe_of e) s | None => s end) s keys).

(** *** The file handlers of host.go that only use the table *)
Definition validHostFD (fd : Z) : bool := ((0 <=? fd) && (fd <=? 2)) || (FDBase <=? fd).

Definition fdHost_Close (fd : Z) t s := fd_close fd t s.

Definition fdHost_Dup (fd newFd : Z) t s : Z * fdTable * ofiles F W :=
  match fd_get fd t with
  | None => (- EBADF, t, s)
  | Some p =>
      if newFd <? 0 then fd_add p false t s
      else if negb (validHostFD newFd) then (- EBADF, t, s)
      else if negb (newFd =? fd) then (newFd, (install newFd p false t s).1, (install newFd p false t s).2)
      else (newFd, t, s)
  end.

Definition fdHost_Fcntl (fd cmd arg : Z) t s : Z * fdTable * ofiles F W :=
  match fd_get fd t with
  | None => (- EBADF, t, s)
  | Some p =>
      if cmd =? F_GETFD then
        (if (getCloexec fd t).1 then FD_CLOEXEC else 0, t, s)
      else if cmd =? F_SETFD then
        (0, (setCloexec fd (negb (Z.land arg FD_CLOEXEC =? 0)) t).2, s)
      else if cmd =? F_GETFL then
        (match o_heap s !! p with Some f => of_flags f | None => 0 end, t, s)
      else if cmd =? F_SETFL then
        (0, t, s <| o_heap ::= alter (λ f, f <| of_flags := Z.land arg O_NONBLOCK |>) p |>)
      else if (cmd =? F_DUPFD) || (cmd =? F_DUPFD_CLOEXEC) then
        fd_add p (cmd =? F_DUPFD_CLOEXEC) t s
      else (- EINVAL, t, s)
  end.

(** *** Blocking input and output

    [S] is everything the operation can touch.  Each element of the schedule
    is what the other processes do while this one is blocked, and how [block]
    ends; [None] is a call still blocked at the end of the schedule. *)
Fixpoint fd_io {S : Type} (changed : S → S) (op : S → (Z * Z) * S) (nonblock : S → bool)
    (sched : list ((S → S) * wakeReason)) (s : S) : option (hostret * S) :=
  let '((n, errno), s) := op (changed s) in
  if errno =? 0 then Some ((i32 n, None), s)
  else if negb (errno =? EAGAIN) || nonblock s then Some ((- errno, None), s)
  else match sched with
       | [] => None
       | (env, r) :: sched =>
           match r with
           | interrupted => Some ((- EINTR, None), env s)
           | killed => Some ((0, Some errKilled), env s)
           | _ => fd_io changed op nonblock sched (env s)
           end
       end.
End fdtable.

(** * Reference counting

    A file that only records its release: description [p] refers to file [p],
    and the state is the list of the files released so far. *)
#[export] Instance log_files : FileOps nat (list nat) unit := {
  file_read _ _ l := (([], 0), l); file_write _ _ l := ((0, 0), l); file_poll _ _ := 0;
  file_changed _ l := (None, l); file_release p l := p :: l }.

Definition tab_count (p : nat) (t : fdTable) : Z := map_count (λ e, Nat.eqb (fe_of e) p) t.
Definition total (tabs : gmap nat fdTable) (p : nat) : Z := map_sum (tab_count p) tabs.
Definition here (p q : nat) : Z := if Nat.eqb p q then 1 else 0.

Record fsys := FSys { fs_tabs : gmap nat fdTable; fs_o : ofiles nat (list nat) }.
Definition fs_empty : fsys := FSys ∅ (OFiles ∅ 0 []).

(** What processes do with descriptors: start without any, open a file
    ([Pipe], [Socket], [Devnull], ...), set up stdio, duplicate, change flags,
    close, spawn a child, exit. *)
Inductive fs_step : relation fsys :=
| fs_start i tabs s :
    tabs !! i = None → fs_step (FSys tabs s) (FSys (<[i := newFDTable]> tabs) s)
| fs_open i t tabs flags cloexec s s1 fd t' s2 :
    tabs !! i = Some t → newOpenFile (o_next s) flags s = (o_next s, s1) →
    fd_add (o_next s) cloexec t s1 = (fd, t', s2) →
    fs_step (FSys tabs s) (FSys (<[i := t']> tabs) s2)
| fs_stdio i t tabs fd flags s s1 t' s2 :
    tabs !! i = Some t → newOpenFile (o_next s) flags s = (o_next s, s1) →
    install fd (o_next s) false t s1 = (t', s2) →
    fs_step (FSys tabs s) (FSys (<[i := t']> tabs) s2)
| fs_dup i t tabs fd newfd s r t' s' :
    tabs !! i = Some t → fdHost_Dup fd newfd t s = (r, t', s') →
    fs_step (FSys tabs s) (FSys (<[i := t']> tabs) s')
| fs_fcntl i t tabs fd cmd arg s r t' s' :
    tabs !! i = Some t → fdHost_Fcntl fd cmd arg t s = (r, t', s') →
    fs_step (FSys tabs s) (FSys (<[i := t']> tabs) s')
| fs_close i t tabs fd s r t' s' :
    tabs !! i = Some t → fdHost_Close fd t s = (r, t', s') →
    fs_step (FSys tabs s) (FSys (<[i := t']> tabs) s')
| fs_spawn i t tabs j s t' s' :
    tabs !! i = Some t → tabs !! j = None → cloneForExec t s = (t', s') →
    fs_step (FSys tabs s) (FSys (<[j := t']> tabs) s')
| fs_exit i t tabs s t' s' :
    tabs !! i = Some t → fd_closeAll t s = (t', s') →
    fs_step (FSys tabs s) (FSys (<[i := t']> tabs) s').

(** Runs in which neither the [int32] reference counts nor the descriptor
    numbers overflow. *)
Definition fits (y : fsys) : Prop :=
  (∀ p, total (fs_tabs y) p < 2 ^ 31 - 1) ∧
  ∀ i t, fs_tabs y !! i = Some t → FDBase + Z.of_nat (size t) < 2 ^ 31.

Definition fs_bounded (y y' : fsys) : Prop := fs_step y y' ∧ fits y'.

(** [c p] references to each description, as many as [of_refs] says; those
    without any have been released, once. *)
Record fd_inv (c : nat → Z) (s : ofiles nat (list nat)) : Prop := {
  fi_heap p : (p < o_next s)%nat → ∃ f, o_heap s !! p = Some f ∧ of_f f = p ∧ of_refs f = c p;
  fi_new p : (o_next s ≤ p)%nat → o_heap s !! p = None ∧ c p = 0;
  fi_once : NoDup (o_files s);
  fi_log p : p ∈ o_files s ↔ (p < o_next s)%nat ∧ c p = 0;
}.

Lemma fd_inv_ext c c' s : (∀ p, c p = c' p) → fd_inv c s → fd_inv c' s.
Proof. intros E [Hh Hn Ho Hl]. split; intros; rewrite <- ?E; auto. Qed.

Lemma tab_count_nonneg p t : 0 ≤ tab_count p t.
Proof. apply map_count_nonneg. Qed.
Lemma total_nonneg tabs p : 0 ≤ total tabs p.
Proof. apply map_sum_nonneg. intros. apply tab_count_nonneg. Qed.
Lemma total_ge tabs i t p : tabs !! i = Some t → tab_count p t ≤ total tabs p.
Proof. intros. apply (map_sum_ge (tab_count p) tabs i t); [|done]. intros. apply tab_count_nonneg. Qed.
Lemma total_insert tabs i t' p :
  total (<[i := t']> tabs) p =
    total tabs p + tab_count p t' - from_option (tab_count p) 0 (tabs !! i).
Proof. unfold total. rewrite map_sum_insert. lia. Qed.
Lemma tab_count_insert p fd e t :
  tab_count p (<[fd := e]> t) =
    tab_count p t + here (fe_of e) p - match t !! fd with Some u => here (fe_of u) p | None => 0 end.
Proof. unfold tab_count, here. rewrite map_count_insert. lia. Qed.
Lemma tab_count_delete p fd t :
  tab_count p (delete fd t) =
    tab_count p t - match t !! fd with Some u => here (fe_of u) p | None => 0 end.
Proof.
  unfold tab_count, map_count, here. rewrite map_sum_delete_any. by destruct (t !! fd).
Qed.
Lemma tab_count_pos p fd e t : t !! fd = Some e → fe_of e = p → 0 < tab_count p t.
Proof. intros. apply (map_count_pos _ t fd e); [done|]. by apply Nat.eqb_eq. Qed.
Lemma here_eq p : here p p = 1.
Proof. unfold here. by rewrite Nat.eqb_refl. Qed.
Lemma here_ne p q : p ≠ q → here p q = 0.
Proof. unfold here. intros. by rewrite (proj2 (Nat.eqb_neq p q)). Qed.
Lemma here_cases p q : (p = q ∧ here p q = 1) ∨ (p ≠ q ∧ here p q = 0).
Proof. destruct (decide (p = q)) as [->|]; [left; by rewrite here_eq|right; by rewrite here_ne]. Qed.

(** Case analysis on which description is meant. *)
Ltac here_case p q := destruct (here_cases p q) as [[<- ->]|[? ->]].

Lemma ref_inv c p s :
  fd_inv c s → 0 < c p → c p + 1 < 2 ^ 31 → fd_inv (λ q, c q + here p q) (ref p s).
Proof.
  intros [Hh Hn Ho Hl] Hp Hb. split; simpl.
  - intros q Hq. destruct (Hh q Hq) as (f & Hf & Hff & Hr). here_case p q.
    + rewrite lookup_alter_eq, Hf. simpl. eexists. split; [done|]. split; [done|]. simpl.
      rewrite Hr, wrapS_small; lia.
    + rewrite lookup_alter_ne by done. exists f. split_and!; [done..|lia].
  - intros q Hq. destruct (Hn q Hq) as [Hf Hc]. here_case p q; [lia|].
    rewrite lookup_alter_ne by done. split; [done|lia].
  - done.
  - intros q. rewrite Hl. here_case p q; split; intros []; split; try done; lia.
Qed.

Lemma new_ref_inv c flags s p s1 :
  newOpenFile (o_next s) flags s = (p, s1) → fd_inv c s → fd_inv (λ q, c q + here p q) (ref p s1).
Proof.
  intros [= <- <-] [Hh Hn Ho Hl]. destruct (Hn (o_next s) ltac:(lia)) as [Hnone Hz]. split; simpl.
  - intros q Hq. here_case (o_next s) q.
    + rewrite lookup_alter_eq, lookup_insert_eq. simpl. eexists. split; [done|].
      split; [done|]. simpl. rewrite wrapS_small; lia.
    + rewrite lookup_alter_ne, lookup_insert_ne by done. destruct (Hh q ltac:(lia)) as (f & ? & ? & ?).
      exists f. split_and!; [done..|lia].
  - intros q Hq. here_case (o_next s) q; [lia|].
    rewrite lookup_alter_ne, lookup_insert_ne by done. destruct (Hn q ltac:(lia)). split; [done|lia].
  - done.
  - intros q. rewrite Hl. here_case (o_next s) q; split; intros []; split; try lia.
Qed.

Lemma unref_inv c p s :
  fd_inv c s → 0 < c p < 2 ^ 31 → fd_inv (λ q, c q - here p q) (unref p s).
Proof.
  intros [Hh Hn Ho Hl] Hp.
  assert (p < o_next s)%nat as Hlt by (destruct (decide (o_next s ≤ p)%nat) as [[]%Hn|]; lia).
  destruct (Hh p Hlt) as (f & Hf & Hff & Hr). unfold unref. rewrite Hf, Hr, wrapS_small by lia.
  assert (p ∉ o_files s) as Hnin by (rewrite Hl; lia).
  split.
  - intros q Hq. exists (if decide (p = q) then f <| of_refs := c p - 1 |> else from_option id f (o_heap s !! q)).
    destruct (Hh q) as (g & Hg & Hgf & Hgr); [by zcase|].
    here_case p q; [rewrite decide_True by done|rewrite decide_False, Hg by done; simpl];
      zcase; simpl; rewrite ?lookup_insert_eq, ?lookup_insert_ne by done; split_and!; done || lia.
  - intros q Hq. assert (o_next s ≤ q)%nat as Hq' by (by zcase). destruct (Hn q Hq') as [? ?].
    here_case p q; [lia|]. zcase; simpl; rewrite lookup_insert_ne by done; split; done || lia.
  - zcase; simpl; [|done]. rewrite Hff. by constructor.
  - intros q. zcase; simpl.
    + rewrite Hff, elem_of_cons, Hl. here_case p q; split; intros; intuition (try lia); done.
    + rewrite Hl. here_case p q; split; intros; intuition (try lia).
Qed.

(** A table and the rest of the references, [r], to the same descriptions. *)
Section table_inv.
Context (r : nat → Z) (Hr : ∀ p, 0 ≤ r p).
Implicit Types (t : fdTable) (s : ofiles nat (list nat)).

Definition tab_inv t s : Prop :=
  fd_inv (λ p, r p + tab_count p t) s ∧ ∀ p, r p + tab_count p t < 2 ^ 31 - 1.

Lemma tab_inv_intro c t s :
  fd_inv c s → (∀ p, c p = r p + tab_count p t) → (∀ p, r p + tab_count p t < 2 ^ 31 - 1) →
  tab_inv t s.
Proof. intros Hc He Hb. split; [by apply (fd_inv_ext c)|done]. Qed.

Lemma install_inv fd p cloexec t s s0 t' s' :
  tab_inv t s0 → fd_inv (λ q, r q + tab_count q t + here p q) (ref p s) →
  install fd p cloexec t s = (t', s') →
  (∀ q, r q + tab_count q t' < 2 ^ 31 - 1) → tab_inv t' s'.
Proof.
  unfold install. intros [_ Hb0] Hs [= <- <-] Hb.
  destruct (t !! fd) as [e|] eqn:Hfd.
  - apply (tab_inv_intro (λ q, r q + tab_count q t + here p q - here (fe_of e) q));
      [|intros q; rewrite tab_count_insert, Hfd; simpl; lia|done].
    apply unref_inv; [done|]. pose proof (tab_count_pos _ fd e t Hfd eq_refl).
    specialize (Hr (fe_of e)). specialize (Hb0 (fe_of e)).
    destruct (here_cases p (fe_of e)) as [[_ ->]|[_ ->]]; lia.
  - apply (tab_inv_intro _ _ _ Hs); [|done]. intros q. rewrite tab_count_insert, Hfd. simpl. lia.
Qed.

Lemma add_inv p cloexec t s fd t' s' :
  t !! free_fd t FDBase (S (size t)) = None →
  fd_inv (λ q, r q + tab_count q t + here p q) (ref p s) →
  fd_add p cloexec t s = (fd, t', s') →
  (∀ q, r q + tab_count q t' < 2 ^ 31 - 1) → tab_inv t' s'.
Proof.
  unfold fd_add. set (x := free_fd _ _ _). clearbody x. intros Hfree Hs [= <- <- <-] Hb.
  apply (tab_inv_intro _ _ _ Hs); [|done]. intros q. rewrite tab_count_insert, Hfree. simpl. lia.
Qed.

Lemma table_ref_inv fd p t s :
  tab_inv t s → fd_get fd t = Some p → fd_inv (λ q, r q + tab_count q t + here p q) (ref p s).
Proof.
  intros [Hs Hb] Hp. unfold fd_get in Hp. destruct (t !! fd) as [e|] eqn:Hfd; simplify_eq/=.
  pose proof (tab_count_pos _ fd e t Hfd eq_refl). pose proof (Hr (fe_of e)). pose proof (Hb (fe_of e)).
  apply ref_inv; [done|lia..].
Qed.

Lemma close_inv fd t s rv t' s' : tab_inv t s → fd_close fd t s = (rv, t', s') → tab_inv t' s'.
Proof.
  unfold fd_close. intros [Hs Hb]. destruct (t !! fd) as [e|] eqn:Hfd; intros [= <- <- <-].
  - pose proof (tab_count_pos _ fd e t Hfd eq_refl). pose proof (Hr (fe_of e)).
    pose proof (Hb (fe_of e)).
    apply (tab_inv_intro (λ q, r q + tab_count q t - here (fe_of e) q)).
    + apply (unref_inv (λ q, r q + tab_count q t)); [done|lia].
    + intros q. rewrite tab_count_delete, Hfd. lia.
    + intros q. rewrite tab_count_delete, Hfd. specialize (Hb q).
      destruct (here_cases (fe_of e) q) as [[_ ->]|[_ ->]]; lia.
  - rewrite delete_id by done. done.
Qed.

Lemma closeAll_loop (t0 : fdTable) keys t s :
  keys ≡ₚ (map_to_list t).*1 → t ⊆ t0 → tab_inv t s →
  tab_inv ∅ (foldl (λ s fd, match t0 !! fd with Some e => unref (fe_of e) s | None => s end) s keys).
Proof.
  revert t s. induction keys as [|fd keys IH]; intros t s Hk Hsub Ht; simpl.
  - symmetry in Hk. apply Permutation_nil_r in Hk.
    apply fmap_nil_inv, map_to_list_empty_iff in Hk. by subst.
  - assert (fd ∈ (map_to_list t).*1) as Hin by (rewrite <- Hk; constructor).
    apply list_elem_of_fmap in Hin as ([fd' e] & -> & Hin%elem_of_map_to_list). simpl in *.
    rewrite (lookup_weaken _ _ _ _ Hin Hsub).
    destruct (fd_close fd' t s) as [[rv t'] s'] eqn:Hc.
    pose proof (close_inv _ _ _ _ _ _ Ht Hc) as Ht'.
    unfold fd_close in Hc. rewrite Hin in Hc. simplify_eq.
    apply (IH (delete fd' t)); [|by trans t; [apply delete_subseteq|]|done].
    apply (Permutation_cons_inv (a := fd')). rewrite Hk.
    by rewrite <- (map_to_list_delete t fd' e Hin).
Qed.

Lemma closeAll_inv t s t' s' : tab_inv t s → fd_closeAll t s = (t', s') → tab_inv t' s'.
Proof.
  unfold fd_closeAll. intros Ht [= <- <-]. apply (closeAll_loop t _ t); [|done..].
  apply merge_sort_Permutation.
Qed.
End table_inv.

(** References taken one by one for the entries of a list. *)
Lemma refs_inv (l : list (Z * fdEntry)) c s :
  fd_inv c s → (∀ e, e ∈ l → 0 < c (fe_of e.2)) → (∀ p, 0 ≤ c p) →
  (∀ p, c p + foldr (λ e n, here (fe_of e.2) p + n) 0 l < 2 ^ 31) →
  fd_inv (λ p, c p + foldr (λ e n, here (fe_of e.2) p + n) 0 l) (foldr (λ e, ref (fe_of e.2)) s l).
Proof.
  intros Hs Hpos Hc Hb. induction l as [|e l IH]; simpl.
  - apply (fd_inv_ext c); [intros; lia|done].
  - simpl in *.
    assert (∀ p, 0 ≤ here (fe_of e.2) p) as Hh by (intros p; unfold here; case_match; lia).
    assert (∀ p, 0 ≤ foldr (λ e n, here (fe_of e.2) p + n) 0 l) as Hf.
    { intros p. clear. induction l; simpl; [lia|]. unfold here in *. case_match; lia. }
    assert (∀ p, c p + foldr (λ e n, here (fe_of e.2) p + n) 0 l < 2 ^ 31) as Hb'
      by (intros p; specialize (Hb p); specialize (Hh p); lia).
    specialize (IH (λ e' He', Hpos e' (list_elem_of_further _ _ _ He')) Hb').
    eapply fd_inv_ext; [|apply (ref_inv _ (fe_of e.2) _ IH)].
    + intros p. simpl. lia.
    + specialize (Hpos e ltac:(constructor)). specialize (Hf (fe_of e.2)). simpl. lia.
    + specialize (Hb (fe_of e.2)). rewrite here_eq in Hb. simpl. lia.
Qed.

Lemma tab_count_list p t :
  tab_count p t = foldr (λ e n, here (fe_of e.2) p + n) 0 (map_to_list t).
Proof.
  unfold tab_count, map_count, map_sum. rewrite map_fold_foldr.
  by induction (map_to_list t) as [|[k e] l IH]; simpl; [|rewrite IH].
Qed.

Lemma tab_count_fmap p (t : fdTable) :
  tab_count p ((λ e, FdEntry (fe_of e) false) <$> t) = tab_count p t.
Proof.
  induction t as [|k e t Hk IH] using map_ind; [done|].
  rewrite fmap_insert, !tab_count_insert, lookup_fmap, Hk, IH. done.
Qed.

Lemma clone_inv c t s t' s' :
  fd_inv c s → (∀ p, tab_count p t ≤ c p) → (∀ p, c p + tab_count p t' < 2 ^ 31) →
  cloneForExec t s = (t', s') → fd_inv (λ p, c p + tab_count p t') s'.
Proof.
  unfold cloneForExec. intros Hs Hc Hb [= <- <-].
  set (kept := filter _ t) in *.
  eapply fd_inv_ext; [|apply (refs_inv (map_to_list kept) c)].
  - intros p. by rewrite tab_count_fmap, tab_count_list.
  - done.
  - intros [fd e] [Hfd _]%elem_of_map_to_list%map_lookup_filter_Some.
    pose proof (tab_count_pos _ fd e t Hfd eq_refl). specialize (Hc (fe_of e)). simpl. lia.
  - intros p. pose proof (tab_count_nonneg p t). specialize (Hc p). lia.
  - intros p. rewrite <- tab_count_list. specialize (Hb p). by rewrite tab_count_fmap in Hb.
Qed.

(** ** The lowest free descriptor *)
Lemma used_below (t : fdTable) (n : nat) a :
  (∀ x, a ≤ x < a + Z.of_nat n → is_Some (t !! x)) → (n ≤ size t)%nat.
Proof.
  intros Hused.
  assert (list_to_set (seqZ a (Z.of_nat n)) ⊆ dom t) as Hsub.
  { intros x. rewrite elem_of_list_to_set, elem_of_seqZ, elem_of_dom. apply Hused. }
  apply subseteq_size in Hsub. rewrite size_dom in Hsub.
  rewrite size_list_to_set in Hsub by apply NoDup_seqZ. rewrite length_seqZ in Hsub. lia.
Qed.

Lemma free_fd_spec (t : fdTable) (fuel : nat) fd n :
  (∀ x, FDBase ≤ x < fd → is_Some (t !! x)) → fd = FDBase + Z.of_nat n →
  (size t < n + fuel)%nat → FDBase + Z.of_nat (size t) < 2 ^ 31 →
  let r := free_fd t fd fuel in
  FDBase ≤ r ≤ FDBase + Z.of_nat (size t) ∧ t !! r = None ∧
  ∀ x, FDBase ≤ x < r → is_Some (t !! x).
Proof.
  revert fd n. induction fuel as [|fuel IH]; intros fd n Hused Hn Hf Hsz; simpl.
  - pose proof (used_below t n FDBase) as Hu. rewrite <- Hn in Hu. specialize (Hu Hused). lia.
  - pose proof (used_below t n FDBase) as Hu. rewrite <- Hn in Hu. specialize (Hu Hused).
    destruct (t !! fd) as [e|] eqn:Hfd; [|split_and!; [lia|lia|done|done]].
    assert (∀ x, FDBase ≤ x < fd + 1 → is_Some (t !! x)) as Hused'.
    { intros x Hx. destruct (decide (x = fd)) as [->|]; [by eexists|]. apply Hused. lia. }
    pose proof (used_below t (S n) FDBase) as Hu'.
    assert (S n ≤ size t)%nat by (apply Hu'; intros x Hx; apply Hused'; lia).
    assert (0 < FDBase) by done. rewrite wrapS_small by lia.
    apply (IH _ (S n)); [done|lia..].
Qed.

Lemma free_fd_base (t : fdTable) :
  FDBase + Z.of_nat (size t) < 2 ^ 31 →
  let r := free_fd t FDBase (S (size t)) in
  FDBase ≤ r ≤ FDBase + Z.of_nat (size t) ∧ t !! r = None ∧
  ∀ x, FDBase ≤ x < r → is_Some (t !! x).
Proof. intros. apply (free_fd_spec t _ _ 0); [lia|lia|lia|done]. Qed.

(** ** Every run keeps the counts *)
Definition fs_ok (y : fsys) : Prop :=
  fd_inv (total (fs_tabs y)) (fs_o y) ∧ (∀ p, total (fs_tabs y) p < 2 ^ 31 - 1) ∧
  ∀ i t, fs_tabs y !! i = Some t → FDBase + Z.of_nat (size t) < 2 ^ 31.

Definition rest (tabs : gmap nat fdTable) (t : fdTable) (p : nat) : Z := total tabs p - tab_count p t.

Lemma rest_nonneg tabs i t p : tabs !! i = Some t → 0 ≤ rest tabs t p.
Proof. intros Hi. pose proof (total_ge tabs i t p Hi). unfold rest. lia. Qed.

Lemma rest_insert tabs i t t' p :
  tabs !! i = Some t → total (<[i := t']> tabs) p = rest tabs t p + tab_count p t'.
Proof. intros Hi. rewrite total_insert, Hi. unfold rest. simpl. lia. Qed.

Lemma fs_ok_table tabs i t (s : ofiles nat (list nat)) :
  fs_ok (FSys tabs s) → tabs !! i = Some t → tab_inv (rest tabs t) t s.
Proof.
  intros (Hs & Hb & _) Hi. split; simpl in *.
  - apply (fd_inv_ext (total tabs)); [|done]. intros p. unfold rest. lia.
  - intros p. specialize (Hb p). unfold rest. lia.
Qed.

Lemma fs_ok_update tabs i t t' (s s' : ofiles nat (list nat)) :
  tabs !! i = Some t → fits (FSys (<[i := t']> tabs) s') → tab_inv (rest tabs t) t' s' →
  fs_ok (FSys (<[i := t']> tabs) s').
Proof.
  intros Hi [Hf1 Hf2] [Ht _]. split_and!; [|done..]. simpl.
  apply (fd_inv_ext (λ p, rest tabs t p + tab_count p t')); [|done].
  intros p. by rewrite (rest_insert _ _ _ _ _ Hi).
Qed.

Lemma dup_inv r fd newfd t s rv t' s' :
  (∀ p, 0 ≤ r p) → FDBase + Z.of_nat (size t) < 2 ^ 31 → tab_inv r t s →
  fdHost_Dup fd newfd t s = (rv, t', s') →
  (∀ q, r q + tab_count q t' < 2 ^ 31 - 1) → tab_inv r t' s'.
Proof.
  intros Hr Hsz Ht. unfold fdHost_Dup. destruct (fd_get fd t) as [p|] eqn:Hp; [|by intros [= <- <- <-]].
  pose proof (table_ref_inv r Hr fd p t s Ht Hp) as Href.
  destruct (_ <? _); [|destruct (negb (validHostFD _)); [|destruct (negb (_ =? _))]].
  - intros Hadd Hb. apply (add_inv r p false t s rv); [by apply free_fd_base|done..].
  - by intros [= <- <- <-].
  - destruct (install newfd p false t s) as [t2 s2] eqn:E. intros [= <- <- <-] Hb.
    by apply (install_inv r Hr newfd p false t s s t2 s2).
  - by intros [= <- <- <-].
Qed.

Lemma tab_inv_setfl r p flags t (s : ofiles nat (list nat)) :
  tab_inv r t s → tab_inv r t (s <| o_heap ::= alter (λ f, f <| of_flags := flags |>) p |>).
Proof.
  intros [[Hh Hn Ho Hl] Hb]. split; [split; simpl|done]; [| |done|done].
  - intros q Hq. destruct (Hh q Hq) as (f & Hf & Hff & Hrf).
    destruct (decide (p = q)) as [->|]; [|rewrite lookup_alter_ne by done; by exists f].
    rewrite lookup_alter_eq, Hf. simpl. by eexists.
  - intros q Hq. destruct (Hn q Hq) as [Hf Hc]. split; [|done].
    destruct (decide (p = q)) as [->|]; [by rewrite lookup_alter_eq, Hf|by rewrite lookup_alter_ne].
Qed.

Lemma fcntl_inv r fd cmd arg t s rv t' s' :
  (∀ p, 0 ≤ r p) → FDBase + Z.of_nat (size t) < 2 ^ 31 → tab_inv r t s →
  fdHost_Fcntl fd cmd arg t s = (rv, t', s') →
  (∀ q, r q + tab_count q t' < 2 ^ 31 - 1) → tab_inv r t' s'.
Proof.
  intros Hr Hsz Ht. unfold fdHost_Fcntl. destruct (fd_get fd t) as [p|] eqn:Hp; [|by intros [= <- <- <-]].
  pose proof (table_ref_inv r Hr fd p t s Ht Hp) as Href.
  destruct (_ =? _); [by intros [= <- <- <-]|].
  destruct (_ =? _).
  { intros [= <- <- <-] Hb. destruct Ht as [Ht _]. split; [|done].
    apply (fd_inv_ext (λ q, r q + tab_count q t)); [|done]. intros q. f_equal.
    unfold setCloexec. destruct (t !! fd) as [e|] eqn:Hfd; [|done]. simpl.
    rewrite tab_count_insert, Hfd. simpl. lia. }
  destruct (_ =? _); [by intros [= <- <- <-]|].
  destruct (_ =? _); [intros [= <- <- <-] _; by apply tab_inv_setfl|].
  destruct (_ || _); [|by intros [= <- <- <-]].
  intros Hadd Hb. apply (add_inv r p (cmd =? F_DUPFD_CLOEXEC) t s rv); [by apply free_fd_base|done..].
Qed.

Lemma fs_ok_step y y' : fs_ok y → fits y' → fs_step y y' → fs_ok y'.
Proof.
  intros Hok Hfits Hstep. destruct Hstep as
    [i tabs s Hi|i t tabs flags cloexec s s1 fd t' s2 Hi Hnew Hadd
    |i t tabs fd flags s s1 t' s2 Hi Hnew Hin|i t tabs fd newfd s r t' s' Hi Hop
    |i t tabs fd cmd arg s r t' s' Hi Hop|i t tabs fd s r t' s' Hi Hop
    |i t tabs j s t' s' Hi Hj Hop|i t tabs s t' s' Hi Hop].
  - destruct Hok as (Hs & _). destruct Hfits as [Hf1 Hf2]. split_and!; [|done..]. simpl in *.
    apply (fd_inv_ext (total tabs)); [|done]. intros p. rewrite total_insert, Hi. simpl.
    change (tab_count p newFDTable) with 0. lia.
  - apply (fs_ok_update tabs i t); [done..|].
    pose proof (fs_ok_table _ _ _ _ Hok Hi) as [Ht _]. destruct Hok as (_ & _ & Hsz).
    apply (add_inv _ (o_next s) cloexec t s1 fd); [by apply free_fd_base, (Hsz i)| |done|].
    + apply (new_ref_inv _ flags s); done.
    + intros q. rewrite <- (rest_insert _ _ _ _ _ Hi). apply Hfits.
  - apply (fs_ok_update tabs i t); [done..|].
    pose proof (fs_ok_table _ _ _ _ Hok Hi) as Ht.
    apply (install_inv _ (λ p, rest_nonneg tabs i t p Hi) fd (o_next s) false t s1 s); [done| |done|].
    + destruct Ht. by apply (new_ref_inv _ flags s).
    + intros q. rewrite <- (rest_insert _ _ _ _ _ Hi). apply Hfits.
  - apply (fs_ok_update tabs i t); [done..|].
    apply (dup_inv _ fd newfd t s r); [intros p; by apply (rest_nonneg tabs i)| |by apply (fs_ok_table _ i)|done|].
    + destruct Hok as (_ & _ & Hsz). by apply (Hsz i).
    + intros q. rewrite <- (rest_insert _ _ _ _ _ Hi). apply Hfits.
  - apply (fs_ok_update tabs i t); [done..|].
    apply (fcntl_inv _ fd cmd arg t s r); [intros p; by apply (rest_nonneg tabs i)| |by apply (fs_ok_table _ i)|done|].
    + destruct Hok as (_ & _ & Hsz). by apply (Hsz i).
    + intros q. rewrite <- (rest_insert _ _ _ _ _ Hi). apply Hfits.
  - apply (fs_ok_update tabs i t); [done..|].
    apply (close_inv _ (λ p, rest_nonneg tabs i t p Hi) fd t s r); [by apply (fs_ok_table _ i)|done].
  - destruct Hok as (Hs & Hb & Hsz). destruct Hfits as [Hf1 Hf2]. split_and!; [|done..]. simpl in *.
    apply (fd_inv_ext (λ p, total tabs p + tab_count p t')).
    { intros p. rewrite total_insert, Hj. simpl. lia. }
    apply (clone_inv _ t s); [done|intros p; by apply (total_ge _ i)| |done].
    intros p. specialize (Hf1 p). rewrite total_insert, Hj in Hf1. simpl in Hf1. lia.
  - apply (fs_ok_update tabs i t); [done..|].
    apply (closeAll_inv _ (λ p, rest_nonneg tabs i t p Hi) t s); [by apply (fs_ok_table _ i)|done].
Qed.

Lemma fs_ok_reachable y : reachable (λ y, y = fs_empty) fs_bounded y → fs_ok y.
Proof.
  apply reachable_inv.
  - intros y0 ->. split_and!; simpl; [|intros p; done|by intros].
    split; simpl; [lia|done|constructor|].
    intros p. split; [by intros ?%not_elem_of_nil|intros [? _]; lia].
  - intros y0 y1 _ Hok [Hstep Hfits]. by apply (fs_ok_step y0).
Qed.

Lemma total_pos tabs p :
  0 < total tabs p ↔ ∃ i t fd e, tabs !! i = Some t ∧ t !! fd = Some e ∧ fe_of e = p.
Proof.
  split.
  - intros (i & t & Hi & Ht)%map_sum_pos; [|intros; apply tab_count_nonneg].
    apply map_sum_pos in Ht as (fd & e & He & Hp); [|intros e; by destruct (_ =? _)%nat].
    exists i, t, fd, e. split_and!; [done..|].
    destruct (Nat.eqb_spec (fe_of e) p); [done|lia].
  - intros (i & t & fd & e & Hi & Hfd & He).
    pose proof (tab_count_pos p fd e t Hfd He). pose proof (total_ge tabs i t p Hi). lia.
Qed.

(** * Properties *)

(** C6. Every open file is released exactly once, and exactly when its last
    descriptor goes: in every state that open, dup, fcntl, close, spawn and
    exit can reach, across all processes, a description has been released if
    and only if no table has a descriptor for it, no file was released twice,
    and a description still in use is there with a positive count. *)
Theorem fd_released_once (y : fsys) :
  reachable (λ y, y = fs_empty) fs_bounded y →
  NoDup (o_files (fs_o y)) ∧
  (∀ p, p ∈ o_files (fs_o y) ↔ (p < o_next (fs_o y))%nat ∧
    ¬ ∃ i t fd e, fs_tabs y !! i = Some t ∧ t !! fd = Some e ∧ fe_of e = p) ∧
  ∀ i t fd e, fs_tabs y !! i = Some t → t !! fd = Some e →
    ∃ f, o_heap (fs_o y) !! fe_of e = Some f ∧ of_f f = fe_of e ∧ 0 < of_refs f.
Proof.
  intros Hy. destruct (fs_ok_reachable y Hy) as ([Hh Hn Ho Hl] & _). split_and!; [done|..].
  - intros p. rewrite Hl, <- total_pos. pose proof (total_nonneg (fs_tabs y) p). intuition lia.
  - intros i t fd e Hi Hfd.
    assert (0 < total (fs_tabs y) (fe_of e)) as Hpos by (apply total_pos; by exists i, t, fd, e).
    destruct (Hh (fe_of e)) as (f & Hf & Hff & Hr); [|exists f; split_and!; done || lia].
    destruct (decide (o_next (fs_o y) ≤ fe_of e)%nat) as [[_ Hz]%Hn|]; lia.
Qed.

(** One process opens a file, duplicates the descriptor over a free number,
    spawns a child, closes the original, and both exit. *)
Definition demo_fds : list fsys :=
  let s0 := OFiles ∅ 0 [] in
  let s1 := (newOpenFile 0%nat 0 s0).2 in
  let '(fd, t1, s2) := fd_add 0 false ∅ s1 in
  let '(_, t2, s3) := fdHost_Dup fd 1 t1 s2 in
  let '(t3, s4) := cloneForExec t2 s3 in
  let '(_, t4, s5) := fdHost_Close fd t2 s4 in
  let '(t5, s6) := fd_closeAll t4 s5 in
  let '(t6, s7) := fd_closeAll t3 s6 in
  [FSys {[0%nat := t2]} s3; FSys {[0%nat := t4; 1%nat := t3]} s5;
   FSys {[0%nat := t5; 1%nat := t6]} s7].

Example demo_fds_released :
  (λ y, o_files (fs_o y)) <$> demo_fds = [[]; []; [0%nat]].
Proof. reflexivity. Qed.

Lemma fits_small y :
  map_Forall (λ _ t, (size t < 10)%nat) (fs_tabs y) → (size (fs_tabs y) < 10)%nat → fits y.
Proof.
  intros Hall Hsz.
  assert (∀ p (t : fdTable), tab_count p t ≤ Z.of_nat (size t)) as Ht.
  { intros p t. induction t as [|fd e t Hfd IH] using map_ind; [done|].
    rewrite tab_count_insert, Hfd, map_size_insert_None by done.
    unfold here. case_match; lia. }
  split.
  - intros p. assert (total (fs_tabs y) p ≤ 10 * Z.of_nat (size (fs_tabs y))); [|lia].
    clear Hsz. revert Hall. generalize (fs_tabs y). intros tabs.
    induction tabs as [|i t tabs Hi IH] using map_ind; [done|].
    rewrite map_Forall_insert by done. intros [Hst Hall].
    rewrite total_insert, Hi, map_size_insert_None by done. simpl.
    specialize (IH Hall). specialize (Ht p t). lia.
  - intros i t Hi. specialize (Hall i t Hi). simpl in Hall.
    assert (FDBase + 10 < 2 ^ 31) by done. lia.
Qed.

Lemma fd_released_once_witness :
  let y := default fs_empty (demo_fds !! 0%nat) in
  fs_tabs y !! 0%nat ≠ None ∧ NoDup (o_files (fs_o y)).
Proof.
  split; [by vm_compute|]. refine (proj1 (fd_released_once _ _)). exists fs_empty. split; [done|].
  eapply rtc_l; [split; [by apply (fs_start 0)|apply fits_small; decided]|].
  eapply rtc_l; [split; [by eapply (fs_open 0 newFDTable _ 0 false)|apply fits_small; decided]|].
  eapply rtc_l; [split; [by eapply (fs_dup 0 _ _ FDBase 1)|apply fits_small; decided]|].
  apply rtc_refl.
Defined.

(** A new descriptor gets the lowest free number at or above FDBase (POSIX's
    rule, within the host's range): it was free, every number below it in the
    range is in use, no other descriptor changes, and it never collides with
    stdio or with descriptors the guest's libc numbers itself. *)
Theorem fd_add_lowest {F W Ch : Type} `{FileOps F W Ch} (p : nat) cloexec t (s s' : ofiles F W) fd t' :
  FDBase + Z.of_nat (size t) < 2 ^ 31 → fd_add p cloexec t s = (fd, t', s') →
  FDBase ≤ fd < 2 ^ 31 ∧ t !! fd = None ∧ (∀ x, FDBase ≤ x < fd → is_Some (t !! x)) ∧
  t' !! fd = Some (FdEntry p cloexec) ∧ ∀ x, x ≠ fd → t' !! x = t !! x.
Proof.
  intros Hsz. pose proof (free_fd_base t Hsz) as Hspec. unfold fd_add.
  set (x := free_fd _ _ _) in *. clearbody x. simpl in Hspec.
  destruct Hspec as (Hx & Hfree & Hused). intros [= <- <- <-].
  split_and!; [lia|lia|done|done|apply lookup_insert_eq|].
  intros y Hy. by apply lookup_insert_ne.
Qed.

Lemma fd_add_lowest_witness :
  let t : fdTable := <[FDBase := FdEntry 0 false]> (<[FDBase + 2 := FdEntry 1 false]> ∅) in
  let '(fd, t', s') := @fd_add nat (list nat) 7 true t (OFiles ∅ 8 []) in
  fd = FDBase + 1 ∧ t !! fd = None ∧ t' !! fd = Some (FdEntry 7 true).
Proof.
  intros t. destruct (fd_add 7 true t (OFiles ∅ 8 [])) as [[fd t'] s'] eqn:E.
  assert (fd = FDBase + 1) as -> by (vm_compute in E; by injection E).
  split; [done|].
  pose proof (fd_add_lowest (H := log_files) 7 true t (OFiles ∅ 8 []) s' (FDBase + 1) t') as Hp.
  destruct Hp as (_ & Hf & _ & Ht & _); [by vm_compute|exact E|]. by split.
Defined.

(** A spawned child starts with exactly its parent's descriptors that are not
    close-on-exec, at the same numbers, referring to the same open files, and
    with the flag clear. *)
Theorem cloneForExec_inherits {F W Ch : Type} `{FileOps F W Ch} t (s s' : ofiles F W) t' fd e' :
  cloneForExec t s = (t', s') →
  t' !! fd = Some e' ↔
  ∃ e, t !! fd = Some e ∧ fe_cloexec e = false ∧ e' = FdEntry (fe_of e) false.
Proof.
  unfold cloneForExec. intros [= <- _]. rewrite lookup_fmap, fmap_Some. split.
  - intros (e & [Hfd Hc]%map_lookup_filter_Some & ->). by exists e.
  - intros (e & Hfd & Hc & ->). exists e. by rewrite map_lookup_filter_Some.
Qed.

Lemma cloneForExec_inherits_witness :
  let t : fdTable := <[1 := FdEntry 0 false]> (<[5 := FdEntry 1 true]> ∅) in
  let t' := (@cloneForExec nat (list nat) t (OFiles ∅ 2 [])).1 in
  t' !! 1 = Some (FdEntry 0 false) ∧ t' !! 5 = None.
Proof.
  intros t t'. split; [|reflexivity].
  apply (cloneForExec_inherits (H := log_files) t (OFiles ∅ 2 []) (cloneForExec t (OFiles ∅ 2 [])).2 t');
    [reflexivity|]. exists (FdEntry 0 false). by repeat split.
Defined.

(** A blocking call on a descriptor never fails with EAGAIN: it returns what
    one run of the operation gave (possibly after waiting any number of
    times), EINTR when a signal interrupts a wait, or unwinds a killed
    process; a non-blocking descriptor reports EAGAIN at once. *)
Theorem fd_io_result {S : Type} (changed : S → S) (op : S → (Z * Z) * S) (nb : S → bool)
    (sched : list ((S → S) * wakeReason)) (s : S) r s' :
  fd_io changed op nb sched s = Some (r, s') →
  (∃ s0 n errno, op (changed s0) = ((n, errno), s') ∧
     r = (if errno =? 0 then i32 n else - errno, None) ∧ (errno = EAGAIN → nb s' = true)) ∨
  (∃ s0 env, r = (- EINTR, None) ∧ s' = env s0 ∧ (env, interrupted) ∈ sched) ∨
  (∃ s0 env, r = (0, Some errKilled) ∧ s' = env s0 ∧ (env, killed) ∈ sched).
Proof.
  revert s. induction sched as [|[env w] sched IH]; intros s; simpl;
    destruct (op (changed s)) as [[n errno] s1] eqn:Hop;
    destruct (Z.eqb_spec errno 0); [|destruct (Z.eqb_spec errno EAGAIN)| |destruct (Z.eqb_spec errno EAGAIN)];
    simpl; try destruct (nb s1) eqn:Hnb; try done;
    try (intros [= <- <-]; left; exists s, n, errno; split; [done|]; split; [by zcases|by intros ->]).
  destruct w.
  1,3: intros [(s0 & n' & e' & ?)|[(s0 & env' & ? & ? & ?)|(s0 & env' & ? & ? & ?)]]%IH;
    [left; by exists s0, n', e'|right; left; exists s0, env'|right; right; exists s0, env'];
    split_and!; try done; by constructor.
  - intros [= <- <-]. right. left. exists s1, env. split_and!; try done. constructor.
  - intros [= <- <-]. right. right. exists s1, env. split_and!; try done. constructor.
Qed.

Lemma fd_io_result_witness :
  fd_io (S := Z) id (λ s, if s =? 0 then ((0, EAGAIN), s) else ((s, 0), 0)) (λ _, false)
    [(λ _, 0, woken); (λ _, 5, woken)] 0 = Some ((5, None), 0) ∧
  ∃ s0, (if s0 =? 0 then ((0, EAGAIN), s0) else ((s0, 0), 0)) = ((5, 0), 0).
Proof.
  split; [reflexivity|].
  destruct (fd_io_result (S := Z) id (λ s, if s =? 0 then ((0, EAGAIN), s) else ((s, 0), 0)) (λ _, false)
    [(λ _, 0, woken); (λ _, 5, woken)] 0 (5, None) 0 eq_refl)
    as [(s0 & n & e & Hop & Hr & He)|[(s0 & env & [=] & _)|(s0 & env & [=] & _)]].
  exists 5. reflexivity.
Defined.
