(* ===== verification/Pids.v ===== *)
(** Process ids ([src/internal/kernel/kernel.go], section "Pids"): the
    allocator shared by all kernels of a Go process, and [killForeign], which
    answers for pids this kernel does not own.  [os.Getpid] and
    [syscall.Kill] belong to the host: [getpid] and [syscall_Kill] are
    parameters. *)
From S2P Require Import Prelude Abi.

Definition pidBits : Z := 11.
Definition pidsPerHost : Z := Z.shiftl 1 pidBits.
Definition hostPidRange : Z := Z.shiftl 1 20.

(** The variable [pids]; [p_owners] is [None] while the map is nil.  Kernels
    are known by a number. *)
Record pidtab := PidTab { p_next : Z; p_owners : option (gmap Z nat) }.
#[export] Instance eta_pidtab : Eta pidtab := λ r,
  {| p_next := p_next r; p_owners := p_owners r |}.

Definition pids_zero : pidtab := PidTab 0 None.

Definition owners (t : pidtab) : gmap Z nat := default ∅ (p_owners t).

Definition pidBase (getpid : Z) : Z := i32 (Z.shiftl (i32 (Z.rem getpid hostPidRange)) pidBits).

Definition hostPidOf (pid : Z) : Z := Z.shiftr pid pidBits.

(** The loop of [allocPid]: at most [n] more candidates. *)
Fixpoint allocPid_loop (n : nat) (base : Z) (k : nat) (t : pidtab) : Z * pidtab :=
  match n with
  | O => (0, t)
  | S n =>
      let c := p_next t in
      let t := t <| p_next := Z.rem (p_next t) (pidsPerHost - 1) + 1 |> in
      match owners t !! i32 (base + c) with
      | None => (i32 (base + c), t <| p_owners := Some (<[i32 (base + c) := k]> (owners t)) |>)
      | Some _ => allocPid_loop n base k t
      end
  end.

Definition allocPid (getpid : Z) (k : nat) (t : pidtab) : Z * pidtab :=
  let t := match p_owners t with None => PidTab 1 (Some ∅) | Some _ => t end in
  allocPid_loop (Z.to_nat pidsPerHost) (pidBase getpid) k t.

(** [delete] on a nil map does nothing. *)
Definition releasePid (pid : Z) (t : pidtab) : pidtab := t <| p_owners ::= fmap (delete pid) |>.

Definition pidOwner (pid : Z) (t : pidtab) : option nat := owners t !! pid.

(** [syscall_Kill pid 0] is the error, 0 for none. *)
Definition killForeign (getpid : Z) (syscall_Kill : Z → Z → Z) (host_EPERM : Z) (pid sig : Z) (t : pidtab) : Z :=
  if pid <=? 0 then - ESRCH
  else
    let owner := hostPidOf pid in
    let found :=
      if owner =? hostPidOf (pidBase getpid) then
        match pidOwner pid t with None => false | Some _ => true end
      else if owner =? 0 then false
      else
        let err := syscall_Kill owner 0 in
        negb (negb (err =? 0) && negb (err =? host_EPERM)) in
    if negb found then - ESRCH
    else if negb (sig =? 0) then - EPERM
    else 0.

(** * Lemmas *)

Lemma pidsPerHost_eq : pidsPerHost = 2048.
Proof. done. Qed.

(** The candidates are visited cyclically: the one after [i] is [pid_after i]. *)
Definition pid_after (c : Z) : Z := Z.rem c (pidsPerHost - 1) + 1.
Definition in_range (c : Z) : Prop := 1 ≤ c < pidsPerHost.

Lemma pid_after_range c : in_range c → in_range (pid_after c).
Proof.
  unfold pid_after, in_range. rewrite !pidsPerHost_eq. change (2048 - 1) with 2047. intros Hc.
  rewrite Z.rem_mod_nonneg by lia. pose proof (Z.mod_pos_bound c 2047 eq_refl). lia.
Qed.

(** The [i]-th candidate from [c]. *)
Definition candidate (c : Z) (i : Z) : Z := (c - 1 + i) mod (pidsPerHost - 1) + 1.

Lemma candidate_0 c : in_range c → candidate c 0 = c.
Proof.
  unfold candidate, in_range. rewrite !pidsPerHost_eq. change (2048 - 1) with 2047.
  intros. rewrite Z.mod_small; lia.
Qed.

Lemma candidate_after c i : in_range c → candidate (pid_after c) i = candidate c (i + 1).
Proof.
  unfold candidate, pid_after, in_range. rewrite !pidsPerHost_eq. change (2048 - 1) with 2047. intros.
  rewrite Z.rem_mod_nonneg by lia.
  replace (c mod 2047 + 1 - 1 + i) with (c mod 2047 + i) by lia.
  rewrite Zplus_mod_idemp_l. do 2 f_equal. lia.
Qed.

(** Every candidate comes up within one round. *)
Lemma candidate_onto c d : in_range c → in_range d →
  ∃ i, 0 ≤ i < pidsPerHost ∧ candidate c i = d.
Proof.
  unfold candidate, in_range. rewrite !pidsPerHost_eq. change (2048 - 1) with 2047. intros Hc Hd.
  exists ((d - c) mod 2047). pose proof (Z.mod_pos_bound (d - c) 2047 eq_refl). split; [lia|].
  rewrite Zplus_mod_idemp_r. replace (c - 1 + (d - c)) with (d - 1) by lia.
  rewrite Z.mod_small; lia.
Qed.

Lemma pidBase_spec getpid : 0 ≤ getpid →
  pidBase getpid = (getpid mod hostPidRange) * pidsPerHost ∧
  0 ≤ pidBase getpid ≤ 2 ^ 31 - pidsPerHost.
Proof.
  intros Hg. rewrite pidsPerHost_eq. unfold pidBase. change hostPidRange with 1048576.
  change pidBits with 11.
  rewrite Z.rem_mod_nonneg by lia. pose proof (Z.mod_pos_bound getpid 1048576 eq_refl).
  rewrite (wrapS_small 32 (getpid mod 1048576)) by lia.
  rewrite Z.shiftl_mul_pow2 by lia. rewrite wrapS_small by lia. lia.
Qed.

Lemma pid_fits getpid c : 0 ≤ getpid → in_range c →
  i32 (pidBase getpid + c) = pidBase getpid + c.
Proof.
  intros Hg Hc. destruct (pidBase_spec getpid Hg) as [_ Hb]. unfold in_range in *.
  assert (pidsPerHost = 2048) by done. apply wrapS_small; lia.
Qed.

Lemma allocPid_loop_spec n getpid k t pid t' :
  0 ≤ getpid → in_range (p_next t) →
  allocPid_loop n (pidBase getpid) k t = (pid, t') →
  in_range (p_next t') ∧
  ((∃ i, 0 ≤ i < Z.of_nat n ∧ pid = pidBase getpid + candidate (p_next t) i ∧
     owners t !! pid = None ∧ p_owners t' = Some (<[pid := k]> (owners t))) ∨
   (pid = 0 ∧ p_owners t' = p_owners t ∧
    ∀ i, 0 ≤ i < Z.of_nat n → is_Some (owners t !! (pidBase getpid + candidate (p_next t) i)))).
Proof.
  intros Hg. revert t. induction n as [|n IH]; intros t Hc; simpl.
  - intros [= <- <-]. split; [done|]. right. split_and!; [done|done|lia].
  - rewrite (pid_fits _ _ Hg Hc). unfold owners at 1. simpl.
    change (default ∅ (p_owners t)) with (owners t). fold (pid_after (p_next t)).
    destruct (owners t !! (pidBase getpid + p_next t)) as [k'|] eqn:Ho.
    + intros [Hr Hcase]%IH; [|by apply pid_after_range]. split; [done|]. simpl in *.
      destruct Hcase as [(i & Hi & -> & Hfree & Ht)|(-> & Ht & Hall)].
      * left. exists (i + 1). rewrite candidate_after in * by done. split_and!; done || lia.
      * right. split_and!; [done|done|]. intros i Hi.
        destruct (decide (i = 0)) as [->|]; [rewrite candidate_0 by done; by eexists|].
        replace i with (i - 1 + 1) by lia. rewrite <- candidate_after by done. apply Hall. lia.
    + intros [= <- <-]. simpl. split; [by apply pid_after_range|]. left. exists 0.
      rewrite candidate_0 by done. split_and!; done || lia.
Qed.

(** The allocator is untouched, or its next candidate is in range. *)
Definition pids_ok (t : pidtab) : Prop := p_owners t = None ∨ in_range (p_next t).

Lemma allocPid_spec getpid k t pid t' :
  0 ≤ getpid → pids_ok t → allocPid getpid k t = (pid, t') →
  pids_ok t' ∧
  ((∃ c, in_range c ∧ pid = pidBase getpid + c ∧ owners t !! pid = None ∧
     owners t' = <[pid := k]> (owners t)) ∨
   (pid = 0 ∧ owners t' = owners t ∧
    ∀ c, in_range c → is_Some (owners t !! (pidBase getpid + c)))).
Proof.
  intros Hg Hok. unfold allocPid.
  set (t1 := match p_owners t with None => _ | Some _ => _ end).
  assert (in_range (p_next t1) ∧ owners t1 = owners t) as [Hr Ho].
  { subst t1. unfold owners, pids_ok in *. destruct (p_owners t) eqn:E; simpl; rewrite ?E.
    - split; [|done]. by destruct Hok.
    - by split; [vm_compute|]. }
  intros [Hr' Hcase]%allocPid_loop_spec; [|done..]. split; [by right|].
  rewrite Ho in *. destruct Hcase as [(i & Hi & -> & Hfree & Ht)|(-> & Ht & Hall)].
  - left. exists (candidate (p_next t1) i). split_and!; [|done|done|].
    + unfold candidate, in_range. rewrite !pidsPerHost_eq. change (2048 - 1) with 2047.
      pose proof (Z.mod_pos_bound (p_next t1 - 1 + i) 2047 eq_refl). lia.
    + unfold owners at 1. by rewrite Ht.
  - right. split_and!; [done|unfold owners at 1; rewrite Ht; done|].
    intros c Hc. destruct (candidate_onto (p_next t1) c Hr Hc) as (i & Hi & <-).
    apply Hall. assert (pidsPerHost = 2048) by done. lia.
Qed.

Lemma owners_release pid t : owners (releasePid pid t) = delete pid (owners t).
Proof.
  unfold owners, releasePid. simpl. destruct (p_owners t); simpl; [done|]. by rewrite delete_empty.
Qed.

Lemma releasePid_ok pid t : pids_ok t → pids_ok (releasePid pid t).
Proof. intros [H|H]; [left|right; done]. simpl. by rewrite H. Qed.

Lemma hostPidOf_pid getpid c : 0 ≤ getpid → in_range c →
  hostPidOf (pidBase getpid + c) = getpid mod hostPidRange.
Proof.
  intros Hg Hc. destruct (pidBase_spec getpid Hg) as [-> _]. unfold in_range in Hc.
  unfold hostPidOf. rewrite Z.shiftr_div_pow2 by done. change (2 ^ pidBits) with pidsPerHost.
  rewrite Z.div_add_l by done. rewrite Z.div_small; lia.
Qed.

(** * Properties *)

(** Pids are unique and recognisable: a new pid is positive, fits an int32,
    was owned by no kernel of this Go process, and names this host process;
    only its own entry changes.  Allocation fails exactly when all 2047 pids
    are in use. *)
Theorem allocPid_fresh getpid k t pid t' :
  0 ≤ getpid → pids_ok t → allocPid getpid k t = (pid, t') →
  pids_ok t' ∧
  (pid ≠ 0 → 0 < pid < 2 ^ 31 ∧ hostPidOf pid = getpid mod hostPidRange ∧
     pidOwner pid t = None ∧ pidOwner pid t' = Some k ∧
     ∀ q, q ≠ pid → pidOwner q t' = pidOwner q t) ∧
  (pid = 0 ↔ ∀ c, 1 ≤ c < pidsPerHost → pidOwner (pidBase getpid + c) t ≠ None).
Proof.
  intros Hg Hok Ha. destruct (allocPid_spec _ _ _ _ _ Hg Hok Ha) as [Hok' Hcase].
  destruct (pidBase_spec getpid Hg) as [_ Hb]. unfold pidOwner. split; [done|].
  destruct Hcase as [(c & Hc & -> & Hfree & ->)|(-> & Ho & Hall)].
  - pose proof (hostPidOf_pid getpid c Hg Hc). unfold in_range in Hc. split.
    + intros _. split_and!; [lia|lia|done|done|apply lookup_insert_eq|].
      intros q Hq. by apply lookup_insert_ne.
    + split; [lia|]. intros Hall. by destruct (Hall c Hc).
  - split; [done|]. split; [|done]. intros _ c Hc. apply not_eq_None_Some, Hall. done.
Qed.

Lemma allocPid_fresh_witness :
  let '(pid, t') := allocPid 1234567 3 (PidTab 2047 (Some {[385875967 := 9%nat]})) in
  pid = pidBase 1234567 + 1 ∨ 0 < pid.
Proof.
  destruct (allocPid 1234567 3 (PidTab 2047 (Some {[385875967 := 9%nat]}))) as [pid t'] eqn:E.
  right. apply (allocPid_fresh 1234567 3 (PidTab 2047 (Some {[385875967 := 9%nat]})) pid t');
    [lia|right; by vm_compute|exact E|].
  intros ->. by vm_compute in E.
Defined.

(** [kill(pid, 0)] on a pid of another kernel in this Go process tells exactly
    whether that process still exists: 0 while some kernel owns the pid, ESRCH
    once it is released; it never signals it (EPERM), whatever the host says. *)
Theorem killForeign_exact getpid kill eperm c sig t :
  0 ≤ getpid → in_range c →
  let pid := pidBase getpid + c in
  killForeign getpid kill eperm pid sig t =
    match pidOwner pid t with
    | None => - ESRCH
    | Some _ => if sig =? 0 then 0 else - EPERM
    end.
Proof.
  intros Hg Hc pid. destruct (pidBase_spec getpid Hg) as [Hbase Hb].
  unfold killForeign. assert (0 < pid) as Hpos by (unfold pid, in_range in *; lia).
  destruct (Z.leb_spec pid 0); [lia|].
  assert (hostPidOf pid = hostPidOf (pidBase getpid)) as ->.
  { unfold pid. rewrite hostPidOf_pid by done. rewrite Hbase. unfold hostPidOf.
    rewrite Z.shiftr_div_pow2 by done. change (2 ^ pidBits) with pidsPerHost. by rewrite Z.div_mul. }
  rewrite Z.eqb_refl. destruct (pidOwner pid t); [|done]. simpl. by destruct (sig =? 0).
Qed.

Lemma killForeign_exact_witness :
  killForeign 42 (λ _ _, 3) 1 (pidBase 42 + 5) 0 (PidTab 6 (Some {[pidBase 42 + 5 := 0%nat]})) = 0 ∧
  in_range 5.
Proof.
  split; [|by vm_compute].
  exact (killForeign_exact 42 (λ _ _, 3) 1 5 0 (PidTab 6 (Some {[pidBase 42 + 5 := 0%nat]}))
    ltac:(lia) ltac:(by vm_compute)).
Defined.
