(* ===== verification/Shm.v ===== *)
(** Shared memory ([src/internal/kernel/shm.go]): anonymous segments, named
    POSIX objects, the descriptors that refer to them and the places they are
    mapped.  A [*segment] is an address [s] in [shm_heap]; the maps and the
    attachments share it, as in the code.  [None] as the result of an
    operation is a Go panic (see [MapRange]). *)
From S2P Require Import Prelude Abi Notify Vmem FdTable.

Record segment := Segment {
  ss_id : Z;
  ss_name : string;
  ss_seg : option vsegment;
  ss_attached : Z;
  ss_fds : Z;
  ss_removed : bool;
}.
#[export] Instance eta_segment : Eta segment := λ r,
  {| ss_id := ss_id r; ss_name := ss_name r; ss_seg := ss_seg r; ss_attached := ss_attached r;
     ss_fds := ss_fds r; ss_removed := ss_removed r |}.

Record attachment := Attachment { at_addr : Z; at_len : Z; at_s : nat }.

Record shmTable := ShmTable {
  shm_heap : gmap nat segment;
  shm_ptr : nat;
  shm_segs : gmap Z nat;
  shm_names : gmap string nat;
  shm_next : Z;
}.
#[export] Instance eta_shmTable : Eta shmTable := λ r,
  {| shm_heap := shm_heap r; shm_ptr := shm_ptr r; shm_segs := shm_segs r;
     shm_names := shm_names r; shm_next := shm_next r |}.

Definition shm_init : shmTable := ShmTable ∅ 0 ∅ ∅ 1.

Definition shm_update (s : nat) (f : segment → segment) (t : shmTable) : shmTable :=
  t <| shm_heap ::= alter f s |>.

Definition newSegment (name : string) (t : shmTable) : nat * shmTable :=
  let s := shm_ptr t in
  (s, ShmTable (<[s := Segment (shm_next t) name None 0 0 false]> (shm_heap t)) (S s)
        (<[shm_next t := s]> (shm_segs t)) (shm_names t) (i32 (shm_next t + 1))).

(** The segment [id] names and its address. *)
Definition shm_get (id : Z) (t : shmTable) : option (nat * segment) :=
  match shm_segs t !! id with
  | None => None
  | Some s => pair s <$> shm_heap t !! s
  end.

Section shm.
Context {OS : Type} `{HostMMU OS}.
Implicit Types (t : shmTable) (o : OS) (m : memory) (al : list attachment).

Definition maybeFree (s : nat) t o : shmTable * OS :=
  match shm_heap t !! s with
  | None => (t, o)
  | Some g =>
      if ss_removed g && (ss_attached g =? 0) && (ss_fds g =? 0) then
        let t := t <| shm_segs ::= delete (ss_id g) |> in
        match ss_seg g with
        | Some v => (shm_update s (λ g, g <| ss_seg := None |>) t, Segment_Close v o)
        | None => (t, o)
        end
      else (t, o)
  end.

Definition shm_create (size : Z) t o : Z * shmTable * OS :=
  if size =? 0 then (- EINVAL, t, o)
  else match NewSegment size o with
       | (None, o) => (- ENOMEM, t, o)
       | (Some v, o) =>
           let id := shm_next t in
           let '(s, t) := newSegment "" t in
           (id, shm_update s (λ g, g <| ss_seg := Some v |>) t, o)
       end.

Definition shm_size (id : Z) t : Z :=
  match shm_get id t with
  | None => - ENOENT
  | Some (s, g) =>
      if ss_removed g then - ENOENT
      else match ss_seg g with None => - ENOENT | Some v => i32 (seg_size v) end
  end.

(** [a.s.attached--; t.maybeFree(a.s)] *)
Definition shm_detach (s : nat) t o : shmTable * OS :=
  maybeFree s (shm_update s (λ g, g <| ss_attached ::= λ n, n - 1 |>) t) o.

Definition within (addr length : Z) (a : attachment) : bool :=
  (addr <=? at_addr a) && (at_addr a + at_len a <=? addr + length).

Fixpoint dropAttachmentsLocked al (addr length : Z) t o : list attachment * shmTable * OS :=
  match al with
  | [] => ([], t, o)
  | a :: al =>
      if within addr length a then
        let '(t, o) := shm_detach (at_s a) t o in dropAttachmentsLocked al addr length t o
      else
        let '(kept, t, o) := dropAttachmentsLocked al addr length t o in (a :: kept, t, o)
  end.

(** A mapping replaces the older ones it covers. *)
Definition mapLocked (s : nat) (v : vsegment) (addr length : Z) m al t o
    : option (Z * list attachment * shmTable * OS) :=
  match MapRange addr v length m o with
  | MapPanic => None
  | MapErr => Some (- EINVAL, al, t, o)
  | MapOk o =>
      let '(al, t, o) := dropAttachmentsLocked al addr length t o in
      Some (0, al ++ [Attachment addr length s],
            shm_update s (λ g, g <| ss_attached ::= λ n, n + 1 |>) t, o)
  end.

Definition shm_attach (id addr : Z) m al t o : option (Z * list attachment * shmTable * OS) :=
  match shm_get id t with
  | None => Some (- ENOENT, al, t, o)
  | Some (s, g) =>
      if ss_removed g then Some (- ENOENT, al, t, o)
      else match ss_seg g with
           | None => Some (- ENOENT, al, t, o)
           | Some v => mapLocked s v addr (seg_size v) m al t o
           end
  end.

Definition shm_remove (id : Z) t o : Z * shmTable * OS :=
  match shm_get id t with
  | None => (- ENOENT, t, o)
  | Some (s, g) =>
      if ss_removed g then (- ENOENT, t, o)
      else let '(t, o) := maybeFree s (shm_update s (λ g, g <| ss_removed := true |>) t) o in
           (0, t, o)
  end.

(** The object [shm_open] is to open, with a descriptor counted, or an error. *)
Definition shm_open_seg (name : string) (flags : Z) t : (Z + nat) * shmTable :=
  let creat := negb (Z.land flags O_CREAT =? 0) in
  let excl := negb (Z.land flags O_EXCL =? 0) in
  let opened s t := (inr s, shm_update s (λ g, g <| ss_fds ::= λ n, n + 1 |>) t) in
  match shm_names t !! name with
  | Some s => if creat && excl then (inl (- EEXIST), t) else opened s t
  | None =>
      if negb creat then (inl (- ENOENT), t)
      else let '(s, t) := newSegment name t in
           opened s (t <| shm_names ::= <[name := s]> |>)
  end.

Definition shm_unlink (name : string) t o : Z * shmTable * OS :=
  match shm_names t !! name with
  | None => (- ENOENT, t, o)
  | Some s =>
      let t := t <| shm_names ::= delete name |> in
      let '(t, o) := maybeFree s (shm_update s (λ g, g <| ss_removed := true |>) t) o in
      (0, t, o)
  end.

(** The operations of a descriptor on the object at [s]. *)
Definition seg_of (s : nat) t : option vsegment := shm_heap t !! s ≫= ss_seg.

Definition shm_truncate (s : nat) (size : Z) t o : Z * shmTable * OS :=
  match seg_of s t with
  | Some v => (if size <=? seg_size v then 0 else - EINVAL, t, o)
  | None =>
      if size =? 0 then (0, t, o)
      else match NewSegment size o with
           | (None, o) => (- ENOMEM, t, o)
           | (Some v, o) => (0, shm_update s (λ g, g <| ss_seg := Some v |>) t, o)
           end
  end.

Definition shm_fdSize (s : nat) t : Z :=
  match seg_of s t with None => 0 | Some v => i32 (seg_size v) end.

Definition shm_mapFd (s : nat) (addr length : Z) m al t o
    : option (Z * list attachment * shmTable * OS) :=
  match seg_of s t with
  | None => Some (- EINVAL, al, t, o)
  | Some v => mapLocked s v addr length m al t o
  end.

Definition shm_unmap (addr length : Z) m al t o : option (Z * list attachment * shmTable * OS) :=
  match Unmap addr length m o with
  | MapPanic => None
  | MapErr => Some (- EINVAL, al, t, o)
  | MapOk o =>
      let '(al, t, o) := dropAttachmentsLocked al addr length t o in Some (0, al, t, o)
  end.

Fixpoint shm_detachAll al t o : shmTable * OS :=
  match al with
  | [] => (t, o)
  | a :: al => let '(t, o) := shm_detach (at_s a) t o in shm_detachAll al t o
  end.

Definition shm_closeAll t o : shmTable * OS :=
  let o := map_fold (λ id s o,
    match seg_of s t with Some v => Segment_Close v o | None => o end) o (shm_segs t) in
  (t <| shm_segs := ∅ |> <| shm_names := ∅ |>, o).

(** *** The file [shmFile] *)
Definition shmFile_read (n : Z) : bytes * Z := ([], EINVAL).
Definition shmFile_write (b : bytes) : Z * Z := (0, EINVAL).
Definition shmFile_poll : Z := Z.lor POLLIN POLLOUT.
Definition shmFile_changed : option nat := None.
Definition shmFile_release (s : nat) t o : shmTable * OS :=
  maybeFree s (shm_update s (λ g, g <| ss_fds ::= λ n, n - 1 |>) t) o.

(** [shm_open] adds a descriptor; [shmFile] makes the file for an object. *)
Definition shm_open {F W Ch : Type} `{FileOps F W Ch} (shmFile : nat → F) (name : string) (flags : Z)
    (tab : fdTable) (ofs : ofiles F W) t : Z * fdTable * ofiles F W * shmTable :=
  match shm_open_seg name flags t with
  | (inl e, t) => (e, tab, ofs, t)
  | (inr s, t) =>
      let '(p, ofs) := newOpenFile (shmFile s) 0 ofs in
      let '(fd, tab, ofs) := fd_add p false tab ofs in
      (fd, tab, ofs, t)
  end.
End shm.

(** * Reference counting

    The counts in the table are the numbers of attachments in all processes
    ([A]) and of unreleased descriptors ([F]); a segment is freed when it is
    [dead]. *)
Definition dead (g : segment) : bool := ss_removed g && (ss_attached g =? 0) && (ss_fds g =? 0).
#[global] Arguments dead : simpl never.

Record seg_ok (strict : bool) (A F : nat → Z) (t : shmTable) (s : nat) (g : segment) : Prop := {
  so_id : ss_id g = Z.of_nat s + 1;
  so_att : ss_attached g = A s;
  so_fds : ss_fds g = F s;
  so_mem : 0 < A s → is_Some (ss_seg g);
  so_dead : strict = true → dead g = true →
    shm_segs t !! (Z.of_nat s + 1) = None ∧ ss_seg g = None;
  so_live : strict = false ∨ dead g = false → shm_segs t !! (Z.of_nat s + 1) = Some s;
}.

(** [x] is a segment that is yet to be passed to [maybeFree]. *)
Record shm_pre (x : option nat) (A F : nat → Z) (t : shmTable) : Prop := {
  si_next : shm_next t = Z.of_nat (shm_ptr t) + 1;
  si_heap s : (s < shm_ptr t)%nat →
    ∃ g, shm_heap t !! s = Some g ∧ seg_ok (bool_decide (x ≠ Some s)) A F t s g;
  si_new s : (shm_ptr t ≤ s)%nat → shm_heap t !! s = None ∧ A s = 0 ∧ F s = 0;
  si_segs id s : shm_segs t !! id = Some s → (s < shm_ptr t)%nat ∧ id = Z.of_nat s + 1;
  si_names n s : shm_names t !! n = Some s →
    ∃ g, shm_heap t !! s = Some g ∧ ss_removed g = false ∧ ss_name g = n;
}.
Abbreviation shm_inv := (shm_pre None).

Lemma shm_pre_ext x A A' F F' t :
  (∀ s, A s = A' s) → (∀ s, F s = F' s) → shm_pre x A F t → shm_pre x A' F' t.
Proof.
  intros HA HF [Hx Hh Hn Hs Hna]. split; [done|..|done|done].
  - intros s Hs'. destruct (Hh s Hs') as (g & Hg & [? ? ? Hm ? ?]). exists g. split; [done|].
    split; rewrite <- ?HA, <- ?HF; done.
  - intros s Hs'. rewrite <- HA, <- HF. by apply Hn.
Qed.

Lemma si_seg A F t s g : shm_inv A F t → shm_heap t !! s = Some g →
  (s < shm_ptr t)%nat ∧ seg_ok true A F t s g.
Proof.
  intros [? Hh Hn ? ?] Hg. destruct (decide (shm_ptr t ≤ s)%nat) as [[? _]%Hn|]; [congruence|].
  split; [lia|]. destruct (Hh s ltac:(lia)) as (g' & Hg' & Hok). by simplify_eq.
Qed.

(** Changing one segment that is still in the table. *)
Lemma shm_update_pre A F A' F' t s g f :
  shm_inv A F t → shm_heap t !! s = Some g → dead g = false →
  ss_id (f g) = ss_id g → ss_name (f g) = ss_name g →
  ss_attached (f g) = A' s → ss_fds (f g) = F' s → (0 < A' s → is_Some (ss_seg (f g))) →
  ss_removed (f g) = ss_removed g ∨ (∀ n, shm_names t !! n ≠ Some s) →
  (∀ q, q ≠ s → A' q = A q ∧ F' q = F q) →
  shm_pre (Some s) A' F' (shm_update s f t).
Proof.
  intros Ht Hg Hd Hid Hname Ha Hf Hm Hr Hq.
  destruct (si_seg _ _ _ _ _ Ht Hg) as [Hlt [Gi _ _ _ _ Gl]].
  destruct Ht as [Hx Hh Hn Hs Hna]. split; simpl; [done|..|done|].
  - intros q Hlt'. destruct (decide (q = s)) as [->|Hne].
    + rewrite lookup_alter_eq, Hg, bool_decide_eq_false_2 by (by intros ?). simpl. eexists. split; [done|].
      split; simpl; rewrite ?Hid; auto. done.
    + rewrite lookup_alter_ne by done. destruct (Hh q Hlt') as (g' & Hg' & [? ? ? ? Hdd ?]).
      exists g'. split; [done|]. rewrite bool_decide_eq_true_2 in * by congruence.
      destruct (Hq q Hne) as [HA HF]. split; rewrite ?HA, ?HF; auto.
  - intros q Hlt'. rewrite lookup_alter_ne by (by intros ->; lia).
    destruct (Hq q ltac:(lia)) as [-> ->]. by apply Hn.
  - intros n q Hnq. destruct (Hna n q Hnq) as (g' & Hg' & Hrem & Hn').
    destruct (decide (q = s)) as [->|Hne]; [|rewrite lookup_alter_ne by done; by exists g'].
    rewrite lookup_alter_eq, Hg. simplify_eq. simpl. eexists. split; [done|].
    destruct Hr as [->|Hr]; [done|]. by destruct (Hr (ss_name g)).
Qed.

Lemma pre_alive A F t s g :
  shm_pre (Some s) A F t → shm_heap t !! s = Some g → dead g = false → shm_inv A F t.
Proof.
  intros [Hx Hh Hn Hs Hna] Hg Hd. split; [done| |done..].
  intros q Hq. destruct (Hh q Hq) as (g' & Hg' & [? ? ? ? Hdd Hl]). exists g'. split; [done|].
  destruct (decide (q = s)) as [->|Hne].
  - simplify_eq. split; try done; [by rewrite Hd|]. intros _. apply Hl. left.
    by apply bool_decide_eq_false_2; intros ?.
  - rewrite bool_decide_eq_true_2 in Hdd, Hl by congruence. by split.
Qed.

Lemma shm_names_inv A F t f :
  shm_inv A F t →
  (∀ n s, f (shm_names t) !! n = Some s → ∃ g, shm_heap t !! s = Some g ∧ ss_removed g = false ∧ ss_name g = n) →
  shm_inv A F (t <| shm_names ::= f |>).
Proof.
  intros [Hx Hh Hn Hs Hna] Hf. split; simpl; [done| |done..].
  intros s Hs'. destruct (Hh s Hs') as (g & Hg & [? ? ? ? ? ?]). exists g. split; [done|]. by split.
Qed.

Section shm_laws.
Context {OS : Type} `{HostMMU OS}.
Implicit Types (t : shmTable) (o : OS) (m : memory) (al : list attachment).

Lemma maybeFree_inv A F t s o :
  shm_pre (Some s) A F t → (s < shm_ptr t)%nat → shm_inv A F (maybeFree s t o).1.
Proof.
  intros Ht Hlt. destruct (si_heap _ _ _ _ Ht s Hlt) as (g & Hg & [Gi Ga Gf Gm _ Gl]).
  unfold maybeFree. rewrite Hg. fold (dead g). destruct (dead g) eqn:Hd; [|by apply (pre_alive _ _ _ s g)].
  rewrite bool_decide_eq_false_2 in Gl by (by intros ?). specialize (Gl (or_introl eq_refl)).
  assert (A s = 0 ∧ F s = 0) as [HA HF].
  { unfold dead in Hd. apply andb_true_iff in Hd as [[_ H1]%andb_true_iff H2].
    apply Z.eqb_eq in H1, H2. by rewrite <- Ga, <- Gf. }
  assert (∀ n, shm_names t !! n ≠ Some s) as Hno.
  { intros n Hn. destruct (si_names _ _ _ _ Ht n s Hn) as (g' & Hg' & Hr & _). simplify_eq.
    unfold dead in Hd. by rewrite Hr in Hd. }
  destruct Ht as [Hx Hh Hn Hs Hna]. rewrite Gi.
  destruct (ss_seg g) as [v|] eqn:Hv; simpl; (split; simpl; [done|..]).
  all: try (intros id q Hid; rewrite lookup_delete_Some in Hid; destruct Hid as [_ Hid]; by apply Hs).
  - intros q Hq. destruct (Hh q Hq) as (g' & Hg' & [? ? ? ? Hdd Hl]).
    destruct (decide (q = s)) as [->|Hne].
    + rewrite lookup_alter_eq, Hg. simpl. eexists. split; [done|].
      split; simpl; rewrite ?lookup_delete_eq; [done..|lia| |].
      * done.
      * match goal with |- context [dead ?x] => change (dead x) with (dead g) end.
        rewrite Hd. by intros [].
    + rewrite lookup_alter_ne by done. exists g'. split; [done|].
      rewrite bool_decide_eq_true_2 in Hdd, Hl by congruence.
      split; simpl; rewrite ?lookup_delete_ne by lia; done.
  - intros q Hq. rewrite lookup_alter_ne by lia. by apply Hn.
  - intros n q Hnq. rewrite lookup_alter_ne by (intros ->; by apply (Hno n)). by apply Hna.
  - intros q Hq. destruct (Hh q Hq) as (g' & Hg' & [? ? ? ? Hdd Hl]). exists g'. split; [done|].
    destruct (decide (q = s)) as [->|Hne].
    + simplify_eq. split; simpl; rewrite ?lookup_delete_eq; [done..|lia|done|].
      rewrite Hd. by intros [].
    + rewrite bool_decide_eq_true_2 in Hdd, Hl by congruence.
      split; simpl; rewrite ?lookup_delete_ne by lia; done.
  - done.
  - done.
Qed.

(** An object that some descriptor or the namespace keeps alive. *)
Definition held (s : nat) (v : vsegment) t : Prop :=
  ∃ g, shm_heap t !! s = Some g ∧ ss_seg g = Some v ∧ (ss_removed g = false ∨ 0 < ss_fds g).

Lemma held_not_dead g : ss_removed g = false ∨ 0 < ss_fds g → dead g = false.
Proof.
  unfold dead. intros [->|Hf]; [done|]. destruct (ss_removed g && _); [|done]. simpl. by zcase; [lia|].
Qed.

Lemma maybeFree_held s v x t o : held s v t → held s v (maybeFree x t o).1.
Proof.
  intros (g & Hg & Hv & Hk). unfold maybeFree. destruct (shm_heap t !! x) as [gx|] eqn:Hx; [|by exists g].
  fold (dead gx). destruct (dead gx) eqn:Hd; [|by exists g].
  destruct (ss_seg gx) as [w|]; simpl; [|by exists g].
  destruct (decide (s = x)) as [->|Hne]; exists g; simpl.
  - simplify_eq. by rewrite (held_not_dead _ Hk) in Hd.
  - by rewrite lookup_alter_ne.
Qed.

Lemma shm_detach_held s v x t o : held s v t → held s v (shm_detach x t o).1.
Proof.
  intros (g & Hg & Hv & Hk). apply maybeFree_held. destruct (decide (s = x)) as [->|Hne].
  - exists (g <| ss_attached ::= λ n, n - 1 |>). simpl. by rewrite lookup_alter_eq, Hg.
  - exists g. simpl. by rewrite lookup_alter_ne.
Qed.

(** Attachments of [s] in a list. *)
Definition att_count (al : list attachment) (s : nat) : Z :=
  foldr (λ a n, here (at_s a) s + n) 0 al.

Lemma here_nonneg p q : 0 ≤ here p q.
Proof. unfold here. case_match; lia. Qed.

Lemma att_count_cons a al s : att_count (a :: al) s = here (at_s a) s + att_count al s.
Proof. done. Qed.

Lemma att_count_nonneg al s : 0 ≤ att_count al s.
Proof. induction al as [|a al IH]; simpl; [lia|]. pose proof (here_nonneg (at_s a) s). lia. Qed.

Lemma att_count_app al bl s : att_count (al ++ bl) s = att_count al s + att_count bl s.
Proof. induction al as [|a al IH]; simpl; [done|]. lia. Qed.

Lemma maybeFree_ptr s t o : shm_ptr (maybeFree s t o).1 = shm_ptr t.
Proof. unfold maybeFree. repeat case_match; done. Qed.

Lemma seg_dead_counts A F t s g :
  seg_ok true A F t s g → 0 < A s ∨ 0 < F s → dead g = false.
Proof.
  intros [_ Ha Hf _ _ _] Hpos. unfold dead. rewrite Ha, Hf.
  destruct (ss_removed g); simpl; [|done]. destruct Hpos; zcases; lia || done.
Qed.

Lemma shm_inv_nonneg_lt A F t s : shm_inv A F t → 0 < A s ∨ 0 < F s → (s < shm_ptr t)%nat.
Proof. intros [_ _ Hn _ _] Hp. destruct (decide (shm_ptr t ≤ s)%nat) as [(_ & ? & ?)%Hn|]; lia. Qed.

Lemma shm_detach_inv A F t s o :
  shm_inv A F t → 0 < A s → shm_inv (λ q, A q - here s q) F (shm_detach s t o).1.
Proof.
  intros Ht Hs. pose proof (shm_inv_nonneg_lt _ _ _ s Ht (or_introl Hs)) as Hlt.
  destruct (si_heap _ _ _ _ Ht s Hlt) as (g & Hg & Hok).
  destruct Hok as [Gi Ga Gf Gm Gd Gl] eqn:E. clear E.
  unfold shm_detach. apply maybeFree_inv; [|done].
  apply (shm_update_pre A F _ _ _ s g); simpl; [done|done| |done|done|..].
  - by apply (seg_dead_counts A F t s); [split|left].
  - rewrite here_eq. lia.
  - done.
  - auto.
  - by left.
  - intros q Hq. rewrite (here_ne s q) by done. split; [lia|done].
Qed.

Lemma drop_inv A F al addr length t o al' t' o' :
  shm_inv A F t → (∀ s, att_count al s ≤ A s) →
  dropAttachmentsLocked al addr length t o = (al', t', o') →
  shm_inv (λ s, A s - att_count al s + att_count al' s) F t' ∧
  ∀ s v, held s v t → held s v t'.
Proof.
  revert A t o al' t' o'. induction al as [|a al IH]; intros A t o al' t' o' Ht Hc; simpl.
  - intros [= <- <- <-]. split; [|done]. apply (shm_pre_ext _ A _ F); [simpl; lia|done|done].
  - assert (∀ q, here (at_s a) q + att_count al q ≤ A q) as Hc' by (intros q; apply Hc).
    clear Hc; rename Hc' into Hc. destruct (within addr length a).
    + destruct (shm_detach (at_s a) t o) as [t1 o1] eqn:E. intros Hd.
      assert (∀ s, 0 ≤ att_count al s) as Hnn by (intros; apply att_count_nonneg).
      pose proof (shm_detach_inv A F t (at_s a) o Ht) as Ht1. rewrite E in Ht1. simpl in Ht1.
      apply (IH (λ q, A q - here (at_s a) q)) in Hd as [Hd Hk].
      * split; [eapply shm_pre_ext; [..|exact Hd]; [|done]; intros q; cbv beta; rewrite ?att_count_cons; lia|].
        intros s v Hh. apply Hk. pose proof (shm_detach_held s v (at_s a) t o Hh) as Hh'.
        by rewrite E in Hh'.
      * apply Ht1. specialize (Hc (at_s a)). rewrite here_eq in Hc. specialize (Hnn (at_s a)). lia.
      * intros s. specialize (Hc s). simpl. lia.
    + destruct (dropAttachmentsLocked al addr length t o) as [[kept t1] o1] eqn:E.
      intros [= <- <- <-].
      assert (∀ s, att_count al s ≤ A s) as Hc'.
      { intros s. specialize (Hc s). pose proof (here_nonneg (at_s a) s). lia. }
      destruct (IH A t o kept t1 o1 Ht Hc' E) as [Hd Hk]. split; [|done].
      eapply shm_pre_ext; [..|exact Hd]; [|done]; intros q; cbv beta; rewrite ?att_count_cons; lia.
Qed.

Lemma detachAll_inv A F al t o :
  shm_inv A F t → (∀ s, att_count al s ≤ A s) →
  shm_inv (λ s, A s - att_count al s) F (shm_detachAll al t o).1.
Proof.
  revert A t o. induction al as [|a al IH]; intros A t o Ht Hc; simpl.
  - apply (shm_pre_ext _ A _ F); [simpl; lia|done|done].
  - assert (∀ q, here (at_s a) q + att_count al q ≤ A q) as Hc' by (intros q; apply Hc).
    clear Hc; rename Hc' into Hc. destruct (shm_detach (at_s a) t o) as [t1 o1] eqn:E.
    pose proof (shm_detach_inv A F t (at_s a) o Ht) as Ht1. rewrite E in Ht1. simpl in Ht1.
    assert (∀ s, 0 ≤ att_count al s) as Hnn by (intros; apply att_count_nonneg).
    assert (∀ s, att_count al s ≤ A s - here (at_s a) s) as Hc'' by (intros s; specialize (Hc s); lia).
    assert (0 < A (at_s a)) as Hpos.
    { specialize (Hc (at_s a)). rewrite here_eq in Hc. specialize (Hnn (at_s a)). lia. }
    specialize (IH (λ q, A q - here (at_s a) q) t1 o1 (Ht1 Hpos) Hc'').
    eapply shm_pre_ext; [..|exact IH]; [|done]; intros q; cbv beta; rewrite ?att_count_cons; lia.
Qed.

(** The counts after one more attachment or descriptor of a held object. *)
Lemma shm_count_inv A F A' F' t s f g :
  shm_inv A F t → shm_heap t !! s = Some g → dead g = false →
  ss_id (f g) = ss_id g → ss_name (f g) = ss_name g → ss_removed (f g) = ss_removed g →
  ss_attached (f g) = A' s → ss_fds (f g) = F' s → (0 < A' s → is_Some (ss_seg (f g))) →
  dead (f g) = false → (∀ q, q ≠ s → A' q = A q ∧ F' q = F q) →
  shm_inv A' F' (shm_update s f t).
Proof.
  intros Ht Hg Hd Hi Hn Hr Ha Hf Hm Hd' Hq. apply (pre_alive _ _ _ s (f g)).
  - apply (shm_update_pre A F A' F' t s g); auto.
  - simpl. by rewrite lookup_alter_eq, Hg.
  - done.
Qed.

Lemma mapLocked_inv A F al s v addr length m t o r al' t' o' :
  shm_inv A F t → (∀ s, att_count al s ≤ A s) → held s v t →
  mapLocked s v addr length m al t o = Some (r, al', t', o') →
  shm_inv (λ q, A q - att_count al q + att_count al' q) F t'.
Proof.
  intros Ht Hc Hh. unfold mapLocked. destruct (MapRange _ _ _ _ _) as [o1| |]; [|intros [= <- <- <- <-]|done].
  - destruct (dropAttachmentsLocked al addr length t o1) as [[al1 t1] o2] eqn:E.
    intros [= <- <- <- <-].
    destruct (drop_inv A F al addr length t o1 al1 t1 o2 Ht Hc E) as [Hd Hk].
    destruct (Hk s v Hh) as (g & Hg & Hv & Halive).
    pose proof (held_not_dead g Halive) as Hdead.
    destruct (si_seg _ _ _ _ _ Hd Hg) as [_ [Gi Ga Gf Gm Gd Gl]].
    apply (shm_count_inv _ F _ F _ s _ g Hd Hg); simpl; try done.
    + rewrite att_count_app. simpl. rewrite here_eq. lia.
    + by apply held_not_dead.
    + intros q Hq. rewrite att_count_app. simpl. rewrite here_ne by done. split; [lia|done].
  - apply (shm_pre_ext _ A _ F); [simpl; lia|done|done].
Qed.

Lemma unmap_inv A F al addr length m t o r al' t' o' :
  shm_inv A F t → (∀ s, att_count al s ≤ A s) →
  shm_unmap addr length m al t o = Some (r, al', t', o') →
  shm_inv (λ q, A q - att_count al q + att_count al' q) F t'.
Proof.
  intros Ht Hc. unfold shm_unmap. destruct (Unmap _ _ _ _) as [o1| |]; [|intros [= <- <- <- <-]|done].
  - destruct (dropAttachmentsLocked al addr length t o1) as [[al1 t1] o2] eqn:E.
    intros [= <- <- <- <-]. by destruct (drop_inv A F al addr length t o1 al1 t1 o2 Ht Hc E).
  - apply (shm_pre_ext _ A _ F); [simpl; lia|done|done].
Qed.

Lemma shm_get_Some A F t id s g : shm_inv A F t → shm_get id t = Some (s, g) →
  shm_heap t !! s = Some g ∧ shm_segs t !! id = Some s ∧ dead g = false.
Proof.
  unfold shm_get. intros Ht. destruct (shm_segs t !! id) as [s'|] eqn:Hs; [|done].
  destruct (shm_heap t !! s') as [g'|] eqn:Hg; [|done]. intros [= -> ->]. split_and!; [done..|].
  destruct (si_segs _ _ _ _ Ht id s Hs) as [_ ->].
  destruct (si_seg _ _ _ _ _ Ht Hg) as [_ [_ _ _ _ Gd _]].
  destruct (dead g); [|done]. destruct (Gd eq_refl eq_refl). congruence.
Qed.

Lemma attach_inv A F al id addr m t o r al' t' o' :
  shm_inv A F t → (∀ s, att_count al s ≤ A s) →
  shm_attach id addr m al t o = Some (r, al', t', o') →
  shm_inv (λ q, A q - att_count al q + att_count al' q) F t'.
Proof.
  intros Ht Hc. unfold shm_attach.
  assert (shm_inv (λ q, A q - att_count al q + att_count al q) F t) as Hsame.
  { apply (shm_pre_ext _ A _ F); [simpl; lia|done|done]. }
  destruct (shm_get id t) as [[s g]|] eqn:Hget; [|by intros [= <- <- <- <-]].
  destruct (ss_removed g) eqn:Hr; [by intros [= <- <- <- <-]|].
  destruct (ss_seg g) as [v|] eqn:Hv; [|by intros [= <- <- <- <-]].
  apply mapLocked_inv; [done..|]. exists g. split_and!; [|done|by left].
  by apply (shm_get_Some A F t id s g).
Qed.

Lemma mapFd_inv A F al s addr length m t o r al' t' o' :
  shm_inv A F t → (∀ s, att_count al s ≤ A s) → 0 < F s →
  shm_mapFd s addr length m al t o = Some (r, al', t', o') →
  shm_inv (λ q, A q - att_count al q + att_count al' q) F t'.
Proof.
  intros Ht Hc Hf. unfold shm_mapFd, seg_of.
  destruct (shm_heap t !! s) as [g|] eqn:Hg; simpl.
  - destruct (ss_seg g) as [v|] eqn:Hv; [|intros [= <- <- <- <-]].
    + apply mapLocked_inv; [done..|]. exists g. split_and!; [done..|right].
      destruct (si_seg _ _ _ _ _ Ht Hg) as [_ [_ _ -> _ _ _]]. done.
    + apply (shm_pre_ext _ A _ F); [simpl; lia|done|done].
  - intros [= <- <- <- <-]. apply (shm_pre_ext _ A _ F); [simpl; lia|done|done].
Qed.

(** A new segment, anonymous or named. *)
Lemma newSegment_inv A F t name s t' :
  shm_inv A F t → Z.of_nat (shm_ptr t) + 1 < 2 ^ 31 - 1 → newSegment name t = (s, t') →
  shm_inv A F t' ∧ (∀ n, shm_names t' !! n ≠ Some s) ∧ A s = 0 ∧ F s = 0 ∧
  shm_heap t' !! s = Some (Segment (Z.of_nat s + 1) name None 0 0 false).
Proof.
  unfold newSegment. intros [Hx Hh Hn Hs Hna] Hb [= <- <-].
  destruct (Hn (shm_ptr t) ltac:(lia)) as (Hnone & HA & HF). rewrite Hx in *.
  split_and!; [|simpl..]; [split; simpl|..|done|done|by rewrite lookup_insert_eq].
  - rewrite wrapS_small; lia.
  - intros q Hq. destruct (decide (q = shm_ptr t)) as [->|Hne].
    + rewrite lookup_insert_eq. eexists. split; [done|].
      split; simpl; [done|by rewrite HA|by rewrite HF|lia|done|by rewrite lookup_insert_eq].
    + rewrite lookup_insert_ne by done. destruct (Hh q ltac:(lia)) as (g & Hg & [? ? ? ? ? ?]).
      exists g. split; [done|]. split; simpl; rewrite ?lookup_insert_ne by lia; done.
  - intros q Hq. rewrite lookup_insert_ne by lia. apply Hn. lia.
  - intros id q [[<- <-]|[_ Hid]]%lookup_insert_Some; [lia|]. destruct (Hs id q Hid). lia.
  - intros n q Hq. destruct (Hna n q Hq) as (g & Hg & ?). exists g.
    rewrite lookup_insert_ne; [done|]. intros <-. congruence.
  - intros n Hq. destruct (Hna n _ Hq) as (g & Hg & ?). congruence.
Qed.

Lemma create_inv A F size t o r t' o' :
  shm_inv A F t → Z.of_nat (shm_ptr t) + 1 < 2 ^ 31 - 1 →
  shm_create size t o = (r, t', o') → shm_inv A F t'.
Proof.
  intros Ht Hb. unfold shm_create. destruct (size =? 0); [by intros [= <- <- <-]|].
  destruct (NewSegment size o) as [[v|] o1]; [|by intros [= <- <- <-]].
  destruct (newSegment "" t) as [s t1] eqn:E. intros [= <- <- <-].
  destruct (newSegment_inv A F t "" s t1 Ht Hb E) as (Ht1 & _ & HA & HF & Hg).
  apply (shm_count_inv A F A F t1 s _ _ Ht1 Hg); simpl; try done; auto.
Qed.

Lemma open_inv A F name flags t s t' :
  shm_inv A F t → (∀ s, 0 ≤ A s ∧ 0 ≤ F s) → Z.of_nat (shm_ptr t) + 1 < 2 ^ 31 - 1 →
  shm_open_seg name flags t = (inr s, t') → shm_inv A (λ q, F q + here s q) t'.
Proof.
  intros Ht Hp Hb. unfold shm_open_seg.
  assert (∀ t0 g, shm_inv A F t0 → shm_heap t0 !! s = Some g → ss_removed g = false →
    shm_inv A (λ q, F q + here s q) (shm_update s (λ g, g <| ss_fds ::= λ n, n + 1 |>) t0)) as Hopen.
  { intros t0 g Ht0 Hg Hr. destruct (si_seg _ _ _ _ _ Ht0 Hg) as [_ [Gi Ga Gf Gm Gd Gl]].
    apply (shm_count_inv A F A _ t0 s _ g Ht0 Hg); simpl; try done.
    - apply held_not_dead. by left.
    - rewrite here_eq. lia.
    - apply held_not_dead. by left.
    - intros q Hq. rewrite here_ne by done. split; [done|lia]. }
  destruct (shm_names t !! name) as [s1|] eqn:Hn.
  - destruct (_ && _); [done|]. intros [= -> <-].
    destruct (si_names _ _ _ _ Ht name s Hn) as (g & Hg & Hr & _). by apply (Hopen t g).
  - destruct (negb (negb _)); [done|]. destruct (newSegment name t) as [s1 t1] eqn:E.
    intros [= -> <-]. destruct (newSegment_inv A F t name s t1 Ht Hb E) as (Ht1 & Hno & HA & HF & Hg).
    eapply Hopen; [|simpl; exact Hg|done]. apply shm_names_inv; [done|].
    intros n q [[<- <-]|[_ Hq]]%lookup_insert_Some; [by eexists|]. by apply (si_names _ _ _ _ Ht1).
Qed.

Lemma unlink_inv A F name t o r t' o' :
  shm_inv A F t → shm_unlink name t o = (r, t', o') → shm_inv A F t'.
Proof.
  intros Ht. unfold shm_unlink. destruct (shm_names t !! name) as [s|] eqn:Hn; [|by intros [= <- <- <-]].
  destruct (si_names _ _ _ _ Ht name s Hn) as (g & Hg & Hr & Hname).
  assert (shm_inv A F (t <| shm_names ::= delete name |>)) as Ht0.
  { apply shm_names_inv; [done|]. intros n q [_ Hq]%lookup_delete_Some.
    by apply (si_names _ _ _ _ Ht). }
  destruct (maybeFree _ _ _) as [t1 o1] eqn:E. intros [= <- <- <-].
  replace t1 with (maybeFree s (shm_update s (λ g, g <| ss_removed := true |>)
    (t <| shm_names ::= delete name |>)) o).1 by (by rewrite E).
  destruct (si_seg _ _ _ _ _ Ht Hg) as [Hlt [Gi Ga Gf Gm Gd Gl]].
  apply maybeFree_inv; [|done].
  apply (shm_update_pre A F A F _ s g _ Ht0); simpl; try done; [apply held_not_dead; by left|].
  right. intros n [Hne Hn']%lookup_delete_Some.
  destruct (si_names _ _ _ _ Ht n s Hn') as (g' & Hg' & _ & Hname'). congruence.
Qed.

Lemma remove_inv A F id t o r t' o' :
  shm_inv A F t → (∀ s g n, shm_get id t = Some (s, g) → shm_names t !! n ≠ Some s) →
  shm_remove id t o = (r, t', o') → shm_inv A F t'.
Proof.
  intros Ht Hno. unfold shm_remove. destruct (shm_get id t) as [[s g]|] eqn:Hget; [|by intros [= <- <- <-]].
  destruct (ss_removed g) eqn:Hr; [by intros [= <- <- <-]|].
  destruct (shm_get_Some _ _ _ _ _ _ Ht Hget) as (Hg & _ & Hd).
  destruct (maybeFree _ _ _) as [t1 o1] eqn:E. intros [= <- <- <-].
  replace t1 with (maybeFree s (shm_update s (λ g, g <| ss_removed := true |>) t) o).1 by (by rewrite E).
  destruct (si_seg _ _ _ _ _ Ht Hg) as [Hlt [Gi Ga Gf Gm Gd Gl]].
  apply maybeFree_inv; [|done].
  apply (shm_update_pre A F A F _ s g _ Ht); simpl; try done.
  right. intros n. by apply (Hno s g).
Qed.

Lemma truncate_inv A F s size t o r t' o' :
  shm_inv A F t → 0 < F s → shm_truncate s size t o = (r, t', o') → shm_inv A F t'.
Proof.
  intros Ht Hf. unfold shm_truncate.
  destruct (seg_of s t) as [v|] eqn:Hv; [by intros [= <- <- <-]|].
  destruct (size =? 0); [by intros [= <- <- <-]|].
  destruct (NewSegment size o) as [[v|] o1]; [|by intros [= <- <- <-]]. intros [= <- <- <-].
  pose proof (shm_inv_nonneg_lt _ _ _ s Ht (or_intror Hf)) as Hlt.
  destruct (si_heap _ _ _ _ Ht s Hlt) as (g & Hg & Hok). change (bool_decide _) with true in Hok.
  pose proof (seg_dead_counts A F t s g Hok (or_intror Hf)) as Hd.
  destruct Hok as [Gi Ga Gf Gm Gd Gl].
  by apply (shm_count_inv A F A F t s _ g Ht Hg).
Qed.

Lemma release_inv A F s t o :
  shm_inv A F t → 0 < F s → shm_inv A (λ q, F q - here s q) (shmFile_release s t o).1.
Proof.
  intros Ht Hf. pose proof (shm_inv_nonneg_lt _ _ _ s Ht (or_intror Hf)) as Hlt.
  destruct (si_heap _ _ _ _ Ht s Hlt) as (g & Hg & Hok). change (bool_decide _) with true in Hok.
  pose proof (seg_dead_counts A F t s g Hok (or_intror Hf)) as Hd.
  destruct Hok as [Gi Ga Gf Gm Gd Gl].
  apply maybeFree_inv; [|done].
  apply (shm_update_pre A F _ _ _ s g _ Ht); simpl; try done.
  - rewrite here_eq. lia.
  - by left.
  - intros q Hq. rewrite (here_ne s q) by done. split; [done|lia].
Qed.
End shm_laws.

(** * Processes sharing memory

    Each process has a memory and its attachments; each unreleased [shmFile]
    is known by a number.  [sh_host] stands for everything else that changes
    memories and the host.  Ids are only given out for anonymous segments, so
    [sh_remove] is for those. *)
Section shm_system.
Context {OS : Type} `{HostMMU OS}.

Record shm_sys := ShmSys {
  sy_procs : gmap nat (memory * list attachment);
  sy_files : gmap nat nat;
  sy_t : shmTable;
  sy_o : OS;
}.

Inductive shm_step : relation shm_sys :=
| sh_start ps fs t o p m :
    ps !! p = None → shm_step (ShmSys ps fs t o) (ShmSys (<[p := (m, [])]> ps) fs t o)
| sh_host ps fs t o o' p m m' al :
    ps !! p = Some (m, al) → shm_step (ShmSys ps fs t o) (ShmSys (<[p := (m', al)]> ps) fs t o')
| sh_create ps fs t o size r t' o' :
    shm_create size t o = (r, t', o') → shm_step (ShmSys ps fs t o) (ShmSys ps fs t' o')
| sh_attach ps fs t o p m al id addr r al' t' o' :
    ps !! p = Some (m, al) → shm_attach id addr m al t o = Some (r, al', t', o') →
    shm_step (ShmSys ps fs t o) (ShmSys (<[p := (m, al')]> ps) fs t' o')
| sh_remove ps fs t o id r t' o' :
    (∀ s g n, shm_get id t = Some (s, g) → shm_names t !! n ≠ Some s) →
    shm_remove id t o = (r, t', o') → shm_step (ShmSys ps fs t o) (ShmSys ps fs t' o')
| sh_open ps fs t o name flags h s t' :
    fs !! h = None → shm_open_seg name flags t = (inr s, t') →
    shm_step (ShmSys ps fs t o) (ShmSys ps (<[h := s]> fs) t' o)
| sh_unlink ps fs t o name r t' o' :
    shm_unlink name t o = (r, t', o') → shm_step (ShmSys ps fs t o) (ShmSys ps fs t' o')
| sh_truncate ps fs t o h s size r t' o' :
    fs !! h = Some s → shm_truncate s size t o = (r, t', o') →
    shm_step (ShmSys ps fs t o) (ShmSys ps fs t' o')
| sh_mapFd ps fs t o p m al h s addr length r al' t' o' :
    ps !! p = Some (m, al) → fs !! h = Some s →
    shm_mapFd s addr length m al t o = Some (r, al', t', o') →
    shm_step (ShmSys ps fs t o) (ShmSys (<[p := (m, al')]> ps) fs t' o')
| sh_unmap ps fs t o p m al addr length r al' t' o' :
    ps !! p = Some (m, al) → shm_unmap addr length m al t o = Some (r, al', t', o') →
    shm_step (ShmSys ps fs t o) (ShmSys (<[p := (m, al')]> ps) fs t' o')
| sh_release ps fs t o h s :
    fs !! h = Some s →
    shm_step (ShmSys ps fs t o)
      (ShmSys ps (delete h fs) (shmFile_release s t o).1 (shmFile_release s t o).2)
| sh_exit ps fs t o p m al :
    ps !! p = Some (m, al) →
    shm_step (ShmSys ps fs t o)
      (ShmSys (delete p ps) fs (shm_detachAll al t o).1 (shm_detachAll al t o).2).

Definition shm_start (y : shm_sys) : Prop :=
  sy_procs y = ∅ ∧ sy_files y = ∅ ∧ sy_t y = shm_init.

(** Runs that make fewer than 2^31 segments: the [int32] ids do not wrap. *)
Definition shm_bounded (y y' : shm_sys) : Prop :=
  shm_step y y' ∧ Z.of_nat (shm_ptr (sy_t y)) + 1 < 2 ^ 31 - 1.

Definition attachments (ps : gmap nat (memory * list attachment)) (s : nat) : Z :=
  map_sum (λ p, att_count p.2 s) ps.
Definition descriptors (fs : gmap nat nat) (s : nat) : Z := map_sum (λ s', here s' s) fs.

Lemma attachments_insert ps p m al s :
  attachments (<[p := (m, al)]> ps) s =
    attachments ps s + att_count al s - from_option (λ p, att_count p.2 s) 0 (ps !! p).
Proof. unfold attachments. rewrite map_sum_insert. simpl. lia. Qed.

Lemma attachments_ge ps p m al s : ps !! p = Some (m, al) → att_count al s ≤ attachments ps s.
Proof.
  intros Hp. apply (map_sum_ge (λ p, att_count p.2 s) ps p (m, al)); [|done].
  intros. apply att_count_nonneg.
Qed.

Lemma attachments_nonneg ps s : 0 ≤ attachments ps s.
Proof. apply map_sum_nonneg. intros. apply att_count_nonneg. Qed.
Lemma descriptors_nonneg fs s : 0 ≤ descriptors fs s.
Proof. apply map_sum_nonneg. intros. apply here_nonneg. Qed.
Lemma descriptors_pos fs h s : fs !! h = Some s → 0 < descriptors fs s.
Proof.
  intros Hh. pose proof (map_sum_ge (λ s', here s' s) fs h s (λ s', here_nonneg s' s) Hh) as Hge.
  simpl in Hge. rewrite here_eq in Hge. unfold descriptors. lia.
Qed.

Definition sys_ok (y : shm_sys) : Prop :=
  shm_inv (attachments (sy_procs y)) (descriptors (sy_files y)) (sy_t y).

Lemma sys_ok_procs ps fs t p m m' al al' :
  ps !! p = Some (m, al) →
  shm_inv (λ q, attachments ps q - att_count al q + att_count al' q) (descriptors fs) t →
  shm_inv (attachments (<[p := (m', al')]> ps)) (descriptors fs) t.
Proof.
  intros Hp. apply shm_pre_ext; [|done]. intros q. rewrite attachments_insert, Hp. simpl. lia.
Qed.

Lemma sys_ok_step y y' : sys_ok y → shm_bounded y y' → sys_ok y'.
Proof.
  unfold sys_ok. intros Hok [Hstep Hb]. destruct Hstep; simpl in *.
  - apply (shm_pre_ext None (attachments ps) _ (descriptors fs)); [|done|done].
    intros q. rewrite attachments_insert. match goal with E : _ !! _ = None |- _ => rewrite E end. simpl. lia.
  - eapply sys_ok_procs; [done|]. by eapply shm_pre_ext; [..|done]; [intros q; simpl; lia|].
  - by eapply create_inv.
  - eapply sys_ok_procs; [done|]. eapply attach_inv; [done| |done]. intros q. by eapply attachments_ge.
  - by eapply remove_inv.
  - eapply shm_pre_ext; [done| |eapply open_inv; [done| |done|done]].
    + intros q. unfold descriptors. rewrite map_sum_insert.
      match goal with E : _ !! _ = None |- _ => rewrite E end. simpl. lia.
    + intros q. split; [apply attachments_nonneg|apply descriptors_nonneg].
  - by eapply unlink_inv.
  - eapply truncate_inv; [done| |done]. by eapply descriptors_pos.
  - eapply sys_ok_procs; [done|]. eapply mapFd_inv; [done| | |done].
    + intros q. by eapply attachments_ge.
    + by eapply descriptors_pos.
  - eapply sys_ok_procs; [done|]. eapply unmap_inv; [done| |done]. intros q. by eapply attachments_ge.
  - eapply shm_pre_ext; [done| |eapply release_inv; [done|by eapply descriptors_pos]].
    intros q. unfold descriptors. rewrite map_sum_delete_any.
    match goal with E : _ !! _ = Some _ |- _ => rewrite E end. done.
  - eapply shm_pre_ext; [|done|eapply detachAll_inv; [done|]].
    + intros q. unfold attachments. rewrite map_sum_delete_any.
      match goal with E : _ !! _ = Some _ |- _ => rewrite E end. done.
    + intros q. by eapply attachments_ge.
Qed.

Lemma sys_ok_reachable y : reachable shm_start shm_bounded y → sys_ok y.
Proof.
  apply reachable_inv.
  - intros [ps fs t o] (Hps & Hfs & Ht). simpl in *. subst. unfold sys_ok. simpl.
    split; simpl; [done|lia|done|done|done].
  - intros y0 y1 _. apply sys_ok_step.
Qed.

Lemma att_count_pos al a s : a ∈ al → at_s a = s → 0 < att_count al s.
Proof.
  intros Ha <-. induction al as [|b al IH]; [by apply not_elem_of_nil in Ha|].
  rewrite att_count_cons. pose proof (att_count_nonneg al (at_s a)). pose proof (here_nonneg (at_s b) (at_s a)).
  apply elem_of_cons in Ha as [->|Ha]; [rewrite here_eq; lia|]. specialize (IH Ha). lia.
Qed.

(** ** Two attachments of one segment *)
Lemma shm_get_held A F t id s g v :
  shm_inv A F t → shm_get id t = Some (s, g) → ss_removed g = false → ss_seg g = Some v →
  held s v t ∧ id = Z.of_nat s + 1.
Proof.
  intros Ht Hget Hr Hv. destruct (shm_get_Some _ _ _ _ _ _ Ht Hget) as (Hg & Hs & _).
  split; [exists g; split_and!; [done|done|by left]|]. by destruct (si_segs _ _ _ _ Ht id s Hs).
Qed.

Lemma held_get A F t s v :
  shm_inv A F t → held s v t → ∃ g, shm_get (Z.of_nat s + 1) t = Some (s, g) ∧ ss_seg g = Some v.
Proof.
  intros Ht (g & Hg & Hv & Hk). destruct (si_seg _ _ _ _ _ Ht Hg) as [_ Hok].
  exists g. split; [|done]. unfold shm_get.
  rewrite (so_live _ _ _ _ _ _ Hok (or_intror (held_not_dead g Hk))), Hg. done.
Qed.

(** * Properties *)

End shm_system.
Arguments shm_sys : clear implicits.

Section shm_sharing.
Context {OS : Type} `{HostMMULaws OS}.

(** Freeing segments does not change what memory is mapped. *)
Lemma maybeFree_cell s t (o : OS) p a : os_cell (maybeFree s t o).2 p a = os_cell o p a.
Proof. unfold maybeFree. repeat case_match; try done. apply os_close_cell. Qed.

Lemma drop_cell al addr length t (o : OS) al' t' o' p a :
  dropAttachmentsLocked al addr length t o = (al', t', o') → os_cell o' p a = os_cell o p a.
Proof.
  revert t o al' t' o'. induction al as [|x al IH]; intros t o al' t' o'; simpl; [by intros [= <- <- <-]|].
  destruct (within addr length x).
  - destruct (shm_detach (at_s x) t o) as [t1 o1] eqn:E. intros ->%IH.
    pose proof (maybeFree_cell (at_s x) (shm_update (at_s x) (λ g, g <| ss_attached ::= λ n, n - 1 |>) t) o p a) as Hc.
    unfold shm_detach in E. by rewrite E in Hc.
  - destruct (dropAttachmentsLocked al addr length t o) as [[al1 t1] o1] eqn:E.
    intros [= <- <- <-]. by apply IH in E.
Qed.

(** What a successful attachment maps, and that the segment stays the one its
    id names. *)
Lemma attach_maps A F id addr m al t (o : OS) al' t' o' :
  shm_inv A F t → (∀ s, att_count al s ≤ A s) →
  shm_attach id addr m al t o = Some (0, al', t', o') →
  ∃ s v g o1, shm_get id t = Some (s, g) ∧ ss_seg g = Some v ∧ id = Z.of_nat s + 1 ∧
    held s v t' ∧ MapRange addr v (seg_size v) m o = MapOk o1 ∧
    ∀ p a, os_cell o' p a = os_cell o1 p a.
Proof.
  intros Ht Hc. unfold shm_attach. destruct (shm_get id t) as [[s g]|] eqn:Hget; [|done].
  destruct (ss_removed g) eqn:Hr; [done|]. destruct (ss_seg g) as [v|] eqn:Hv; [|done].
  destruct (shm_get_held _ _ _ _ _ _ _ Ht Hget Hr Hv) as [Hheld ->].
  unfold mapLocked. destruct (MapRange _ _ _ _ _) as [o1| |] eqn:HM; [|done|done].
  destruct (dropAttachmentsLocked al addr (seg_size v) t o1) as [[al1 t1] o2] eqn:E.
  intros [= <- <- <-]. exists s, v, g, o1. split_and!; try done.
  - destruct (drop_inv A F al addr _ t o1 al1 t1 o2 Ht Hc E) as [_ Hk].
    destruct (Hk s v Hheld) as (g1 & Hg1 & Hv1 & Hk1).
    exists (g1 <| ss_attached ::= λ n, n + 1 |>). simpl. by rewrite lookup_alter_eq, Hg1.
  - intros p a. by apply (drop_cell al addr (seg_size v) t o1 al1 t1 o2).
Qed.

(** Attaching works as shared memory: after two processes attach the same id,
    at whatever addresses, each byte one of them writes in the segment is the
    byte the other reads at the same offset. *)
Theorem shm_attach_shares (y : shm_sys OS) p1 p2 m1 m2 al1 al2 id a1 a2 al1' al2' t1 t2 o1 o2 :
  reachable shm_start shm_bounded y →
  sy_procs y !! p1 = Some (m1, al1) → sy_procs y !! p2 = Some (m2, al2) → p1 ≠ p2 →
  m_space m1 ≠ m_space m2 → 0 ≤ a1 < 2 ^ 32 → 0 ≤ a2 < 2 ^ 32 →
  shm_attach id a1 m1 al1 (sy_t y) (sy_o y) = Some (0, al1', t1, o1) →
  shm_attach id a2 m2 al2 t1 o1 = Some (0, al2', t2, o2) →
  ∃ s v, seg_of s (sy_t y) = Some v ∧ id = Z.of_nat s + 1 ∧
    ∀ off x, 0 ≤ off < seg_size v → seg_size v < 2 ^ 63 →
      load (store m1 (a1 + off) x o2) m2 (a2 + off) = x ∧
      load o2 m1 (a1 + off) = load o2 m2 (a2 + off).
Proof.
  intros Hy Hp1 Hp2 Hp Hsp Ha1 Ha2 Hat1 Hat2.
  pose proof (sys_ok_reachable y Hy) as Hok. unfold sys_ok in Hok.
  destruct (attach_maps _ _ id a1 m1 al1 _ _ al1' t1 o1 Hok (λ s, attachments_ge _ p1 m1 al1 s Hp1) Hat1)
    as (s & v & g & x1 & Hget & Hv & -> & Hheld & HM1 & Hc1).
  pose proof (attach_inv _ _ al1 _ a1 m1 _ _ _ al1' t1 o1 Hok (λ s, attachments_ge _ p1 m1 al1 s Hp1) Hat1) as Hok1.
  destruct (held_get _ _ _ _ _ Hok1 Hheld) as (g1 & Hget1 & Hv1).
  assert (∀ q, att_count al2 q ≤ attachments (sy_procs y) q - att_count al1 q + att_count al1' q) as Hc.
  { intros q. pose proof (attachments_ge (<[p1 := (m1, [])]> (sy_procs y)) p2 m2 al2 q) as Hge.
    rewrite attachments_insert, Hp1 in Hge. simpl in Hge.
    rewrite lookup_insert_ne in Hge by done. specialize (Hge Hp2).
    pose proof (att_count_nonneg al1' q). lia. }
  destruct (attach_maps _ _ (Z.of_nat s + 1) a2 m2 al2 t1 o1 al2' t2 o2 Hok1 Hc Hat2)
    as (s' & v' & g' & x2 & Hget' & Hv' & _ & _ & HM2 & Hc2).
  rewrite Hget1 in Hget'. injection Hget' as <- <-. rewrite Hv1 in Hv'. injection Hv' as <-.
  destruct (shm_get_Some _ _ _ _ _ _ Hok Hget) as (Hg & _ & _).
  exists s, v. split; [unfold seg_of; by rewrite Hg|]. split; [done|]. intros off x Hoff Hsz.
  pose proof (mapped_cell a1 v (seg_size v) m1 (sy_o y) x1 off ltac:(lia) ltac:(lia) Hoff HM1) as C1.
  pose proof (mapped_cell a2 v (seg_size v) m2 o1 x2 off ltac:(lia) ltac:(lia) Hoff HM2) as C2.
  rewrite <- Hc2 in C2.
  assert (os_cell o2 (m_space m1) (a1 + off) = Some (Shared (seg_f v) off)) as C1'.
  { rewrite Hc2. destruct (MapRange_ok a2 v (seg_size v) m2 o1 x2 ltac:(lia) ltac:(lia) HM2) as (E & _).
    rewrite (os_map_shared_cell _ _ _ _ _ _ _ _ E), decide_False by (by intros []). by rewrite Hc1. }
  unfold load, store. rewrite C1', os_cell_poke, C2, os_byte_poke, decide_True by done. done.
Qed.
End shm_sharing.

(** ** The properties at work

    Two processes; a segment of one page is created, the first attaches it. *)
Definition demo_mems : memory * memory * Sim.sim :=
  let '(m1, o) := demo_boot in
  match Reserve (4 * PageSize) o with
  | Some (m2, o) => let '(_, m2, o) := Reallocate (2 * PageSize) m2 o in (m1, m2, o)
  | None => (m1, m1, o)
  end.

Definition demo_shm : shm_sys Sim.sim :=
  let '(m1, m2, o) := demo_mems in
  let '(id, t, o) := shm_create 100 shm_init o in
  match shm_attach id PageSize m1 [] t o with
  | Some (_, al, t, o) => ShmSys (<[0%nat := (m1, al)]> (<[1%nat := (m2, [])]> (<[0%nat := (m1, [])]> ∅))) ∅ t o
  | None => ShmSys ∅ ∅ t o
  end.

Lemma demo_shm_reachable : reachable shm_start shm_bounded demo_shm.
Proof.
  exists (ShmSys ∅ ∅ shm_init demo_mems.2). split; [done|].
  eapply rtc_l; [split; [by apply (sh_start _ _ _ _ 0%nat demo_mems.1.1)|done]|].
  eapply rtc_l; [split; [by apply (sh_start _ _ _ _ 1%nat demo_mems.1.2)|done]|].
  eapply rtc_l; [split; [by apply (sh_create _ _ _ _ 100 1 (shm_create 100 shm_init demo_mems.2).1.2
                                     (shm_create 100 shm_init demo_mems.2).2)|done]|].
  eapply rtc_l; [split; [by eapply (sh_attach _ _ _ _ 0%nat demo_mems.1.1 [] 1 PageSize); vm_compute|done]|].
  match goal with |- rtc _ ?a ?b => assert (a = b) as -> by (vm_compute; reflexivity) end.
  apply rtc_refl.
Qed.


(** Both attach it: the first a second time, at the same address. *)
Definition demo_first : Z * list attachment * shmTable * Sim.sim :=
  default (1, [], shm_init, Sim.boot)
    (shm_attach 1 PageSize demo_mems.1.1 [Attachment PageSize PageSize 0] (sy_t demo_shm) (sy_o demo_shm)).
Definition demo_second : Z * list attachment * shmTable * Sim.sim :=
  default (1, [], shm_init, Sim.boot)
    (shm_attach 1 0 demo_mems.1.2 [] demo_first.1.2 demo_first.2).

Lemma shm_attach_shares_witness :
  load (store demo_mems.1.1 (PageSize + 9) 77 demo_second.2) demo_mems.1.2 (0 + 9) = 77.
Proof.
  destruct (shm_attach_shares demo_shm 0%nat 1%nat demo_mems.1.1 demo_mems.1.2
    [Attachment PageSize PageSize 0] [] 1 PageSize 0 demo_first.1.1.2 demo_second.1.1.2
    demo_first.1.2 demo_second.1.2 demo_first.2 demo_second.2 demo_shm_reachable
    ltac:(by vm_compute) ltac:(by vm_compute) ltac:(done) ltac:(by vm_compute)
    ltac:(done) ltac:(done) ltac:(by vm_compute) ltac:(by vm_compute)) as (s & v & Hv & Hs & Hmem).
  assert (s = 0%nat) as -> by lia.
  assert (seg_size v = PageSize) as Hsz by (vm_compute in Hv; injection Hv as <-; reflexivity).
  apply Hmem; rewrite Hsz; done.
Defined.

(** The size of a segment of 2 GiB or more, which fits the [uint32] it is made
    with, is negative as an [int32]. *)
Lemma big_segment_negative t id s g v :
  shm_get id t = Some (s, g) → ss_removed g = false → ss_seg g = Some v → 2 ^ 31 ≤ seg_size v < 2 ^ 32 →
  shm_size id t = seg_size v - 2 ^ 32.
Proof.
  intros Hg Hr Hs Hv. unfold shm_size. rewrite Hg, Hr, Hs.
  unfold wrapS. change (2 ^ (32 - 1)) with (2 ^ 31).
  rewrite <-(Z.mod_unique_pos (seg_size v + 2 ^ 31) (2 ^ 32) 1 (seg_size v - 2 ^ 31)); lia.
Qed.

(** An object whose segment is removed by its id keeps its name: a later open
    finds it, without memory and unknown to [shm_get]. *)
Lemma removed_object_found :
  let '(fd, t) := shm_open_seg "x" O_CREAT shm_init in
  let '(r1, t, o) := shm_truncate 0 100 t Sim.boot in
  let '(r2, t, o) := shm_remove 1 t o in
  let '(t, o) := shmFile_release 0 t o in
  r1 = 0 ∧ r2 = 0 ∧ (shm_open_seg "x" 0 t).1 = inr 0%nat ∧ shm_get 1 t = None ∧ seg_of 0 t = None.
Proof. vm_compute. done. Qed.
