(* ===== verification/MemFS.v ===== *)
(** The in-memory filesystem ([src/internal/memfs/memfs.go]).

    A [*node] is an address in a heap of nodes, so hard links and open files
    share nodes as in the code; a nil pointer is [None].  A file's data is a
    Go slice: its backing array and its length.  An operation returns its
    value, a [syscall.Errno] (the [fs.PathError] around it only adds text), or
    panics; [now] is what [time.Now] returns. *)
From S2P Require Import Prelude Paths.
From Stdlib Require Import Ascii.

(** ** The constants of [syscall] and [io/fs] (Linux) *)
Definition fs_O_WRONLY : Z := 1.
Definition fs_O_RDWR : Z := 2.
Definition fs_O_CREAT : Z := 64.
Definition fs_O_EXCL : Z := 128.
Definition fs_O_TRUNC : Z := 512.
Definition fs_O_APPEND : Z := 1024.
Definition accessModes : Z := Z.lor 0 (Z.lor fs_O_WRONLY fs_O_RDWR).
Definition ModeDir : Z := Z.shiftl 1 31.
Definition Perm (mode : Z) : Z := Z.land mode 511.

Inductive fserr :=
| F_EPERM | F_EINVAL | F_ENOTDIR | F_ENOENT | F_EEXIST | F_EISDIR | F_EBADF | F_ENOTEMPTY
| F_EXDEV | F_EOF.
#[export] Instance fserr_eq_dec : EqDecision fserr.
Proof. solve_decision. Defined.

Inductive result (A : Type) := Ok (a : A) | Err (e : fserr) | Panic.
Arguments Ok {A}. Arguments Err {A}. Arguments Panic {A}.
#[export] Instance result_eq_dec A `{EqDecision A} : EqDecision (result A).
Proof. solve_decision. Defined.

Definition rbind {A B} (f : A → result B) (r : result A) : result B :=
  match r with Ok a => f a | Err e => Err e | Panic => Panic end.
Notation "'let!' x := r 'in' k" := (rbind (λ x, k) r)
  (at level 10, x pattern, r at level 200, k at level 200) : pgz_scope.

(** ** Data: a slice [d_arr[:d_len]] of capacity [zlen d_arr]; [None] is nil *)
Record slice := Slice_ { d_arr : bytes; d_len : Z }.
#[export] Instance eta_slice : Eta slice := λ r, {| d_arr := d_arr r; d_len := d_len r |}.
Definition d_bytes (d : slice) : bytes := ztake (d_len d) (d_arr d).
Definition nil_slice : slice := Slice_ [] 0.

(** [copy(arr[off:], b)] within an array. *)
Definition overwrite (off : Z) (b arr : bytes) : bytes :=
  let b := ztake (zlen arr - off) b in ztake off arr ++ b ++ zdrop (off + zlen b) arr.

(** [grow] extends to [size]: in place when there is room, else in a new array.
    [make] panics ([None]) on a capacity above [maxAlloc], the bound Go's
    allocator puts on an array. *)
Definition grow (maxAlloc size : Z) (d : slice) : option slice :=
  if size <=? zlen (d_arr d) then
    Some (Slice_ (overwrite (d_len d) (zrepeat (size - d_len d) 0) (d_arr d)) size)
  else
    let c := Z.max size (2 * zlen (d_arr d)) in
    if maxAlloc <? c then None
    else Some (Slice_ (overwrite 0 (d_bytes d) (zrepeat c 0)) size).

Record node := Node {
  n_mode : Z;
  n_data : slice;
  n_modTime : Z;
  n_entries : gmap string nat;
  n_parent : option nat;
}.
#[export] Instance eta_node : Eta node := λ r,
  {| n_mode := n_mode r; n_data := n_data r; n_modTime := n_modTime r;
     n_entries := n_entries r; n_parent := n_parent r |}.

Definition isDir (n : node) : bool := negb (Z.land (n_mode n) ModeDir =? 0).

Record FS := mkFS { fs_heap : gmap nat node; fs_next : nat; fs_root : nat }.
#[export] Instance eta_FS : Eta FS := λ r,
  {| fs_heap := fs_heap r; fs_next := fs_next r; fs_root := fs_root r |}.

Definition fs_new_node (n : node) (f : FS) : nat * FS :=
  (fs_next f, f <| fs_heap ::= <[fs_next f := n]> |> <| fs_next ::= S |>).
Definition fs_update (p : nat) (g : node → node) (f : FS) : FS := f <| fs_heap ::= alter g p |>.

(** [newDir(parent)]; a nil parent makes the directory its own parent. *)
Definition newDir (parent : option nat) (now : Z) (f : FS) : nat * FS :=
  let p := fs_next f in
  fs_new_node (Node (Z.lor ModeDir 448) nil_slice now ∅
                 (Some (match parent with Some q => q | None => p end))) f.

Definition fs_New (now : Z) : FS :=
  let '(r, f) := newDir None now (mkFS ∅ 0 0) in f <| fs_root := r |>.

Definition touch (p : nat) (now : Z) (f : FS) : FS := fs_update p (λ n, n <| n_modTime := now |>) f.

(** ** Path resolution *)

(** The loop of [resolve]; [cur] may be nil after [".."] from a regular file. *)
Fixpoint walk (f : FS) (cur : option nat) (parts : list string) : result (option nat) :=
  match parts with
  | [] => Ok cur
  | p :: parts =>
      if decide (p = "" ∨ p = ".") then walk f cur parts
      else if decide (p = "..") then
        if decide (cur = Some (fs_root f)) then Err F_EPERM
        else match cur ≫= λ c, fs_heap f !! c with
             | None => Panic
             | Some n => walk f (n_parent n) parts
             end
      else match cur ≫= λ c, fs_heap f !! c with
           | None => Panic
           | Some n =>
               if negb (isDir n) then Err F_ENOTDIR
               else match n_entries n !! p with
                    | None => Err F_ENOENT
                    | Some c => walk f (Some c) parts
                    end
           end
  end.

(** Drops the trailing empty components, but never the first one. *)
Fixpoint drop_empty (rparts : list string) : list string :=
  match rparts with
  | p :: ((_ :: _) as rest) => if decide (p = "") then drop_empty rest else rparts
  | _ => rparts
  end.

Definition walk_end (f : FS) (cur : option nat) (mustDir : bool) : result nat :=
  match cur with
  | None => Panic
  | Some c =>
      match fs_heap f !! c with
      | None => Panic
      | Some n => if negb (isDir n) && mustDir then Err F_ENOTDIR else Ok c
      end
  end.

Definition resolve (f : FS) (dir : nat) (name : string) : result nat :=
  if IsAbs name then Err F_EPERM
  else
    let parts := split_slash name in
    let! cur := walk f (Some dir) parts in
    walk_end f cur (bool_decide (last parts = Some "" ∧ name ≠ "")).

(** With [parentOnly]: the parent directory and the base name. *)
Definition resolve_parent (f : FS) (dir : nat) (name : string) : result (nat * string) :=
  if IsAbs name then Err F_EPERM
  else
    match drop_empty (rev (split_slash name)) with
    | [] => Panic
    | base :: rparts =>
        if decide (base = "" ∨ base = "." ∨ base = "..") then Err F_EINVAL
        else
          let! cur := walk f (Some dir) (rev rparts) in
          let! c := walk_end f cur true in
          Ok (c, base)
    end.

(** ** Open files *)
Record File := mkFile {
  f_fs : nat;    (* which filesystem *)
  f_node : nat;
  f_name : string;
  f_flag : Z;
  f_offset : Z;
  f_dirPos : Z;
}.
#[export] Instance eta_File : Eta File := λ r,
  {| f_fs := f_fs r; f_node := f_node r; f_name := f_name r; f_flag := f_flag r;
     f_offset := f_offset r; f_dirPos := f_dirPos r |}.

Definition writable (fl : File) : bool := negb (Z.land (f_flag fl) accessModes =? 0).
Definition has (flag bit : Z) : bool := negb (Z.land flag bit =? 0).

Definition node_of (f : FS) (fl : File) : result node :=
  match fs_heap f !! f_node fl with Some n => Ok n | None => Panic end.

(** What [OpenAt] opens: an existing node, or a new empty file. *)
Definition open_node (fl : File) (name : string) (flag perm now : Z) (f : FS) : result nat * FS :=
  if has flag fs_O_CREAT then
    match resolve_parent f (f_node fl) name with
    | Err e => (Err e, f)
    | Panic => (Panic, f)
    | Ok (dir, base) =>
        match (fs_heap f !! dir) ≫= λ d, n_entries d !! base with
        | Some n => (if has flag fs_O_EXCL then Err F_EEXIST else Ok n, f)
        | None =>
            let '(n, f) := fs_new_node (Node (Z.lor (Perm perm) 384) nil_slice now ∅ None) f in
            (Ok n, touch dir now (fs_update dir (λ d, d <| n_entries ::= <[base := n]> |>) f))
        end
    end
  else (resolve f (f_node fl) name, f).

Definition OpenAt (fl : File) (name : string) (flag perm now : Z) (f : FS) : result File * FS :=
  match open_node fl name flag perm now f with
  | (Err e, f) => (Err e, f)
  | (Panic, f) => (Panic, f)
  | (Ok n, f) =>
      let nf := mkFile (f_fs fl) n (Base name) flag 0 0 in
      match fs_heap f !! n with
      | None => (Panic, f)
      | Some nd =>
          if isDir nd then
            if writable nf || has flag fs_O_TRUNC then (Err F_EISDIR, f) else (Ok nf, f)
          else if has flag fs_O_TRUNC && writable nf then
            (Ok nf, fs_update n (λ d, d <| n_data ::= λ s, s <| d_len := 0 |> |> <| n_modTime := now |>) f)
          else (Ok nf, f)
      end
  end.

Record fileInfo := FileInfo { i_name : string; i_size : Z; i_mode : Z; i_modTime : Z }.
Definition info (name : string) (n : node) : fileInfo :=
  FileInfo name (d_len (n_data n)) (n_mode n) (n_modTime n).

Definition Stat (fl : File) (f : FS) : result fileInfo :=
  let! n := node_of f fl in Ok (info (f_name fl) n).

Definition StatAt (fl : File) (name : string) (f : FS) : result fileInfo :=
  let! p := resolve f (f_node fl) name in
  match fs_heap f !! p with Some n => Ok (info (Base name) n) | None => Panic end.

(** *** Reading and writing

    A read returns what it copied and the error it returns with it. *)
Definition ReadAt (fl : File) (n off : Z) (f : FS) : result (bytes * option fserr) :=
  let! nd := node_of f fl in
  if isDir nd then Ok ([], Some F_EISDIR)
  else if off <? 0 then Ok ([], Some F_EINVAL)
  else if d_len (n_data nd) <=? off then Ok ([], Some F_EOF)
  else
    let b := ztake n (zdrop off (d_bytes (n_data nd))) in
    Ok (b, if zlen b <? n then Some F_EOF else None).

Definition Read (fl : File) (n : Z) (f : FS) : result (bytes * option fserr) * File :=
  match ReadAt fl n (f_offset fl) f with
  | Ok (b, e) =>
      (Ok (b, if decide (e = Some F_EOF ∧ 0 < zlen b) then None else e),
       fl <| f_offset ::= λ o, i64 (o + zlen b) |>)
  | Err e => (Err e, fl)
  | Panic => (Panic, fl)
  end.

(** [n.data[off:]] panics on an offset past the end. *)
Definition WriteAt (maxAlloc : Z) (fl : File) (b : bytes) (off now : Z) (f : FS) : result Z * FS :=
  match node_of f fl with
  | Err e => (Err e, f)
  | Panic => (Panic, f)
  | Ok nd =>
      if isDir nd then (Err F_EISDIR, f)
      else if negb (writable fl) then (Err F_EBADF, f)
      else if off <? 0 then (Err F_EINVAL, f)
      else
        let e := i64 (off + zlen b) in
        match (if d_len (n_data nd) <? e then grow maxAlloc e (n_data nd) else Some (n_data nd)) with
        | None => (Panic, f)
        | Some d =>
            if d_len d <? off then (Panic, f)
            else
              let d := d <| d_arr := overwrite off (ztake (d_len d - off) b) (d_arr d) |> in
              (Ok (zlen b), fs_update (f_node fl) (λ n, n <| n_data := d |> <| n_modTime := now |>) f)
        end
  end.

Definition Write (maxAlloc : Z) (fl : File) (b : bytes) (now : Z) (f : FS) : result Z * File * FS :=
  match node_of f fl with
  | Err e => (Err e, fl, f)
  | Panic => (Panic, fl, f)
  | Ok nd =>
      let fl := if has (f_flag fl) fs_O_APPEND then fl <| f_offset := d_len (n_data nd) |> else fl in
      let '(r, f) := WriteAt maxAlloc fl b (f_offset fl) now f in
      (r, match r with Ok n => fl <| f_offset ::= λ o, i64 (o + n) |> | _ => fl end, f)
  end.

Definition Seek (fl : File) (offset whence : Z) (f : FS) : result Z * File :=
  let at' o := if o <? 0 then (Err F_EINVAL, fl) else (Ok o, fl <| f_offset := o |>) in
  if whence =? 0 then at' offset
  else if whence =? 1 then at' (i64 (offset + f_offset fl))
  else if whence =? 2 then
    match node_of f fl with
    | Ok n => at' (i64 (offset + d_len (n_data n)))
    | Err e => (Err e, fl)
    | Panic => (Panic, fl)
    end
  else (Err F_EINVAL, fl).

Definition Truncate (maxAlloc : Z) (fl : File) (size now : Z) (f : FS) : result unit * FS :=
  match node_of f fl with
  | Err e => (Err e, f)
  | Panic => (Panic, f)
  | Ok nd =>
      if isDir nd then (Err F_EISDIR, f)
      else if size <? 0 then (Err F_EINVAL, f)
      else
        match (if size <=? d_len (n_data nd) then Some ((n_data nd) <| d_len := size |>)
               else grow maxAlloc size (n_data nd)) with
        | None => (Panic, f)
        | Some d => (Ok tt, fs_update (f_node fl) (λ n, n <| n_data := d |> <| n_modTime := now |>) f)
        end
  end.

Definition Chtimes (fl : File) (mtime : Z) (f : FS) : FS := touch (f_node fl) mtime f.

Definition ChtimesAt (fl : File) (name : string) (mtime : Z) (f : FS) : result unit * FS :=
  match resolve f (f_node fl) name with
  | Ok p => (Ok tt, touch p mtime f)
  | Err e => (Err e, f)
  | Panic => (Panic, f)
  end.

(** *** Directories *)

(** The names in order and the nodes they refer to, from the cursor on; at most
    [count] of them when it is positive.  Nothing left is [io.EOF] then. *)
Definition ReadDir (fl : File) (count : Z) (f : FS) : result (list (string * fileInfo)) * File :=
  match node_of f fl with
  | Err e => (Err e, fl)
  | Panic => (Panic, fl)
  | Ok nd =>
      if negb (isDir nd) then (Err F_ENOTDIR, fl)
      else
        let names := merge_sort String.le (map_to_list (n_entries nd)).*1 in
        let len := zlen names in
        if len <=? f_dirPos fl then (if 0 <? count then Err F_EOF else Ok [], fl)
        else
          let e := if (0 <? count) && (i64 (f_dirPos fl + count) <? len) then f_dirPos fl + count else len in
          let out := omap (λ name,
            match n_entries nd !! name ≫= λ p, fs_heap f !! p with
            | Some n => Some (name, info name n)
            | None => None
            end) (ztake (e - f_dirPos fl) (zdrop (f_dirPos fl) names)) in
          (Ok out, fl <| f_dirPos := e |>)
  end.

(** An operation on the parent directory and base name of a path. *)
Definition at_parent {A} (fl : File) (name : string) (f : FS)
    (k : nat → string → node → result A * FS) : result A * FS :=
  match resolve_parent f (f_node fl) name with
  | Err e => (Err e, f)
  | Panic => (Panic, f)
  | Ok (dir, base) =>
      match fs_heap f !! dir with Some d => k dir base d | None => (Panic, f) end
  end.

Definition remove_entry (dir : nat) (base : string) (now : Z) (f : FS) : FS :=
  touch dir now (fs_update dir (λ d, d <| n_entries ::= delete base |>) f).
Definition set_entry (dir : nat) (base : string) (n : nat) (f : FS) : FS :=
  fs_update dir (λ d, d <| n_entries ::= <[base := n]> |>) f.

Definition MkdirAt (fl : File) (name : string) (perm now : Z) (f : FS) : result unit * FS :=
  at_parent fl name f (λ dir base d,
    match n_entries d !! base with
    | Some _ => (Err F_EEXIST, f)
    | None =>
        let '(p, f) := newDir (Some dir) now f in
        let f := fs_update p (λ n, n <| n_mode := Z.lor ModeDir (Z.lor (Perm perm) 448) |>) f in
        (Ok tt, touch dir now (set_entry dir base p f))
    end).

Definition RmdirAt (fl : File) (name : string) (now : Z) (f : FS) : result unit * FS :=
  at_parent fl name f (λ dir base d,
    match n_entries d !! base with
    | None => (Err F_ENOENT, f)
    | Some p =>
        match fs_heap f !! p with
        | None => (Panic, f)
        | Some n =>
            if negb (isDir n) then (Err F_ENOTDIR, f)
            else if negb (bool_decide (n_entries n = ∅)) then (Err F_ENOTEMPTY, f)
            else (Ok tt, remove_entry dir base now f)
        end
    end).

Definition UnlinkAt (fl : File) (name : string) (now : Z) (f : FS) : result unit * FS :=
  at_parent fl name f (λ dir base d,
    match n_entries d !! base with
    | None => (Err F_ENOENT, f)
    | Some p =>
        match fs_heap f !! p with
        | None => (Panic, f)
        | Some n =>
            if isDir n then (Err F_EISDIR, f)
            else (Ok tt, remove_entry dir base now f)
        end
    end).

Definition ReadlinkAt (fl : File) (name : string) : result string := Err F_EINVAL.

(** [newDir] as a directory of this filesystem; [None] is a file of some other
    type. *)
Definition otherDir (fl : File) (newDir : option File) (f : FS) : result nat :=
  match newDir with
  | None => Err F_EXDEV
  | Some nd =>
      if negb (Nat.eqb (f_fs nd) (f_fs fl)) then Err F_EXDEV
      else let! n := node_of f nd in
           if negb (isDir n) then Err F_ENOTDIR else Ok (f_node nd)
  end.

(** The loop that looks for [n] among [d] and the directories above it; it
    only stops at [n] or at the root. *)
Fixpoint below (f : FS) (n d : nat) (fuel : nat) : option (result bool) :=
  match fuel with
  | O => None
  | S fuel =>
      if decide (d = n) then Some (Ok true)
      else if decide (d = fs_root f) then Some (Ok false)
      else match fs_heap f !! d ≫= n_parent with
           | None => Some Panic
           | Some d => below f n d fuel
           end
  end.

(** What [RenameAt] does once the paths are resolved and the target was found
    replaceable. *)
Definition rename_move (n : node) (p odir ndir : nat) (obase nbase : string) (now : Z) (f : FS) : FS :=
  let f := if isDir n then fs_update p (λ n, n <| n_parent := Some ndir |>) f else f in
  let f := fs_update odir (λ d, d <| n_entries ::= delete obase |>) f in
  touch ndir now (touch odir now (set_entry ndir nbase p f)).

(** Whether [target] may be replaced by [n]. *)
Definition rename_target (n target : node) : result unit :=
  if isDir n && negb (isDir target) then Err F_ENOTDIR
  else if negb (isDir n) && isDir target then Err F_EISDIR
  else if isDir target && negb (bool_decide (n_entries target = ∅)) then Err F_ENOTEMPTY
  else Ok tt.

(** The checks of [RenameAt] before the loop: the node to move, where from and
    where to; [None] when both names are of one node. *)
Definition rename_plan (fl : File) (oldName : string) (newDir : option File) (newName : string) (f : FS)
    : result (option (node * nat * nat * string * nat * string)) :=
  let! nd := otherDir fl newDir f in
  let! (odir, obase) := resolve_parent f (f_node fl) oldName in
  let! (ndir, nbase) := resolve_parent f nd newName in
  match fs_heap f !! odir, fs_heap f !! ndir with
  | Some od, Some ndn =>
      match n_entries od !! obase with
      | None => Err F_ENOENT
      | Some p =>
          match fs_heap f !! p with
          | None => Panic
          | Some n =>
              match n_entries ndn !! nbase with
              | None => Ok (Some (n, p, odir, obase, ndir, nbase))
              | Some t =>
                  if decide (t = p) then Ok None
                  else match fs_heap f !! t with
                       | None => Panic
                       | Some target =>
                           let! _ := rename_target n target in
                           Ok (Some (n, p, odir, obase, ndir, nbase))
                       end
              end
          end
      end
  | _, _ => Panic
  end.

(** [None] when [fuel] is too small for the loop. *)
Definition RenameAt (fuel : nat) (fl : File) (oldName : string) (newDir : option File) (newName : string)
    (now : Z) (f : FS) : option (result unit * FS) :=
  match rename_plan fl oldName newDir newName f with
  | Err e => Some (Err e, f)
  | Panic => Some (Panic, f)
  | Ok None => Some (Ok tt, f)
  | Ok (Some (n, p, odir, obase, ndir, nbase)) =>
      if isDir n then
        match below f p ndir fuel with
        | None => None
        | Some (Ok true) => Some (Err F_EINVAL, f)
        | Some (Ok false) => Some (Ok tt, rename_move n p odir ndir obase nbase now f)
        | Some _ => Some (Panic, f)
        end
      else Some (Ok tt, rename_move n p odir ndir obase nbase now f)
  end.

Definition LinkAt (fl : File) (oldName : string) (newDir : option File) (newName : string) (now : Z) (f : FS)
    : result unit * FS :=
  match
    (let! nd := otherDir fl newDir f in
     let! p := resolve f (f_node fl) oldName in
     let! n := match fs_heap f !! p with Some n => Ok n | None => Panic end in
     if isDir n then Err F_EPERM
     else
       let! (ndir, nbase) := resolve_parent f nd newName in
       let! d := match fs_heap f !! ndir with Some d => Ok d | None => Panic end in
       match n_entries d !! nbase with
       | Some _ => Err F_EEXIST
       | None => Ok (p, ndir, nbase)
       end)
  with
  | Err e => (Err e, f)
  | Panic => (Panic, f)
  | Ok (p, ndir, nbase) => (Ok tt, touch ndir now (set_entry ndir nbase p f))
  end.

(** * File contents

    [pwrite] and [resize] say what writing and truncating do to a sequence of
    bytes; the slices implement them, whatever their backing arrays hold. *)
Definition resize (n : Z) (l : bytes) : bytes := ztake n l ++ zrepeat (n - zlen l) 0.
Definition pwrite (off : Z) (b l : bytes) : bytes :=
  let l := resize (Z.max (zlen l) (off + zlen b)) l in
  ztake off l ++ b ++ zdrop (off + zlen b) l.

Definition slice_ok (d : slice) : Prop := 0 ≤ d_len d ≤ zlen (d_arr d).

Lemma zlen_bytes d : slice_ok d → zlen (d_bytes d) = d_len d.
Proof. unfold slice_ok, d_bytes. intros. rewrite zlen_take. lia. Qed.

Lemma zlen_overwrite off b arr : 0 ≤ off ≤ zlen arr → zlen (overwrite off b arr) = zlen arr.
Proof. intros. unfold overwrite. zlia. Qed.

(** Growing appends zeros, even over bytes an earlier truncation left in the
    backing array. *)
Lemma grow_spec maxAlloc size d d' :
  slice_ok d → d_len d ≤ size → grow maxAlloc size d = Some d' →
  slice_ok d' ∧ d_len d' = size ∧ d_bytes d' = d_bytes d ++ zrepeat (size - d_len d) 0.
Proof.
  unfold slice_ok. intros Hd Hs. unfold grow. pose proof (zlen_bytes d Hd) as Hlen.
  destruct (Z.leb_spec size (zlen (d_arr d))).
  - intros [= <-]. simpl. split; [|split; [done|]].
    + rewrite zlen_overwrite by lia. lia.
    + unfold d_bytes. simpl. unfold overwrite. rewrite (ztake_all (zlen (d_arr d) - d_len d)) by zlia.
      rewrite ztake_app_ge by zlia. f_equal. rewrite zlen_take.
      rewrite ztake_app_ge by zlia. rewrite (ztake_le_0 _ (zdrop _ _)) by zlia. by rewrite app_nil_r.
  - destruct (maxAlloc <? _); [done|]. intros [= <-]. simpl. split; [|split; [done|]].
    + rewrite zlen_overwrite by zlia. zlia.
    + unfold d_bytes at 1. simpl. unfold overwrite. rewrite (ztake_le_0 0) by lia. simpl.
      rewrite (ztake_all _ (d_bytes d)) by zlia. rewrite ztake_app_ge by zlia. f_equal.
      unfold ztake, zdrop, zrepeat. rewrite Hlen, drop_replicate, take_replicate. f_equal.
      pose proof (zlen_nonneg (d_arr d)). lia.
Qed.

(** Copying [b] over the live part of the array. *)
Lemma overwrite_spec d off b :
  slice_ok d → 0 ≤ off → off + zlen b ≤ d_len d →
  let d' := d <| d_arr := overwrite off (ztake (d_len d - off) b) (d_arr d) |> in
  slice_ok d' ∧ d_bytes d' = ztake off (d_bytes d) ++ b ++ zdrop (off + zlen b) (d_bytes d).
Proof.
  unfold slice_ok. intros Hd Hoff Hb. simpl. pose proof (zlen_nonneg b).
  split; [rewrite zlen_overwrite; lia|].
  rewrite (ztake_all (d_len d - off)) by lia. unfold d_bytes. simpl. unfold overwrite.
  rewrite (ztake_all (zlen (d_arr d) - off)) by lia.
  rewrite ztake_app_ge by zlia. rewrite ztake_ztake. f_equal; [f_equal; lia|].
  rewrite ztake_app_ge by zlia. f_equal. rewrite ztake_zdrop by lia. f_equal.
  f_equal. zlia.
Qed.

Lemma resize_grow size l : zlen l ≤ size → resize size l = l ++ zrepeat (size - zlen l) 0.
Proof. intros. unfold resize. by rewrite ztake_all. Qed.
Lemma resize_same l : resize (zlen l) l = l.
Proof. rewrite resize_grow by lia. unfold zrepeat. replace (zlen l - zlen l) with 0 by lia. apply app_nil_r. Qed.
Lemma resize_shrink size l : size ≤ zlen l → resize size l = ztake size l.
Proof. intros. unfold resize, zrepeat. rewrite Z2Nat.nonpos by lia. apply app_nil_r. Qed.
Lemma zlen_resize n l : 0 ≤ n → zlen (resize n l) = n.
Proof. intros. unfold resize. zlia. Qed.
Lemma zlen_pwrite off b l : 0 ≤ off → zlen (pwrite off b l) = Z.max (zlen l) (off + zlen b).
Proof.
  intros. unfold pwrite. pose proof (zlen_nonneg l). pose proof (zlen_nonneg b).
  autorewrite with zlen. rewrite zlen_resize by lia. lia.
Qed.

(** A file open on a regular file with contents [l]. *)
Definition file_at (f : FS) (p : nat) (l : bytes) : Prop :=
  ∃ nd, fs_heap f !! p = Some nd ∧ isDir nd = false ∧ slice_ok (n_data nd) ∧ d_bytes (n_data nd) = l.

Lemma lookup_update f p g q :
  fs_heap (fs_update p g f) !! q = if decide (p = q) then g <$> fs_heap f !! q else fs_heap f !! q.
Proof.
  simpl. case_decide; [subst; by rewrite lookup_alter_eq|by rewrite lookup_alter_ne].
Qed.

Lemma file_at_set f p d now l :
  file_at f p l → slice_ok d →
  file_at (fs_update p (λ n, n <| n_data := d |> <| n_modTime := now |>) f) p (d_bytes d).
Proof.
  intros (nd & Hnd & Hdir & _ & _) Hd. eexists. rewrite lookup_update, decide_True, Hnd by done.
  split; [done|]. split; [exact Hdir|]. by split.
Qed.

Lemma WriteAt_spec maxAlloc fl b off now f l r f' :
  file_at f (f_node fl) l → writable fl = true → 0 ≤ off → off + zlen b < 2 ^ 63 →
  WriteAt maxAlloc fl b off now f = (r, f') →
  (r = Panic ∧ f' = f ∧ maxAlloc < 2 * (off + zlen b)) ∨
  (r = Ok (zlen b) ∧ file_at f' (f_node fl) (pwrite off b l)).
Proof.
  intros Hat Hw Hoff Hov. unfold WriteAt, node_of. pose proof Hat as (nd & Hnd & Hdir & Hok & Hl).
  rewrite Hnd, Hdir, Hw. simpl. destruct (Z.ltb_spec off 0); [lia|].
  pose proof (zlen_nonneg b). rewrite (wrapS_small 64) by lia.
  pose proof (zlen_bytes _ Hok) as Hlen.
  set (od := if d_len (n_data nd) <? off + zlen b then _ else _).
  assert ((od = None ∧ maxAlloc < 2 * (off + zlen b)) ∨ ∃ d, od = Some d ∧
    slice_ok d ∧ d_bytes d = resize (Z.max (zlen l) (off + zlen b)) l) as Hod.
  { subst od. rewrite <- Hl, Hlen. destruct (Z.ltb_spec (d_len (n_data nd)) (off + zlen b)).
    - destruct (grow maxAlloc (off + zlen b) (n_data nd)) as [d|] eqn:E.
      + right. destruct (grow_spec maxAlloc (off + zlen b) (n_data nd) d Hok ltac:(lia) E) as (Hd & _ & Hb). exists d.
        split_and!; [done|done|]. rewrite Hb, Z.max_r by lia. rewrite resize_grow by lia. by rewrite Hlen.
      + left. split; [done|]. unfold grow in E. pose proof (zlen_nonneg (d_arr (n_data nd))). destruct (Z.leb_spec (off + zlen b) (zlen (d_arr (n_data nd)))); [done|].
        destruct (Z.ltb_spec maxAlloc (Z.max (off + zlen b) (2 * zlen (d_arr (n_data nd))))); [lia|done].
    - right. exists (n_data nd). split_and!; [done|done|]. pose proof (zlen_nonneg b). rewrite Z.max_l by lia.
      rewrite <- Hlen. by rewrite resize_same. }
  clearbody od. destruct Hod as [[-> Hm]|(d & -> & Hd & Hb)]; [intros [= <- <-]; by left|].
  pose proof (zlen_bytes _ Hd) as Hdlen. rewrite Hb, zlen_resize in Hdlen by (pose proof (zlen_nonneg l); lia).
  destruct (Z.ltb_spec (d_len d) off); [lia|]. intros [= <- <-]. right. split; [done|].
  destruct (overwrite_spec d off b Hd Hoff ltac:(lia)) as [Hok' Hb'].
  unfold pwrite. rewrite <- Hb, <- Hb'. by apply (file_at_set _ _ _ _ l).
Qed.

Lemma Truncate_spec maxAlloc fl size now f l r f' :
  file_at f (f_node fl) l → 0 ≤ size → Truncate maxAlloc fl size now f = (r, f') →
  (r = Panic ∧ f' = f ∧ maxAlloc < 2 * size) ∨
  (r = Ok tt ∧ file_at f' (f_node fl) (resize size l)).
Proof.
  intros Hat Hsz. unfold Truncate, node_of. pose proof Hat as (nd & Hnd & Hdir & Hok & Hl).
  rewrite Hnd, Hdir. destruct (Z.ltb_spec size 0); [lia|].
  pose proof (zlen_bytes _ Hok) as Hlen. rewrite <- Hl.
  destruct (Z.leb_spec size (d_len (n_data nd))).
  - intros [= <- <-]. right. split; [done|].
    rewrite resize_shrink by lia. unfold d_bytes at 1. rewrite ztake_ztake, Z.min_l by lia.
    change (ztake size (d_arr (n_data nd))) with (d_bytes ((n_data nd) <| d_len := size |>)).
    apply (file_at_set f _ _ now l); [done|]. unfold slice_ok in *. simpl. lia.
  - destruct (grow maxAlloc size (n_data nd)) as [d|] eqn:E; intros [= <- <-].
    + right. split; [done|]. destruct (grow_spec maxAlloc size (n_data nd) d Hok ltac:(lia) E) as (Hd & _ & Hb).
      rewrite resize_grow, Hlen by lia. rewrite <- Hb. by apply (file_at_set _ _ _ _ l).
    + left. split; [done|]. split; [done|]. unfold grow in E.
      pose proof (zlen_nonneg (d_arr (n_data nd))).
      destruct (Z.leb_spec size (zlen (d_arr (n_data nd)))); [done|].
      destruct (Z.ltb_spec maxAlloc (Z.max size (2 * zlen (d_arr (n_data nd))))); [lia|done].
Qed.

Lemma ReadAt_spec fl n off f l :
  file_at f (f_node fl) l → 0 ≤ off →
  ReadAt fl n off f = Ok (ztake n (zdrop off l),
    if (zlen l <=? off) || (zlen (ztake n (zdrop off l)) <? n) then Some F_EOF else None).
Proof.
  intros (nd & Hnd & Hdir & Hok & Hl) Hoff. unfold ReadAt, node_of. rewrite Hnd. simpl. rewrite Hdir.
  destruct (Z.ltb_spec off 0); [lia|]. rewrite Hl, <- (zlen_bytes _ Hok), Hl.
  destruct (Z.leb_spec (zlen l) off); simpl; [|done].
  rewrite zdrop_all by lia. unfold ztake. by rewrite take_nil.
Qed.

(** * The tree

    [rooted f d]: following parents from [d] reaches the root.  [fs_wf] is the
    structure of the namespace: entries lead to nodes and have proper names,
    a directory is entered from its parent only and under one name, and every
    directory, removed ones included, is rooted. *)
Inductive rooted (f : FS) : nat → Prop :=
| rooted_root : rooted f (fs_root f)
| rooted_up d n q :
    fs_heap f !! d = Some n → isDir n = true → n_parent n = Some q → rooted f q → rooted f d.

Record fs_wf (f : FS) : Prop := {
  wf_root : ∃ n, fs_heap f !! fs_root f = Some n ∧ isDir n = true ∧ n_parent n = Some (fs_root f);
  wf_fresh p : (fs_next f ≤ p)%nat → fs_heap f !! p = None;
  wf_child p n b c : fs_heap f !! p = Some n → n_entries n !! b = Some c → is_Some (fs_heap f !! c);
  wf_file p n : fs_heap f !! p = Some n → isDir n = false → n_entries n = ∅;
  wf_dir p n : fs_heap f !! p = Some n → isDir n = true →
    ∃ q qn, n_parent n = Some q ∧ fs_heap f !! q = Some qn ∧ isDir qn = true;
  wf_rooted p n : fs_heap f !! p = Some n → isDir n = true → rooted f p;
  wf_name p n b c : fs_heap f !! p = Some n → n_entries n !! b = Some c → normal b;
  wf_up p n b c cn : fs_heap f !! p = Some n → n_entries n !! b = Some c →
    fs_heap f !! c = Some cn → isDir cn = true → n_parent cn = Some p ∧ c ≠ fs_root f;
  wf_one p n b b' c cn : fs_heap f !! p = Some n → n_entries n !! b = Some c → n_entries n !! b' = Some c →
    fs_heap f !! c = Some cn → isDir cn = true → b = b';
}.

(** What the structure depends on. *)
Definition shape (n : node) : bool * gmap string nat * option nat := (isDir n, n_entries n, n_parent n).

Lemma shape_eq n n' : shape n = shape n' → isDir n = isDir n' ∧ n_entries n = n_entries n' ∧ n_parent n = n_parent n'.
Proof. by intros [= ? ? ?]. Qed.

Definition same_shape (f f' : FS) : Prop :=
  fs_root f' = fs_root f ∧ fs_next f' = fs_next f ∧
  ∀ p, shape <$> fs_heap f' !! p = shape <$> fs_heap f !! p.

Lemma same_shape_lookup f f' p n :
  same_shape f f' → fs_heap f' !! p = Some n → ∃ n', fs_heap f !! p = Some n' ∧ shape n' = shape n.
Proof.
  intros (_ & _ & Hs) Hp. specialize (Hs p). rewrite Hp in Hs. simpl in Hs.
  symmetry in Hs. apply fmap_Some in Hs as (n' & Hn' & He). by exists n'.
Qed.

Lemma same_shape_sym f f' : same_shape f f' → same_shape f' f.
Proof. intros (? & ? & ?). by repeat split. Qed.

Lemma same_shape_trans f g h : same_shape f g → same_shape g h → same_shape f h.
Proof.
  intros (Hr & Hn & Hs) (Hr' & Hn' & Hs'). split; [congruence|]. split; [congruence|].
  intros p. by rewrite Hs', Hs.
Qed.

Lemma rooted_shape f f' d : same_shape f f' → rooted f d → rooted f' d.
Proof.
  intros Hs. induction 1 as [|d n q Hd Hdir Hq _ IH].
  - rewrite <- (proj1 Hs). constructor.
  - destruct (same_shape_lookup f' f d n (same_shape_sym _ _ Hs) Hd) as (n' & Hn' & (E1 & E2 & E3)%shape_eq).
    apply (rooted_up f' d n' q); congruence.
Qed.

Lemma fs_wf_shape f f' : same_shape f f' → fs_wf f → fs_wf f'.
Proof.
  intros Hs [Hroot Hfresh Hchild Hfile Hdir Hrooted Hname Hup Hone].
  pose proof (same_shape_lookup f f') as L. pose proof (same_shape_sym _ _ Hs) as Hs'.
  pose proof (λ p n, same_shape_lookup f' f p n Hs') as L'. specialize (λ p n, L p n Hs) as L2. clear L.
  destruct Hs as (Er & En & Es). split.
  - destruct Hroot as (n & Hn & Hd & Hp). destruct (L' _ _ Hn) as (n' & Hn' & (E1 & E2 & E3)%shape_eq).
    exists n'. rewrite Er. split_and!; congruence.
  - intros p Hp. rewrite En in Hp. specialize (Es p). rewrite (Hfresh p Hp) in Es. by destruct (fs_heap f' !! p).
  - intros p n b c Hp Hb. destruct (L2 _ _ Hp) as (n' & Hn' & (E1 & E2 & E3)%shape_eq).
    destruct (Hchild p n' b c Hn') as [cn Hc]; [congruence|]. destruct (L' _ _ Hc) as (x & ? & _). by exists x.
  - intros p n Hp Hd. destruct (L2 _ _ Hp) as (n' & Hn' & (E1 & E2 & E3)%shape_eq).
    rewrite <- E2. apply (Hfile p n'); congruence.
  - intros p n Hp Hd. destruct (L2 _ _ Hp) as (n' & Hn' & (E1 & E2 & E3)%shape_eq).
    destruct (Hdir p n' Hn') as (q & qn & Hq & Hqn & Hqd); [congruence|].
    destruct (L' _ _ Hqn) as (qn' & Hqn' & (F1 & _)%shape_eq). exists q, qn'. split_and!; congruence.
  - intros p n Hp Hd. destruct (L2 _ _ Hp) as (n' & Hn' & (E1 & E2 & E3)%shape_eq).
    apply (rooted_shape f); [by apply same_shape_sym|]. apply (Hrooted p n'); congruence.
  - intros p n b c Hp Hb. destruct (L2 _ _ Hp) as (n' & Hn' & (E1 & E2 & E3)%shape_eq).
    apply (Hname p n' b c); congruence.
  - intros p n b c cn Hp Hb Hc Hd. destruct (L2 _ _ Hp) as (n' & Hn' & (E1 & E2 & E3)%shape_eq).
    destruct (L2 _ _ Hc) as (cn' & Hcn' & (F1 & F2 & F3)%shape_eq).
    rewrite Er, <- F3. apply (Hup p n' b c cn'); congruence.
  - intros p n b b' c cn Hp Hb Hb' Hc Hd. destruct (L2 _ _ Hp) as (n' & Hn' & (E1 & E2 & E3)%shape_eq).
    destruct (L2 _ _ Hc) as (cn' & Hcn' & (F1 & F2 & F3)%shape_eq).
    apply (Hone p n' b b' c cn'); congruence.
Qed.

Lemma update_same_shape f p g : (∀ n, shape (g n) = shape n) → same_shape f (fs_update p g f).
Proof.
  intros Hg. split; [done|]. split; [done|]. intros q. rewrite lookup_update. case_decide; [|done].
  destruct (fs_heap f !! q); simpl; [by rewrite Hg|done].
Qed.

Lemma touch_shape p now f : same_shape f (touch p now f).
Proof. by apply update_same_shape. Qed.

Lemma fs_wf_touch p now f : fs_wf f → fs_wf (touch p now f).
Proof. apply fs_wf_shape, touch_shape. Qed.

(** ** Changing entries *)

(** Replacing the entries of one directory keeps every parent. *)
Lemma rooted_entries f p g d :
  (∀ n, isDir (g n) = isDir n ∧ n_parent (g n) = n_parent n) →
  rooted f d → rooted (fs_update p g f) d.
Proof.
  intros Hg. induction 1 as [|d n q Hd Hdir Hq _ IH]; [apply (rooted_root (fs_update p g f))|].
  apply (rooted_up _ d (if decide (p = d) then g n else n) q); [| | |done].
  - rewrite lookup_update, Hd. by case_decide.
  - case_decide; [|done]. by rewrite (proj1 (Hg n)).
  - case_decide; [|done]. by rewrite (proj2 (Hg n)).
Qed.

(** Changing the entries of directory [p] to [es], where each new entry is an
    old one or leads to [c], which may be entered from here. *)
Lemma fs_wf_entries f p pn g es :
  fs_wf f → fs_heap f !! p = Some pn → isDir pn = true →
  (∀ n, isDir (g n) = isDir n ∧ n_parent (g n) = n_parent n) → n_entries (g pn) = es →
  (∀ b c, es !! b = Some c →
    (n_entries pn !! b = Some c ∧ ∀ b' cn, es !! b' = Some c → fs_heap f !! c = Some cn →
       isDir cn = true → b = b') ∨
    (normal b ∧ ∃ cn, fs_heap f !! c = Some cn ∧
       (isDir cn = true → n_parent cn = Some p ∧ c ≠ fs_root f ∧ ∀ b', es !! b' = Some c → b = b'))) →
  fs_wf (fs_update p g f).
Proof.
  intros [Hroot Hfresh Hchild Hfile Hdir Hrooted Hname Hup Hone] Hp Hpd Hg Hes He.
  assert (∀ q n', fs_heap (fs_update p g f) !! q = Some n' →
    ∃ n, fs_heap f !! q = Some n ∧ isDir n' = isDir n ∧ n_parent n' = n_parent n ∧
      (q = p ∧ n = pn ∧ n_entries n' = es ∨ q ≠ p ∧ n' = n)) as L.
  { intros q n'. rewrite lookup_update. case_decide as Hq.
    - subst q. rewrite Hp. simpl. intros [= <-]. exists pn. destruct (Hg pn). split_and!; [done..|]. by left.
    - intros Hn. exists n'. split_and!; [done..|]. right. by split. }
  assert (∀ q n, fs_heap f !! q = Some n → ∃ n', fs_heap (fs_update p g f) !! q = Some n' ∧ isDir n' = isDir n ∧ n_parent n' = n_parent n) as L'.
  { intros q n Hn. rewrite lookup_update. case_decide; [|by exists n]. rewrite Hn. simpl. exists (g n).
    destruct (Hg n). by split_and!. }
  split.
  - destruct Hroot as (n & Hn & Hd & Hpar). destruct (L' _ _ Hn) as (n' & Hn' & E1 & E2).
    exists n'. split_and!; [done|congruence|]. by rewrite E2.
  - intros q Hq. rewrite lookup_update. rewrite (Hfresh q Hq). by case_decide.
  - intros q n' b c (n & Hn & E1 & E2 & Hcase)%L Hb.
    enough (is_Some (fs_heap f !! c)) as [cn Hc] by (destruct (L' _ _ Hc) as (x & ? & _); by exists x).
    destruct Hcase as [(-> & -> & Hes')|[_ ->]]; [|by apply (Hchild q n b)].
    rewrite Hes' in Hb. destruct (He b c Hb) as [[Hb' _]|(_ & cn & Hcn & _)]; [by apply (Hchild p pn b)|by exists cn].
  - intros q n' (n & Hn & E1 & E2 & Hcase)%L Hd.
    destruct Hcase as [(-> & -> & _)|[_ ->]]; [congruence|]. by apply (Hfile q).
  - intros q n' (n & Hn & E1 & E2 & _)%L Hd. rewrite E1 in Hd.
    destruct (Hdir q n Hn Hd) as (u & un & Hu & Hun & Hud). destruct (L' _ _ Hun) as (un' & Hun' & F1 & F2).
    exists u, un'. split_and!; congruence.
  - intros q n' (n & Hn & E1 & E2 & _)%L Hd. apply rooted_entries; [done|]. apply (Hrooted q n); congruence.
  - intros q n' b c (n & Hn & E1 & E2 & Hcase)%L Hb.
    destruct Hcase as [(-> & -> & Hes')|[_ ->]]; [|by apply (Hname q n b c)].
    rewrite Hes' in Hb. destruct (He b c Hb) as [[Hb' _]|(? & _)]; [by apply (Hname p pn b c)|done].
  - intros q n' b c cn' (n & Hn & E1 & E2 & Hcase)%L Hb (cn & Hcn & F1 & F2 & _)%L Hd.
    rewrite F2. rewrite F1 in Hd. change (fs_root (fs_update p g f)) with (fs_root f).
    destruct Hcase as [(-> & -> & Hes')|[_ ->]]; [|by apply (Hup q n b c cn)].
    rewrite Hes' in Hb. destruct (He b c Hb) as [[Hb' _]|(_ & cn2 & Hcn2 & Hok)]; [by apply (Hup p pn b c cn)|].
    simplify_eq. by destruct (Hok Hd) as (? & ? & _).
  - intros q n' b b' c cn' (n & Hn & E1 & E2 & Hcase)%L Hb Hb' (cn & Hcn & F1 & F2 & _)%L Hd.
    rewrite F1 in Hd. destruct Hcase as [(-> & -> & Hes')|[_ ->]]; [|by apply (Hone q n b b' c cn)].
    rewrite Hes' in Hb, Hb'.
    destruct (He b c Hb) as [[_ Hu]|(_ & cn2 & Hcn2 & Hok)]; [by apply (Hu b' cn)|].
    simplify_eq. by apply (Hok Hd).
Qed.

Lemma fs_wf_remove f p pn b now :
  fs_wf f → fs_heap f !! p = Some pn → isDir pn = true → fs_wf (remove_entry p b now f).
Proof.
  intros Hwf Hp Hd. apply fs_wf_touch. eapply (fs_wf_entries f p pn); [done..| |done|].
  - by intros n.
  - simpl. intros b1 c [_ Hb1]%lookup_delete_Some. left. split; [done|].
    intros b' cn [_ Hb']%lookup_delete_Some Hc Hcd. by apply (wf_one f Hwf p pn b1 b' c cn).
Qed.

(** Entering [c] under the proper name [b]: a file, or a directory whose parent
    this is and that has no other entry. *)
Lemma fs_wf_set f p pn b c cn :
  fs_wf f → fs_heap f !! p = Some pn → isDir pn = true → normal b → fs_heap f !! c = Some cn →
  (isDir cn = true → n_parent cn = Some p ∧ c ≠ fs_root f ∧ ∀ b', n_entries pn !! b' ≠ Some c) →
  fs_wf (set_entry p b c f).
Proof.
  intros Hwf Hp Hd Hb Hc Hcd. eapply (fs_wf_entries f p pn); [done..| |done|].
  - by intros n.
  - simpl. intros b1 c1 [[<- <-]|[Hne Hb1]]%lookup_insert_Some.
    + right. split; [done|]. exists cn. split; [done|]. intros Hdir. destruct (Hcd Hdir) as (? & ? & Hno).
      split_and!; [done..|]. intros b' [[-> _]|[_ Hb']]%lookup_insert_Some; [done|]. by destruct (Hno b').
    + left. split; [done|]. intros b' cn1 [[<- ->]|[_ Hb']]%lookup_insert_Some Hc1 Hd1.
      * simplify_eq. destruct (Hcd Hd1) as (_ & _ & Hno). by destruct (Hno b1).
      * by apply (wf_one f Hwf p pn b1 b' c1 cn1).
Qed.

(** ** New nodes *)
Lemma rooted_mono f f' d :
  fs_root f' = fs_root f → (∀ q n, fs_heap f !! q = Some n → fs_heap f' !! q = Some n) →
  rooted f d → rooted f' d.
Proof.
  intros Hr Hm. induction 1 as [|d n q Hd Hdir Hq _ IH]; [rewrite <- Hr; constructor|].
  by apply (rooted_up f' d n q); [apply Hm| | |].
Qed.

Lemma fs_wf_new f n :
  fs_wf f → n_entries n = ∅ →
  (isDir n = true → ∃ q qn, n_parent n = Some q ∧ fs_heap f !! q = Some qn ∧ isDir qn = true) →
  fs_wf (fs_new_node n f).2.
Proof.
  intros [Hroot Hfresh Hchild Hfile Hdir Hrooted Hname Hup Hone] Hes Hpar. unfold fs_new_node. simpl.
  set (f' := mkFS _ _ _). pose proof (Hfresh (fs_next f) (Nat.le_refl _)) as Hnone.
  assert (∀ q m, fs_heap f !! q = Some m → fs_heap f' !! q = Some m) as M.
  { intros q m Hq. simpl. rewrite lookup_insert_ne; [done|]. intros <-. congruence. }
  assert (∀ q m, fs_heap f' !! q = Some m → (q = fs_next f ∧ m = n) ∨ fs_heap f !! q = Some m) as L.
  { intros q m. simpl. intros [[<- <-]|[_ ?]]%lookup_insert_Some; [by left|by right]. }
  assert (∀ q m b c, fs_heap f !! q = Some m → n_entries m !! b = Some c → c ≠ fs_next f) as C.
  { intros q m b c Hq Hb ->. destruct (Hchild q m b _ Hq Hb). congruence. }
  split.
  - destruct Hroot as (m & Hm & ? & ?). exists m. split_and!; [by apply M|done|done].
  - intros q Hq. simpl in *. rewrite lookup_insert_ne by lia. apply Hfresh. lia.
  - intros q m b c [[-> ->]|Hq]%L Hb; [by rewrite Hes in Hb|].
    destruct (Hchild q m b c Hq Hb) as [cn Hc]. exists cn. by apply M.
  - intros q m [[-> ->]|Hq]%L Hd; [done|by apply (Hfile q)].
  - intros q m [[-> ->]|Hq]%L Hd.
    + destruct (Hpar Hd) as (u & un & ? & ? & ?). exists u, un. split_and!; [done|by apply M|done].
    + destruct (Hdir q m Hq Hd) as (u & un & ? & ? & ?). exists u, un. split_and!; [done|by apply M|done].
  - intros q m [[-> ->]|Hq]%L Hd.
    + destruct (Hpar Hd) as (u & un & Hu & Hun & Hud).
      apply (rooted_up f' _ n u); [simpl; apply lookup_insert_eq|done|done|].
      apply (rooted_mono f); [done|done|by apply (Hrooted u un)].
    + apply (rooted_mono f); [done|done|by apply (Hrooted q m)].
  - intros q m b c [[-> ->]|Hq]%L Hb; [by rewrite Hes in Hb|]. by apply (Hname q m b c).
  - intros q m b c cn [[-> ->]|Hq]%L Hb; [by rewrite Hes in Hb|].
    intros [[-> ->]|Hc]%L; [by destruct (C q m b _ Hq Hb)|]. by apply (Hup q m b c cn).
  - intros q m b b' c cn [[-> ->]|Hq]%L Hb Hb'; [by rewrite Hes in Hb|].
    intros [[-> ->]|Hc]%L; [by destruct (C q m b _ Hq Hb)|]. by apply (Hone q m b b' c cn).
Qed.

(** ** Moving a directory *)

(** The way up from [d] to the root avoids [n]. *)
Inductive clear_of (f : FS) (n : nat) : nat → Prop :=
| clear_root : fs_root f ≠ n → clear_of f n (fs_root f)
| clear_up d dn q :
    d ≠ n → fs_heap f !! d = Some dn → isDir dn = true → n_parent dn = Some q → clear_of f n q →
    clear_of f n d.

(** [d] is [k] directories below the root. *)
Inductive depth (f : FS) : nat → nat → Prop :=
| depth_root : depth f 0 (fs_root f)
| depth_up k d dn q :
    d ≠ fs_root f → fs_heap f !! d = Some dn → isDir dn = true → n_parent dn = Some q →
    depth f k q → depth f (S k) d.

Lemma rooted_depth f d : rooted f d → ∃ k, depth f k d.
Proof.
  induction 1 as [|d n q Hd Hdir Hq _ [k IH]]; [exists 0%nat; constructor|].
  destruct (decide (d = fs_root f)) as [->|]; [exists 0%nat; constructor|].
  exists (S k). by eapply depth_up.
Qed.

Lemma depth_unique f k k' d : depth f k d → depth f k' d → k = k'.
Proof.
  intros H. revert k'. induction H as [|k d dn q Hne Hd Hdir Hq _ IH]; intros k' H'.
  - inversion H'; subst; congruence.
  - inversion H' as [|? ? dn' q']; subst; [done|]. f_equal. apply IH. congruence.
Qed.

Lemma depth_chain f k d : depth f k d →
  ∃ l : list nat, NoDup l ∧ length l = k ∧ ∀ x, x ∈ l → x ∈ dom (fs_heap f) ∧ ∃ j, (j ≤ k)%nat ∧ depth f j x.
Proof.
  induction 1 as [|k d dn q Hne Hd Hdir Hq Hk (l & Hl & Hlen & Hx)]; [exists []; split_and!; [constructor|done|]|].
  { by intros x ?%not_elem_of_nil. }
  assert (depth f (S k) d) as Hdk by (by eapply depth_up).
  exists (d :: l). split_and!; [constructor; [|done]|simpl; by f_equal|].
  - intros Hin. destruct (Hx d Hin) as (_ & j & Hj & Hdj). pose proof (depth_unique f _ _ d Hdk Hdj). lia.
  - intros x [->|Hin]%elem_of_cons.
    + split; [by apply elem_of_dom; exists dn|]. by exists (S k).
    + destruct (Hx x Hin) as (? & j & ? & ?). split; [done|]. exists j. split; [lia|done].
Qed.

Lemma depth_bound f k d : depth f k d → (k ≤ size (fs_heap f))%nat.
Proof.
  intros (l & Hl & <- & Hx)%depth_chain.
  rewrite <- (size_list_to_set (C := gset nat)) by done. rewrite <- size_dom.
  apply subseteq_size. intros x Hxl%elem_of_list_to_set. by apply Hx.
Qed.

Lemma below_spec f n k d fuel : fs_wf f → depth f k d → (k < fuel)%nat →
  ∃ b, below f n d fuel = Some (Ok b) ∧ (b = false → clear_of f n d) ∧ (b = true → ¬ clear_of f n d).
Proof.
  intros Hwf Hk. revert fuel. induction Hk as [|k d dn q Hne Hd Hdir Hq _ IH]; intros fuel Hf;
    (destruct fuel as [|fuel]; [lia|]); simpl.
  - case_decide as Hn; [exists true|rewrite decide_True by done; exists false]; split_and!; try done.
    + intros _ Hc. inversion Hc; congruence.
    + intros _. by constructor.
  - case_decide as Hn.
    + exists true. split_and!; try done. intros _ Hc. inversion Hc; congruence.
    + rewrite decide_False by done. rewrite Hd. simpl. rewrite Hq.
      destruct (IH fuel ltac:(lia)) as (b & -> & Hb1 & Hb2). exists b. split_and!; [done|..].
      * intros ->. by eapply clear_up; [..|apply Hb1].
      * intros Hb Hc. inversion Hc as [|? dn' q' ? Hd' ? Hq']; subst; [done|].
        apply (Hb2 eq_refl). congruence.
Qed.

Lemma below_clear f n d dn fuel : fs_wf f → fs_heap f !! d = Some dn → isDir dn = true →
  below f n d fuel = Some (Ok false) → clear_of f n d.
Proof.
  intros Hwf. revert d dn. induction fuel as [|fuel IH]; [done|]. intros d dn Hd Hdd. simpl.
  case_decide as Hn; [done|]. case_decide as Hr; [subst; intros _; by constructor|].
  destruct (wf_dir f Hwf d dn Hd Hdd) as (q & qn & Hq & Hqn & Hqd). rewrite Hd. simpl. rewrite Hq.
  intros Hb. by apply (clear_up f n d dn q); [..|by apply (IH q qn)].
Qed.

(** The fuel of the loop in [RenameAt]: one more than the number of nodes. *)
Lemma below_total f n d : fs_wf f → rooted f d →
  ∃ b, below f n d (S (size (fs_heap f))) = Some (Ok b) ∧
    (b = false → clear_of f n d) ∧ (b = true → ¬ clear_of f n d).
Proof.
  intros Hwf [k Hk]%rooted_depth. pose proof (depth_bound f k d Hk).
  apply (below_spec f n k d); [done..|lia].
Qed.

Lemma fs_wf_reparent f p pn nd ndn :
  fs_wf f → fs_heap f !! p = Some pn → isDir pn = true → p ≠ fs_root f →
  (∀ q qn b, fs_heap f !! q = Some qn → n_entries qn !! b ≠ Some p) →
  fs_heap f !! nd = Some ndn → isDir ndn = true → clear_of f p nd →
  fs_wf (fs_update p (λ n, n <| n_parent := Some nd |>) f).
Proof.
  intros [Hroot Hfresh Hchild Hfile Hdir Hrooted Hname Hup Hone] Hp Hpd Hpr Hno Hnd Hndd Hclear.
  set (f' := fs_update _ _ f).
  assert (∀ q m', fs_heap f' !! q = Some m' → ∃ m, fs_heap f !! q = Some m ∧ isDir m' = isDir m ∧
    n_entries m' = n_entries m ∧ (q = p ∧ n_parent m' = Some nd ∨ q ≠ p ∧ n_parent m' = n_parent m)) as L.
  { intros q m'. unfold f'. rewrite lookup_update. case_decide as Hq.
    - subst q. rewrite Hp. simpl. intros [= <-]. exists pn. split_and!; [done..|by left].
    - intros Hm. exists m'. split_and!; [done..|right; by split]. }
  assert (∀ q m, fs_heap f !! q = Some m → q ≠ p → fs_heap f' !! q = Some m) as M.
  { intros q m Hq Hne. unfold f'. by rewrite lookup_update, decide_False. }
  assert (fs_heap f' !! p = Some (pn <| n_parent := Some nd |>)) as Mp.
  { unfold f'. by rewrite lookup_update, decide_True, Hp. }
  assert (∀ d, clear_of f p d → rooted f' d) as Hcr.
  { induction 1 as [|d dn q Hne Hd Hdd Hq _ IH]; [apply (rooted_root f')|].
    by apply (rooted_up f' d dn q); [apply M|..]. }
  assert (rooted f' p) as Hrp by (by apply (rooted_up f' p (pn <| n_parent := Some nd |>) nd); [..|apply Hcr]).
  assert (∀ d, rooted f d → rooted f' d) as Hr.
  { induction 1 as [|d dn q Hd Hdd Hq _ IH]; [apply (rooted_root f')|].
    destruct (decide (d = p)) as [->|]; [done|]. by apply (rooted_up f' d dn q); [apply M|..]. }
  split.
  - destruct Hroot as (m & Hm & ? & ?). exists m. split_and!; [by apply M|done|done].
  - intros q Hq. unfold f'. rewrite lookup_update, (Hfresh q Hq). by case_decide.
  - intros q m' b c (m & Hm & E1 & E2 & _)%L Hb. rewrite E2 in Hb.
    destruct (Hchild q m b c Hm Hb) as [cn Hc]. destruct (decide (c = p)) as [->|]; [by eexists|].
    exists cn. by apply M.
  - intros q m' (m & Hm & E1 & E2 & _)%L Hd. rewrite E2. apply (Hfile q m); congruence.
  - intros q m' (m & Hm & E1 & E2 & Hc)%L Hd. rewrite E1 in Hd.
    assert (∀ u un, fs_heap f !! u = Some un → isDir un = true →
      ∃ un', fs_heap f' !! u = Some un' ∧ isDir un' = true) as Hk.
    { intros u un Hu Hud. destruct (decide (u = p)) as [->|]; [|exists un; split; [by apply M|done]].
      exists (pn <| n_parent := Some nd |>). split; [done|]. by simplify_eq. }
    destruct Hc as [[-> ->]|[_ ->]].
    + destruct (Hk nd ndn Hnd Hndd) as (x & ? & ?). by exists nd, x.
    + destruct (Hdir q m Hm Hd) as (u & un & Hu & Hun & Hud). destruct (Hk u un Hun Hud) as (x & ? & ?).
      by exists u, x.
  - intros q m' (m & Hm & E1 & _)%L Hd. apply Hr, (Hrooted q m); congruence.
  - intros q m' b c (m & Hm & _ & E2 & _)%L Hb. apply (Hname q m b c); congruence.
  - intros q m' b c cn' (m & Hm & _ & E2 & _)%L Hb (cn & Hcn & F1 & _ & Hc)%L Hd.
    rewrite E2 in Hb. change (fs_root f') with (fs_root f).
    destruct Hc as [[-> _]|[_ ->]]; [by destruct (Hno q m b Hm)|].
    apply (Hup q m b c cn); congruence.
  - intros q m' b b' c cn' (m & Hm & _ & E2 & _)%L Hb Hb' (cn & Hcn & F1 & _)%L Hd.
    apply (Hone q m b b' c cn); congruence.
Qed.

(** ** Every operation keeps the filesystem well formed *)
Definition slices_ok (f : FS) : Prop := ∀ p n, fs_heap f !! p = Some n → slice_ok (n_data n).
Definition fs_ok (f : FS) : Prop := fs_wf f ∧ slices_ok f.

Lemma slices_update f p g :
  (∀ n, slice_ok (n_data n) → slice_ok (n_data (g n))) → slices_ok f → slices_ok (fs_update p g f).
Proof.
  intros Hg Hs q n. rewrite lookup_update. case_decide; [|apply Hs].
  intros (m & Hm & ->)%fmap_Some. by apply Hg, (Hs q).
Qed.

Lemma slices_new f n : slice_ok (n_data n) → slices_ok f → slices_ok (fs_new_node n f).2.
Proof. intros Hn Hs q m. simpl. intros [[<- <-]|[_ Hq]]%lookup_insert_Some; [done|by apply (Hs q)]. Qed.

Lemma nil_slice_ok : slice_ok nil_slice.
Proof. by unfold slice_ok. Qed.

(** Updates of entries, parents, modes and times. *)
Lemma slices_keep f p g : (∀ n, n_data (g n) = n_data n) → slices_ok f → slices_ok (fs_update p g f).
Proof. intros Hg. apply slices_update. intros n. by rewrite Hg. Qed.

Lemma file_mode perm : Z.land (Z.lor (Perm perm) 384) ModeDir = 0.
Proof. unfold Perm. rewrite Z.land_lor_distr_l, <- Z.land_assoc. simpl. by rewrite Z.land_0_r. Qed.

Lemma dir_mode m : (Z.land (Z.lor ModeDir m) ModeDir =? 0) = false.
Proof.
  apply Z.eqb_neq. rewrite Z.land_lor_distr_l. rewrite Z.lor_eq_0_iff. by intros [? _].
Qed.

Lemma isDir_mode n m : n_mode n = Z.lor ModeDir m → isDir n = true.
Proof. unfold isDir. intros ->. by rewrite dir_mode. Qed.

Lemma walk_end_Some f cur must c : walk_end f cur must = Ok c →
  ∃ n, fs_heap f !! c = Some n ∧ (must = true → isDir n = true).
Proof.
  unfold walk_end. destruct cur as [c'|]; [|done]. destruct (fs_heap f !! c') as [n|] eqn:E; [|done].
  destruct (isDir n) eqn:Hd; simpl; [intros [= <-]; by exists n|]. destruct must; [done|].
  intros [= <-]. by exists n.
Qed.

Lemma resolve_Ok f d name p : resolve f d name = Ok p → is_Some (fs_heap f !! p).
Proof.
  unfold resolve. destruct (IsAbs name); [done|]. destruct (walk _ _ _); simpl; try done.
  intros (n & Hn & _)%walk_end_Some. by exists n.
Qed.

Lemma drop_empty_sub l x : x ∈ drop_empty l → x ∈ l.
Proof.
  induction l as [|p l IH]; [done|]. simpl. destruct l as [|q l]; [done|].
  case_decide; [|done]. intros Hx. apply elem_of_cons. right. by apply IH.
Qed.

Lemma resolve_parent_Ok f d name p b : resolve_parent f d name = Ok (p, b) →
  normal b ∧ ∃ n, fs_heap f !! p = Some n ∧ isDir n = true.
Proof.
  unfold resolve_parent. destruct (IsAbs name); [done|].
  destruct (drop_empty (rev (split_slash name))) as [|base rparts] eqn:E; [done|].
  case_decide as Hb; [done|]. destruct (walk _ _ _); simpl; try done.
  destruct (walk_end _ _ true) as [c| |] eqn:Hw; simpl; try done. intros [= <- <-].
  split; [|destruct (walk_end_Some _ _ _ _ Hw) as (n & Hn & Hd); exists n; split; [done|by apply Hd]].
  assert (base ∈ split_slash name) as Hin.
  { apply list_elem_of_In, in_rev, list_elem_of_In, drop_empty_sub. rewrite E. constructor. }
  pose proof (split_no_slash name) as Hns. rewrite Forall_forall in Hns.
  unfold normal. split_and!; [naive_solver..|by apply Hns].
Qed.

Lemma fs_ok_touch p now f : fs_ok f → fs_ok (touch p now f).
Proof. intros [? ?]. split; [by apply fs_wf_touch|by apply slices_keep]. Qed.

Lemma fs_ok_remove f p pn b now :
  fs_ok f → fs_heap f !! p = Some pn → isDir pn = true → fs_ok (remove_entry p b now f).
Proof.
  intros [Hw Hs] Hp Hd. split; [by apply (fs_wf_remove f p pn)|].
  apply slices_keep; [done|]. by apply slices_keep.
Qed.

(** A write of data to a node. *)
Lemma fs_ok_data p d now f :
  fs_ok f → slice_ok d → fs_ok (fs_update p (λ n, n <| n_data := d |> <| n_modTime := now |>) f).
Proof.
  intros [Hw Hs] Hd. split; [by apply (fs_wf_shape f), Hw; apply update_same_shape|].
  by apply slices_update.
Qed.

Lemma fs_ok_new_file f dir dn base mode now :
  fs_ok f → fs_heap f !! dir = Some dn → isDir dn = true → normal base → Z.land mode ModeDir = 0 →
  let '(n, f1) := fs_new_node (Node mode nil_slice now ∅ None) f in
  fs_ok (touch dir now (set_entry dir base n f1)).
Proof.
  intros [Hw Hs] Hd Hdd Hb Hmode. unfold fs_new_node. set (nn := Node _ _ _ _ _).
  assert (isDir nn = false) as Hnd by (unfold isDir; simpl; by rewrite Hmode).
  apply fs_ok_touch. split; [|apply slices_keep; [done|]; by apply (slices_new f nn nil_slice_ok)].
  apply (fs_wf_set _ dir dn base _ nn); [| |done|done|simpl; apply lookup_insert_eq|by rewrite Hnd].
  - apply (fs_wf_new f nn); [done|done|by rewrite Hnd].
  - simpl. rewrite lookup_insert_ne; [done|]. intros E. rewrite <- E in Hd.
    by rewrite (wf_fresh f Hw) in Hd.
Qed.

Lemma fs_ok_new_dir f dir dn base mode now :
  fs_ok f → fs_heap f !! dir = Some dn → isDir dn = true → normal base →
  let '(p, f1) := newDir (Some dir) now f in
  fs_ok (touch dir now (set_entry dir base p (fs_update p (λ n, n <| n_mode := Z.lor ModeDir mode |>) f1))).
Proof.
  intros [Hw Hs] Hd Hdd Hb. unfold newDir, fs_new_node. set (nn := Node _ _ _ _ _).
  assert (fs_next f ≠ dir) as Hne.
  { intros E. rewrite <- E in Hd. by rewrite (wf_fresh f Hw) in Hd. }
  assert (fs_wf (fs_new_node nn f).2) as Hw1.
  { apply fs_wf_new; [done|done|]. intros _. by exists dir, dn. }
  set (f1 := f <| fs_heap ::= _ |> <| fs_next ::= S |>). change (fs_wf f1) in Hw1.
  assert (fs_heap f1 !! fs_next f = Some nn) as Hn1 by (simpl; apply lookup_insert_eq).
  assert (fs_heap f1 !! dir = Some dn) as Hd1 by (simpl; by rewrite lookup_insert_ne).
  set (g := λ n, n <| n_mode := Z.lor ModeDir mode |>).
  assert (isDir nn = true) as Hnn by (by apply (isDir_mode nn 448)).
  assert (fs_wf (fs_update (fs_next f) g f1)) as Hw2.
  { apply (fs_wf_shape f1); [|done]. split; [done|]. split; [done|]. intros q. rewrite lookup_update.
    case_decide; [|done]. subst q. rewrite Hn1. simpl. unfold shape. rewrite Hnn.
    by rewrite (isDir_mode (g nn) mode). }
  apply fs_ok_touch. split.
  - apply (fs_wf_set _ dir dn base _ (g nn)); [done| |done|done| |].
    + by rewrite lookup_update, decide_False.
    + by rewrite lookup_update, decide_True, Hn1.
    + intros _. split; [done|]. split.
      * simpl. intros E. destruct (wf_root f Hw) as (rn & Hr & _). rewrite <- E in Hr.
        by rewrite (wf_fresh f Hw) in Hr.
      * intros b' Hb'. destruct (wf_child f Hw dir dn b' _ Hd Hb') as [x Hx].
        by rewrite (wf_fresh f Hw) in Hx.
  - do 2 (apply slices_keep; [done|]). by apply (slices_new f nn nil_slice_ok).
Qed.

Lemma fs_update_comm f p q g h :
  (∀ n, g (h n) = h (g n)) → fs_update p g (fs_update q h f) = fs_update q h (fs_update p g f).
Proof.
  intros Hc. unfold fs_update. destruct f as [hp nx rt]. simpl. f_equal. apply map_eq. intros x.
  rewrite !lookup_alter. repeat case_decide; subst; try done. destruct (hp !! x); simpl; [by rewrite Hc|done].
Qed.

(** The result of a rename that moves [n] (at [p], entry [obase] of [odir]) to
    [nbase] in [ndir]. *)
(** A directory below the root is not its own parent. *)
Lemma wf_parent_ne f p n : fs_wf f → fs_heap f !! p = Some n → isDir n = true → p ≠ fs_root f → n_parent n ≠ Some p.
Proof.
  intros Hw Hp Hn Hpr Hpar. pose proof (wf_rooted f Hw _ _ Hp Hn) as Hroot.
  apply rooted_depth in Hroot as [k Hk]. clear -Hk Hpr Hp Hpar.
  induction Hk as [|k d dn q ? Hd ? Hq _ IH]; [done|]. simplify_eq. by apply IH.
Qed.

Lemma rename_move_ok f n p odir ndir obase nbase now od nd :
  fs_ok f → fs_heap f !! odir = Some od → isDir od = true → n_entries od !! obase = Some p →
  fs_heap f !! p = Some n → fs_heap f !! ndir = Some nd → isDir nd = true → normal nbase →
  (isDir n = true → clear_of f p ndir) →
  fs_ok (rename_move n p odir ndir obase nbase now f).
Proof.
  intros [Hw Hs] Hod Hodd Hob Hp Hnd Hndd Hnb Hclear. unfold rename_move.
  do 2 apply fs_ok_touch.
  set (del := λ d : node, d <| n_entries ::= delete obase |>).
  assert (fs_wf (fs_update odir del f)) as Hw1.
  { apply (fs_wf_shape (remove_entry odir obase now f)); [|by apply (fs_wf_remove f odir od)].
    apply same_shape_sym, touch_shape. }
  set (f1 := fs_update odir del f) in *.
  assert (∀ q m, fs_heap f !! q = Some m → ∃ m', fs_heap f1 !! q = Some m' ∧ isDir m' = isDir m ∧
    n_parent m' = n_parent m ∧ (q ≠ odir → m' = m)) as M.
  { intros q m Hq. unfold f1. rewrite lookup_update. case_decide; [|by exists m]. subst q.
    rewrite Hq. exists (del m). split_and!; done. }
  destruct (M ndir nd Hnd) as (nd1 & Hnd1 & Hd1 & _).
  destruct (isDir n) eqn:Hn.
  - destruct (wf_up f Hw odir od obase p n Hod Hob Hp Hn) as [Hpar Hpr].
    rewrite (fs_update_comm f odir p) by done. fold del f1.
    assert (p ≠ odir) as Hpo.
    { intros ->. by apply (wf_parent_ne f odir n). }
    destruct (M p n Hp) as (n1 & Hp1 & _ & _ & E). rewrite (E Hpo) in Hp1. clear n1 E.
    assert (∀ q qn b, fs_heap f1 !! q = Some qn → n_entries qn !! b ≠ Some p) as Hno.
    { intros q qn b. unfold f1. rewrite lookup_update. case_decide as Hq.
      - subst q. rewrite Hod. simpl. intros [= <-]. simpl. intros [Hne Hb]%lookup_delete_Some.
        by destruct Hne; apply (wf_one f Hw odir od obase b p n).
      - intros Hqn Hb. destruct (wf_up f Hw q qn b p n Hqn Hb Hp Hn) as [Hpar' _]. congruence. }
    assert (clear_of f1 p ndir) as Hcl1.
    { specialize (Hclear eq_refl). clear -Hclear M. induction Hclear as [|d dn q Hne Hd Hdd Hq _ IH].
      - by apply (clear_root f1).
      - destruct (M d dn Hd) as (dn' & Hd' & E1 & E2 & _). apply (clear_up f1 p d dn' q); congruence. }
    assert (ndir ≠ p) as Hnp by (inversion Hcl1; [done|congruence]).
    set (par := λ n : node, n <| n_parent := Some ndir |>) in *.
    assert (fs_wf (fs_update p par f1)) as Hw2.
    { apply (fs_wf_reparent f1 p n ndir nd1); try done. congruence. }
    split; [|by repeat (apply slices_keep; [done|])].
    apply (fs_wf_set _ ndir nd1 nbase p (par n)); [done| |congruence|done| |].
    + by rewrite lookup_update, decide_False.
    + by rewrite lookup_update, decide_True, Hp1.
    + intros _. split; [done|]. split; [done|]. intros b'. by apply (Hno ndir nd1).
  - split; [|by repeat (apply slices_keep; [done|])].
    destruct (M p n Hp) as (n1 & Hp1 & En & _).
    apply (fs_wf_set _ ndir nd1 nbase p n1); [done|done|congruence|done|done|]. intros E. congruence.
Qed.

(** All the ways a filesystem changes, through any open file. *)
Inductive fs_step (maxAlloc : Z) : relation FS :=
| st_open fl name flag perm now f : fs_step maxAlloc f (OpenAt fl name flag perm now f).2
| st_write fl b off now f : fs_step maxAlloc f (WriteAt maxAlloc fl b off now f).2
| st_append fl b now f : fs_step maxAlloc f (Write maxAlloc fl b now f).2
| st_truncate fl size now f : fs_step maxAlloc f (Truncate maxAlloc fl size now f).2
| st_chtimes fl now f : fs_step maxAlloc f (Chtimes fl now f)
| st_chtimesAt fl name now f : fs_step maxAlloc f (ChtimesAt fl name now f).2
| st_mkdir fl name perm now f : fs_step maxAlloc f (MkdirAt fl name perm now f).2
| st_rmdir fl name now f : fs_step maxAlloc f (RmdirAt fl name now f).2
| st_unlink fl name now f : fs_step maxAlloc f (UnlinkAt fl name now f).2
| st_rename fuel fl old nd new now f r f' :
    RenameAt fuel fl old nd new now f = Some (r, f') → fs_step maxAlloc f f'
| st_link fl old nd new now f : fs_step maxAlloc f (LinkAt fl old nd new now f).2.

Lemma node_of_Ok f fl nd : node_of f fl = Ok nd → fs_heap f !! f_node fl = Some nd.
Proof. unfold node_of. destruct (fs_heap f !! f_node fl); [by intros [= ->]|done]. Qed.

Lemma OpenAt_ok fl name flag perm now f : fs_ok f → fs_ok (OpenAt fl name flag perm now f).2.
Proof.
  intros Hok. unfold OpenAt.
  assert (fs_ok (open_node fl name flag perm now f).2) as Hok1.
  { unfold open_node. destruct (has flag fs_O_CREAT); [|done].
    destruct (resolve_parent f (f_node fl) name) as [[dir base]| |] eqn:E; [|done..].
    apply resolve_parent_Ok in E as (Hb & dn & Hd & Hdd).
    destruct (_ ≫= _) eqn:El; [done|].
    by apply (fs_ok_new_file f dir dn base _ now Hok Hd Hdd Hb (file_mode perm)). }
  destruct (open_node fl name flag perm now f) as [[n| |] f1]; [|done..]. simpl in *.
  destruct (fs_heap f1 !! n) as [nd|] eqn:Hn; [|done].
  destruct (isDir nd); [by destruct (_ || _)|]. destruct (_ && _); [|done]. simpl.
  destruct Hok1 as [Hw Hs]. split; [by apply (fs_wf_shape f1), Hw; apply update_same_shape|].
  apply slices_update; [|done]. intros m. unfold slice_ok. simpl. lia.
Qed.

Lemma WriteAt_ok maxAlloc fl b off now f : fs_ok f → fs_ok (WriteAt maxAlloc fl b off now f).2.
Proof.
  intros Hok. unfold WriteAt. destruct (node_of f fl) as [nd| |] eqn:E; [|done..].
  apply node_of_Ok in E. pose proof (proj2 Hok _ _ E) as Hsl.
  destruct (isDir nd); [done|]. destruct (negb _); [done|]. destruct (Z.ltb_spec off 0); [done|].
  set (od := if _ <? _ then _ else _).
  assert (∀ d, od = Some d → slice_ok d) as Hd.
  { intros d. subst od. destruct (Z.ltb_spec (d_len (n_data nd)) (i64 (off + zlen b))); [|by intros [= <-]].
    intros Hg. destruct (grow_spec maxAlloc (i64 (off + zlen b)) (n_data nd) d Hsl ltac:(lia) Hg) as [? _]. done. }
  destruct od as [d|]; [|done]. specialize (Hd d eq_refl).
  destruct (Z.ltb_spec (d_len d) off); [done|]. simpl. apply fs_ok_data; [done|].
  unfold slice_ok in *. simpl. rewrite zlen_overwrite; lia.
Qed.

Lemma Truncate_ok maxAlloc fl size now f : fs_ok f → fs_ok (Truncate maxAlloc fl size now f).2.
Proof.
  intros Hok. unfold Truncate. destruct (node_of f fl) as [nd| |] eqn:E; [|done..].
  apply node_of_Ok in E. pose proof (proj2 Hok _ _ E) as Hsl.
  destruct (isDir nd); [done|]. destruct (Z.ltb_spec size 0); [done|].
  set (od := if _ <=? _ then _ else _).
  assert (∀ d, od = Some d → slice_ok d) as Hd.
  { intros d. subst od. destruct (Z.leb_spec size (d_len (n_data nd))).
    - intros [= <-]. unfold slice_ok in *. simpl. lia.
    - intros Hg. destruct (grow_spec maxAlloc size (n_data nd) d Hsl ltac:(lia) Hg) as [? _]. done. }
  destruct od as [d|]; [|done]. apply fs_ok_data; [done|by apply Hd].
Qed.

Lemma at_parent_ok {A} fl name f (k : nat → string → node → result A * FS) :
  fs_ok f → (∀ dir base d, fs_heap f !! dir = Some d → isDir d = true → normal base → fs_ok (k dir base d).2) →
  fs_ok (at_parent fl name f k).2.
Proof.
  intros Hok Hk. unfold at_parent. destruct (resolve_parent _ _ _) as [[dir base]| |] eqn:E; [|done..].
  apply resolve_parent_Ok in E as (Hb & dn & Hd & Hdd). rewrite Hd. by apply Hk.
Qed.

(** Directory [d] has the entry [b] for the node [p]. *)
Definition entry (f : FS) (d : nat) (b : string) : option nat := fs_heap f !! d ≫= λ n, n_entries n !! b.

Lemma rename_plan_Some fl old ndf new f n p odir obase ndir nbase :
  rename_plan fl old ndf new f = Ok (Some (n, p, odir, obase, ndir, nbase)) →
  fs_heap f !! p = Some n ∧ normal nbase ∧
  (∃ od, fs_heap f !! odir = Some od ∧ isDir od = true ∧ n_entries od !! obase = Some p) ∧
  (∃ nd, fs_heap f !! ndir = Some nd ∧ isDir nd = true ∧ n_entries nd !! nbase ≠ Some p) ∧
  resolve_parent f (f_node fl) old = Ok (odir, obase) ∧
  ∃ nd0, otherDir fl ndf f = Ok nd0 ∧ resolve_parent f nd0 new = Ok (ndir, nbase).
Proof.
  unfold rename_plan. destruct (otherDir fl ndf f) as [nd0| |]; simpl; try done.
  destruct (resolve_parent f (f_node fl) old) as [[odir1 obase1]| |] eqn:E1; simpl; try done.
  destruct (resolve_parent f nd0 new) as [[ndir1 nbase1]| |] eqn:E2; simpl; try done.
  pose proof E2 as E2'. apply resolve_parent_Ok in E2' as (Hnb & nd & Hnd & Hndd).
  pose proof E1 as E1'. apply resolve_parent_Ok in E1' as (_ & od & Hod & Hodd).
  rewrite Hod, Hnd. destruct (n_entries od !! obase1) as [p1|] eqn:Hob; [|done].
  destruct (fs_heap f !! p1) as [n1|] eqn:Hp1; [|done].
  destruct (n_entries nd !! nbase1) as [t|] eqn:Hnbe.
  - destruct (decide (t = p1)) as [|Ht]; [done|]. destruct (fs_heap f !! t); [|done].
    destruct (rename_target _ _); simpl; try done. intros [= <- <- <- <- <- <-].
    split_and!; [done|done|by exists od|exists nd; split_and!; congruence|done|by exists nd0].
  - intros [= <- <- <- <- <- <-].
    split_and!; [done|done|by exists od|exists nd; split_and!; congruence|done|by exists nd0].
Qed.

Lemma rename_plan_None fl old ndf new f :
  rename_plan fl old ndf new f = Ok None →
  ∃ p odir obase nd0 ndir nbase, resolve_parent f (f_node fl) old = Ok (odir, obase) ∧
    otherDir fl ndf f = Ok nd0 ∧ resolve_parent f nd0 new = Ok (ndir, nbase) ∧
    entry f odir obase = Some p ∧ entry f ndir nbase = Some p.
Proof.
  unfold rename_plan, entry. destruct (otherDir fl ndf f) as [nd0| |]; simpl; try done.
  destruct (resolve_parent f (f_node fl) old) as [[odir obase]| |] eqn:E1; simpl; try done.
  destruct (resolve_parent f nd0 new) as [[ndir nbase]| |] eqn:E2; simpl; try done.
  destruct (fs_heap f !! odir) as [od|] eqn:Hod; [|done]. destruct (fs_heap f !! ndir) as [nd|] eqn:Hnd; [|done].
  destruct (n_entries od !! obase) as [p|] eqn:Hob; [|done].
  destruct (fs_heap f !! p) as [n|]; [|done].
  destruct (n_entries nd !! nbase) as [t|] eqn:Ht; [|done].
  destruct (decide (t = p)) as [->|].
  - intros _. exists p, odir, obase, nd0, ndir, nbase. rewrite Hod, Hnd. by split_and!.
  - destruct (fs_heap f !! t); [|done]. by destruct (rename_target _ _).
Qed.

Lemma RenameAt_ok fuel fl old ndf new now f r f' :
  fs_ok f → RenameAt fuel fl old ndf new now f = Some (r, f') → fs_ok f'.
Proof.
  intros Hok. unfold RenameAt.
  destruct (rename_plan fl old ndf new f) as [[[[[[[n p] odir] obase] ndir] nbase]|]| |] eqn:Hplan;
    [|by intros [= <- <-]..].
  apply rename_plan_Some in Hplan as (Hp & Hnb & (od & Hod & Hodd & Hob) & (nd & Hnd & Hndd & _) & _).
  destruct (isDir n) eqn:Hn.
  - destruct (below f p ndir fuel) as [[[]| |]|] eqn:Eb; try by intros [= <- <-].
    intros [= <- <-]. apply (rename_move_ok f n p odir ndir obase nbase now od nd); try done.
    intros _. by apply (below_clear f p ndir nd fuel); [apply Hok|..].
  - intros [= <- <-]. apply (rename_move_ok f n p odir ndir obase nbase now od nd); try done. by rewrite Hn.
Qed.

Lemma LinkAt_ok fl old ndf new now f : fs_ok f → fs_ok (LinkAt fl old ndf new now f).2.
Proof.
  intros Hok. unfold LinkAt. destruct (otherDir _ _ _) as [nd0| |]; simpl; try done.
  destruct (resolve f (f_node fl) old) as [p| |] eqn:E1; simpl; try done.
  destruct (fs_heap f !! p) as [n|] eqn:Hp; simpl; try done.
  destruct (isDir n) eqn:Hn; simpl; try done.
  destruct (resolve_parent f nd0 new) as [[ndir nbase]| |] eqn:E2; simpl; try done.
  apply resolve_parent_Ok in E2 as (Hnb & nd & Hnd & Hndd). rewrite Hnd. simpl.
  destruct (n_entries nd !! nbase); simpl; [done|].
  apply fs_ok_touch. destruct Hok as [Hw Hs]. split; [|by apply slices_keep].
  apply (fs_wf_set f ndir nd nbase p n); try done. by rewrite Hn.
Qed.

Lemma fs_step_ok maxAlloc f f' : fs_ok f → fs_step maxAlloc f f' → fs_ok f'.
Proof.
  intros Hok Hstep.
  destruct Hstep as [fl name flag perm now f|fl b off now f|fl b now f|fl size now f|fl now f|fl name now f
    |fl name perm now f|fl name now f|fl name now f|fuel fl old nd new now f r f' Hr|fl old nd new now f].
  - by apply OpenAt_ok.
  - by apply WriteAt_ok.
  - unfold Write. destruct (node_of f fl); [|done..].
    set (fl1 := if has _ _ then _ else _). pose proof (WriteAt_ok maxAlloc fl1 b (f_offset fl1) now f Hok) as Hw.
    by destruct (WriteAt _ _ _ _ _ _).
  - by apply Truncate_ok.
  - by apply fs_ok_touch.
  - unfold ChtimesAt. destruct (resolve _ _ _); [by apply fs_ok_touch|done..].
  - apply at_parent_ok; [done|]. intros dir base d Hd Hdd Hb. destruct (n_entries d !! base); [done|].
    by apply (fs_ok_new_dir f dir d base (Z.lor (Perm perm) 448) now Hok Hd Hdd Hb).
  - apply at_parent_ok; [done|]. intros dir base d Hd Hdd Hb. destruct (n_entries d !! base) as [p|]; [|done].
    destruct (fs_heap f !! p) as [n|]; [|done]. destruct (negb _); [done|]. destruct (negb _); [done|].
    by apply (fs_ok_remove f dir d).
  - apply at_parent_ok; [done|]. intros dir base d Hd Hdd Hb. destruct (n_entries d !! base) as [p|]; [|done].
    destruct (fs_heap f !! p) as [n|]; [|done]. destruct (isDir n); [done|].
    by apply (fs_ok_remove f dir d).
  - by apply (RenameAt_ok fuel fl old nd new now f r f').
  - by apply LinkAt_ok.
Qed.

Lemma fs_New_ok now : fs_ok (fs_New now).
Proof.
  unfold fs_New, newDir, fs_new_node. simpl. split.
  - assert (∀ q m, ({[0%nat := Node (Z.lor ModeDir 448) nil_slice now ∅ (Some 0%nat)]} : gmap nat node) !! q = Some m →
      q = 0%nat ∧ m = Node (Z.lor ModeDir 448) nil_slice now ∅ (Some 0%nat)) as L.
    { intros q m [<- <-]%lookup_singleton_Some. done. }
    split; simpl.
    + eexists. by rewrite lookup_insert_eq.
    + intros p Hp. rewrite lookup_insert_ne by lia. done.
    + by intros p n b c [-> ->]%L.
    + by intros p n [-> ->]%L.
    + intros p n [-> ->]%L _. eexists _, _. by rewrite lookup_insert_eq.
    + intros p n [-> ->]%L _. apply (rooted_root (mkFS _ _ 0)).
    + by intros p n b c [-> ->]%L.
    + by intros p n b c cn [-> ->]%L.
    + by intros p n b b' c cn [-> ->]%L.
  - intros p n. simpl. intros [<- <-]%lookup_singleton_Some. apply nil_slice_ok.
Qed.

Lemma entry_update f p g d b :
  entry (fs_update p g f) d b =
    if decide (p = d) then fs_heap f !! d ≫= (λ n, n_entries (g n) !! b) else entry f d b.
Proof. unfold entry. rewrite lookup_update. case_decide; [|done]. by destruct (fs_heap f !! d). Qed.

Lemma entry_update_same f p g d b :
  (∀ n, n_entries (g n) = n_entries n) → entry (fs_update p g f) d b = entry f d b.
Proof.
  intros Hg. rewrite entry_update. case_decide; [|done]. unfold entry.
  destruct (fs_heap f !! d); simpl; [by rewrite Hg|done].
Qed.

Lemma rename_move_entry f n p odir ndir obase nbase now nd d b :
  fs_heap f !! ndir = Some nd →
  entry (rename_move n p odir ndir obase nbase now f) d b =
    if decide (d = ndir ∧ b = nbase) then Some p
    else if decide (d = odir ∧ b = obase) then None else entry f d b.
Proof.
  intros Hnd. unfold rename_move, touch, set_entry.
  set (f0 := if isDir n then _ else f).
  assert (∀ d b, entry f0 d b = entry f d b) as E0.
  { intros d' b'. unfold f0. destruct (isDir n); [by apply entry_update_same|done]. }
  assert (is_Some (fs_heap f0 !! ndir)) as [nd0 Hnd0].
  { unfold f0. destruct (isDir n); [|by exists nd]. rewrite lookup_update, Hnd. destruct (decide (p = ndir)); by eexists. }
  rewrite !entry_update_same by done.
  set (f1 := fs_update odir _ f0).
  assert (∀ b', entry f1 d b' = if decide (d = odir ∧ b' = obase) then None else entry f d b') as E1.
  { intros b'. unfold f1. rewrite entry_update, <- E0. unfold entry.
    destruct (decide (odir = d)) as [<-|Hd]; [|by rewrite decide_False by (intros [-> _]; done)].
    destruct (fs_heap f0 !! odir) as [o|]; simpl; [|by case_decide].
    destruct (decide (b' = obase)) as [->|Hb].
    - by rewrite lookup_delete_eq, decide_True.
    - rewrite lookup_delete_ne by done. rewrite decide_False by (by intros [_ ?]). done. }
  assert (is_Some (fs_heap f1 !! ndir)) as [nd1 Hnd1].
  { unfold f1. rewrite lookup_update, Hnd0. destruct (decide (odir = ndir)); by eexists. }
  rewrite entry_update. destruct (decide (ndir = d)) as [<-|Hd].
  - rewrite Hnd1. simpl. destruct (decide (b = nbase)) as [->|Hb].
    + by rewrite lookup_insert_eq, decide_True.
    + rewrite lookup_insert_ne by done. rewrite decide_False by (by intros [_ ?]).
      rewrite <- E1. unfold entry. by rewrite Hnd1.
  - rewrite (decide_False (P := d = ndir ∧ _)) by (by intros [-> _]). apply E1.
Qed.

Lemma update_data f p g q : (∀ n, n_data (g n) = n_data n) →
  n_data <$> fs_heap (fs_update p g f) !! q = n_data <$> fs_heap f !! q.
Proof.
  intros Hg. rewrite lookup_update. case_decide; [|done].
  destruct (fs_heap f !! q); simpl; [by rewrite Hg|done].
Qed.

Lemma rename_move_data f n p odir ndir obase nbase now q :
  n_data <$> fs_heap (rename_move n p odir ndir obase nbase now f) !! q = n_data <$> fs_heap f !! q.
Proof.
  unfold rename_move, touch, set_entry. rewrite !update_data by done.
  destruct (isDir n); [by rewrite update_data|done].
Qed.

(** * Properties *)

(** C7. The namespace is always a tree: in every filesystem any sequence of opens,
    writes, truncations, mkdirs, rmdirs, unlinks, renames and links can
    produce, entries lead to existing nodes under proper names, each directory
    has one entry at most, in its parent, and following parents from any
    directory, removed ones included, reaches the root; and every file's slice
    is within its array. *)
Theorem memfs_tree (maxAlloc now : Z) (f : FS) :
  reachable (λ f, f = fs_New now) (fs_step maxAlloc) f → fs_wf f ∧ slices_ok f.
Proof.
  apply (reachable_inv _ _ fs_ok); [intros f0 ->; apply fs_New_ok|].
  intros f0 f1 _ Hok Hstep. by apply (fs_step_ok maxAlloc f0).
Qed.

(** The root opened as a directory. *)
Definition root_file (f : FS) : File := mkFile 0 (fs_root f) "." 0 0 0.

Definition demo_fs : FS :=
  let f := fs_New 1 in
  let f := (MkdirAt (root_file f) "base" 448 2 f).2 in
  let f := (MkdirAt (root_file f) "base/1" 448 3 f).2 in
  (OpenAt (root_file f) "base/1/2619" (Z.lor fs_O_CREAT fs_O_RDWR) 384 4 f).2.

Lemma demo_fs_reachable maxAlloc : reachable (λ f, f = fs_New 1) (fs_step maxAlloc) demo_fs.
Proof.
  exists (fs_New 1). split; [done|].
  eapply rtc_l; [apply (st_mkdir maxAlloc (root_file (fs_New 1)) "base" 448 2)|].
  eapply rtc_l; [apply (st_mkdir maxAlloc (root_file (fs_New 1)) "base/1" 448 3)|].
  eapply rtc_l; [apply (st_open maxAlloc (root_file (fs_New 1)) "base/1/2619" (Z.lor fs_O_CREAT fs_O_RDWR) 384 4)|].
  apply rtc_refl.
Qed.

Lemma memfs_tree_witness :
  fs_wf demo_fs ∧ entry demo_fs (fs_root demo_fs) "base" = Some 1%nat ∧ entry demo_fs 2 "2619" = Some 3%nat.
Proof.
  split; [|split; reflexivity].
  apply (memfs_tree (2 ^ 47) 1 demo_fs). apply demo_fs_reachable.
Defined.

(** Renaming a directory always terminates: the walk up from the new place
    ends, after at most as many steps as there are nodes, and never meets a
    nil parent. *)
Theorem rename_terminates fl old ndf new now (f : FS) :
  fs_wf f → ∃ r f', RenameAt (S (size (fs_heap f))) fl old ndf new now f = Some (r, f') ∧
    (r = Panic → rename_plan fl old ndf new f = Panic).
Proof.
  intros Hwf. unfold RenameAt.
  destruct (rename_plan fl old ndf new f) as [[[[[[[n p] odir] obase] ndir] nbase]|]| |] eqn:Hplan;
    [|by eexists _, _..].
  apply rename_plan_Some in Hplan as (_ & _ & _ & (nd & Hnd & Hndd & _) & _).
  destruct (isDir n); [|by eexists _, _].
  destruct (below_total f p ndir Hwf (wf_rooted f Hwf _ _ Hnd Hndd)) as ([] & -> & _); by eexists _, _.
Qed.

Lemma rename_terminates_witness :
  (∃ r f', RenameAt 5 (root_file demo_fs) "base" (Some (root_file demo_fs)) "base/1/x" 9 demo_fs = Some (r, f')) ∧
  fst <$> RenameAt 5 (root_file demo_fs) "base" (Some (root_file demo_fs)) "base/1/x" 9 demo_fs = Some (Err F_EINVAL).
Proof.
  split; [|reflexivity].
  destruct (rename_terminates (root_file demo_fs) "base" (Some (root_file demo_fs)) "base/1/x" 9 demo_fs) as (r & f' & H & _).
  - apply (fs_step_ok 0 _ _ (fs_step_ok 0 _ _ (fs_step_ok 0 _ _ (fs_New_ok 1)
      (st_mkdir 0 (root_file (fs_New 1)) "base" 448 2 _)) (st_mkdir 0 (root_file (fs_New 1)) "base/1" 448 3 _))
      (st_open 0 (root_file (fs_New 1)) "base/1/2619" (Z.lor fs_O_CREAT fs_O_RDWR) 384 4 _)).
  - exists r, f'. exact H.
Defined.

(** A successful rename moves exactly one entry: the node the old name led to
    is what the new name leads to, the old entry is gone, every other entry of
    every directory is as before, and so are the contents of every file. *)
Theorem rename_moves_entry fuel fl old ndf new now (f f' : FS) :
  RenameAt fuel fl old ndf new now f = Some (Ok tt, f') →
  ∃ p odir obase nd0 ndir nbase,
    resolve_parent f (f_node fl) old = Ok (odir, obase) ∧
    otherDir fl ndf f = Ok nd0 ∧ resolve_parent f nd0 new = Ok (ndir, nbase) ∧
    entry f odir obase = Some p ∧ entry f' ndir nbase = Some p ∧
    (f' = f ∨ ∀ d b, entry f' d b =
       if decide (d = ndir ∧ b = nbase) then Some p
       else if decide (d = odir ∧ b = obase) then None else entry f d b) ∧
    ∀ q, n_data <$> fs_heap f' !! q = n_data <$> fs_heap f !! q.
Proof.
  unfold RenameAt.
  destruct (rename_plan fl old ndf new f) as [[[[[[[n p] odir] obase] ndir] nbase]|]| |] eqn:Hplan; try done.
  - apply rename_plan_Some in Hplan as (Hp & _ & (od & Hod & _ & Hob) & (nd & Hnd & _) & Hro & nd0 & Hnd0 & Hrn).
    assert (∀ x : option (result unit * FS),
      x = None ∨ (∃ e, x = Some (Err e, f)) ∨ x = Some (Panic, f) ∨
      x = Some (Ok tt, rename_move n p odir ndir obase nbase now f) → x = Some (Ok tt, f') →
      f' = rename_move n p odir ndir obase nbase now f) as Hx.
    { intros x [->|[[e ->]|[->| ->]]] E; try done. by injection E as <-. }
    intros Hres%Hx; [|destruct (isDir n); [destruct (below f p ndir fuel) as [[[]| |]|]|]; eauto].
    subst f'. exists p, odir, obase, nd0, ndir, nbase. split_and!; try done.
    + unfold entry. by rewrite Hod.
    + by rewrite (rename_move_entry _ _ _ _ _ _ _ _ nd), decide_True.
    + right. intros d b. by apply (rename_move_entry _ _ _ _ _ _ _ _ nd).
    + intros q. apply rename_move_data.
  - intros [= <-]. apply rename_plan_None in Hplan as (p & odir & obase & nd0 & ndir & nbase & H).
    exists p, odir, obase, nd0, ndir, nbase. destruct H as (? & ? & ? & ? & ?).
    split_and!; try done. by left.
Qed.

Lemma rename_moves_entry_witness :
  match RenameAt 5 (root_file demo_fs) "base/1" (Some (root_file demo_fs)) "one" 9 demo_fs with
  | Some (Ok tt, f') => ∃ p ndir nbase, entry f' ndir nbase = Some p ∧ entry demo_fs 1 "1" = Some 2%nat
  | _ => False
  end.
Proof.
  destruct (RenameAt 5 (root_file demo_fs) "base/1" (Some (root_file demo_fs)) "one" 9 demo_fs)
    as [[[[]| |] f']|] eqn:E; try (vm_compute in E; discriminate).
  destruct (rename_moves_entry 5 _ _ _ _ _ _ _ E) as (p & odir & obase & nd0 & ndir & nbase & H).
  exists p, ndir, nbase. split; [apply H|reflexivity].
Defined.

(** C8. Files hold what was written to them: reading, writing at an offset and
    truncating act on a file's bytes as [pwrite] and [resize] say, so a write
    past the end and an extension read as zeros in the gap, also where an
    earlier truncation left old bytes in the array.  Only a file larger than
    the allocator allows fails, and then nothing changes. *)
Theorem memfs_contents maxAlloc fl b off size n now (f : FS) l :
  file_at f (f_node fl) l → writable fl = true → 0 ≤ off → off + zlen b < 2 ^ 63 → 0 ≤ size →
  2 * (off + zlen b) ≤ maxAlloc → 2 * size ≤ maxAlloc →
  (∃ f', WriteAt maxAlloc fl b off now f = (Ok (zlen b), f') ∧
     file_at f' (f_node fl) (pwrite off b l) ∧ zlen (pwrite off b l) = Z.max (zlen l) (off + zlen b)) ∧
  (∃ f', Truncate maxAlloc fl size now f = (Ok tt, f') ∧ file_at f' (f_node fl) (resize size l)) ∧
  ReadAt fl n off f = Ok (ztake n (zdrop off l),
    if (zlen l <=? off) || (zlen (ztake n (zdrop off l)) <? n) then Some F_EOF else None).
Proof.
  intros Hat Hw Hoff Hov Hsz Hm1 Hm2. split_and!.
  - destruct (WriteAt maxAlloc fl b off now f) as [r f'] eqn:E. exists f'.
    destruct (WriteAt_spec _ _ _ _ _ _ _ _ _ Hat Hw Hoff Hov E) as [(_ & _ & ?)|[-> H]]; [lia|].
    split_and!; [done|done|by apply zlen_pwrite].
  - destruct (Truncate maxAlloc fl size now f) as [r f'] eqn:E. exists f'.
    destruct (Truncate_spec _ _ _ _ _ _ _ _ Hat Hsz E) as [(_ & _ & ?)|[-> H]]; [lia|done].
  - by apply ReadAt_spec.
Qed.

Lemma memfs_contents_witness :
  let fl := mkFile 0 3 "2619" fs_O_RDWR 0 0 in
  let f1 := (WriteAt (2 ^ 47) fl [1;2;3;4;5;6] 0 5 demo_fs).2 in
  let f2 := (Truncate (2 ^ 47) fl 2 6 f1).2 in
  let f3 := (WriteAt (2 ^ 47) fl [9] 5 7 f2).2 in
  (ReadAt fl 100 0 f3) = Ok ([1;2;0;0;0;9], Some F_EOF) ∧
  ∃ f', WriteAt (2 ^ 47) fl [1;2;3;4;5;6] 0 5 demo_fs = (Ok 6, f').
Proof.
  intros fl f1 f2 f3. split; [reflexivity|].
  destruct (memfs_contents (2 ^ 47) fl [1;2;3;4;5;6] 0 0 0 5 demo_fs []) as [(f' & H & _) _];
    [|reflexivity|lia|done|lia|done|done|exists f'; exact H].
  eexists. split; [reflexivity|]. split; [reflexivity|]. split; [by vm_compute|reflexivity].
Defined.

(** What the code does not guard against, on [".."] after a regular file: the
    walk follows the file's nil parent, and the operation panics. *)
Theorem dotdot_of_file_panics (f : FS) (d : nat) dn (b : string) (p : nat) n :
  fs_heap f !! d = Some dn → isDir dn = true → n_entries dn !! b = Some p → normal b →
  fs_heap f !! p = Some n → isDir n = false → n_parent n = None → p ≠ fs_root f →
  resolve f d (b +:+ "/..") = Panic.
Proof.
  intros Hd Hdd Hb Hnb Hp Hnd Hpar Hr. destruct Hnb as (H1 & H2 & H3 & H4). unfold resolve.
  assert (IsAbs (b +:+ "/..") = false) as ->.
  { destruct b as [|c b]; [done|]. destruct H4 as [Hc _].
    change (bool_decide (c = slash) = false). by rewrite bool_decide_eq_false. }
  assert (split_slash (b +:+ "/..") = [b; ".."]) as -> by (by apply (split_cons b "..")).
  simpl. rewrite decide_False by (by intros []). rewrite decide_False by done.
  rewrite Hd. simpl. rewrite Hdd, Hb. simpl. rewrite decide_False by congruence.
  rewrite Hp. simpl. by rewrite Hpar.
Qed.

Lemma dotdot_of_file_panics_witness :
  resolve demo_fs 2 "2619/.." = Panic ∧ StatAt (mkFile 0 2 "1" 0 0 0) "2619/.." demo_fs = Panic.
Proof.
  split; [|reflexivity].
  change "2619/.." with ("2619" +:+ "/..").
  eapply (dotdot_of_file_panics demo_fs 2 _ "2619" 3); [reflexivity|reflexivity|reflexivity| |reflexivity..|done].
  by split_and!.
Defined.
