(* ===== verification/Socket.v ===== *)
(** Stream sockets ([src/internal/kernel/socket.go]) and the Unix sockets that
    exist inside the kernel (the virtual listeners of kernel.go).

    Go's [net] package is a parameter: connections and host listeners are
    numbers, and what a call asks of one is an [action].  The goroutines
    [readLoop] and [writeLoop] are state machines; a step is what one does
    between taking and releasing the lock. *)
From S2P Require Import Prelude Abi Notify Bytes Paths.

Definition sockReadAhead : Z := Z.shiftl 256 10.
Definition sockWriteBuf : Z := Z.shiftl 256 10.
Definition readChunk : Z := Z.shiftl 64 10.

(** ** Addresses

    An address is 4 or 16 bytes ([netip.Addr]); a path is its bytes. *)
Record sockaddr := Sockaddr { sa_family : Z; sa_addr : bytes; sa_port : Z; sa_path : bytes }.
#[export] Instance sockaddr_eq_dec : EqDecision sockaddr.
Proof. solve_decision. Defined.

Fixpoint until_nul (b : bytes) : bytes :=
  match b with [] => [] | c :: b => if c =? 0 then [] else c :: until_nul b end.

Definition decodeSockaddr (b : bytes) : sockaddr + Z :=
  if zlen b <? 2 then inr EINVAL
  else
    let family := le_val (ztake 2 b) in
    if family =? AF_INET then
      if zlen b <? SizeofSockaddrIn then inr EINVAL
      else inl (Sockaddr family (ztake 4 (zdrop 4 b)) (be_val (ztake 2 (zdrop 2 b))) [])
    else if family =? AF_INET6 then
      if zlen b <? 28 then inr EINVAL
      else inl (Sockaddr family (ztake 16 (zdrop 8 b)) (be_val (ztake 2 (zdrop 2 b))) [])
    else if family =? AF_UNIX then
      let p := until_nul (zdrop 2 b) in
      if zlen p =? 0 then inr EINVAL else inl (Sockaddr family [] 0 p)
    else inr EAFNOSUPPORT.

(** [Addr.Unmap] and [As4] ([None]: it panics), [As16]. *)
Definition v4mapped : bytes := zrepeat 10 0 ++ [255; 255].
Definition Unmap4 (a : bytes) : bytes :=
  if decide (zlen a = 16 ∧ ztake 12 a = v4mapped) then zdrop 12 a else a.
Definition As4 (a : bytes) : option bytes := if zlen (Unmap4 a) =? 4 then Some (Unmap4 a) else None.
Definition As16 (a : bytes) : bytes := if zlen a =? 4 then v4mapped ++ a else a.

Definition encode (a : sockaddr) : option bytes :=
  if sa_family a =? AF_INET then
    ip ← As4 (Unmap4 (sa_addr a));
    Some (le_bytes 2 AF_INET ++ be_bytes 2 (sa_port a) ++ ip ++ zrepeat (SizeofSockaddrIn - 8) 0)
  else if sa_family a =? AF_INET6 then
    Some (le_bytes 2 AF_INET6 ++ be_bytes 2 (sa_port a) ++ zrepeat 4 0 ++ As16 (sa_addr a)
          ++ zrepeat (SizeofSockaddrIn6 - 24) 0)
  else Some (le_bytes 2 AF_UNIX ++ sa_path a ++ [0]).

(** A [net.Addr]: a TCP address, or another kind. *)
Inductive netaddr := TCPAddr (addr : bytes) (port : Z) | OtherAddr.

Definition sockaddrFromNet (domain : Z) (a : netaddr) : sockaddr :=
  match a with
  | TCPAddr addr port =>
      if domain =? AF_INET then Sockaddr AF_INET (Unmap4 addr) port []
      else Sockaddr AF_INET6 addr port []
  | OtherAddr => Sockaddr AF_UNIX [] 0 []
  end.

(** ** Errors of the [net] package *)
Inductive sysErrno :=
| S_EADDRINUSE | S_EADDRNOTAVAIL | S_ECONNREFUSED | S_ECONNRESET | S_EACCES | S_EPERM | S_ENOENT
| S_ENETUNREACH | S_EHOSTUNREACH | S_ETIMEDOUT | S_EPIPE | S_EINVAL | S_other.
Inductive neterr := NErrno (e : sysErrno) | NDeadline | NOther.

Definition netErrno (err : neterr) : Z :=
  match err with
  | NErrno e =>
      match e with
      | S_EADDRINUSE => EADDRINUSE
      | S_EADDRNOTAVAIL => EADDRNOTAVAIL
      | S_ECONNREFUSED => ECONNREFUSED
      | S_ECONNRESET => ECONNRESET
      | S_EACCES | S_EPERM => EACCES
      | S_ENOENT => ENOENT
      | S_ENETUNREACH => ENETUNREACH
      | S_EHOSTUNREACH => EHOSTUNREACH
      | S_ETIMEDOUT => ETIMEDOUT
      | S_EPIPE => EPIPE
      | S_EINVAL => EINVAL
      | S_other => EIO
      end
  | NDeadline => ETIMEDOUT
  | NOther => EIO
  end.

(** ** Sockets *)
Inductive sockState := sockNew | sockListening | sockConnected.
#[export] Instance sockState_eq_dec : EqDecision sockState.
Proof. solve_decision. Defined.

Inductive rerror := REOF | RErr.
Inductive reader_pc := RNone | RReading | RWaiting | RSignalled | RDone.
Inductive writer_pc := WNone | WWaiting | WSignalled | WWriting (out : bytes) | WDone.
Inductive listener := LnVirtual (l : nat) | LnHost (l : nat).

(** What is asked of a connection or listener. *)
Inductive action :=
| ConnClose (c : nat) | ConnCloseWrite (c : nat) | ConnDeadline (c : nat) | LnClose (l : listener).

Record socket := Socket {
  k_domain : Z;
  k_n : notifier;
  k_state : sockState;
  k_bound : option sockaddr;
  k_peer : option sockaddr;
  k_opts : gmap (Z * Z) Z;
  k_lns : list listener;
  k_acceptQ : list (nat * netaddr);  (* connections and their remote addresses *)
  k_conn : option nat;
  k_rbuf : bytes;
  k_rerr : option rerror;
  k_wbuf : bytes;
  k_werr : bool;
  k_wshut : bool;
  k_wdone : bool;
  k_released : bool;
  k_reader : reader_pc;
  k_writer : writer_pc;
}.
#[export] Instance eta_socket : Eta socket := λ r,
  {| k_domain := k_domain r; k_n := k_n r; k_state := k_state r; k_bound := k_bound r;
     k_peer := k_peer r; k_opts := k_opts r; k_lns := k_lns r; k_acceptQ := k_acceptQ r;
     k_conn := k_conn r; k_rbuf := k_rbuf r; k_rerr := k_rerr r; k_wbuf := k_wbuf r;
     k_werr := k_werr r; k_wshut := k_wshut r; k_wdone := k_wdone r; k_released := k_released r;
     k_reader := k_reader r; k_writer := k_writer r |}.

Definition newSocket (domain : Z) : socket :=
  Socket domain new_notifier sockNew None None ∅ [] [] None [] None [] false false false false RNone WNone.

Definition rcond_signal (s : socket) : socket :=
  match k_reader s with RWaiting => s <| k_reader := RSignalled |> | _ => s end.
Definition wcond_signal (s : socket) : socket :=
  match k_writer s with WWaiting => s <| k_writer := WSignalled |> | _ => s end.

(** *** [writeLoop] *)

(** From the top of its loop, with the lock held, to the next point where it
    releases it: what it asks for, and whether it is about to notify. *)
Definition wl_finish (s : socket) : list action * bool * socket :=
  let c := default 0%nat (k_conn s) in
  (if k_released s then [ConnClose c] else [ConnCloseWrite c], true,
   s <| k_wdone := true |> <| k_writer := WDone |>).

Definition wl_check (s : socket) : list action * bool * socket :=
  if (zlen (k_wbuf s) =? 0) && negb (k_wshut s) && negb (k_werr s) then
    ([], false, s <| k_writer := WWaiting |>)
  else if k_werr s then wl_finish s
  else if (zlen (k_wbuf s) =? 0) && k_wshut s then wl_finish s
  else ([], false, s <| k_writer := WWriting (k_wbuf s) |>).

(** [c.Write(out)] has written [n] bytes, with an error when [err] holds. *)
Definition wl_written (n : Z) (err : bool) (s : socket) : list action * bool * socket :=
  let s := s <| k_wbuf ::= zdrop n |> in
  let s := if err then s <| k_werr := true |> else s in
  wl_check (s <| k_n ::= notifier_notify |>).

(** *** [readLoop] *)
Definition rl_settle (s : socket) : bool * socket :=
  if (sockReadAhead <=? zlen (k_rbuf s)) && negb (bool_decide (k_rerr s ≠ None)) && negb (k_released s)
  then (false, s <| k_reader := RWaiting |>)
  else (true, s <| k_reader := if bool_decide (k_rerr s ≠ None) || k_released s then RDone else RReading |>).

(** [c.Read(chunk)] has returned [data], and [err]. *)
Definition rl_read (data : bytes) (err : option rerror) (s : socket) : bool * socket :=
  let s := s <| k_rbuf ::= λ b, b ++ data |> in
  let s := match err with Some e => s <| k_rerr := Some e |> | None => s end in
  rl_settle s.

(** The two goroutines start: one reads, the other is about to take the lock. *)
Definition startConn (c : nat) (s : socket) : socket :=
  s <| k_conn := Some c |> <| k_state := sockConnected |>
    <| k_reader := RReading |> <| k_writer := WSignalled |>.

(** *** Listening *)
Definition sock_listen (s : socket) : Z * socket :=
  if decide (k_state s = sockListening) then (0, s)
  else if bool_decide (k_state s ≠ sockNew) || (zlen (k_lns s) =? 0) then (EINVAL, s)
  else (0, s <| k_state := sockListening |>).

(** [acceptLoop] has accepted [c]: it is queued (and the loop is about to
    notify), or closed when the socket is gone. *)
Definition acceptLoop_got (c : nat) (remote : netaddr) (s : socket) : list action * bool * socket :=
  if k_released s then ([ConnClose c], false, s)
  else ([], true, s <| k_acceptQ ::= λ q, q ++ [(c, remote)] |>).

Definition sock_accept (s : socket) : (option socket * Z) * socket :=
  if bool_decide (k_state s ≠ sockListening) then ((None, EINVAL), s)
  else match k_acceptQ s with
       | [] => ((None, EAGAIN), s)
       | (c, remote) :: q =>
           let ns := newSocket (k_domain s) in
           let ns := ns <| k_bound := k_bound s |> <| k_peer := Some (sockaddrFromNet (k_domain s) remote) |> in
           ((Some (startConn c ns), 0), s <| k_acceptQ := q |>)
       end.

(** *** Data *)
Definition sock_recv (n : Z) (peek : bool) (s : socket) : (bytes * Z) * socket :=
  if bool_decide (k_state s ≠ sockConnected) then (([], ENOTCONN), s)
  else if n =? 0 then (([], 0), s)
  else if 0 <? zlen (k_rbuf s) then
    let k := Z.min n (zlen (k_rbuf s)) in
    ((ztake k (k_rbuf s), 0),
     if peek then s else rcond_signal (s <| k_rbuf ::= zdrop k |>))
  else match k_rerr s with
       | Some REOF => (([], 0), s)
       | Some RErr => (([], ECONNRESET), s)
       | None => (([], EAGAIN), s)
       end.

Definition sock_send (b : bytes) (s : socket) : (Z * Z) * socket :=
  if bool_decide (k_state s ≠ sockConnected) then ((0, ENOTCONN), s)
  else if k_werr s || k_wshut s then ((0, EPIPE), s)
  else if zlen b =? 0 then ((0, 0), s)
  else
    let space := sockWriteBuf - zlen (k_wbuf s) in
    if space <=? 0 then ((0, EAGAIN), s)
    else
      let n := Z.min (zlen b) space in
      ((n, 0), wcond_signal (s <| k_wbuf ::= λ w, w ++ ztake n b |>)).

Definition sock_read (n : Z) (s : socket) := sock_recv n false s.
Definition sock_write (b : bytes) (s : socket) := sock_send b s.

Definition sock_poll (s : socket) : Z :=
  match k_state s with
  | sockNew => 0
  | sockListening => if 0 <? zlen (k_acceptQ s) then POLLIN else 0
  | sockConnected =>
      let failed := match k_rerr s with Some RErr => true | _ => false end in
      let stopped := bool_decide (k_rerr s ≠ None) in
      let ev := if (0 <? zlen (k_rbuf s)) || stopped then POLLIN else 0 in
      let ev := if failed then Z.lor ev POLLERR else ev in
      let ev := if k_werr s then Z.lor ev POLLERR
                else if (zlen (k_wbuf s) <? sockWriteBuf) && negb (k_wshut s) then Z.lor ev POLLOUT
                else ev in
      if stopped && (k_wshut s || k_werr s) then Z.lor ev POLLHUP else ev
  end.

Definition sock_changed (s : socket) : nat * socket :=
  let '(ch, n) := notifier_wait (k_n s) in (ch, s <| k_n := n |>).

Definition sock_shutdown (how : Z) (s : socket) : Z * socket :=
  if bool_decide (k_state s ≠ sockConnected) then (ENOTCONN, s)
  else if (how =? SHUT_WR) || (how =? SHUT_RDWR) then (0, wcond_signal (s <| k_wshut := true |>))
  else (0, s).

(** [release] under the lock; what it then asks for; it notifies at the end. *)
Definition sock_release (s : socket) : list action * socket :=
  (map LnClose (k_lns s) ++ map (λ c, ConnClose c.1) (k_acceptQ s) ++
   match k_conn s with
   | None => []
   | Some c => if k_wdone s then [ConnClose c] else [ConnDeadline c]
   end,
   rcond_signal (wcond_signal (s <| k_released := true |> <| k_acceptQ := [] |> <| k_wshut := true |>))).

Definition sock_getsockname (s : socket) : sockaddr :=
  match k_bound s with
  | Some a => a
  | None =>
      if k_domain s =? AF_INET then Sockaddr AF_INET (zrepeat 4 0) 0 []
      else if k_domain s =? AF_INET6 then Sockaddr AF_INET6 (zrepeat 16 0) 0 []
      else Sockaddr AF_UNIX [] 0 []
  end.

Definition sock_getpeername (s : socket) : sockaddr + Z :=
  if bool_decide (k_state s ≠ sockConnected) then inr ENOTCONN
  else match k_peer s with None => inr ENOTCONN | Some a => inl a end.

Definition sock_getsockopt (level name : Z) (s : socket) : Z :=
  let stored := k_opts s !! (level, name) in
  if (level =? SOL_SOCKET) && (name =? SO_ERROR) then 0
  else if (level =? SOL_SOCKET) && (name =? SO_TYPE) then SOCK_STREAM
  else if (level =? SOL_SOCKET) && (name =? SO_RCVBUF) then default sockReadAhead stored
  else if (level =? SOL_SOCKET) && (name =? SO_SNDBUF) then default sockWriteBuf stored
  else default 0 stored.

Definition sock_setsockopt (level name value : Z) (s : socket) : socket :=
  s <| k_opts ::= <[(level, name) := value]> |>.

(** ** Unix sockets inside the kernel: the listening ones by guest path *)
Record unixTable := UnixTable { u_names : gmap string nat; u_addr : gmap nat string; u_closed : gset nat; u_next : nat }.
#[export] Instance eta_unixTable : Eta unixTable := λ r,
  {| u_names := u_names r; u_addr := u_addr r; u_closed := u_closed r; u_next := u_next r |}.

Definition listenUnix (addr : string) (u : unixTable) : option nat * unixTable :=
  let addr := Clean addr in
  match u_names u !! addr with
  | Some _ => (None, u) (* EADDRINUSE *)
  | None =>
      let l := u_next u in
      (Some l, UnixTable (<[addr := l]> (u_names u)) (<[l := addr]> (u_addr u)) (u_closed u) (S l))
  end.

(** [Close] runs once. *)
Definition virtualListener_Close (l : nat) (u : unixTable) : unixTable :=
  if decide (l ∈ u_closed u) then u
  else
    let u := u <| u_closed ::= union {[l]} |> in
    match u_addr u !! l with
    | None => u
    | Some a => if decide (u_names u !! a = Some l) then u <| u_names ::= delete a |> else u
    end.

(** The listener [DialUnix] hands a connection to; [None] is ECONNREFUSED. *)
Definition DialUnix_listener (addr : string) (u : unixTable) : option nat :=
  match u_names u !! Clean addr with
  | None => None
  | Some l => if decide (l ∈ u_closed u) then None else Some l
  end.

(** ** Binding and connecting

    [net_Listen] and [net_Dial] are Go's, from the network's name and the
    address; [createSocketFile] is what the kernel does in a filesystem mount
    where a Unix socket is bound. *)
Section net.
Context {W : Type}
  (net_Listen : string → sockaddr + string → W → (nat * netaddr + neterr) * W)
  (net_Dial : string → sockaddr + string → W → (nat * netaddr + neterr) * W)
  (createSocketFile : string → W → W)
  (mounts : list Mount).

Definition sock_bind (a : sockaddr) (s : socket) (u : unixTable) (w : W) : Z * socket * unixTable * W :=
  let path := string_of_bytes (sa_path a) in
  if negb (sa_family a =? k_domain s) then (EAFNOSUPPORT, s, u, w)
  else if bool_decide (k_bound s ≠ None) || bool_decide (k_state s ≠ sockNew) then (EINVAL, s, u, w)
  else if k_domain s =? AF_UNIX then
    match listenUnix path u with
    | (None, u) => (netErrno (NErrno S_EADDRINUSE), s, u, w)
    | (Some vl, u) =>
        let w := createSocketFile path w in
        match hostPath mounts path with
        | None => (0, s <| k_bound := Some a |> <| k_lns := [LnVirtual vl] |>, u, w)
        | Some hp =>
            match net_Listen "unix" (inr hp) w with
            | (inr err, w) => (netErrno err, s, virtualListener_Close vl u, w)
            | (inl (ln, _), w) =>
                (0, s <| k_bound := Some a |> <| k_lns := [LnVirtual vl; LnHost ln] |>, u, w)
            end
        end
    end
  else
    match net_Listen (if k_domain s =? AF_INET then "tcp4" else "tcp6") (inl a) w with
    | (inr err, w) => (netErrno err, s, u, w)
    | (inl (ln, addr), w) =>
        (0, s <| k_bound := Some (sockaddrFromNet (k_domain s) addr) |> <| k_lns := [LnHost ln] |>, u, w)
    end.

(** The connection to make: inside the kernel, or through the host.
    [vdial l] is the rendezvous with the listener's [Accept]: [None] when it
    is closed (or the process killed) first. *)
Definition sock_dial (a : sockaddr) (vdial : nat → W → option (nat * netaddr) * W) (u : unixTable) (w : W)
    : (nat * netaddr + Z) * W :=
  let through_host net addr w :=
    match net_Dial net addr w with
    | (inl r, w) => (inl r, w)
    | (inr err, w) => (inr (netErrno err), w)
    end in
  if sa_family a =? AF_UNIX then
    let path := string_of_bytes (sa_path a) in
    let '(r, w) := match DialUnix_listener path u with
                   | None => (None, w)
                   | Some l => vdial l w
                   end in
    match r with
    | Some c => (inl c, w)
    | None =>
        match hostPath mounts path with
        | None => (inr ECONNREFUSED, w)
        | Some hp => through_host "unix" (inr hp) w
        end
    end
  else through_host "tcp" (inl a) w.

Definition sock_connect (a : sockaddr) (vdial : nat → W → option (nat * netaddr) * W) (s : socket)
    (u : unixTable) (w : W) : Z * socket * W :=
  if bool_decide (k_state s ≠ sockNew) then (EISCONN, s, w)
  else if negb (sa_family a =? k_domain s) then (EAFNOSUPPORT, s, w)
  else match sock_dial a vdial u w with
       | (inr e, w) => (e, s, w)
       | (inl (c, local), w) =>
           let s := s <| k_peer := Some a |> in
           let s := match k_bound s with
                    | None => s <| k_bound := Some (sockaddrFromNet (k_domain s) local) |>
                    | Some _ => s
                    end in
           (0, startConn c s, w)
       end.
End net.


(** * Connected sockets

    The ghost fields record what went through: the bytes the connection gave
    ([y_in]) and the guests took ([y_out]), the bytes [send] accepted
    ([y_sent]) and the connection took ([y_wrote]), and how many times the
    connection was closed. *)
Record sock_sys := SockSys {
  y_sock : socket; y_in : bytes; y_out : bytes; y_sent : bytes; y_wrote : bytes; y_closes : nat }.

Fixpoint closes (l : list action) : nat :=
  match l with
  | [] => 0
  | ConnClose _ :: l => S (closes l)
  | _ :: l => closes l
  end.

Inductive sock_step : relation sock_sys :=
| sk_recv n peek s i o t w c : 0 ≤ n →
    sock_step (SockSys s i o t w c)
      (SockSys (sock_recv n peek s).2 i (if peek then o else o ++ (sock_recv n peek s).1.1) t w c)
| sk_send b s i o t w c :
    sock_step (SockSys s i o t w c)
      (SockSys (sock_send b s).2 i o (t ++ ztake (sock_send b s).1.1 b) w c)
| sk_shutdown how s i o t w c :
    sock_step (SockSys s i o t w c) (SockSys (sock_shutdown how s).2 i o t w c)
| sk_wait s i o t w c :
    sock_step (SockSys s i o t w c) (SockSys (sock_changed s).2 i o t w c)
| sk_notify s i o t w c :
    sock_step (SockSys s i o t w c) (SockSys (s <| k_n ::= notifier_notify |>) i o t w c)
| sk_release s i o t w c : k_released s = false →
    sock_step (SockSys s i o t w c) (SockSys (sock_release s).2 i o t w (c + closes (sock_release s).1))
| sk_read data err s i o t w c :
    k_reader s = RReading → zlen data ≤ readChunk →
    sock_step (SockSys s i o t w c) (SockSys (rl_read data err s).2 (i ++ data) o t w c)
| sk_resume_reader s i o t w c :
    k_reader s = RSignalled → sock_step (SockSys s i o t w c) (SockSys (rl_settle s).2 i o t w c)
| sk_resume_writer s i o t w c :
    k_writer s = WSignalled →
    sock_step (SockSys s i o t w c)
      (SockSys (wl_check s).2 i o t w (c + closes (wl_check s).1.1))
| sk_written out n err s i o t w c :
    k_writer s = WWriting out → 0 ≤ n ≤ zlen out → (n < zlen out → err = true) →
    sock_step (SockSys s i o t w c)
      (SockSys (wl_written n err s).2 i o t (w ++ ztake n out) (c + closes (wl_written n err s).1.1)).

(** A socket just connected, or just accepted. *)
Definition sock_start (y : sock_sys) : Prop :=
  ∃ s c, y = SockSys (startConn c s) [] [] [] [] 0 ∧
    k_rbuf s = [] ∧ k_rerr s = None ∧ k_wbuf s = [] ∧ k_werr s = false ∧ k_wshut s = false ∧
    k_wdone s = false ∧ k_released s = false ∧ k_acceptQ s = [].

Record sock_ok (s : socket) : Prop := {
  sk_conn : is_Some (k_conn s);
  sk_state : k_state s = sockConnected;
  sk_queue : k_acceptQ s = [];
  sk_rlen : zlen (k_rbuf s) < sockReadAhead + readChunk;
  sk_wlen : zlen (k_wbuf s) ≤ sockWriteBuf;
  sk_rwait : k_reader s = RWaiting →
    sockReadAhead ≤ zlen (k_rbuf s) ∧ k_rerr s = None ∧ k_released s = false;
  sk_rread : k_reader s = RReading → zlen (k_rbuf s) < sockReadAhead;
  sk_wwait : k_writer s = WWaiting → k_wbuf s = [] ∧ k_wshut s = false ∧ k_werr s = false;
  sk_wwrite out : k_writer s = WWriting out → ∃ rest, k_wbuf s = out ++ rest;
  sk_wdone : k_wdone s = true → k_writer s = WDone ∧ (k_werr s = true ∨ k_wbuf s = [] ∧ k_wshut s = true);
  sk_done : k_writer s = WDone → k_wdone s = true;
}.

Record conn_ok (y : sock_sys) : Prop := {
  sy_sock : sock_ok (y_sock y);
  sy_in : y_in y = y_out y ++ k_rbuf (y_sock y);
  sy_sent : y_sent y = y_wrote y ++ k_wbuf (y_sock y);
  sy_closes : y_closes y = if k_released (y_sock y) && k_wdone (y_sock y) then 1%nat else 0%nat;
}.

(** Updates that leave the data and the goroutines alone. *)
Lemma sock_ok_ntf s n : sock_ok s → sock_ok (s <| k_n := n |>).
Proof. by intros []. Qed.

Lemma conn_ok_ntf s n i o t w c :
  conn_ok (SockSys s i o t w c) → conn_ok (SockSys (s <| k_n := n |>) i o t w c).
Proof. intros [? ? ? ?]. split; simpl in *; [by apply sock_ok_ntf|done..]. Qed.

(** What [wl_check] keeps, and does. *)
Lemma wl_check_spec s : k_wdone s = false →
  k_rbuf (wl_check s).2 = k_rbuf s ∧ k_wbuf (wl_check s).2 = k_wbuf s ∧
  k_released (wl_check s).2 = k_released s ∧
  closes (wl_check s).1.1 = if k_released s && k_wdone (wl_check s).2 then 1%nat else 0%nat.
Proof.
  intros Hd. unfold wl_check, wl_finish.
  destruct (_ && _ && _); simpl; [by rewrite Hd, andb_false_r|].
  destruct (k_werr s); simpl; [by destruct (k_released s)|].
  destruct (_ && _); simpl; [by destruct (k_released s)|by rewrite Hd, andb_false_r].
Qed.

Lemma wl_check_ok s :
  is_Some (k_conn s) → k_state s = sockConnected → k_acceptQ s = [] →
  zlen (k_rbuf s) < sockReadAhead + readChunk → zlen (k_wbuf s) ≤ sockWriteBuf →
  (k_reader s = RWaiting → sockReadAhead ≤ zlen (k_rbuf s) ∧ k_rerr s = None ∧ k_released s = false) →
  (k_reader s = RReading → zlen (k_rbuf s) < sockReadAhead) → k_wdone s = false →
  sock_ok (wl_check s).2.
Proof.
  intros Hc Hst Hq Hr Hw Hrw Hrr Hd. unfold wl_check, wl_finish.
  destruct (Z.eqb_spec (zlen (k_wbuf s)) 0) as [Hz|Hz]; [apply zlen_zero in Hz|];
    destruct (k_wshut s) eqn:Hsh, (k_werr s) eqn:He; simpl; split; simpl; try done; try (by rewrite Hd);
    intros; auto; try (by injection H as <-; exists []; rewrite app_nil_r).
Qed.

Lemma rcond_signal_same s :
  rcond_signal s = s <| k_reader := match k_reader s with RWaiting => RSignalled | r => r end |>.
Proof. unfold rcond_signal. by destruct s as [? ? ? ? ? ? ? ? ? ? ? ? ? ? ? ? []]. Qed.

Lemma wcond_signal_same s :
  wcond_signal s = s <| k_writer := match k_writer s with WWaiting => WSignalled | r => r end |>.
Proof. unfold wcond_signal. by destruct s as [? ? ? ? ? ? ? ? ? ? ? ? ? ? ? ? ? []]. Qed.

Lemma recv_split n s : 0 ≤ n →
  (sock_recv n false s).1.1 ++ k_rbuf (sock_recv n false s).2 = k_rbuf s ∧
  (sock_recv n true s).2 = s ∧
  k_released (sock_recv n false s).2 = k_released s ∧ k_wdone (sock_recv n false s).2 = k_wdone s ∧
  k_wbuf (sock_recv n false s).2 = k_wbuf s.
Proof.
  intros Hn. unfold sock_recv. destruct (bool_decide _); [done|]. destruct (n =? 0); [done|].
  destruct (0 <? _).
  - rewrite rcond_signal_same. simpl. split; [apply ztake_drop|done].
  - destruct (k_rerr s) as [[]|]; done.
Qed.

Lemma recv_ok n s : 0 ≤ n → sock_ok s → sock_ok (sock_recv n false s).2.
Proof.
  intros Hn Hok. unfold sock_recv. destruct (bool_decide _); [done|]. destruct (Z.eqb_spec n 0); [done|].
  destruct (Z.ltb_spec 0 (zlen (k_rbuf s))); [|by destruct (k_rerr s) as [[]|]].
  destruct Hok as [Hc Hst Hq Hr Hw Hrw Hrr Hww Hwt Hwd Hd].
  rewrite rcond_signal_same. split; simpl; try done; [zlia|by destruct (k_reader s)|].
  destruct (k_reader s); try done. intros _. specialize (Hrr eq_refl). zlia.
Qed.

Lemma send_ok b s : sock_ok s →
  sock_ok (sock_send b s).2 ∧ k_wbuf (sock_send b s).2 = k_wbuf s ++ ztake (sock_send b s).1.1 b ∧
  k_rbuf (sock_send b s).2 = k_rbuf s ∧ k_released (sock_send b s).2 = k_released s ∧
  k_wdone (sock_send b s).2 = k_wdone s.
Proof.
  intros Hok. unfold sock_send.
  destruct (bool_decide _); [by rewrite ztake_le_0, app_nil_r|].
  destruct (k_werr s || k_wshut s) eqn:He; [by rewrite ztake_le_0, app_nil_r|].
  destruct (zlen b =? 0); [by rewrite ztake_le_0, app_nil_r|].
  destruct (Z.leb_spec (sockWriteBuf - zlen (k_wbuf s)) 0); [by rewrite ztake_le_0, app_nil_r|].
  apply orb_false_iff in He as [He Hsh].
  destruct Hok as [Hc Hst Hq Hr Hw Hrw Hrr Hww Hwt Hwd Hd]. rewrite wcond_signal_same. simpl.
  split; [|done]. split; simpl; try done.
  - zlia.
  - by destruct (k_writer s).
  - intros out. destruct (k_writer s); try done. intros [= <-].
    destruct (Hwt _ eq_refl) as [rest ->]. eexists. by rewrite <- app_assoc.
  - intros Hdone. destruct (Hwd Hdone) as (_ & [?|[_ ?]]); congruence.
  - intros Hx. apply Hd. by destruct (k_writer s).
Qed.

Lemma shutdown_ok how s : sock_ok s →
  sock_ok (sock_shutdown how s).2 ∧ k_wbuf (sock_shutdown how s).2 = k_wbuf s ∧
  k_rbuf (sock_shutdown how s).2 = k_rbuf s ∧ k_released (sock_shutdown how s).2 = k_released s ∧
  k_wdone (sock_shutdown how s).2 = k_wdone s.
Proof.
  intros Hok. unfold sock_shutdown. destruct (bool_decide _); [done|]. destruct (_ || _); [|done].
  destruct Hok as [Hc Hst Hq Hr Hw Hrw Hrr Hww Hwt Hwd Hd]. rewrite wcond_signal_same. simpl.
  split; [|done]. split; simpl; try done.
  - by destruct (k_writer s).
  - intros out. destruct (k_writer s); try done. intros [= <-]. by apply Hwt.
  - intros Hdone. destruct (Hwd Hdone) as (-> & Hx). split; [done|]. destruct Hx as [?|[? _]]; [by left|by right].
  - intros Hx. apply Hd. by destruct (k_writer s).
Qed.

Lemma release_ok s : sock_ok s → k_released s = false →
  sock_ok (sock_release s).2 ∧ k_wbuf (sock_release s).2 = k_wbuf s ∧
  k_rbuf (sock_release s).2 = k_rbuf s ∧ k_released (sock_release s).2 = true ∧
  k_wdone (sock_release s).2 = k_wdone s ∧
  closes (sock_release s).1 = if k_wdone s then 1%nat else 0%nat.
Proof.
  intros Hok Hrel. unfold sock_release. rewrite rcond_signal_same, wcond_signal_same. simpl.
  destruct Hok as [[c Hc] Hst Hq Hr Hw Hrw Hrr Hww Hwt Hwd Hd]. split; [|split_and!; try done].
  - split; simpl; try done.
    + by destruct (k_reader s).
    + intros Hx. apply Hrr. by destruct (k_reader s).
    + by destruct (k_writer s).
    + intros out. destruct (k_writer s); try done. intros [= <-]. by apply Hwt.
    + intros Hdone. destruct (Hwd Hdone) as (-> & Hx). split; [done|]. destruct Hx as [?|[? _]]; [by left|by right].
    + intros Hx. apply Hd. by destruct (k_writer s).
  - rewrite Hq, Hc. simpl. induction (k_lns s) as [|l ls IH]; simpl; [by destruct (k_wdone s)|done].
Qed.

Lemma rl_settle_ok s : sock_ok s → sock_ok (rl_settle s).2 ∧ k_rbuf (rl_settle s).2 = k_rbuf s ∧
  k_wbuf (rl_settle s).2 = k_wbuf s ∧ k_released (rl_settle s).2 = k_released s ∧
  k_wdone (rl_settle s).2 = k_wdone s.
Proof.
  intros [Hc Hst Hq Hr Hw Hrw Hrr Hww Hwt Hwd Hd]. unfold rl_settle.
  destruct (Z.leb_spec sockReadAhead (zlen (k_rbuf s)));
    destruct (k_rerr s) eqn:He, (k_released s) eqn:Hrel; simpl; rewrite ?Hrel;
    (split; [|done]); split; simpl; rewrite ?He, ?Hrel; done.
Qed.

Lemma rl_read_ok data err s : sock_ok s → k_reader s = RReading → zlen data ≤ readChunk →
  sock_ok (rl_read data err s).2 ∧ k_rbuf (rl_read data err s).2 = k_rbuf s ++ data ∧
  k_wbuf (rl_read data err s).2 = k_wbuf s ∧ k_released (rl_read data err s).2 = k_released s ∧
  k_wdone (rl_read data err s).2 = k_wdone s.
Proof.
  intros [Hc Hst Hq Hr Hw Hrw Hrr Hww Hwt Hwd Hd] Hread Hdata. unfold rl_read.
  specialize (Hrr Hread).
  set (s1 := match err with Some e => _ | None => _ end).
  assert (k_rbuf s1 = k_rbuf s ++ data ∧ k_wbuf s1 = k_wbuf s ∧ k_released s1 = k_released s ∧ k_wdone s1 = k_wdone s) as (E1 & E2 & E3 & E4)
    by (subst s1; by destruct err).
  assert (sock_ok (s1 <| k_reader := RDone |>)) as Hok1.
  { subst s1. destruct err; split; simpl; try done; zlia. }
  assert (sock_ok (rl_settle (s1 <| k_reader := RDone |>)).2 ∧ rl_settle (s1 <| k_reader := RDone |>) = rl_settle s1) as [Hok2 Heq].
  { split; [by apply rl_settle_ok|]. unfold rl_settle. simpl. by destruct (_ && _ && _). }
  rewrite <- Heq. destruct (rl_settle_ok _ Hok1) as (_ & -> & -> & -> & ->). by split_and!.
Qed.

(** Simplifies the fields of a system only. *)
Ltac ysimpl := cbn [y_sock y_in y_out y_sent y_wrote y_closes] in *.

Lemma conn_ok_step y y' : conn_ok y → sock_step y y' → conn_ok y'.
Proof.
  intros [Hs Hi Ho Hc] Hstep.
  destruct Hstep as [n peek s i o t w c Hn|b s i o t w c|how s i o t w c|s i o t w c|s i o t w c
    |s i o t w c Hrel|data err s i o t w c Hr Hd|s i o t w c Hr|s i o t w c Hw|out n err s i o t w c Hw Hn He];
    ysimpl; subst i t c.
  - destruct (recv_split n s Hn) as (Hsp & Hpeek & H1 & H2 & H3). destruct peek; split; ysimpl;
      rewrite ?Hpeek, ?H1, ?H2, ?H3; try done; [by apply recv_ok|]. by rewrite <- app_assoc, Hsp.
  - destruct (send_ok b s Hs) as (H1 & H2 & H3 & H4 & H5). split; ysimpl; rewrite ?H2, ?H3, ?H4, ?H5; try done.
    by rewrite app_assoc.
  - destruct (shutdown_ok how s Hs) as (H1 & H2 & H3 & H4 & H5). by split; ysimpl; rewrite ?H2, ?H3, ?H4, ?H5.
  - by apply conn_ok_ntf.
  - by apply conn_ok_ntf.
  - destruct (release_ok s Hs Hrel) as (H1 & H2 & H3 & H4 & H5 & H6).
    split; ysimpl; rewrite ?H2, ?H3, ?H4, ?H5, ?H6; try done. by rewrite Hrel.
  - destruct (rl_read_ok data err s Hs Hr Hd) as (H1 & H2 & H3 & H4 & H5).
    split; ysimpl; rewrite ?H2, ?H3, ?H4, ?H5; try done. by rewrite app_assoc.
  - destruct (rl_settle_ok s Hs) as (H1 & H2 & H3 & H4 & H5). by split; ysimpl; rewrite ?H2, ?H3, ?H4, ?H5.
  - destruct (k_wdone s) eqn:Hwd; [destruct (sk_wdone _ Hs Hwd); congruence|].
    destruct (wl_check_spec s Hwd) as (H1 & H2 & H3 & H4).
    split; ysimpl; rewrite ?H1, ?H2, ?H3, ?H4; [|done..|by rewrite andb_false_r].
    destruct Hs. by apply wl_check_ok.
  - destruct (k_wdone s) eqn:Hwd; [destruct (sk_wdone _ Hs Hwd); congruence|].
    destruct Hs as [Hcn Hst Hq Hrl Hwl Hrw Hrr Hww Hwt Hwdn Hdn].
    destruct (Hwt out Hw) as [rest Hrest]. unfold wl_written.
    set (s1 := if err then _ else _).
    assert (k_wbuf s1 = zdrop n (k_wbuf s) ∧ k_rbuf s1 = k_rbuf s ∧ k_wdone s1 = false ∧
      k_released s1 = k_released s ∧ k_conn s1 = k_conn s ∧ k_state s1 = k_state s ∧ k_reader s1 = k_reader s ∧
      k_rerr s1 = k_rerr s ∧ k_acceptQ s1 = k_acceptQ s)
      as (E1 & E2 & E3 & E4 & E5 & E6 & E7 & E8 & E9) by (subst s1; by destruct err).
    set (s2 := s1 <| k_n ::= notifier_notify |>).
    destruct (wl_check_spec s2 E3) as (H1 & H2 & H3 & H4).
    split; ysimpl; rewrite ?H1, ?H2, ?H3, ?H4.
    + apply wl_check_ok; unfold s2; simpl; rewrite ?E1, ?E2, ?E3, ?E4, ?E5, ?E6, ?E7, ?E8, ?E9; try done. zlia.
    + unfold s2. simpl. by rewrite E2.
    + unfold s2. simpl. rewrite E1, Hrest, <- !app_assoc. f_equal.
      rewrite zdrop_app_le by lia. by rewrite app_assoc, ztake_drop.
    + unfold s2. simpl. rewrite E4. by rewrite andb_false_r.
Qed.

Lemma conn_ok_reachable y : reachable sock_start sock_step y → conn_ok y.
Proof.
  apply reachable_inv; [|intros ? ? _; apply conn_ok_step].
  intros _ (s & c & -> & Hr & He & Hw & Hwe & Hsh & Hd & Hrel & Hq). split; simpl.
  - split; simpl; rewrite ?Hr, ?He, ?Hw, ?Hwe, ?Hsh, ?Hd, ?Hrel, ?Hq; done.
  - by rewrite Hr.
  - by rewrite Hw.
  - by rewrite Hrel.
Qed.

(** * Blocked guests *)

(** What happens to a socket, and what each step does to its notifier.  The
    notification [writeLoop] sends on its way out is [so_late]. *)
Inductive sock_op : socket → socket → effect → Prop :=
| so_recv n peek s : 0 ≤ n → sock_op s (sock_recv n peek s).2 Silent
| so_send b s : sock_op s (sock_send b s).2 Silent
| so_shutdown how s : sock_op s (sock_shutdown how s).2 Silent
| so_release s : sock_op s (sock_release s).2 NotifyLater
| so_read data err s :
    k_reader s = RReading → zlen data ≤ readChunk → data ≠ [] ∨ err ≠ None →
    sock_op s (rl_read data err s).2 (if (rl_read data err s).1 then NotifyLater else Silent)
| so_resume_reader s :
    k_reader s = RSignalled → sock_op s (rl_settle s).2 (if (rl_settle s).1 then NotifyLater else Silent)
| so_resume_writer s : k_writer s = WSignalled → sock_op s (wl_check s).2 Silent
| so_written n err s : sock_op s (wl_written n err s).2 NotifyNow
| so_late s : sock_op s (s <| k_n ::= notifier_notify |>) NotifyNow
| so_listen s : sock_op s (sock_listen s).2 Silent
| so_accept s : sock_op s (sock_accept s).2 Silent
| so_accepted c remote s :
    sock_op s (acceptLoop_got c remote s).2 (if (acceptLoop_got c remote s).1.2 then NotifyLater else Silent)
| so_connect c s : k_state s = sockNew → sock_op s (startConn c s) Silent.

Definition sock_try_recv (n : Z) (s : socket) : option socket :=
  if (sock_recv n false s).1.2 =? EAGAIN then None else Some (sock_recv n false s).2.
Definition sock_try_accept (s : socket) : option socket :=
  if (sock_accept s).1.2 =? EAGAIN then None else Some (sock_accept s).2.
Definition sock_try_send (b : bytes) (s : socket) : option socket :=
  if (sock_send b s).1.2 =? EAGAIN then None else Some (sock_send b s).2.

Lemma recv_EAGAIN n s : 0 ≤ n →
  (sock_recv n false s).1.2 = EAGAIN ↔ k_state s = sockConnected ∧ n ≠ 0 ∧ k_rbuf s = [] ∧ k_rerr s = None.
Proof.
  intros Hn. unfold sock_recv. case_bool_decide as Hst; simpl; [split; [done|tauto]|].
  destruct (Z.eqb_spec n 0); simpl; [split; [done|tauto]|].
  destruct (Z.ltb_spec 0 (zlen (k_rbuf s))); simpl.
  - split; [done|]. intros (_ & _ & Hb & _). rewrite Hb in *. done.
  - assert (k_rbuf s = []) by (apply zlen_zero; zlia).
    destruct (k_rerr s) as [[]|]; simpl; split; try done; by intros (_ & _ & _ & ?).
Qed.

Lemma accept_EAGAIN s : (sock_accept s).1.2 = EAGAIN ↔ k_state s = sockListening ∧ k_acceptQ s = [].
Proof.
  unfold sock_accept. case_bool_decide as Hst; simpl; [split; [done|tauto]|].
  destruct (k_acceptQ s) as [|[c r] q]; simpl; [done|]. split; [done|]. by intros [].
Qed.

Lemma send_EAGAIN b s :
  (sock_send b s).1.2 = EAGAIN ↔
  k_state s = sockConnected ∧ k_werr s = false ∧ k_wshut s = false ∧ b ≠ [] ∧ sockWriteBuf ≤ zlen (k_wbuf s).
Proof.
  unfold sock_send. case_bool_decide as Hst; simpl; [split; [done|tauto]|].
  destruct (k_werr s), (k_wshut s); simpl; try (split; [done|by intros (_ & ? & ? & _)]).
  destruct (Z.eqb_spec (zlen b) 0) as [Hb|Hb]; simpl.
  { apply zlen_zero in Hb. split; [done|tauto]. }
  destruct (Z.leb_spec (sockWriteBuf - zlen (k_wbuf s)) 0); simpl; (split; [|intros; try done; destruct_and!; lia]); [|done].
  intros _. split_and!; try done; [|lia]. by intros ->.
Qed.

Lemma sock_op_ntf s s' e : sock_op s s' e → k_n s' = wt_after e (k_n s).
Proof.
  destruct 1 as [n peek s Hn|b s|how s|s|data err s Hr Hd He|s Hr|s Hw|n err s|s|s|s|c r s|c s Hs].
  - unfold sock_recv. repeat case_match; simpl; rewrite ?rcond_signal_same; done.
  - unfold sock_send. repeat case_match; simpl; rewrite ?wcond_signal_same; done.
  - unfold sock_shutdown. repeat case_match; simpl; rewrite ?wcond_signal_same; done.
  - unfold sock_release. simpl. by rewrite rcond_signal_same, wcond_signal_same.
  - unfold rl_read, rl_settle. destruct err; simpl; destruct (_ && _ && _); done.
  - unfold rl_settle. destruct (_ && _ && _); done.
  - unfold wl_check, wl_finish. repeat case_match; done.
  - unfold wl_written, wl_check, wl_finish. destruct err; repeat case_match; done.
  - done.
  - unfold sock_listen. repeat case_match; done.
  - unfold sock_accept. repeat case_match; done.
  - unfold acceptLoop_got. by destruct (k_released s).
  - done.
Qed.

Lemma rl_read_notifies data err s :
  k_rbuf s = [] → zlen data ≤ readChunk → (rl_read data err s).1 = true.
Proof.
  intros Hb Hd. unfold rl_read, rl_settle. assert (readChunk < sockReadAhead) by done.
  destruct err; simpl; rewrite Hb; simpl; (destruct (Z.leb_spec sockReadAhead (zlen data)); [lia|done]).
Qed.

Lemma rl_read_same data err s :
  k_rbuf (rl_read data err s).2 = k_rbuf s ++ data ∧
  k_rerr (rl_read data err s).2 = (match err with Some e => Some e | None => k_rerr s end) ∧
  k_state (rl_read data err s).2 = k_state s ∧ k_acceptQ (rl_read data err s).2 = k_acceptQ s.
Proof. unfold rl_read, rl_settle. destruct err; simpl; destruct (_ && _ && _); done. Qed.

Lemma wl_check_same s :
  k_rbuf (wl_check s).2 = k_rbuf s ∧ k_rerr (wl_check s).2 = k_rerr s ∧
  k_state (wl_check s).2 = k_state s ∧ k_acceptQ (wl_check s).2 = k_acceptQ s.
Proof. unfold wl_check, wl_finish. repeat case_match; done. Qed.

(** A silent operation cannot give a reader something to read, or a listener
    a connection to accept. *)
Lemma silent_recv n s s' : 0 ≤ n → sock_op s s' Silent →
  (sock_recv n false s).1.2 = EAGAIN → (sock_recv n false s').1.2 = EAGAIN.
Proof.
  intros Hn Hop He. pose proof (proj1 (recv_EAGAIN n s Hn) He) as (Hst & Hn0 & Hb & Hr).
  assert (k_state s' = k_state s ∧ k_rbuf s' = [] ∧ k_rerr s' = None) as (E1 & E2 & E3);
    [|apply recv_EAGAIN; [done|]; by rewrite E1].
  inversion Hop as [m peek s0 Hm|b s0|how s0|s0|data err s0 Hrd Hd Hor Heff|s0 Hrd Heff|s0 Hw|? ? s0|s0|s0|s0
    |c r s0 Heff|c s0 Hnew]; subst s0; subst; clear Hop.
  - unfold sock_recv. rewrite Hst, Hb, Hr. repeat case_match; done.
  - unfold sock_send. repeat case_match; simpl; rewrite ?wcond_signal_same; done.
  - unfold sock_shutdown. repeat case_match; simpl; rewrite ?wcond_signal_same; done.
  - exfalso. by rewrite (rl_read_notifies data err s Hb Hd) in *.
  - unfold rl_settle. repeat case_match; done.
  - by destruct (wl_check_same s) as (-> & -> & -> & _).
  - unfold sock_listen. rewrite Hst. simpl. done.
  - unfold sock_accept. rewrite Hst. done.
  - unfold acceptLoop_got in *. by destruct (k_released s).
  - by rewrite Hst in Hnew.
Qed.

Lemma silent_accept s s' : sock_op s s' Silent →
  (sock_accept s).1.2 = EAGAIN → (sock_accept s').1.2 = EAGAIN.
Proof.
  intros Hop He. pose proof (proj1 (accept_EAGAIN s) He) as (Hst & Hq).
  assert (k_state s' = k_state s ∧ k_acceptQ s' = []) as (E1 & E2);
    [|apply accept_EAGAIN; by rewrite E1].
  inversion Hop as [m peek s0 Hm|b s0|how s0|s0|data err s0 Hrd Hd Hor Heff|s0 Hrd Heff|s0 Hw|? ? s0|s0|s0|s0
    |c r s0 Heff|c s0 Hnew]; subst s0; subst; clear Hop.
  - unfold sock_recv. rewrite Hst. done.
  - unfold sock_send. rewrite Hst. done.
  - unfold sock_shutdown. rewrite Hst. done.
  - destruct (rl_read_same data err s) as (_ & _ & -> & ->). done.
  - unfold rl_settle. repeat case_match; done.
  - by destruct (wl_check_same s) as (_ & _ & -> & ->).
  - unfold sock_listen. rewrite Hst. done.
  - unfold sock_accept. rewrite Hst, Hq. done.
  - unfold acceptLoop_got in *. by destruct (k_released s).
  - by rewrite Hst in Hnew.
Qed.

#[export] Instance sock_recv_wait (n : Z) : Waitable socket := {
  wt_ntf := k_n; wt_set_ntf m s := s <| k_n := m |>; wt_try := sock_try_recv n; wt_op := sock_op }.
#[export] Instance sock_accept_wait : Waitable socket := {
  wt_ntf := k_n; wt_set_ntf m s := s <| k_n := m |>; wt_try := sock_try_accept; wt_op := sock_op }.
Definition sock_send_wait (b : bytes) : Waitable socket := {|
  wt_ntf := k_n; wt_set_ntf m s := s <| k_n := m |>; wt_try := sock_try_send b; wt_op := sock_op |}.

Lemma try_recv_None n s : sock_try_recv n s = None ↔ (sock_recv n false s).1.2 = EAGAIN.
Proof. unfold sock_try_recv. destruct (Z.eqb_spec (sock_recv n false s).1.2 EAGAIN); done. Qed.
Lemma try_accept_None s : sock_try_accept s = None ↔ (sock_accept s).1.2 = EAGAIN.
Proof. unfold sock_try_accept. destruct (Z.eqb_spec (sock_accept s).1.2 EAGAIN); done. Qed.

Lemma sock_recv_laws (n : Z) : 0 ≤ n → @WaitableLaws socket (sock_recv_wait n).
Proof.
  intros Hn. split; simpl.
  - done.
  - intros m s. rewrite <- !not_eq_None_Some, !try_recv_None, !recv_EAGAIN by done. done.
  - apply sock_op_ntf.
  - intros s s' e Hop Hno%try_recv_None Hyes ->. apply not_eq_None_Some in Hyes. apply Hyes.
    apply try_recv_None. by apply (silent_recv n s).
  - intros s s'. unfold sock_try_recv. case_match; [done|]. intros [= <-]. left.
    apply (sock_op_ntf s _ Silent). by constructor.
Qed.

Lemma sock_accept_laws : @WaitableLaws socket sock_accept_wait.
Proof.
  split; simpl.
  - done.
  - intros m s. rewrite <- !not_eq_None_Some, !try_accept_None, !accept_EAGAIN. done.
  - apply sock_op_ntf.
  - intros s s' e Hop Hno%try_accept_None Hyes ->. apply not_eq_None_Some in Hyes. apply Hyes.
    apply try_accept_None. by apply (silent_accept s).
  - intros s s'. unfold sock_try_accept. case_match; [done|]. intros [= <-]. left.
    apply (sock_op_ntf s _ Silent). by constructor.
Qed.

(** * Addresses: lemmas *)
Lemma until_nul_app p rest : Forall (λ c, c ≠ 0) p → until_nul (p ++ 0 :: rest) = p.
Proof.
  induction 1 as [|c p Hc _ IH]; simpl; [done|]. destruct (Z.eqb_spec c 0); [done|]. by rewrite IH.
Qed.

Lemma ztake_exact {A} n (l k : list A) : zlen l = n → ztake n (l ++ k) = l.
Proof. intros <-. rewrite ztake_app_le by lia. apply ztake_all. lia. Qed.
Lemma zdrop_exact {A} n (l k : list A) : zlen l = n → zdrop n (l ++ k) = k.
Proof. intros <-. rewrite zdrop_app_ge by lia. by rewrite Z.sub_diag. Qed.

Lemma zlen_be_bytes n z : zlen (be_bytes n z) = Z.of_nat n.
Proof. unfold zlen. by rewrite length_be_bytes. Qed.

Lemma be_val_port p : 0 ≤ p < 65536 → be_val (be_bytes 2 p) = p.
Proof. intros. rewrite be_val_bytes. apply Z.mod_small. done. Qed.

Inductive sockaddr_wf : sockaddr → Prop :=
| wf_inet ip p : zlen ip = 4 → 0 ≤ p < 65536 → sockaddr_wf (Sockaddr AF_INET ip p [])
| wf_inet6 ip p : zlen ip = 16 → 0 ≤ p < 65536 → sockaddr_wf (Sockaddr AF_INET6 ip p [])
| wf_unix path : path ≠ [] → Forall (λ c, c ≠ 0) path → sockaddr_wf (Sockaddr AF_UNIX [] 0 path).

Lemma decode_inet fam p ip rest :
  zlen ip = 4 → 0 ≤ p < 65536 → fam = AF_INET → 8 ≤ zlen rest →
  decodeSockaddr (le_bytes 2 fam ++ be_bytes 2 p ++ ip ++ rest) = inl (Sockaddr AF_INET ip p []).
Proof.
  intros Hip Hp -> Hr. unfold decodeSockaddr.
  rewrite (ztake_exact 2 (le_bytes 2 AF_INET)) by done.
  rewrite (zdrop_exact 2 (le_bytes 2 AF_INET)) by done.
  rewrite (ztake_exact 2 (be_bytes 2 p)) by apply zlen_be_bytes.
  rewrite (app_assoc (le_bytes 2 AF_INET) (be_bytes 2 p)).
  rewrite (zdrop_exact 4) by (rewrite zlen_app, zlen_be_bytes; done).
  rewrite (ztake_exact 4 ip) by done. rewrite be_val_port by done.
  rewrite !zlen_app, zlen_be_bytes. change (zlen (le_bytes 2 AF_INET)) with 2.
  change (SizeofSockaddrIn) with 16. change (le_val (le_bytes 2 AF_INET)) with AF_INET.
  repeat zcase; try done; lia.
Qed.

Lemma decode_inet6 p ip rest :
  zlen ip = 16 → 0 ≤ p < 65536 → 4 ≤ zlen rest →
  decodeSockaddr (le_bytes 2 AF_INET6 ++ be_bytes 2 p ++ zrepeat 4 0 ++ ip ++ rest)
    = inl (Sockaddr AF_INET6 ip p []).
Proof.
  intros Hip Hp Hr. unfold decodeSockaddr.
  rewrite (ztake_exact 2 (le_bytes 2 AF_INET6)) by done.
  rewrite (zdrop_exact 2 (le_bytes 2 AF_INET6)) by done.
  rewrite (ztake_exact 2 (be_bytes 2 p)) by apply zlen_be_bytes.
  rewrite (app_assoc (le_bytes 2 AF_INET6) (be_bytes 2 p)), (app_assoc _ (zrepeat 4 0)).
  rewrite (zdrop_exact 8) by (rewrite !zlen_app, zlen_be_bytes; done).
  rewrite (ztake_exact 16 ip) by done. rewrite be_val_port by done.
  rewrite !zlen_app, zlen_be_bytes. change (zlen (le_bytes 2 AF_INET6)) with 2.
  change (zlen (zrepeat 4 0)) with 4. change (le_val (le_bytes 2 AF_INET6)) with AF_INET6.
  repeat zcase; try done; lia.
Qed.

Lemma decode_unix path : path ≠ [] → Forall (λ c, c ≠ 0) path →
  decodeSockaddr (le_bytes 2 AF_UNIX ++ path ++ [0]) = inl (Sockaddr AF_UNIX [] 0 path).
Proof.
  intros Hne%zlen_pos Hnn. unfold decodeSockaddr.
  rewrite (ztake_exact 2 (le_bytes 2 AF_UNIX)) by done.
  rewrite (zdrop_exact 2 (le_bytes 2 AF_UNIX)) by done.
  rewrite until_nul_app by done. rewrite !zlen_app.
  change (zlen (le_bytes 2 AF_UNIX)) with 2. change (zlen [0]) with 1.
  change (le_val (le_bytes 2 AF_UNIX)) with AF_UNIX.
  repeat zcase; try done; lia.
Qed.

(** * Properties *)

(** C2. A connection is a pair of byte streams.  Whatever the guests, the two
    goroutines and the host do, in any order: what the guests have received
    followed by what is buffered is what the connection delivered, and what
    [send] accepted is what the connection has been given followed by what is
    buffered; less than 320 KiB is buffered one way and at most 256 KiB the
    other; the connection is closed once, exactly when the last reference is
    gone and the writer is done; and a writer that is done without an error
    has delivered every byte [send] accepted. *)
Theorem sock_stream (y : sock_sys) :
  reachable sock_start sock_step y →
  y_in y = y_out y ++ k_rbuf (y_sock y) ∧ y_sent y = y_wrote y ++ k_wbuf (y_sock y) ∧
  zlen (k_rbuf (y_sock y)) < sockReadAhead + readChunk ∧ zlen (k_wbuf (y_sock y)) ≤ sockWriteBuf ∧
  y_closes y = (if k_released (y_sock y) && k_wdone (y_sock y) then 1%nat else 0%nat) ∧
  (k_wdone (y_sock y) = true → k_werr (y_sock y) = false → y_wrote y = y_sent y).
Proof.
  intros [Hs Hi Ho Hc]%conn_ok_reachable. split_and!; [done|done|apply Hs|apply Hs|done|].
  intros Hd He. destruct (sk_wdone _ Hs Hd) as (_ & [?|[Hw _]]); [congruence|].
  by rewrite Ho, Hw, app_nil_r.
Qed.

Lemma sock_stream_witness :
  let s0 := startConn 7 (newSocket AF_INET) in
  let s1 := (sock_send [1;2;3] s0).2 in
  let s2 := (wl_check s1).2 in
  let s3 := (sock_release s2).2 in
  let y := SockSys (wl_written 3 false s3).2 [] [] [1;2;3] [1;2;3] 1 in
  y_closes y = 1%nat ∧ y_closes y = (if k_released (y_sock y) && k_wdone (y_sock y) then 1%nat else 0%nat).
Proof.
  intros s0 s1 s2 s3 y. split; [done|]. apply (sock_stream y).
  exists (SockSys s0 [] [] [] [] 0). split; [by exists (newSocket AF_INET), 7%nat|].
  eapply rtc_l; [apply (sk_send [1;2;3])|].
  eapply rtc_l; [apply (sk_resume_writer s1); reflexivity|].
  eapply rtc_l; [apply (sk_release s2); reflexivity|].
  eapply rtc_l; [apply (sk_written [1;2;3] 3 false s3); [reflexivity|done|done]|].
  apply rtc_refl.
Defined.

(** A guest blocked in [recv] is woken: whatever else happens to the socket,
    from any state, one that sleeps while a [recv] of the same size would not
    block (data, end of file or an error has arrived) holds a channel that is
    closed, or a goroutine is about to notify. *)
Theorem sock_recv_woken (n : Z) (s0 : socket) (y : system socket) (t c : nat) :
  0 ≤ n →
  reachable (@sys_init socket s0) (@sys_step socket (sock_recv_wait n)) y →
  sys_waiters y !! t = Some (Asleep c) →
  (sock_recv n false (sys_state y)).1.2 ≠ EAGAIN →
  chan_closed (k_n (sys_state y)) c = true ∨ (0 < sys_pending y)%nat.
Proof.
  intros Hn Hr Ht He.
  apply (@no_lost_wakeup socket (sock_recv_wait n) (sock_recv_laws n Hn) s0 y t c Hr Ht).
  apply not_eq_None_Some. change (sock_try_recv n (sys_state y) ≠ None). by rewrite try_recv_None.
Qed.

Definition demo_conn : socket := startConn 7 (newSocket AF_INET).
Definition demo_recv : system socket :=
  System (rl_read [65] None (sock_changed demo_conn).2).2 1
    (<[0%nat := Asleep 0]> (<[0%nat := Took 0]> {[0%nat := Running]})).

Lemma demo_recv_reachable :
  reachable (@sys_init socket demo_conn) (@sys_step socket (sock_recv_wait 8)) demo_recv.
Proof.
  apply (@one_sleeper _ (sock_recv_wait 8) demo_conn demo_conn (sys_state demo_recv) NotifyLater);
    [apply rtc_refl|by vm_compute|].
  assert ((if (rl_read [65] None (sock_changed demo_conn).2).1 then NotifyLater else Silent) = NotifyLater) as <-
    by by vm_compute.
  apply so_read; [reflexivity|by vm_compute|by left].
Qed.

Lemma sock_recv_woken_witness :
  chan_closed (k_n (sys_state demo_recv)) 0 = true ∨ (0 < 1)%nat.
Proof.
  apply (sock_recv_woken 8 demo_conn demo_recv 0 0);
    [done|apply demo_recv_reachable|apply lookup_insert_eq|by vm_compute].
Defined.

(** The same for a guest blocked in [accept]: when a connection has been
    queued (or the socket is not a listening one) it has been woken or is
    about to be. *)
Theorem sock_accept_woken (s0 : socket) (y : system socket) (t c : nat) :
  reachable (@sys_init socket s0) (@sys_step socket sock_accept_wait) y →
  sys_waiters y !! t = Some (Asleep c) →
  (sock_accept (sys_state y)).1.2 ≠ EAGAIN →
  chan_closed (k_n (sys_state y)) c = true ∨ (0 < sys_pending y)%nat.
Proof.
  intros Hr Ht He.
  apply (@no_lost_wakeup socket sock_accept_wait sock_accept_laws s0 y t c Hr Ht).
  apply not_eq_None_Some. change (sock_try_accept (sys_state y) ≠ None). by rewrite try_accept_None.
Qed.

Definition demo_listener : socket := (newSocket AF_INET) <| k_state := sockListening |>.
Definition demo_accept : system socket :=
  System (acceptLoop_got 9 OtherAddr (sock_changed demo_listener).2).2 1
    (<[0%nat := Asleep 0]> (<[0%nat := Took 0]> {[0%nat := Running]})).

Lemma demo_accept_reachable :
  reachable (@sys_init socket demo_listener) (@sys_step socket sock_accept_wait) demo_accept.
Proof.
  apply (@one_sleeper _ sock_accept_wait demo_listener demo_listener (sys_state demo_accept) NotifyLater);
    [apply rtc_refl|by vm_compute|apply so_accepted].
Qed.

Lemma sock_accept_woken_witness :
  chan_closed (k_n (sys_state demo_accept)) 0 = true ∨ (0 < 1)%nat.
Proof.
  apply (sock_accept_woken demo_listener demo_accept 0 0);
    [apply demo_accept_reachable|apply lookup_insert_eq|by vm_compute].
Defined.

(** The kernel's two address codecs are inverse: decoding the encoding of an
    address with the family of a socket gives the address back. *)
Theorem sockaddr_roundtrip (a : sockaddr) (b : bytes) :
  sockaddr_wf a → encode a = Some b → decodeSockaddr b = inl a.
Proof.
  destruct 1 as [ip p Hip Hp|ip p Hip Hp|path Hne Hnn]; unfold encode; simpl.
  - unfold As4, Unmap4 at 1 2. rewrite (decide_False (P := zlen (Unmap4 ip) = 16 ∧ _)).
    2: { unfold Unmap4. rewrite decide_False by lia. lia. }
    unfold Unmap4. rewrite !decide_False by lia. rewrite Hip. simpl.
    intros [= <-]. by apply decode_inet.
  - unfold As16. rewrite Hip. simpl. intros [= <-]. by apply (decode_inet6 p ip (zrepeat 8 0)).
  - intros [= <-]. by apply decode_unix.
Qed.

Lemma sockaddr_roundtrip_witness :
  let a := Sockaddr AF_UNIX [] 0 [47; 116; 109; 112] in
  encode a = Some ([3;0] ++ [47; 116; 109; 112] ++ [0]) ∧
  decodeSockaddr ([3;0] ++ [47; 116; 109; 112] ++ [0]) = inl a.
Proof.
  intros a. split; [by vm_compute|]. apply sockaddr_roundtrip; [|by vm_compute].
  apply wf_unix; [done|]. repeat constructor; done.
Defined.

(** C23. Readiness is truthful: POLLIN is reported exactly when [recv] (on a
    connection) or [accept] (on a listening socket) would not block, POLLOUT
    only when [send] would take bytes, and POLLHUP exactly when the connection
    is over in both directions. *)
Theorem sock_poll_truthful (n : Z) (b : bytes) (s : socket) :
  0 < n → b ≠ [] →
  (k_state s = sockConnected →
     (Z.testbit (sock_poll s) 0 = true ↔ (sock_recv n false s).1.2 ≠ EAGAIN) ∧
     (Z.testbit (sock_poll s) 1 = true → (sock_send b s).1.2 = 0 ∧ 0 < (sock_send b s).1.1) ∧
     (Z.testbit (sock_poll s) 13 = true ↔ k_rerr s ≠ None ∧ (k_wshut s = true ∨ k_werr s = true))) ∧
  (k_state s = sockListening →
     (Z.testbit (sock_poll s) 0 = true ↔ (sock_accept s).1.2 = 0)).
Proof.
  intros Hn Hb%zlen_pos. split; intros Hst; unfold sock_poll; rewrite Hst.
  - assert (n ≠ 0) by lia. rewrite recv_EAGAIN by lia. unfold sock_send. rewrite Hst. simpl.
    destruct (Z.ltb_spec 0 (zlen (k_rbuf s))) as [Hr|Hr].
    + assert (k_rbuf s ≠ []) by by apply zlen_pos.
      destruct (k_rerr s) as [[]|] eqn:He, (k_werr s), (k_wshut s); simpl;
        repeat zcase; split_and!; try done; try tauto; try lia; intuition congruence.
    + assert (k_rbuf s = []) by (apply zlen_zero; zlia).
      destruct (k_rerr s) as [[]|] eqn:He, (k_werr s), (k_wshut s); simpl;
        repeat zcase; split_and!; try done; try tauto; try lia; intuition congruence.
  - unfold sock_accept. rewrite Hst. simpl.
    destruct (k_acceptQ s) as [|[c r] q]; simpl; [done|].
    destruct (Z.ltb_spec 0 (zlen ((c, r) :: q))); [done|zlia].
Qed.

Lemma sock_poll_truthful_witness :
  let s := (rl_read [65; 66] (Some REOF) (startConn 7 (newSocket AF_INET))).2 in
  sock_poll s = Z.lor POLLIN POLLOUT ∧
  (Z.testbit (sock_poll s) 1 = true → (sock_send [9] s).1.2 = 0 ∧ 0 < (sock_send [9] s).1.1).
Proof.
  intros s. split; [by vm_compute|].
  apply (sock_poll_truthful 4 [9] s); [done|done|by vm_compute].
Defined.

(** [shutdown] wakes nobody: a guest asleep in [send] on a full buffer stays
    asleep when another process shuts the connection down for writing, though
    its [send] would now fail with EPIPE; it is only woken when the host takes
    bytes or the connection fails. *)
Definition demo_full : socket := (sock_send (zrepeat sockWriteBuf 0) (startConn 7 (newSocket AF_INET))).2.

Lemma shutdown_wakes_nobody :
  ∃ y : system socket,
    reachable (@sys_init socket demo_full) (@sys_step socket (sock_send_wait [1])) y ∧
    sys_waiters y !! 0%nat = Some (Asleep 0) ∧
    (sock_send [1] (sys_state y)).1 = (0, EPIPE) ∧
    chan_closed (k_n (sys_state y)) 0 = false ∧ sys_pending y = 0%nat.
Proof.
  exists (System (sock_shutdown SHUT_WR (sock_changed demo_full).2).2 0
    (<[0%nat := Asleep 0]> (<[0%nat := Took 0]> {[0%nat := Running]}))).
  split; [|split_and!; [apply lookup_insert_eq|by vm_compute|by vm_compute|done]].
  apply (@one_sleeper socket (sock_send_wait [1]) demo_full demo_full
    (sock_shutdown SHUT_WR (sock_changed demo_full).2).2 Silent); [apply rtc_refl|by vm_compute|].
  apply so_shutdown.
Qed.
