(* ===== verification/World.v ===== *)
(** The files of a kernel put together: every kind of file behind the interface
    [file] of fdtable.go, and the state they and the other shared objects of a
    [Kernel] live in.  The host below (the address spaces of [Vmem], and Go's
    [io] and [net]) is a parameter. *)
From S2P Require Import Prelude Abi Notify Vmem Signals Sema FdTable Pipe Stdio Shm Paths Socket.

(** What the files use of Go's [io] and [net] packages. *)
Class HostIO (HS : Type) := {
  io_Write : nat → bytes → HS → (Z * bool) * HS;
  net_action : action → HS → HS;
  net_Listen : string → sockaddr + string → HS → (nat * netaddr + neterr) * HS;
  net_Dial : string → sockaddr + string → HS → (nat * netaddr + neterr) * HS;
}.

(** A file is its kind and the object it refers to. *)
Inductive kfile :=
| KPipeReader (p : nat) | KPipeWriter (p : nat) | KReader (r : nat) | KWriter (w : nat)
| KNull | KSocket (s : nat) | KShm (s : nat).
#[export] Instance kfile_eq_dec : EqDecision kfile.
Proof. solve_decision. Defined.

(** A channel of a file's notifier. *)
Inductive kchan := ChPipe (p c : nat) | ChReader (r c : nat) | ChSocket (s c : nat).

Record kworld (OS HS : Type) := World {
  w_pipes : gmap nat pipe;
  w_readers : gmap nat readerFile;
  w_socks : gmap nat socket;
  w_next : nat;
  w_unix : unixTable;
  w_shm : shmTable;
  w_sems : semaTable;
  w_os : OS;
  w_host : HS;
}.
Arguments World {OS HS}. Arguments w_pipes {OS HS}. Arguments w_readers {OS HS}.
Arguments w_socks {OS HS}. Arguments w_next {OS HS}. Arguments w_unix {OS HS}.
Arguments w_shm {OS HS}. Arguments w_sems {OS HS}. Arguments w_os {OS HS}. Arguments w_host {OS HS}.
#[export] Instance eta_world OS HS : Eta (kworld OS HS) := λ r,
  {| w_pipes := w_pipes r; w_readers := w_readers r; w_socks := w_socks r; w_next := w_next r;
     w_unix := w_unix r; w_shm := w_shm r; w_sems := w_sems r; w_os := w_os r; w_host := w_host r |}.

Section world.
Context {OS HS : Type} `{HostMMU OS} `{HostIO HS}.
#[local] Abbreviation world := (kworld OS HS).
Implicit Types (w : world).

(** Applies an operation of a pipe, a reader or a socket to the one at an
    address; there is always one (an address is made with its object, and no
    object is dropped), so the default result is never the kernel's. *)
Definition at_pipe {A} (d : A) (p : nat) (f : pipe → A * pipe) w : A * world :=
  match w_pipes w !! p with
  | None => (d, w)
  | Some x => let '(r, x) := f x in (r, w <| w_pipes ::= <[p := x]> |>)
  end.
Definition at_reader {A} (d : A) (r : nat) (f : readerFile → A * readerFile) w : A * world :=
  match w_readers w !! r with
  | None => (d, w)
  | Some x => let '(a, x) := f x in (a, w <| w_readers ::= <[r := x]> |>)
  end.
Definition at_socket {A} (d : A) (s : nat) (f : socket → A * socket) w : A * world :=
  match w_socks w !! s with
  | None => (d, w)
  | Some x => let '(a, x) := f x in (a, w <| w_socks ::= <[s := x]> |>)
  end.

(** Closing a listener inside the kernel is the kernel's; the rest is Go's. *)
Definition do_action (a : action) w : world :=
  match a with
  | LnClose (LnVirtual l) => w <| w_unix ::= virtualListener_Close l |>
  | _ => w <| w_host ::= net_action a |>
  end.

Definition kfile_read (f : kfile) (n : Z) w : (bytes * Z) * world :=
  match f with
  | KPipeReader p => at_pipe ([], EBADF) p (pipeReader_read n) w
  | KPipeWriter _ => (pipeWriter_read n, w)
  | KReader r => at_reader ([], EBADF) r (readerFile_read n) w
  | KWriter _ => (writerFile_read n, w)
  | KNull => (nullFile_read n, w)
  | KSocket s => at_socket ([], EBADF) s (sock_read n) w
  | KShm _ => (shmFile_read n, w)
  end.

Definition kfile_write (f : kfile) (b : bytes) w : (Z * Z) * world :=
  match f with
  | KPipeReader _ => (pipeReader_write b, w)
  | KPipeWriter p => at_pipe (0, EBADF) p (pipeWriter_write b) w
  | KReader _ => (readerFile_write b, w)
  | KWriter i => let '(r, h) := writerFile_write (io_Write i) b (w_host w) in (r, w <| w_host := h |>)
  | KNull => (nullFile_write b, w)
  | KSocket s => at_socket (0, EBADF) s (sock_write b) w
  | KShm _ => (shmFile_write b, w)
  end.

Definition kfile_poll (f : kfile) w : Z :=
  match f with
  | KPipeReader p => from_option pipeReader_poll 0 (w_pipes w !! p)
  | KPipeWriter p => from_option pipeWriter_poll 0 (w_pipes w !! p)
  | KReader r => from_option readerFile_poll 0 (w_readers w !! r)
  | KWriter _ => writerFile_poll
  | KNull => nullFile_poll
  | KSocket s => from_option sock_poll 0 (w_socks w !! s)
  | KShm _ => shmFile_poll
  end.

Definition kfile_changed (f : kfile) w : option kchan * world :=
  match f with
  | KPipeReader p | KPipeWriter p =>
      let '(c, w) := at_pipe 0%nat p pipe_changed w in (Some (ChPipe p c), w)
  | KReader r => let '(c, w) := at_reader 0%nat r readerFile_changed w in (Some (ChReader r c), w)
  | KSocket s => let '(c, w) := at_socket 0%nat s sock_changed w in (Some (ChSocket s c), w)
  | KWriter _ | KNull | KShm _ => (None, w)
  end.

Definition kfile_release (f : kfile) w : world :=
  match f with
  | KPipeReader p => (at_pipe tt p (λ x, (tt, pipeReader_release x)) w).2
  | KPipeWriter p => (at_pipe tt p (λ x, (tt, pipeWriter_release x)) w).2
  | KReader r => (at_reader tt r (λ x, (tt, readerFile_release x)) w).2
  | KWriter _ | KNull => w
  | KSocket s =>
      let '(acts, w) := at_socket [] s sock_release w in
      let w := foldl (λ w a, do_action a w) w acts in
      (at_socket tt s (λ x, (tt, x <| k_n ::= notifier_notify |>)) w).2
  | KShm s =>
      let '(t, o) := shmFile_release s (w_shm w) (w_os w) in w <| w_shm := t |> <| w_os := o |>
  end.

#[export] Instance kernel_files : FileOps kfile world kchan := {
  file_read := kfile_read; file_write := kfile_write; file_poll := kfile_poll;
  file_changed := kfile_changed; file_release := kfile_release }.

(** Whether a channel is closed. *)
Definition kchan_closed (c : kchan) w : bool :=
  match c with
  | ChPipe p c => from_option (λ x, chan_closed (p_n x) c) false (w_pipes w !! p)
  | ChReader r c => from_option (λ x, chan_closed (rf_n x) c) false (w_readers w !! r)
  | ChSocket s c => from_option (λ x, chan_closed (k_n x) c) false (w_socks w !! s)
  end.

(** New objects. *)
Definition add_pipe w : nat * world :=
  (w_next w, w <| w_pipes ::= <[w_next w := newPipe]> |> <| w_next ::= S |>).
Definition add_reader w : nat * world :=
  (w_next w, w <| w_readers ::= <[w_next w := newReaderFile]> |> <| w_next ::= S |>).
Definition add_socket (s : socket) w : nat * world :=
  (w_next w, w <| w_socks ::= <[w_next w := s]> |> <| w_next ::= S |>).
Definition world_init (o : OS) (h : HS) : world :=
  World ∅ ∅ ∅ 0 (UnixTable ∅ ∅ ∅ 0) shm_init sema_init o h.
End world.

(** A host without a network, which takes all output. *)
#[export] Instance demo_io : HostIO unit := {
  io_Write _ b h := ((zlen b, false), h); net_action _ h := h;
  net_Listen _ _ h := (inr NOther, h); net_Dial _ _ h := (inr NOther, h) }.

Abbreviation kstate OS HS := (ofiles kfile (kworld OS HS)).
