(* ===== verification/Alarm.v ===== *)
(** The interval timer of a process ([alarmState] and [setAlarm] of
    [src/internal/kernel/process.go]).

    A Go timer is a number.  [al_armed] holds the timers that will go off;
    [al_fired] counts the callbacks that have started but not yet taken the
    lock, each of which ends by sending the process SIGALRM. *)
From S2P Require Import Prelude.

Record alarm := Alarm {
  al_timer : option nat;
  al_deadline : Z;
  al_interval : Z;
  al_armed : gset nat;
  al_fired : nat;
  al_next : nat;
}.
#[export] Instance eta_alarm : Eta alarm := λ r,
  {| al_timer := al_timer r; al_deadline := al_deadline r; al_interval := al_interval r;
     al_armed := al_armed r; al_fired := al_fired r; al_next := al_next r |}.

Definition new_alarm : alarm := Alarm None 0 0 ∅ 0 0.

(** [time.AfterFunc], and [Stop]. *)
Definition AfterFunc (a : alarm) : alarm :=
  a <| al_timer := Some (al_next a) |> <| al_armed ::= union {[al_next a]} |> <| al_next ::= S |>.
Definition alarm_stop (a : alarm) : alarm :=
  match al_timer a with
  | None => a
  | Some t => a <| al_armed ::= λ ts, ts ∖ {[t]} |> <| al_timer := None |>
  end.

Definition setAlarm (value interval now : Z) (a : alarm) : Z * alarm :=
  let remaining := match al_timer a with
                   | None => 0
                   | Some _ => if 0 <? al_deadline a - now then al_deadline a - now else 0
                   end in
  let a := alarm_stop a in
  if value <=? 0 then (remaining, a)
  else (remaining, AfterFunc (a <| al_interval := interval |> <| al_deadline := now + value |>)).

(** Timer [t] goes off: its callback starts. *)
Definition alarm_expire (t : nat) (a : alarm) : alarm :=
  a <| al_armed ::= λ ts, ts ∖ {[t]} |> <| al_fired ::= S |>.

(** The callback under the lock; it then sends SIGALRM. *)
Definition alarm_fire (now : Z) (a : alarm) : alarm :=
  (if (0 <? al_interval a) && bool_decide (al_timer a ≠ None)
   then AfterFunc (a <| al_deadline := now + al_interval a |>)
   else a <| al_timer := None |>) <| al_fired ::= pred |>.

Inductive alarm_step : relation alarm :=
| as_set value interval now a : alarm_step a (setAlarm value interval now a).2
| as_stop a : alarm_step a (alarm_stop a)
| as_expire t a : t ∈ al_armed a → alarm_step a (alarm_expire t a)
| as_fire now a : (0 < al_fired a)%nat → alarm_step a (alarm_fire now a).

(** No callback is caught between going off and taking the lock when the
    timer is set or stopped. *)
Definition alarm_quiet (a a' : alarm) : Prop :=
  alarm_step a a' ∧ (al_fired a = 0%nat ∨ (al_fired a' < al_fired a)%nat).

Record alarm_ok (a : alarm) : Prop := {
  ao_fresh t : t ∈ al_armed a → (t < al_next a)%nat;
  ao_idle : al_fired a = 0%nat → al_armed a = match al_timer a with Some t => {[t]} | None => ∅ end;
  ao_fired : al_fired a ≠ 0%nat → al_fired a = 1%nat ∧ al_armed a = ∅;
}.

(** What the steps do to the armed timers. *)
Lemma armed_AfterFunc a t : t ∈ al_armed (AfterFunc a) → t = al_next a ∨ t ∈ al_armed a.
Proof. unfold AfterFunc. simpl. set_solver. Qed.
Lemma armed_stop a : al_armed (alarm_stop a) ⊆ al_armed a.
Proof. unfold alarm_stop. destruct (al_timer a); simpl; set_solver. Qed.
Lemma next_stop a : al_next (alarm_stop a) = al_next a ∧ al_fired (alarm_stop a) = al_fired a.
Proof. unfold alarm_stop. by destruct (al_timer a). Qed.

Lemma alarm_fresh_step a a' : (∀ t, t ∈ al_armed a → (t < al_next a)%nat) → alarm_step a a' →
  ∀ t, t ∈ al_armed a' → (t < al_next a')%nat.
Proof.
  intros Ha. pose proof (armed_stop a) as Hst. destruct (next_stop a) as [Hn _].
  destruct 1 as [v i n a|a|t a Ht|n a Hf]; intros u Hu.
  - unfold setAlarm in *. destruct (v <=? 0); simpl in *; [rewrite Hn; auto|].
    apply armed_AfterFunc in Hu as [->|Hu]; simpl in *; [lia|]. rewrite Hn. specialize (Ha u). set_solver by lia.
  - rewrite Hn. auto.
  - simpl in *. apply Ha. set_solver.
  - unfold alarm_fire in *. destruct (_ && _); simpl in *; [|by apply Ha].
    apply elem_of_union in Hu as [->%elem_of_singleton|Hu]; [lia|]. specialize (Ha u Hu). lia.
Qed.

Lemma alarm_ok_step a a' : alarm_ok a → alarm_quiet a a' → alarm_ok a'.
Proof.
  intros Hok [Hstep Hq].
  assert (∀ t, t ∈ al_armed a' → (t < al_next a')%nat) as Hfresh
    by (apply (alarm_fresh_step a); [apply Hok|done]).
  split; [done|..]; clear Hfresh; destruct Hok as [_ Hi Hf];
    destruct Hstep as [v i n a|a|t a Ht|n a Hn]; simpl in *.
  - assert (al_fired a = 0%nat) as E by (destruct Hq as [?|Hq]; [done|];
      unfold setAlarm, alarm_stop in Hq; destruct (al_timer a), (v <=? 0); simpl in Hq; lia).
    specialize (Hi E). unfold setAlarm, alarm_stop. intros _.
    destruct (al_timer a) eqn:Et; destruct (v <=? 0); simpl; rewrite ?Et, Hi; set_solver.
  - assert (al_fired a = 0%nat) as E by (destruct Hq as [?|Hq]; [done|];
      unfold alarm_stop in Hq; destruct (al_timer a); simpl in Hq; lia).
    specialize (Hi E). unfold alarm_stop. intros _. destruct (al_timer a) eqn:Et; simpl; rewrite Hi, ?Et; set_solver.
  - done.
  - destruct (Hf ltac:(lia)) as [E Ha]. unfold alarm_fire. intros _.
    destruct (_ && _); simpl; rewrite Ha; set_solver.
  - unfold setAlarm, alarm_stop. intros E. exfalso.
    unfold setAlarm, alarm_stop in Hq.
    destruct (al_timer a), (v <=? 0); simpl in *; destruct Hq; lia.
  - unfold alarm_stop in *. intros E. exfalso. destruct (al_timer a); simpl in *; destruct Hq; lia.
  - intros _. destruct Hq as [E|Hq]; [|simpl in Hq; lia]. rewrite E. split; [done|].
    rewrite (Hi E) in *. destruct (al_timer a); set_solver.
  - destruct (Hf ltac:(lia)) as [E Ha]. unfold alarm_fire. destruct (_ && _); simpl; lia.
Qed.

(** * Properties *)

(** A process has at most one alarm coming, and disarming is final: as long as
    no callback is caught half-way by [setAlarm], there is never more than one
    timer that will go off or has gone off without having signalled, and after
    [setAlarm] with a value of zero or less, or when the process ends, there is
    none; [setAlarm] returns what was left of the timer it replaces. *)
Theorem alarm_single (a : alarm) (value interval now : Z) :
  reachable (λ a, a = new_alarm) alarm_quiet a →
  (size (al_armed a) + al_fired a ≤ 1)%nat ∧
  (al_fired a = 0%nat →
     al_armed (alarm_stop a) = ∅ ∧
     (value ≤ 0 → al_armed (setAlarm value interval now a).2 = ∅) ∧
     (0 < value → ∃ t, al_armed (setAlarm value interval now a).2 = {[t]} ∧
        al_timer (setAlarm value interval now a).2 = Some t ∧
        al_deadline (setAlarm value interval now a).2 = now + value)) ∧
  (setAlarm value interval now a).1 =
    (if bool_decide (al_timer a = None) then 0 else Z.max 0 (al_deadline a - now)).
Proof.
  intros Hr. assert (alarm_ok a) as [_ Hi Hf].
  { revert a Hr. apply reachable_inv; [|intros ? ? _; apply alarm_ok_step].
    intros ? ->. by split; simpl; intros; try set_solver. }
  split_and!.
  - destruct (decide (al_fired a = 0%nat)) as [E|E].
    + rewrite (Hi E). destruct (al_timer a); rewrite ?size_singleton, ?size_empty; lia.
    + destruct (Hf E) as [-> ->]. rewrite size_empty. lia.
  - intros E. specialize (Hi E). unfold setAlarm, alarm_stop. split_and!.
    + destruct (al_timer a) eqn:Et; simpl; rewrite Hi; set_solver.
    + intros Hv. destruct (Z.leb_spec value 0); [|lia].
      destruct (al_timer a) eqn:Et; simpl; rewrite Hi; set_solver.
    + intros Hv. destruct (Z.leb_spec value 0); [lia|]. exists (al_next a).
      destruct (al_timer a) eqn:Et; simpl; rewrite Hi; split_and!; set_solver.
  - unfold setAlarm. destruct (value <=? 0); simpl; destruct (al_timer a); simpl; zcases; lia.
Qed.

Lemma alarm_single_witness :
  let a := (setAlarm 1000 50 7 new_alarm).2 in
  (setAlarm 0 0 107 a).1 = 900 ∧ (size (al_armed a) + al_fired a ≤ 1)%nat.
Proof.
  intros a. split; [reflexivity|]. apply (alarm_single a 0 0 107).
  exists new_alarm. split; [done|]. apply rtc_once. split; [constructor|by left].
Defined.

(** A [setAlarm] that runs between a periodic timer going off and its callback
    taking the lock leaves two timers armed: the callback of the old timer sees
    the new one, arms a timer of its own and forgets the new one, which goes
    off as well; each of the two rearms itself from then on. *)
Lemma alarm_overlap_doubles :
  ∃ a, rtc alarm_step new_alarm a ∧ al_armed a = {[1%nat; 2%nat]} ∧ al_timer a = Some 2%nat ∧
    let a' := alarm_fire 60 (alarm_expire 2 (alarm_fire 60 (alarm_expire 1 a))) in
    size (al_armed a') = 2%nat ∧ al_armed (alarm_stop a') ≠ ∅.
Proof.
  exists (alarm_fire 50 (setAlarm 10 10 50 (alarm_expire 0 (setAlarm 10 10 0 new_alarm).2)).2).
  split; [|split; [by vm_compute|split; [done|split; [by vm_compute|by decided]]]].
  eapply rtc_l; [apply (as_set 10 10 0)|].
  eapply rtc_l; [apply (as_expire 0); decided|].
  eapply rtc_l; [apply (as_set 10 10 50)|].
  apply rtc_once. apply as_fire. vm_compute. lia.
Qed.
