(* ===== verification/Process.v ===== *)
(** Processes ([src/internal/kernel/process.go] and the process table of
    kernel.go): creation, [spawn], [waitpid], [kill], exit and tear-down, and
    the kernel's [Start] and [Close].

    A [*Process] is an address in [kr_heap].  A process is run by a goroutine
    that executes its guest and then [finish]: [finish_teardown] ends with the
    closing of [done], [finish_reap] is the section under the kernel's lock and
    [finish_notify] what follows it.  Other goroutines run between them. *)
From S2P Require Import Prelude Abi Notify Vmem Signals FdTable Pids Shm World Alarm.

Inductive proc_pc :=
| PRunning                       (* the guest runs *)
| PWaiting (c : nat) (pid : Z)   (* in waitpid, blocked on channel [c] *)
| PTorn                          (* [done] is closed *)
| PNotify                        (* about to notify the parent *)
| PFinished.
#[export] Instance proc_pc_eq_dec : EqDecision proc_pc.
Proof. solve_decision. Defined.

(** [pr_mem] is [Memory None 0 0] while [p.mem] is nil; [pr_children] is [None]
    once the map is nil. *)
Record proc := Proc {
  pr_pid : Z;
  pr_parent : option nat;
  pr_argv : list string;
  pr_env : list (string * string);
  pr_cwd : string;
  pr_mem : memory;
  pr_fds : fdTable;
  pr_sig : sigstate;
  pr_alarm : alarm;
  pr_exitSet : bool;
  pr_status : Z;
  pr_exited : bool;
  pr_done : bool;
  pr_children : option (gmap Z nat);
  pr_childEvts : notifier;
  pr_shmAttached : list attachment;
  pr_parentGone : bool;
  pr_pc : proc_pc;
}.
#[export] Instance eta_proc : Eta proc := λ r,
  {| pr_pid := pr_pid r; pr_parent := pr_parent r; pr_argv := pr_argv r; pr_env := pr_env r;
     pr_cwd := pr_cwd r; pr_mem := pr_mem r; pr_fds := pr_fds r; pr_sig := pr_sig r;
     pr_alarm := pr_alarm r; pr_exitSet := pr_exitSet r; pr_status := pr_status r;
     pr_exited := pr_exited r; pr_done := pr_done r; pr_children := pr_children r;
     pr_childEvts := pr_childEvts r; pr_shmAttached := pr_shmAttached r;
     pr_parentGone := pr_parentGone r; pr_pc := pr_pc r |}.

Definition newProcess (pid : Z) (parent : option nat) (argv : list string) (env : list (string * string))
    : proc :=
  Proc pid parent argv env "" (Memory None 0 0) newFDTable new_sigstate new_alarm false 0 false false
    (Some ∅) new_notifier [] false PRunning.

(** A kernel: its processes by address, the table [procs], the process ids all
    kernels share, and everything the files live in. *)
Record kernel (OS HS : Type) := Kern {
  kr_heap : gmap nat proc;
  kr_next : nat;
  kr_procs : gmap Z nat;
  kr_pids : pidtab;
  kr_files : kstate OS HS;
}.
Arguments Kern {OS HS}. Arguments kr_heap {OS HS}. Arguments kr_next {OS HS}.
Arguments kr_procs {OS HS}. Arguments kr_pids {OS HS}. Arguments kr_files {OS HS}.
#[export] Instance eta_kern OS HS : Eta (kernel OS HS) := λ r,
  {| kr_heap := kr_heap r; kr_next := kr_next r; kr_procs := kr_procs r; kr_pids := kr_pids r;
     kr_files := kr_files r |}.

Section process.
Context {OS HS : Type} `{HostMMU OS} `{HostIO HS}.
(** The Go process's host pid, and the number of this kernel. *)
Context (getpid : Z) (kid : nat).
#[local] Abbreviation kern := (kernel OS HS).
Implicit Types (k : kern) (q c : nat).

Definition proc_update (q : nat) (f : proc → proc) k : kern := k <| kr_heap ::= alter f q |>.
Definition k_os k : OS := w_os (o_files (kr_files k)).

(** *** The process table *)
Definition k_newProcess (parent : option nat) (argv : list string) (env : list (string * string)) k
    : option nat * kern :=
  let '(pid, t) := allocPid getpid kid (kr_pids k) in
  let k := k <| kr_pids := t |> in
  if pid =? 0 then (None, k)
  else
    let c := kr_next k in
    (Some c, k <| kr_heap ::= <[c := newProcess pid parent argv env]> |> <| kr_next ::= S |>
               <| kr_procs ::= <[pid := c]> |>).

Definition k_lookup (pid : Z) k : option nat := kr_procs k !! pid.

Definition forgetLocked (pid : Z) k : kern :=
  match kr_procs k !! pid with
  | None => k
  | Some _ => k <| kr_procs ::= delete pid |> <| kr_pids ::= releasePid pid |>
  end.

(** *** Signals *)
Definition proc_Signal (sig : Z) (q : nat) k : kern :=
  match kr_heap k !! q with
  | None => k
  | Some p =>
      let '(sg, o) := Signal (pr_mem p) sig (pr_sig p) (k_os k) in
      proc_update q (λ p, p <| pr_sig := sg |>) k
        <| kr_files ::= λ s, s <| o_files ::= λ w, w <| w_os := o |> |> |>
  end.

Definition proc_kill (syscall_Kill : Z → Z → Z) (host_EPERM : Z) (q : nat) (pid sig : Z) k : Z * kern :=
  let pid := if pid <? 0 then i32 (- pid) else pid in
  let pid := if pid =? 0 then from_option pr_pid 0 (kr_heap k !! q) else pid in
  if (sig <? 0) || (NSIG <=? sig) then (- EINVAL, k)
  else match k_lookup pid k with
       | None => (killForeign getpid syscall_Kill host_EPERM pid sig (kr_pids k), k)
       | Some target => (0, if sig =? 0 then k else proc_Signal sig target k)
       end.

(** *** Starting processes *)

(** [Start]: standard input, output and error are descriptors 0 to 2. *)
Definition stdio_fds (s : kstate OS HS) : fdTable * kstate OS HS :=
  let '(r, w) := add_reader (o_files s) in
  let s := s <| o_files := w |> in
  let '(p0, s) := newOpenFile (KReader r) 0 s in
  let '(t, s) := install 0 p0 false newFDTable s in
  let '(p1, s) := newOpenFile (KWriter 1) 0 s in
  let '(t, s) := install 1 p1 false t s in
  let '(p2, s) := newOpenFile (KWriter 2) 0 s in
  install 2 p2 false t s.

Definition k_Start (argv : list string) (env : list (string * string)) (cwd : string) k : option nat * kern :=
  match k_newProcess None argv env k with
  | (None, k) => (None, k)
  | (Some c, k) =>
      let '(t, s) := stdio_fds (kr_files k) in
      (Some c, proc_update c (λ p, p <| pr_cwd := cwd |> <| pr_fds := t |>) (k <| kr_files := s |>))
  end.

(** [spawn]; [None] is a Go panic (a store into a nil map). *)
Definition spawn (q : nat) (argv : list string) (env : list (string * string)) (cwd : string) k
    : option (Z * kern) :=
  match kr_heap k !! q with
  | None => None
  | Some p =>
      match k_newProcess (Some q) argv env k with
      | (None, k) => Some (- EAGAIN, k)
      | (Some c, k) =>
          let '(t, s) := cloneForExec (pr_fds p) (kr_files k) in
          let k := proc_update c (λ p, p <| pr_cwd := cwd |> <| pr_fds := t |>) (k <| kr_files := s |>) in
          match kr_heap k !! c, pr_children p with
          | Some child, Some m =>
              Some (pr_pid child,
                    proc_update q (λ p, p <| pr_children := Some (<[pr_pid child := c]> m) |>) k)
          | _, _ => None
          end
      end
  end.

(** *** Waiting for children *)
Inductive wait_result := WReaped (pid status : Z) | WNoChild | WNone | WBlock.

(** The loop over the children, in the order [l] the map iteration takes:
    whether one matched, and the first matching one that has exited. *)
Fixpoint wait_scan (pid : Z) (heap : gmap nat proc) (l : list (Z * nat)) : bool * option (Z * nat) :=
  match l with
  | [] => (false, None)
  | (cpid, c) :: l =>
      if negb (pid =? -1) && negb (cpid =? pid) then wait_scan pid heap l
      else if from_option pr_done false (heap !! c) then (true, Some (cpid, c))
      else (true, (wait_scan pid heap l).2)
  end.

(** One round of [waitpid]: the channel it took, and what it found. *)
Definition waitpid_round (order : gmap Z nat → list (Z * nat)) (q : nat) (pid options : Z) k
    : nat * wait_result * kern :=
  match kr_heap k !! q with
  | None => (0%nat, WNoChild, k)
  | Some p =>
      let '(ch, n) := notifier_wait (pr_childEvts p) in
      let k := proc_update q (λ p, p <| pr_childEvts := n |>) k in
      let m := default ∅ (pr_children p) in
      match wait_scan pid (kr_heap k) (order m) with
      | (_, Some (cpid, c)) =>
          let k := proc_update q (λ p, p <| pr_children := Some (delete cpid m) |>) k in
          let k := forgetLocked (from_option pr_pid 0 (kr_heap k !! c)) k in
          (ch, WReaped cpid (from_option pr_status 0 (kr_heap k !! c)), k)
      | (false, None) => (ch, WNoChild, k)
      | (true, None) => (ch, if negb (Z.land options WNOHANG =? 0) then WNone else WBlock, k)
      end
  end.

(** [waitpid]: the values pid, status and errno.  Each element of the schedule
    is what happens while the call is blocked, and how [block] ends. *)
Fixpoint waitpid (order : gmap Z nat → list (Z * nat)) (q : nat) (pid options : Z)
    (sched : list ((kern → kern) * wakeReason)) k : option (Z * Z * Z * kern) :=
  match waitpid_round order q pid options k with
  | (_, WReaped cpid status, k) => Some (cpid, status, 0, k)
  | (_, WNoChild, k) => Some (0, 0, - ECHILD, k)
  | (_, WNone, k) => Some (0, 0, 0, k)
  | (_, WBlock, k) =>
      match sched with
      | [] => None
      | (env, r) :: sched =>
          match r with
          | interrupted | killed => Some (0, 0, - EINTR, env k)
          | _ => waitpid order q pid options sched (env k)
          end
      end
  end.

(** *** The end of a process *)
Definition proc_exit (status : Z) (p : proc) : unwind * proc :=
  (errExit, if pr_exitSet p then p else p <| pr_exitSet := true |> <| pr_status := status |>).

(** How the guest's run ended: it could not be started, its [run] failed (or
    was unwound), or it returned. *)
Inductive guest_end := GNoStart | GError | GReturned (ok : bool).

(** The wait status [execute] returns. *)
Definition execute_status (e : guest_end) (p : proc) : Z :=
  match e with
  | GNoStart => Z.shiftl 127 8
  | GError | GReturned _ =>
      if pr_exitSet p then pr_status p
      else if sg_killed (pr_sig p) then SIGKILL
      else match e with
           | GReturned true => 0
           | GReturned false => Z.shiftl 1 8
           | _ => SIGABRT
           end
  end.

(** [finish] up to the closing of [done]. *)
Definition finish_teardown (status : Z) (q : nat) k : kern :=
  match kr_heap k !! q with
  | None => k
  | Some p =>
      let '(t, s) := fd_closeAll (pr_fds p) (kr_files k) in
      let w := o_files s in
      let '(sh, o) := shm_detachAll (pr_shmAttached p) (w_shm w) (w_os w) in
      proc_update q (λ p, p
          <| pr_sig ::= λ sg, signal_cancel (stopSignals sg) |>
          <| pr_alarm ::= alarm_stop |>
          <| pr_fds := t |> <| pr_shmAttached := [] |>
          <| pr_status := status |> <| pr_exited := true |> <| pr_done := true |> <| pr_pc := PTorn |>)
        (k <| kr_files := s <| o_files := w <| w_shm := sh |> <| w_os := o |> |> |>)
  end.

(** The loop over the children: each loses its parent, and the pid of one that
    has exited is given up. *)
Definition orphan_child (e : Z * nat) k : kern :=
  let k := proc_update e.2 (λ p, p <| pr_parentGone := true |>) k in
  if from_option pr_done false (kr_heap k !! e.2) then forgetLocked e.1 k else k.

Definition is_orphan (p : proc) : bool := bool_decide (pr_parent p = None) || pr_parentGone p.

Definition finish_reap (q : nat) k : kern :=
  match kr_heap k !! q with
  | None => k
  | Some p =>
      let k := foldr orphan_child k (map_to_list (default ∅ (pr_children p))) in
      let orphan := is_orphan p in
      let k := if orphan then forgetLocked (pr_pid p) k else k in
      proc_update q (λ p, p <| pr_children := None |>
        <| pr_pc := if orphan then PFinished else PNotify |>) k
  end.

Definition finish_notify (q : nat) k : kern :=
  match kr_heap k !! q ≫= pr_parent with
  | None => k
  | Some r =>
      let k := proc_update r (λ p, p <| pr_childEvts ::= notifier_notify |>) k in
      let k := proc_Signal SIGCHLD r k in
      proc_update q (λ p, p <| pr_pc := PFinished |>) k
  end.

(** *** [Close]: the processes there are are killed, waited for, and what is
    left of shared memory is unmapped. *)
Definition k_Close_kill k : list nat * kern :=
  let running := (map_to_list (kr_procs k)).*2 in
  (running, foldl (λ k q, proc_Signal SIGKILL q k) k running).
Definition k_Close_wait (running : list nat) k : bool :=
  forallb (λ q, from_option pr_done false (kr_heap k !! q)) running.
Definition k_Close_free k : kern :=
  k <| kr_files ::= λ s, s <| o_files ::= λ w,
    let '(sh, o) := shm_closeAll (w_shm w) (w_os w) in w <| w_shm := sh |> <| w_os := o |> |> |>.

(** [New]. *)
Definition k_New (t : pidtab) (o : OS) (h : HS) : kern :=
  Kern ∅ 0 ∅ t (OFiles ∅ 0 (world_init o h)).
End process.
