(* ===== verification/Lifecycle.v ===== *)
(** The life of a process: the kernel of [Process.v] as a transition system,
    and what holds of its process table at every point: no pid leaks, a
    running process is the one its pid names, an exited child can be waited for
    until its parent is gone, and a parent blocked in [waitpid] is woken. *)
From S2P Require Import Prelude Abi Notify Vmem Signals FdTable Pids Shm Socket World Alarm Process.

(** What the process table is about in a process. *)
Record view := View {
  v_pid : Z; v_parent : option nat; v_done : bool; v_kids : option (gmap Z nat);
  v_evts : notifier; v_gone : bool; v_pc : proc_pc }.
#[export] Instance eta_view : Eta view := λ r,
  {| v_pid := v_pid r; v_parent := v_parent r; v_done := v_done r; v_kids := v_kids r;
     v_evts := v_evts r; v_gone := v_gone r; v_pc := v_pc r |}.
Definition pview (p : proc) : view :=
  View (pr_pid p) (pr_parent p) (pr_done p) (pr_children p) (pr_childEvts p) (pr_parentGone p) (pr_pc p).
Definition v_orphan (v : view) : bool := bool_decide (v_parent v = None) || v_gone v.

(** The points of a process's life after its [done] was closed. *)
Definition pc_done (pc : proc_pc) : bool :=
  match pc with PRunning | PWaiting _ _ => false | _ => true end.

(** A child that [waitpid pid] would take. *)
Definition matches (pid cpid : Z) : Prop := pid = -1 ∨ cpid = pid.

Section lifecycle.
Context {OS HS : Type} `{HostMMU OS} `{HostIO HS}.
Context (getpid : Z) (kid : nat).
#[local] Abbreviation kern := (kernel OS HS).
Implicit Types (k : kern) (q c : nat).

Definition kv k q : option view := pview <$> kr_heap k !! q.
Definition kown k : gmap Z nat := owners (kr_pids k).

(** ** Steps

    [order] stands for the iteration order of a Go map, any order. *)
Definition own_work (p p' : proc) : Prop := pview p' = pview p.

Inductive kstep : relation kern :=
| k_start argv env cwd k :
    kstep k (k_Start getpid kid argv env cwd k).2
| k_spawn q p argv env cwd k r k' :
    kr_heap k !! q = Some p → pr_pc p = PRunning →
    spawn getpid kid q argv env cwd k = Some (r, k') → kstep k k'
| k_work q p p' k :                        (* the other host calls of a guest *)
    kr_heap k !! q = Some p → own_work p p' → kstep k (proc_update q (λ _, p') k)
| k_files_step s k :                       (* what they, and the pumps, do to the files *)
    kstep k (k <| kr_files := s |>)
| k_signal sig q k : kstep k (proc_Signal sig q k)
| k_wait order q p pid options k ch r k' :
    (∀ m, order m ≡ₚ map_to_list m) →
    kr_heap k !! q = Some p → pr_pc p = PRunning →
    waitpid_round order q pid options k = (ch, r, k') →
    kstep k (match r with WBlock => proc_update q (λ p, p <| pr_pc := PWaiting ch pid |>) k' | _ => k' end)
| k_wake q p ch pid k :                    (* for whatever reason [block] ends *)
    kr_heap k !! q = Some p → pr_pc p = PWaiting ch pid →
    kstep k (proc_update q (λ p, p <| pr_pc := PRunning |>) k)
| k_finish e q p k :
    kr_heap k !! q = Some p → pr_pc p = PRunning →
    kstep k (finish_teardown (execute_status e p) q k)
| k_reap q p k : kr_heap k !! q = Some p → pr_pc p = PTorn → kstep k (finish_reap q k)
| k_notify q p k : kr_heap k !! q = Some p → pr_pc p = PNotify → kstep k (finish_notify q k)
| k_foreign t k :                          (* the other kernels' processes *)
    pids_ok t → (∀ pid, owners t !! pid = Some kid ↔ owners (kr_pids k) !! pid = Some kid) →
    kstep k (k <| kr_pids := t |>).

(** No pid is allocated again while a process that had it has closed [done] but
    not yet been through its last section under the kernel's lock.  (The
    allocator goes through 2046 other pids before it comes back to one.) *)
Definition kquiet k k' : Prop :=
  kstep k k' ∧
  ∀ c v, kv k c = None → kv k' c = Some v →
    ∀ q u, kv k q = Some u → v_pc u = PTorn → v_pid u ≠ v_pid v.

Definition kinit k : Prop :=
  ∃ t o h, k = k_New t o h ∧ pids_ok t ∧ ∀ pid, owners t !! pid ≠ Some kid.

(** ** The invariant *)
Record tree_ok k : Prop := {
  to_pids : pids_ok (kr_pids k);
  to_dom c : is_Some (kv k c) → (c < kr_next k)%nat;
  to_parent c v q : kv k c = Some v → v_parent v = Some q → (q < c)%nat ∧ is_Some (kv k q);
  to_table pid c : kr_procs k !! pid = Some c → ∃ v, kv k c = Some v ∧ v_pid v = pid;
  to_pos pid c : kr_procs k !! pid = Some c → 0 < pid;
  to_owner pid : kown k !! pid = Some kid ↔ is_Some (kr_procs k !! pid);
  to_done c v : kv k c = Some v → v_done v = pc_done (v_pc v);
  to_kids c v : kv k c = Some v → v_pc v = PRunning ∨ (∃ ch p, v_pc v = PWaiting ch p) ∨ v_pc v = PTorn →
    is_Some (v_kids v);
  to_nokids c v : kv k c = Some v → v_pc v = PNotify ∨ v_pc v = PFinished → v_kids v = None;
  to_live c v : kv k c = Some v → v_done v = false → kr_procs k !! v_pid v = Some c;
  to_torn c v c' : kv k c = Some v → v_pc v = PTorn → kr_procs k !! v_pid v = Some c' → c' = c;
  to_child q u m pid c : kv k q = Some u → v_kids u = Some m → m !! pid = Some c →
    kr_procs k !! pid = Some c ∧
    ∃ v, kv k c = Some v ∧ v_pid v = pid ∧ v_parent v = Some q ∧ v_gone v = false;
  to_zombie pid c v : kr_procs k !! pid = Some c → kv k c = Some v → v_orphan v = false →
    ∃ q u m, v_parent v = Some q ∧ kv k q = Some u ∧ v_kids u = Some m ∧ m !! pid = Some c;
  to_gone pid c v : kr_procs k !! pid = Some c → kv k c = Some v →
    v_pc v = PNotify ∨ v_pc v = PFinished → v_orphan v = false;
  to_notify c v : kv k c = Some v → v_pc v = PNotify → v_parent v ≠ None;
  to_wait q u ch p : kv k q = Some u → v_pc u = PWaiting ch p →
    chan_known (v_evts u) ch ∧
    ∀ m pid c v, v_kids u = Some m → m !! pid = Some c → matches p pid →
      kv k c = Some v → v_done v = true →
      chan_closed (v_evts u) ch = true ∨ v_pc v = PTorn ∨ v_pc v = PNotify;
}.

(** ** What the operations do to the views *)
Lemma kv_update q f g k r : (∀ p, pview (f p) = g (pview p)) →
  kv (proc_update q f k) r = if decide (r = q) then g <$> kv k r else kv k r.
Proof.
  intros Hf. unfold kv, proc_update. simpl. rewrite lookup_alter. case_decide as E.
  - subst q. rewrite decide_True by done. destruct (kr_heap k !! r); simpl; [by rewrite Hf|done].
  - by rewrite decide_False by done.
Qed.

Lemma kv_update_same q f k r : (∀ p, pview (f p) = pview p) → kv (proc_update q f k) r = kv k r.
Proof. intros Hf. rewrite (kv_update q f id) by done. case_decide; [|done]. by destruct (kv k r). Qed.

(** Two kernels alike in everything the process table is about. *)
Definition alike k k' : Prop :=
  (∀ q, kv k' q = kv k q) ∧ kr_next k' = kr_next k ∧ kr_procs k' = kr_procs k ∧ kr_pids k' = kr_pids k.

Lemma alike_update q f k : (∀ p, pview (f p) = pview p) → alike k (proc_update q f k).
Proof. intros Hf. split; [|done]. intros r. by apply kv_update_same. Qed.
Lemma alike_refl k : alike k k.
Proof. done. Qed.
Lemma alike_trans k1 k2 k3 : alike k1 k2 → alike k2 k3 → alike k1 k3.
Proof.
  intros (A1 & A2 & A3 & A4) (B1 & B2 & B3 & B4). split; [intros q; by rewrite B1|].
  by rewrite B2, B3, B4.
Qed.
Lemma alike_files k s : alike k (k <| kr_files := s |>).
Proof. done. Qed.

Lemma alike_Signal sig q k : alike k (proc_Signal sig q k).
Proof.
  unfold proc_Signal. destruct (kr_heap k !! q) as [p|]; [|done].
  destruct (Signal _ _ _ _) as [sg o]. eapply alike_trans; [apply alike_files|]. by apply alike_update.
Qed.

Lemma tree_alike k k' : alike k k' → tree_ok k → tree_ok k'.
Proof.
  intros (Hv & Hn & Ht & Hp) []. unfold kown in *.
  split; unfold kown; intros; rewrite ?Hv, ?Hn, ?Ht, ?Hp in *; eauto.
  - destruct (to_zombie0 pid c v) as (q & u & m & ?); eauto. exists q, u, m. by rewrite Hv.
  - destruct (to_wait0 q u ch p) as [Hk Hw]; eauto. split; [done|]. intros. rewrite Hv in *. eauto.
Qed.

Lemma kv_forget pid k q : kv (forgetLocked pid k) q = kv k q.
Proof. unfold forgetLocked. by destruct (kr_procs k !! pid). Qed.

Lemma forget_next pid k : kr_next (forgetLocked pid k) = kr_next k.
Proof. unfold forgetLocked. by destruct (kr_procs k !! pid). Qed.

Lemma forget_procs pid k p : kr_procs (forgetLocked pid k) !! p = if decide (p = pid) then None else kr_procs k !! p.
Proof.
  unfold forgetLocked. destruct (kr_procs k !! pid) eqn:E; simpl.
  - case_decide as Hp; [subst; apply lookup_delete_eq|by apply lookup_delete_ne].
  - by case_decide; subst.
Qed.

Lemma forget_own pid k p : kown (forgetLocked pid k) !! p =
  if decide (p = pid ∧ is_Some (kr_procs k !! pid)) then None else kown k !! p.
Proof.
  unfold forgetLocked, kown. destruct (kr_procs k !! pid) eqn:E; simpl.
  - rewrite owners_release. case_decide as Hp; [destruct Hp as [-> _]; apply lookup_delete_eq|].
    apply lookup_delete_ne. intros ->. apply Hp. split; [done|by eexists].
  - rewrite decide_False; [done|]. by intros [_ []%is_Some_None].
Qed.

Lemma forget_pids pid k : pids_ok (kr_pids k) → pids_ok (kr_pids (forgetLocked pid k)).
Proof. intros Hk. unfold forgetLocked. destruct (kr_procs k !! pid); [by apply releasePid_ok|done]. Qed.

(** A new process. *)
Lemma k_newProcess_spec parent argv env k r k' :
  0 ≤ getpid → pids_ok (kr_pids k) → k_newProcess getpid kid parent argv env k = (r, k') →
  pids_ok (kr_pids k') ∧
  match r with
  | None => alike (k <| kr_pids := kr_pids k' |>) k' ∧ kown k' = kown k
  | Some c => ∃ pid,
      0 < pid ∧ c = kr_next k ∧ kown k !! pid = None ∧ kown k' = <[pid := kid]> (kown k) ∧
      kr_next k' = S c ∧ kr_procs k' = <[pid := c]> (kr_procs k) ∧
      kr_heap k' = <[c := newProcess pid parent argv env]> (kr_heap k) ∧ kr_files k' = kr_files k
  end.
Proof.
  intros Hg Hp. unfold k_newProcess. destruct (allocPid getpid kid (kr_pids k)) as [pid t] eqn:Ha.
  destruct (allocPid_spec _ _ _ _ _ Hg Hp Ha) as [Ht Hcase].
  destruct (pidBase_spec getpid Hg) as [_ Hb].
  destruct Hcase as [(d & Hd & Epid & Hfree & Ho)|(-> & Ho & _)].
  - unfold in_range in Hd. destruct (Z.eqb_spec pid 0); [lia|]. intros [= <- <-]. split; [done|].
    exists pid. unfold kown. simpl. rewrite Ho. split_and!; try done. lia.
  - simpl. intros [= <- <-]. split; [done|]. split; [done|]. unfold kown. simpl. by rewrite Ho.
Qed.

(** ** Each step keeps the invariant *)

(** The parts of a view other than the children. *)
Definition same_but_kids (u v : view) : Prop :=
  v_pid v = v_pid u ∧ v_parent v = v_parent u ∧ v_done v = v_done u ∧ v_evts v = v_evts u ∧
  v_gone v = v_gone u ∧ v_pc v = v_pc u.
Definition new_view (pid : Z) (parent : option nat) : view :=
  View pid parent false (Some ∅) new_notifier false PRunning.

Lemma same_orphan u v : same_but_kids u v → v_orphan v = v_orphan u.
Proof. intros (_ & E1 & _ & _ & E2 & _). unfold v_orphan. by rewrite E1, E2. Qed.

Section new.
Context (k k' : kern) (pid : Z) (parent : option nat).
Let c := kr_next k.
Hypotheses (Hok : tree_ok k) (Hp : pids_ok (kr_pids k')) (Hpos : 0 < pid) (Hfree : kown k !! pid = None)
  (Hown : kown k' = <[pid := kid]> (kown k)) (Hnext : kr_next k' = S c)
  (Hprocs : kr_procs k' = <[pid := c]> (kr_procs k))
  (Hpar : ∀ q, parent = Some q → ∃ u, kv k q = Some u ∧ v_pc u = PRunning)
  (Hquiet : ∀ q u, kv k q = Some u → v_pc u = PTorn → v_pid u ≠ pid)
  (Hv : ∀ r, kv k' r = if decide (r = c) then Some (new_view pid parent)
    else (λ u, if decide (parent = Some r) then u <| v_kids ::= fmap <[pid := c]> |> else u) <$> kv k r).

#[local] Lemma new_pid : kr_procs k !! pid = None.
Proof. apply eq_None_not_Some. intros Hs. apply (to_owner k Hok) in Hs. congruence. Qed.
#[local] Lemma new_addr : kv k c = None.
Proof. apply eq_None_not_Some. intros Hs. apply (to_dom k Hok) in Hs. unfold c in Hs. lia. Qed.
#[local] Lemma new_new : kv k' c = Some (new_view pid parent).
Proof. by rewrite Hv, decide_True. Qed.

(** The processes after the step, and those before it. *)
#[local] Lemma new_old r v : kv k' r = Some v →
  r = c ∧ v = new_view pid parent ∨
  r ≠ c ∧ ∃ u, kv k r = Some u ∧ same_but_kids u v ∧
    (v_kids v = v_kids u ∨ parent = Some r ∧ v_pc u = PRunning ∧ v_kids v = <[pid := c]> <$> v_kids u).
Proof.
  rewrite Hv. case_decide as Er; [intros [= <-]; by left|].
  destruct (kv k r) as [u|] eqn:Eu; [|done]. simpl. intros [= <-]. right. split; [done|]. exists u.
  case_decide as Epar; simpl; (split_and!; [done|done|]); [|by left].
  right. split_and!; [done| |done]. destruct (Hpar _ Epar) as (u' & ? & ?). congruence.
Qed.

#[local] Lemma new_keep r u : kv k r = Some u →
  r ≠ c ∧ ∃ v, kv k' r = Some v ∧ same_but_kids u v ∧
    (parent = Some r → v_kids v = <[pid := c]> <$> v_kids u) ∧ (parent ≠ Some r → v_kids v = v_kids u).
Proof.
  intros Hu. assert (r ≠ c) as Hrc by (intros ->; rewrite new_addr in Hu; done). split; [done|].
  rewrite Hv, decide_False, Hu by done. simpl. case_decide; eexists; by split_and!.
Qed.

#[local] Lemma new_child_old q w m0 p r : kv k q = Some w → v_kids w = Some m0 → m0 !! p = Some r →
  p ≠ pid ∧ kr_procs k !! p = Some r ∧
  ∃ v, kv k' r = Some v ∧ v_pid v = p ∧ v_parent v = Some q ∧ v_gone v = false.
Proof.
  intros Hw Hm0 Hr0. destruct (to_child k Hok q w m0 p r Hw Hm0 Hr0) as (Hin & v & Hv' & E3 & E4 & E5).
  pose proof new_pid. split_and!; [congruence|done|].
  destruct (new_keep r v Hv') as (_ & v' & ? & (F1 & F2 & _ & _ & F3 & _) & _).
  exists v'. by rewrite F1, F2, F3.
Qed.

#[local] Lemma new_child q u m p r : kv k' q = Some u → v_kids u = Some m → m !! p = Some r →
  kr_procs k' !! p = Some r ∧ ∃ v, kv k' r = Some v ∧ v_pid v = p ∧ v_parent v = Some q ∧ v_gone v = false.
Proof.
  intros Hq Hm Hr. rewrite Hprocs.
  destruct (new_old q u Hq) as [[-> ->]|(_ & w & Hw & (_ & _ & _ & _ & _ & E2) & Hk)].
  { simpl in Hm. simplify_eq. }
  destruct Hk as [E|(Epar & Hpc & E)]; rewrite E in Hm.
  - destruct (new_child_old q w m p r Hw Hm Hr) as (Hne & Hl & Hx). by rewrite lookup_insert_ne by done.
  - destruct (v_kids w) as [m0|] eqn:Em0; [|done]. simpl in Hm. injection Hm as <-.
    apply lookup_insert_Some in Hr as [[<- <-]|[Hne Hr]].
    + split; [apply lookup_insert_eq|]. exists (new_view pid parent). by rewrite new_new.
    + destruct (new_child_old q w m0 p r Hw Em0 Hr) as (_ & Hl & Hx). by rewrite lookup_insert_ne by done.
Qed.

#[local] Lemma new_zombie p r v : kr_procs k' !! p = Some r → kv k' r = Some v → v_orphan v = false →
  ∃ q u m, v_parent v = Some q ∧ kv k' q = Some u ∧ v_kids u = Some m ∧ m !! p = Some r.
Proof.
  rewrite Hprocs. intros [[<- <-]|[Hne Hr]]%lookup_insert_Some Hv' Ho.
  - rewrite new_new in Hv'. injection Hv' as <-. unfold v_orphan in Ho. simpl in Ho.
    rewrite orb_false_r in Ho. apply bool_decide_eq_false in Ho. apply not_eq_None_Some in Ho as [q Epar].
    destruct (Hpar q Epar) as (u & Hu & Hpc). destruct (to_kids k Hok q u Hu ltac:(by left)) as [m Hm].
    destruct (new_keep q u Hu) as (_ & v & Hvq & _ & Hyes & _).
    exists q, v, (<[pid := c]> m). rewrite Hyes, Hm by done. split_and!; try done. apply lookup_insert_eq.
  - destruct (new_old r v Hv') as [[-> ->]|(_ & u & Hu & Hsame & _)].
    { destruct (to_table k Hok _ _ Hr) as (? & Hx & _). rewrite new_addr in Hx. done. }
    rewrite (same_orphan _ _ Hsame) in Ho. destruct Hsame as (_ & -> & _).
    destruct (to_zombie k Hok p r u Hr Hu Ho) as (q & w & m & Ep & Hw & Hm & Hin).
    destruct (new_keep q w Hw) as (_ & w' & Hw' & _ & Hyes & Hno).
    destruct (decide (parent = Some q)) as [E|E].
    + exists q, w', (<[pid := c]> m). rewrite (Hyes E), Hm. split_and!; try done. by rewrite lookup_insert_ne.
    + exists q, w', m. by rewrite (Hno E), Hm.
Qed.

#[local] Lemma new_wait q u ch p : kv k' q = Some u → v_pc u = PWaiting ch p →
  chan_known (v_evts u) ch ∧
  ∀ m pid c v, v_kids u = Some m → m !! pid = Some c → matches p pid →
    kv k' c = Some v → v_done v = true → chan_closed (v_evts u) ch = true ∨ v_pc v = PTorn ∨ v_pc v = PNotify.
Proof.
  intros Hq Hpc. destruct (new_old q u Hq) as [[-> ->]|(_ & w & Hw & (_ & _ & _ & E1 & _ & E2) & Hk)]; [done|].
  rewrite E2 in Hpc. rewrite E1. destruct (to_wait k Hok q w ch p Hw Hpc) as [Hkn Hall]. split; [done|].
  intros m pid' r v Hm Hr Hmatch Hr' Hd. destruct Hk as [E|(_ & Hpc' & _)]; [|congruence].
  rewrite E in Hm. destruct (new_old r v Hr') as [[-> ->]|(_ & x & Hx & (_ & _ & F1 & _ & _ & F2) & _)]; [done|].
  rewrite F2. rewrite F1 in Hd. by apply (Hall m pid' r x).
Qed.

(** What is said of one process only. *)
#[local] Lemma new_one (P : view → Prop) :
  (∀ u v, same_but_kids u v → P u → P v) → P (new_view pid parent) →
  (∀ r u, kv k r = Some u → P u) → ∀ r v, kv k' r = Some v → P v.
Proof.
  intros Hsame Hnew Hall r v Hr. destruct (new_old r v Hr) as [[_ ->]|(_ & u & Hu & Hs & _)]; [done|].
  apply (Hsame u); [done|]. by apply (Hall r).
Qed.

#[local] Lemma new_kids r v : kv k' r = Some v →
  (v_pc v = PRunning ∨ (∃ ch p, v_pc v = PWaiting ch p) ∨ v_pc v = PTorn → is_Some (v_kids v)) ∧
  (v_pc v = PNotify ∨ v_pc v = PFinished → v_kids v = None).
Proof.
  intros Hr. destruct (new_old r v Hr) as [[-> ->]|(_ & u & Hu & (_ & _ & _ & _ & _ & E) & Hk)].
  { split; [by eexists|by intros [|]]. }
  rewrite E. split; intros Hpc.
  - destruct (to_kids k Hok r u Hu Hpc) as [m Hm]. destruct Hk as [-> |(_ & _ & ->)]; rewrite Hm; by eexists.
  - pose proof (to_nokids k Hok r u Hu Hpc) as Hm. destruct Hk as [-> |(_ & _ & ->)]; by rewrite Hm.
Qed.

Lemma tree_new : tree_ok k'.
Proof.
  pose proof new_pid as Hpid. pose proof new_addr as Hc. split; rewrite ?Hnext.
  - done.
  - intros r [v Hr]. destruct (new_old r v Hr) as [[-> _]|(Hrc & u & Hu & _)]; [lia|].
    assert (is_Some (kv k r)) as ?%(to_dom k Hok) by done. unfold c. lia.
  - intros r v q Hr Hq. destruct (new_old r v Hr) as [[-> ->]|(Hrc & u & Hu & (_ & E & _) & _)].
    + simpl in Hq. destruct (Hpar q Hq) as (u & Hu & _). destruct (new_keep q u Hu) as (_ & v' & Hv' & _).
      split; [apply (to_dom k Hok); by eexists|by eexists].
    + rewrite E in Hq. destruct (to_parent k Hok r u q Hu Hq) as [Hlt [w Hw]].
      split; [done|]. destruct (new_keep q w Hw) as (_ & w' & ? & _). by eexists.
  - intros p r. rewrite Hprocs. intros [[<- <-]|[Hne Hr]]%lookup_insert_Some.
    + exists (new_view pid parent). by rewrite new_new.
    + destruct (to_table k Hok p r Hr) as (u & Hu & Epid). destruct (new_keep r u Hu) as (_ & v & Hv' & (E & _) & _).
      exists v. split; [done|congruence].
  - intros p r. rewrite Hprocs. intros [[<- _]|[_ Hr]]%lookup_insert_Some; [done|]. by apply (to_pos k Hok p r).
  - intros p. rewrite Hown, Hprocs. destruct (decide (p = pid)) as [->|Hne].
    + rewrite !lookup_insert_eq. split; intros _; [by eexists|done].
    + rewrite !lookup_insert_ne by done. apply (to_owner k Hok).
  - apply (new_one (λ v, v_done v = pc_done (v_pc v))); [|done|apply (to_done k Hok)].
    intros u v (_ & _ & -> & _ & _ & ->). done.
  - intros r v Hr. apply (new_kids r v Hr).
  - intros r v Hr. apply (new_kids r v Hr).
  - intros r v Hr Hd. rewrite Hprocs.
    destruct (new_old r v Hr) as [[-> ->]|(_ & u & Hu & (E1 & _ & E2 & _) & _)]; [apply lookup_insert_eq|].
    rewrite E1. rewrite E2 in Hd. pose proof (to_live k Hok r u Hu Hd). rewrite lookup_insert_ne; [done|]. congruence.
  - intros r v r' Hr Hpc. rewrite Hprocs.
    destruct (new_old r v Hr) as [[-> ->]|(_ & u & Hu & (E1 & _ & _ & _ & _ & E2) & _)]; [done|].
    rewrite E1. rewrite E2 in Hpc. rewrite lookup_insert_ne; [by apply (to_torn k Hok r u)|].
    intros E. by apply (Hquiet r u Hu Hpc).
  - apply new_child.
  - apply new_zombie.
  - intros p r v. rewrite Hprocs. intros [[<- <-]|[Hne Hr]]%lookup_insert_Some Hv' Hpc.
    + rewrite new_new in Hv'. injection Hv' as <-. by destruct Hpc.
    + destruct (new_old r v Hv') as [[-> ->]|(_ & u & Hu & Hsame & _)]; [by destruct Hpc|].
      rewrite (same_orphan _ _ Hsame). destruct Hsame as (_ & _ & _ & _ & _ & E). rewrite E in Hpc.
      by apply (to_gone k Hok p r u).
  - apply (new_one (λ v, v_pc v = PNotify → v_parent v ≠ None)); [|done|apply (to_notify k Hok)].
    intros u v (_ & -> & _ & _ & _ & ->). done.
  - apply new_wait.
Qed.
End new.

(** A child is not its parent. *)
Lemma child_not_self k q u m pid c : tree_ok k → kv k q = Some u → v_kids u = Some m →
  m !! pid = Some c → c ≠ q.
Proof.
  intros Hk Hu Hm Hc ->. destruct (to_child k Hk q u m pid q Hu Hm Hc) as (_ & v & Hr & _ & Hp & _).
  destruct (to_parent k Hk q v q Hr Hp). lia.
Qed.

(** One process changes, but not in its place in the tree. *)
Definition has_kids (pc : proc_pc) : bool := match pc with PNotify | PFinished => false | _ => true end.

Lemma has_kids_true pc :
  has_kids pc = true ↔ pc = PRunning ∨ (∃ ch p, pc = PWaiting ch p) ∨ pc = PTorn.
Proof.
  destruct pc as [|ch p| | |]; simpl; split; intros Hx; try done.
  - by left.
  - right; left. by exists ch, p.
  - by right; right.
  - by destruct Hx as [|[(? & ? & ?)|]].
  - by destruct Hx as [|[(? & ? & ?)|]].
Qed.
Lemma has_kids_false pc : has_kids pc = false ↔ pc = PNotify ∨ pc = PFinished.
Proof.
  destruct pc; simpl; split; intros Hx; try done; try (by left); try (by right); by destruct Hx.
Qed.

Section one.
Context (k k' : kern) (q : nat) (u u' : view).
Hypotheses (Hok : tree_ok k) (Hu : kv k q = Some u)
  (Hv : ∀ r, kv k' r = if decide (r = q) then Some u' else kv k r)
  (Hnext : kr_next k' = kr_next k) (Hprocs : kr_procs k' = kr_procs k) (Hpids : kr_pids k' = kr_pids k)
  (Epid : v_pid u' = v_pid u) (Epar : v_parent u' = v_parent u) (Egone : v_gone u' = v_gone u)
  (Ekids : v_kids u' = v_kids u)
  (Hdone : v_done u' = pc_done (v_pc u')) (Hclass : has_kids (v_pc u') = has_kids (v_pc u))
  (Hlive : v_done u' = false → v_done u = false)
  (Htorn : v_pc u' = PTorn → v_done u = false ∨ v_pc u = PTorn)
  (Hnot : v_pc u' = PNotify → v_pc u = PNotify)
  (Hknown : ∀ ch, chan_known (v_evts u) ch → chan_known (v_evts u') ch)
  (Hclosed : ∀ ch, chan_closed (v_evts u) ch = true → chan_closed (v_evts u') ch = true)
  (Hwait : ∀ ch p, v_pc u' = PWaiting ch p →
    v_pc u = PWaiting ch p ∨ chan_known (v_evts u') ch ∧
    ∀ m pid c v, v_kids u = Some m → m !! pid = Some c → matches p pid → kv k c = Some v → v_done v = false)
  (Hparent : v_done u' = true → v_pc u' = PTorn ∨ v_pc u' = v_pc u ∨
    ∀ r w ch p, v_parent u = Some r → kv k r = Some w → v_pc w = PWaiting ch p →
      chan_closed (v_evts w) ch = true).

#[local] Lemma one_back r v : kv k' r = Some v → r = q ∧ v = u' ∨ r ≠ q ∧ kv k r = Some v.
Proof. rewrite Hv. case_decide; [intros [= <-]; by left|by right]. Qed.
#[local] Lemma one_keep r v : kv k r = Some v →
  ∃ v', kv k' r = Some v' ∧ v_pid v' = v_pid v ∧ v_parent v' = v_parent v ∧ v_gone v' = v_gone v ∧
    v_kids v' = v_kids v.
Proof. intros Hr. rewrite Hv. case_decide; simplify_eq; eexists; by split_and!. Qed.
#[local] Lemma one_orphan : v_orphan u' = v_orphan u.
Proof. unfold v_orphan. by rewrite Epar, Egone. Qed.

#[local] Lemma one_wait r w ch p : kv k' r = Some w → v_pc w = PWaiting ch p →
  chan_known (v_evts w) ch ∧
  ∀ m pid c v, v_kids w = Some m → m !! pid = Some c → matches p pid →
    kv k' c = Some v → v_done v = true → chan_closed (v_evts w) ch = true ∨ v_pc v = PTorn ∨ v_pc v = PNotify.
Proof.
  intros Hr Hpc. destruct (one_back r w Hr) as [[-> ->]|[Hne Hr0]].
  - destruct (Hwait ch p Hpc) as [Hpc0|[Hk Hw]].
    + destruct (to_wait k Hok q u ch p Hu Hpc0) as [Hk Hw]. split; [auto|].
      intros m pid c v Hm Hc Hmat Hcv Hd. rewrite Ekids in Hm.
      pose proof (child_not_self k q u m pid c Hok Hu Hm Hc) as Hcq.
      destruct (one_back c v Hcv) as [[? _]|[_ Hcv0]]; [done|].
      destruct (Hw m pid c v Hm Hc Hmat Hcv0 Hd); auto.
    + split; [done|]. intros m pid c v Hm Hc Hmat Hcv Hd. rewrite Ekids in Hm.
      pose proof (child_not_self k q u m pid c Hok Hu Hm Hc) as Hcq.
      destruct (one_back c v Hcv) as [[? _]|[_ Hcv0]]; [done|].
      pose proof (Hw m pid c v Hm Hc Hmat Hcv0). congruence.
  - destruct (to_wait k Hok r w ch p Hr0 Hpc) as [Hk Hw]. split; [done|].
    intros m pid c v Hm Hc Hmat Hcv Hd. destruct (one_back c v Hcv) as [[-> ->]|[_ Hcv0]]; [|by apply (Hw m pid c v)].
    destruct (to_child k Hok r w m pid q Hr0 Hm Hc) as (_ & x & Hx & _ & Hxp & _).
    rewrite Hu in Hx. injection Hx as <-. destruct (Hparent Hd) as [?|[E|Hall]]; [auto| |left; by apply (Hall r w ch p)].
    rewrite E. apply (Hw m pid q u); try done. rewrite (to_done k Hok q u Hu), <- E, <- Hdone. done.
Qed.

Lemma tree_one : tree_ok k'.
Proof.
  pose proof one_orphan as Eor.
  split; unfold kown; rewrite ?Hnext, ?Hprocs, ?Hpids.
  - apply (to_pids k Hok).
  - intros r [v Hr]. apply (to_dom k Hok). destruct (one_back r v Hr) as [[-> _]|[_ Hr0]]; by eexists.
  - intros r v p Hr Hp. destruct (one_back r v Hr) as [[-> ->]|[_ Hr0]].
    + rewrite Epar in Hp. destruct (to_parent k Hok q u p Hu Hp) as [Hl [w Hw]]. split; [done|].
      destruct (one_keep p w Hw) as (? & ? & _). by eexists.
    + destruct (to_parent k Hok r v p Hr0 Hp) as [Hl [w Hw]]. split; [done|].
      destruct (one_keep p w Hw) as (? & ? & _). by eexists.
  - intros pid c Hc. destruct (to_table k Hok pid c Hc) as (v & Hcv & <-).
    destruct (one_keep c v Hcv) as (v' & ? & ? & _). by exists v'.
  - apply (to_pos k Hok).
  - apply (to_owner k Hok).
  - intros r v Hr. destruct (one_back r v Hr) as [[-> ->]|[_ Hr0]]; [done|]. by apply (to_done k Hok r).
  - intros r v Hr Hpc. destruct (one_back r v Hr) as [[-> ->]|[_ Hr0]]; [|by apply (to_kids k Hok r)].
    rewrite Ekids. apply (to_kids k Hok q u Hu). apply has_kids_true. rewrite <- Hclass. by apply has_kids_true.
  - intros r v Hr Hpc. destruct (one_back r v Hr) as [[-> ->]|[_ Hr0]]; [|by apply (to_nokids k Hok r)].
    rewrite Ekids. apply (to_nokids k Hok q u Hu). apply has_kids_false. rewrite <- Hclass. by apply has_kids_false.
  - intros r v Hr Hd. destruct (one_back r v Hr) as [[-> ->]|[_ Hr0]]; [|by apply (to_live k Hok)].
    rewrite Epid. apply (to_live k Hok q u Hu). auto.
  - intros r v r' Hr Hpc Hin. destruct (one_back r v Hr) as [[-> ->]|[_ Hr0]]; [|by apply (to_torn k Hok r v)].
    rewrite Epid in Hin. destruct (Htorn Hpc) as [Hd|Hpc0]; [|by apply (to_torn k Hok q u)].
    pose proof (to_live k Hok q u Hu Hd). congruence.
  - intros r w m pid c Hr Hm Hc.
    assert (∃ w0, kv k r = Some w0 ∧ v_kids w0 = Some m) as (w0 & Hw0 & Hm0).
    { destruct (one_back r w Hr) as [[-> ->]|[_ Hr0]]; [exists u; by rewrite <- Ekids|by exists w]. }
    destruct (to_child k Hok r w0 m pid c Hw0 Hm0 Hc) as (Hin & v & Hcv & E1 & E2 & E3). split; [done|].
    destruct (one_keep c v Hcv) as (v' & ? & F1 & F2 & F3 & _). exists v'. by rewrite F1, F2, F3.
  - intros pid c v Hin Hc Ho.
    assert (∃ v0, kv k c = Some v0 ∧ v_orphan v0 = false ∧ v_parent v0 = v_parent v) as (v0 & Hv0 & Ho0 & E).
    { destruct (one_back c v Hc) as [[-> ->]|[_ Hr0]]; [exists u; by rewrite <- Eor, Epar|by exists v]. }
    destruct (to_zombie k Hok pid c v0 Hin Hv0 Ho0) as (r & w & m & E1 & Hw & Hm & Hmc).
    destruct (one_keep r w Hw) as (w' & Hw' & _ & _ & _ & Ek). exists r, w', m. by rewrite <- E, Ek.
  - intros pid c v Hin Hc Hpc. destruct (one_back c v Hc) as [[-> ->]|[_ Hr0]]; [|by apply (to_gone k Hok pid c)].
    rewrite Eor. apply (to_gone k Hok pid q u Hin Hu). apply has_kids_false. rewrite <- Hclass. by apply has_kids_false.
  - intros r v Hr Hpc. destruct (one_back r v Hr) as [[-> ->]|[_ Hr0]]; [|by apply (to_notify k Hok r)].
    rewrite Epar. apply (to_notify k Hok q u Hu). auto.
  - apply one_wait.
Qed.
End one.

(** Pids given up: the table and the owners stay in step. *)
Definition owner_iff k : Prop := ∀ pid, kown k !! pid = Some kid ↔ is_Some (kr_procs k !! pid).

Lemma forget_owner_iff pid k : owner_iff k → owner_iff (forgetLocked pid k).
Proof.
  intros Hk p. rewrite forget_own, forget_procs. specialize (Hk p).
  destruct (decide (p = pid)) as [->|]; [|rewrite decide_False by tauto; done].
  case_decide as Hs; [by split; [|intros []%is_Some_None]|].
  split; [|by intros []%is_Some_None]. intros Ho. tauto.
Qed.

(** A parent takes an exited child. *)
Section take.
Context (k k' : kern) (q c : nat) (u v : view) (m : gmap Z nat) (n : notifier).
Hypotheses (Hok : tree_ok k) (Hp : pids_ok (kr_pids k')) (How : owner_iff k')
  (Hu : kv k q = Some u) (Hpc : v_pc u = PRunning) (Hm : v_kids u = Some m) (Hc : m !! v_pid v = Some c)
  (Hcv : kv k c = Some v) (Hdn : v_done v = true)
  (Hnext : kr_next k' = kr_next k)
  (Hprocs : ∀ p, kr_procs k' !! p = if decide (p = v_pid v) then None else kr_procs k !! p)
  (Hv : ∀ r, kv k' r =
    if decide (r = q) then Some (u <| v_evts := n |> <| v_kids := Some (delete (v_pid v) m) |>) else kv k r).

#[local] Lemma take_back r w : kv k' r = Some w → ∃ w0, kv k r = Some w0 ∧
  v_pid w = v_pid w0 ∧ v_parent w = v_parent w0 ∧ v_done w = v_done w0 ∧ v_gone w = v_gone w0 ∧ v_pc w = v_pc w0 ∧
  (r ≠ q → w = w0).
Proof. rewrite Hv. case_decide as E; [intros [= <-]; exists u; rewrite E; by split_and!|]. intros. exists w. by split_and!. Qed.
#[local] Lemma take_keep r w0 : kv k r = Some w0 → ∃ w, kv k' r = Some w ∧
  v_pid w = v_pid w0 ∧ v_parent w = v_parent w0 ∧ v_gone w = v_gone w0 ∧ (r ≠ q → v_kids w = v_kids w0).
Proof. rewrite Hv. case_decide as E; [rewrite E, Hu; intros [= <-]; eexists; by split_and!|]. intros. exists w0. by split_and!. Qed.
#[local] Lemma take_procs p r : kr_procs k' !! p = Some r → p ≠ v_pid v ∧ kr_procs k !! p = Some r.
Proof. rewrite Hprocs. by case_decide. Qed.
#[local] Lemma take_in : kr_procs k !! v_pid v = Some c.
Proof. apply (to_child k Hok q u m _ c Hu Hm Hc). Qed.

#[local] Lemma take_child r w m' p d : kv k' r = Some w → v_kids w = Some m' → m' !! p = Some d →
  kr_procs k' !! p = Some d ∧ ∃ x, kv k' d = Some x ∧ v_pid x = p ∧ v_parent x = Some r ∧ v_gone x = false.
Proof.
  intros Hr Hm' Hd. rewrite Hprocs.
  assert (p ≠ v_pid v ∧ ∃ w0 m0, kv k r = Some w0 ∧ v_kids w0 = Some m0 ∧ m0 !! p = Some d) as (Hne & w0 & m0 & Hw0 & Hm0 & Hd0).
  { rewrite Hv in Hr. case_decide as E.
    - injection Hr as <-. simpl in Hm'. injection Hm' as <-. apply lookup_delete_Some in Hd as [? Hd].
      split; [done|]. rewrite E. by exists u, m.
    - split; [|by exists w, m']. intros ->. destruct (to_child k Hok r w m' _ d Hr Hm' Hd) as (Hin & x & Hx & _ & Hxp & _).
      rewrite take_in in Hin. injection Hin as <-.
      destruct (to_child k Hok q u m _ c Hu Hm Hc) as (_ & y & Hy & _ & Hyp & _). congruence. }
  rewrite decide_False by done. destruct (to_child k Hok r w0 m0 p d Hw0 Hm0 Hd0) as (Hin & x & Hx & E1 & E2 & E3).
  split; [done|]. destruct (take_keep d x Hx) as (x' & ? & F1 & F2 & F3 & _). exists x'. by rewrite F1, F2, F3.
Qed.

#[local] Lemma take_zombie p d x : kr_procs k' !! p = Some d → kv k' d = Some x → v_orphan x = false →
  ∃ r w m', v_parent x = Some r ∧ kv k' r = Some w ∧ v_kids w = Some m' ∧ m' !! p = Some d.
Proof.
  intros [Hne Hin]%take_procs Hx Ho. destruct (take_back d x Hx) as (x0 & Hx0 & _ & Ep & _ & Eg & _).
  assert (v_orphan x0 = false) as Ho0 by (unfold v_orphan in *; by rewrite <- Ep, <- Eg).
  destruct (to_zombie k Hok p d x0 Hin Hx0 Ho0) as (r & w & m0 & E & Hw & Hm0 & Hd).
  destruct (decide (r = q)) as [->|Hrq].
  - exists q. rewrite Hv, decide_True by done. do 2 eexists. split_and!; [congruence|done|done|].
    rewrite Hu in Hw. injection Hw as <-. rewrite Hm in Hm0. injection Hm0 as <-. by rewrite lookup_delete_ne.
  - destruct (take_keep r w Hw) as (w' & Hw' & _ & _ & _ & Ek). exists r, w', m0.
    rewrite Ek by done. split_and!; congruence.
Qed.

Lemma tree_take : tree_ok k'.
Proof.
  split.
  - done.
  - intros r [w Hr]. rewrite Hnext. apply (to_dom k Hok). destruct (take_back r w Hr) as (w0 & ? & _). by eexists.
  - intros r w p Hr Hpar. destruct (take_back r w Hr) as (w0 & Hw0 & _ & E & _). rewrite E in Hpar.
    destruct (to_parent k Hok r w0 p Hw0 Hpar) as [? [y Hy]]. split; [done|].
    destruct (take_keep p y Hy) as (? & ? & _). by eexists.
  - intros p r [_ Hin]%take_procs. destruct (to_table k Hok p r Hin) as (w & Hw & <-).
    destruct (take_keep r w Hw) as (w' & ? & ? & _). by exists w'.
  - intros p r [_ Hin]%take_procs. by apply (to_pos k Hok p r).
  - apply How.
  - intros r w Hr. destruct (take_back r w Hr) as (w0 & Hw0 & _ & _ & -> & _ & -> & _). by apply (to_done k Hok r).
  - intros r w Hr. rewrite Hv in Hr. case_decide; [injection Hr as <-; by eexists|]. by apply (to_kids k Hok r).
  - intros r w Hr. rewrite Hv in Hr. case_decide; [injection Hr as <-; simpl; rewrite Hpc; by intros []|].
    by apply (to_nokids k Hok r).
  - intros r w Hr Hd. destruct (take_back r w Hr) as (w0 & Hw0 & E1 & _ & E2 & _). rewrite Hprocs, E1.
    rewrite E2 in Hd. pose proof (to_live k Hok r w0 Hw0 Hd) as Hl. rewrite decide_False; [done|].
    intros E. rewrite E, take_in in Hl. injection Hl as <-. congruence.
  - intros r w r' Hr Hd [_ Hin]%take_procs. destruct (take_back r w Hr) as (w0 & Hw0 & E1 & _ & _ & _ & E2 & _).
    rewrite E1 in Hin. rewrite E2 in Hd. by apply (to_torn k Hok r w0).
  - apply take_child.
  - apply take_zombie.
  - intros p r w [_ Hin]%take_procs Hr Hd. destruct (take_back r w Hr) as (w0 & Hw0 & _ & E1 & _ & E2 & E3 & _).
    unfold v_orphan. rewrite E1, E2. rewrite E3 in Hd. by apply (to_gone k Hok p r w0).
  - intros r w Hr Hd. destruct (take_back r w Hr) as (w0 & Hw0 & _ & E1 & _ & _ & E3 & _).
    rewrite E1. rewrite E3 in Hd. by apply (to_notify k Hok r w0).
  - intros r w ch p Hr Hd. rewrite Hv in Hr. case_decide as Hrq; [injection Hr as <-; simpl in Hd; congruence|].
    destruct (to_wait k Hok r w ch p Hr Hd) as [Hk Hw]. split; [done|].
    intros m' pid d x Hm' Hd' Hmat Hx Hdx. destruct (take_back d x Hx) as (x0 & Hx0 & _ & _ & E1 & _ & E2 & _).
    rewrite E2. rewrite E1 in Hdx. by apply (Hw m' pid d x0).
Qed.
End take.

(** A process goes through its last section under the kernel's lock. *)
Definition vdone k c : bool := from_option v_done false (kv k c).

Section reap.
Context (k k' : kern) (q : nat) (u : view) (m : gmap Z nat).
Hypotheses (Hok : tree_ok k) (Hp : pids_ok (kr_pids k')) (How : owner_iff k')
  (Hu : kv k q = Some u) (Hpc : v_pc u = PTorn) (Hm : v_kids u = Some m)
  (Hnext : kr_next k' = kr_next k)
  (Hprocs : ∀ p c, kr_procs k' !! p = Some c ↔ kr_procs k !! p = Some c ∧
     (∀ c', m !! p = Some c' → vdone k c' = false) ∧ (v_orphan u = true → p ≠ v_pid u))
  (Hq : kv k' q = Some (u <| v_kids := None |> <| v_pc := if v_orphan u then PFinished else PNotify |>))
  (Hkid : ∀ p c v, m !! p = Some c → kv k c = Some v → kv k' c = Some (v <| v_gone := true |>))
  (Hother : ∀ c, c ≠ q → (∀ p, m !! p ≠ Some c) → kv k' c = kv k c).

#[local] Lemma kid_dec c : (∃ p, m !! p = Some c) ∨ (∀ p, m !! p ≠ Some c).
Proof.
  destruct (decide (Exists (λ e, e.2 = c) (map_to_list m))) as [Hx|Hx].
  - left. apply Exists_exists in Hx as ([p d] & Hin%elem_of_map_to_list & <-). by exists p.
  - right. intros p Hpc'. apply Hx, Exists_exists. exists (p, c). by rewrite elem_of_map_to_list.
Qed.
#[local] Lemma kid_view p c : m !! p = Some c → c ≠ q ∧ kr_procs k !! p = Some c ∧
  ∃ v, kv k c = Some v ∧ v_pid v = p ∧ v_parent v = Some q ∧ v_gone v = false.
Proof.
  intros Hc. split; [by apply (child_not_self k q u m p c)|]. by apply (to_child k Hok q u m p c).
Qed.

#[local] Lemma reap_back r w : kv k' r = Some w → ∃ v, kv k r = Some v ∧
  v_pid w = v_pid v ∧ v_parent w = v_parent v ∧ v_done w = v_done v ∧ v_evts w = v_evts v ∧
  (r = q ∧ v = u ∧ v_kids w = None ∧ v_gone w = v_gone u ∧ v_pc w = (if v_orphan u then PFinished else PNotify) ∨
   r ≠ q ∧ v_kids w = v_kids v ∧ v_pc w = v_pc v ∧
     (v_gone w = true ∧ (∃ p, m !! p = Some r) ∨ v_gone w = v_gone v ∧ ∀ p, m !! p ≠ Some r)).
Proof.
  intros Hr. destruct (decide (r = q)) as [->|Hrq].
  { rewrite Hq in Hr. injection Hr as <-. exists u. split_and!; try done. by left. }
  destruct (kid_dec r) as [[p Hin]|Hno].
  - destruct (kid_view p r Hin) as (_ & _ & v & Hv & _). rewrite (Hkid p r v Hin Hv) in Hr. injection Hr as <-.
    exists v. split_and!; try done. right. split_and!; try done. left. split; [done|by exists p].
  - rewrite (Hother r Hrq Hno) in Hr. exists w. split_and!; try done. right. split_and!; try done. by right.
Qed.

#[local] Lemma reap_keep r v : kv k r = Some v → ∃ w, kv k' r = Some w ∧
  v_pid w = v_pid v ∧ v_parent w = v_parent v ∧ (r ≠ q → v_kids w = v_kids v) ∧
  ((∀ p, m !! p ≠ Some r) → v_gone w = v_gone v).
Proof.
  intros Hr. destruct (decide (r = q)) as [->|Hrq].
  { rewrite Hu in Hr. injection Hr as <-. eexists. split; [exact Hq|]. by split_and!. }
  destruct (kid_dec r) as [[p Hin]|Hno].
  - exists (v <| v_gone := true |>). split; [by apply (Hkid p)|]. split_and!; try done. intros Hno. by destruct (Hno p).
  - exists v. split; [by rewrite Hother|]. by split_and!.
Qed.

(** A child of another process is not a child of this one, nor an orphan. *)
#[local] Lemma reap_foreign r w m' p c : r ≠ q → kv k r = Some w → v_kids w = Some m' → m' !! p = Some c →
  kr_procs k' !! p = Some c ∧ (∀ p', m !! p' ≠ Some c) ∧ (c = q → v_orphan u = false).
Proof.
  intros Hrq Hw Hm' Hc. destruct (to_child k Hok r w m' p c Hw Hm' Hc) as (Hin & v & Hv & Ep & Epar & Eg).
  assert (∀ p', m !! p' ≠ Some c) as Hno.
  { intros p' Hin'. destruct (kid_view p' c Hin') as (_ & _ & v' & Hv' & _ & Ep' & _). congruence. }
  assert (c = q → v_orphan u = false) as Hcq.
  { intros ->. rewrite Hu in Hv. injection Hv as <-. unfold v_orphan. by rewrite Epar, Eg. }
  split_and!; [|done|done]. apply Hprocs. split_and!; [done|..].
  - intros c' Hc'. destruct (kid_view p c' Hc') as (_ & Hin' & _). rewrite Hin in Hin'. injection Hin' as <-.
    by destruct (Hno p).
  - intros Ho ->. pose proof (to_torn k Hok q u c Hu Hpc Hin) as Heq. rewrite (Hcq Heq) in Ho. done.
Qed.

#[local] Lemma reap_child r w m' p c : kv k' r = Some w → v_kids w = Some m' → m' !! p = Some c →
  kr_procs k' !! p = Some c ∧ ∃ v, kv k' c = Some v ∧ v_pid v = p ∧ v_parent v = Some r ∧ v_gone v = false.
Proof.
  intros Hr Hm' Hc. destruct (reap_back r w Hr) as (w0 & Hw0 & _ & _ & _ & _ & [(_ & _ & E & _)|(Hrq & E & _)]); [congruence|].
  rewrite E in Hm'. destruct (reap_foreign r w0 m' p c Hrq Hw0 Hm' Hc) as (Hin & Hno & _). split; [done|].
  destruct (to_child k Hok r w0 m' p c Hw0 Hm' Hc) as (_ & v & Hv & E1 & E2 & E3).
  destruct (reap_keep c v Hv) as (v' & Hv' & F1 & F2 & _ & F3). exists v'. rewrite F1, F2, F3 by done. done.
Qed.

#[local] Lemma reap_zombie p c v : kr_procs k' !! p = Some c → kv k' c = Some v → v_orphan v = false →
  ∃ r w m', v_parent v = Some r ∧ kv k' r = Some w ∧ v_kids w = Some m' ∧ m' !! p = Some c.
Proof.
  intros (Hin & _)%Hprocs Hv Ho.
  destruct (reap_back c v Hv) as (v0 & Hv0 & _ & Epar & _ & _ & Hcase).
  assert (v_orphan v0 = false ∧ ∀ p', m !! p' ≠ Some c) as [Ho0 Hno].
  { unfold v_orphan in *. rewrite Epar in Ho. destruct Hcase as [(-> & -> & _ & Eg & _)|(_ & _ & _ & [[Eg _]|[Eg Hno]])].
    - rewrite Eg in Ho. split; [done|]. intros p' Hin'. by destruct (kid_view p' q Hin').
    - by rewrite Eg, orb_true_r in Ho.
    - by rewrite Eg in Ho. }
  destruct (to_zombie k Hok p c v0 Hin Hv0 Ho0) as (r & w & m' & E & Hw & Hm' & Hc).
  destruct (decide (r = q)) as [->|Hrq].
  { rewrite Hu in Hw. injection Hw as <-. rewrite Hm in Hm'. injection Hm' as <-. by destruct (Hno p). }
  destruct (reap_keep r w Hw) as (w' & Hw' & _ & _ & Ek & _). exists r, w', m'. rewrite (Ek Hrq).
  split_and!; congruence.
Qed.

#[local] Lemma reap_gone p c v : kr_procs k' !! p = Some c → kv k' c = Some v →
  v_pc v = PNotify ∨ v_pc v = PFinished → v_orphan v = false.
Proof.
  intros (Hin & Hdead & Hself)%Hprocs Hv Hd.
  destruct (to_table k Hok p c Hin) as (v0' & Hv0' & Ep).
  destruct (reap_back c v Hv) as (v0 & Hv0 & _ & Epar & _ & _ & Hcase). rewrite Hv0' in Hv0. injection Hv0 as ->.
  destruct Hcase as [(-> & -> & _ & Eg & _)|(Hne & _ & Epc & [[_ [p' Hin']]|[Eg _]])].
  - destruct (v_orphan u) eqn:Eo; [by destruct (Hself eq_refl)|]. unfold v_orphan in *. by rewrite Epar, Eg.
  - destruct (kid_view p' c Hin') as (_ & _ & v' & Hv' & <- & _). rewrite Hv0' in Hv'. injection Hv' as <-.
    rewrite Ep in Hin'. pose proof (Hdead c Hin') as Hx. unfold vdone in Hx. rewrite Hv0' in Hx. simpl in Hx.
    rewrite (to_done k Hok c v0 Hv0'), <- Epc in Hx. by destruct Hd as [E|E]; rewrite E in Hx.
  - unfold v_orphan. rewrite Epar, Eg. rewrite Epc in Hd. by apply (to_gone k Hok p c v0).
Qed.

#[local] Lemma reap_live r w : kv k' r = Some w → v_done w = false → kr_procs k' !! v_pid w = Some r.
Proof.
  intros Hr Hd. destruct (reap_back r w Hr) as (v & Hv & -> & _ & E & _). rewrite E in Hd.
  pose proof (to_live k Hok r v Hv Hd) as Hin. apply Hprocs. split_and!; [done|..].
  - intros c' Hc'. destruct (kid_view _ _ Hc') as (_ & Hin' & _). rewrite Hin in Hin'. injection Hin' as <-.
    unfold vdone. by rewrite Hv.
  - intros _ E2. rewrite E2 in Hin. pose proof (to_torn k Hok q u r Hu Hpc Hin) as ->.
    rewrite Hu in Hv. injection Hv as <-. rewrite (to_done k Hok q u Hu), Hpc in Hd. done.
Qed.

#[local] Lemma reap_wait r w ch p : kv k' r = Some w → v_pc w = PWaiting ch p →
  chan_known (v_evts w) ch ∧
  ∀ m pid c v, v_kids w = Some m → m !! pid = Some c → matches p pid →
    kv k' c = Some v → v_done v = true → chan_closed (v_evts w) ch = true ∨ v_pc v = PTorn ∨ v_pc v = PNotify.
Proof.
  intros Hr Hd. destruct (reap_back r w Hr) as (w0 & Hw0 & _ & _ & _ & Ev & [(_ & _ & _ & _ & E)|(Hrq & Ek & E & _)]).
  { rewrite Hd in E. by destruct (v_orphan u). }
  rewrite Ev, Ek. rewrite E in Hd. destruct (to_wait k Hok r w0 ch p Hw0 Hd) as [Hk Hw]. split; [done|].
  intros m' pid c v Hm' Hc Hmat Hv Hdn.
  destruct (reap_foreign r w0 m' pid c Hrq Hw0 Hm' Hc) as (_ & _ & Hcq).
  destruct (reap_back c v Hv) as (v0 & Hv0 & _ & _ & Edn & _ & [(-> & _ & _ & _ & Epc)|(_ & _ & Epc & _)]).
  - rewrite Epc, (Hcq eq_refl). auto.
  - rewrite Epc. rewrite Edn in Hdn. by apply (Hw m' pid c v0).
Qed.

Lemma tree_reap : tree_ok k'.
Proof.
  split.
  - done.
  - intros r [w Hr]. rewrite Hnext. apply (to_dom k Hok). destruct (reap_back r w Hr) as (w0 & ? & _). by eexists.
  - intros r w p Hr Hpar. destruct (reap_back r w Hr) as (w0 & Hw0 & _ & E & _). rewrite E in Hpar.
    destruct (to_parent k Hok r w0 p Hw0 Hpar) as [? [y Hy]]. split; [done|].
    destruct (reap_keep p y Hy) as (? & ? & _). by eexists.
  - intros p r (Hin & _)%Hprocs. destruct (to_table k Hok p r Hin) as (w & Hw & <-).
    destruct (reap_keep r w Hw) as (w' & ? & ? & _). by exists w'.
  - intros p r (Hin & _)%Hprocs. by apply (to_pos k Hok p r).
  - apply How.
  - intros r w Hr. destruct (reap_back r w Hr) as (v & Hv & _ & _ & -> & _ & [(_ & -> & _ & _ & ->)|(_ & _ & -> & _)]).
    + rewrite (to_done k Hok q u Hu), Hpc. by destruct (v_orphan u).
    + by apply (to_done k Hok r).
  - intros r w Hr Hd. destruct (reap_back r w Hr) as (v & Hv & _ & _ & _ & _ & [(_ & _ & _ & _ & E)|(_ & -> & E & _)]).
    + rewrite E in Hd. destruct (v_orphan u); by destruct Hd as [|[(? & ? & ?)|]].
    + rewrite E in Hd. by apply (to_kids k Hok r v).
  - intros r w Hr Hd. destruct (reap_back r w Hr) as (v & Hv & _ & _ & _ & _ & [(_ & _ & -> & _)|(_ & -> & E & _)]); [done|].
    rewrite E in Hd. by apply (to_nokids k Hok r v).
  - apply reap_live.
  - intros r w r' Hr Hd (Hin & _)%Hprocs. destruct (reap_back r w Hr) as (v & Hv & E1 & _ & _ & _ & Hcase).
    destruct Hcase as [(_ & _ & _ & _ & E)|(_ & _ & E & _)]; rewrite E in Hd; [by destruct (v_orphan u)|].
    rewrite E1 in Hin. by apply (to_torn k Hok r v).
  - apply reap_child.
  - apply reap_zombie.
  - apply reap_gone.
  - intros r w Hr Hd. destruct (reap_back r w Hr) as (v & Hv & _ & -> & _ & _ & Hcase).
    destruct Hcase as [(_ & -> & _ & _ & E)|(_ & _ & E & _)]; rewrite E in Hd; [|by apply (to_notify k Hok r)].
    unfold v_orphan in *. intros Ep. by rewrite Ep, bool_decide_true in Hd.
  - apply reap_wait.
Qed.
End reap.

(** ** The operations *)
Lemma kv_heap k q p : kr_heap k !! q = Some p → kv k q = Some (pview p).
Proof. intros E. unfold kv. by rewrite E. Qed.

Lemma kv_pc k q p pc : kr_heap k !! q = Some p → pr_pc p = pc → ∃ u, kv k q = Some u ∧ v_pc u = pc.
Proof. intros E <-. exists (pview p). by rewrite (kv_heap k q p E). Qed.

Lemma kv_update_to q f k r p : kr_heap k !! q = Some p →
  kv (proc_update q f k) r = if decide (r = q) then Some (pview (f p)) else kv k r.
Proof.
  intros E. unfold kv, proc_update. simpl. rewrite lookup_alter. case_decide as Eq.
  - subst q. rewrite E, decide_True by done. done.
  - by rewrite decide_False by done.
Qed.

(** Other kernels' pids come and go. *)
Lemma tree_pids t k : tree_ok k → pids_ok t →
  (∀ pid, owners t !! pid = Some kid ↔ owners (kr_pids k) !! pid = Some kid) →
  tree_ok (k <| kr_pids := t |>).
Proof.
  intros [Kp Kd Kpar Kt Kpos Ko Kdn Kk Knk Kl Kto Kc Kz Kg Kn Kw] Hp Ht. split; try done.
  intros pid. unfold kown. simpl. rewrite Ht. apply Ko.
Qed.

(** [Start]. *)
Lemma tree_start argv env cwd k r k' : 0 ≤ getpid → tree_ok k → k_Start getpid kid argv env cwd k = (r, k') →
  (∀ c v, kv k c = None → kv k' c = Some v → ∀ q u, kv k q = Some u → v_pc u = PTorn → v_pid u ≠ v_pid v) →
  tree_ok k'.
Proof.
  intros Hg Hok. unfold k_Start. destruct (k_newProcess getpid kid None argv env k) as [[c|] k1] eqn:E;
    destruct (k_newProcess_spec _ _ _ _ _ _ Hg (to_pids k Hok) E) as [Hp Hr].
  - destruct Hr as (pid & Hpos & -> & Hfree & Ho & Hn & Ht & Hh & _).
    destruct (stdio_fds (kr_files k1)) as [t s]. intros [= <- <-]. set (k3 := proc_update _ _ _) in *. intros Hq.
    assert (∀ r, kv k3 r = if decide (r = kr_next k) then Some (new_view pid None) else kv k r) as Hv.
    { intros r'. unfold k3. rewrite kv_update_same by done. unfold kv. simpl. rewrite Hh.
      rewrite lookup_insert. case_decide; [subst; by rewrite decide_True|by rewrite decide_False]. }
    apply (tree_new k k3 pid None); try done.
    + intros q u Hu Hpc. apply (Hq (kr_next k) (new_view pid None)) with q; try done.
      * apply eq_None_not_Some. intros Hs%(to_dom k Hok). lia.
      * by rewrite Hv, decide_True.
    + intros r'. rewrite Hv. case_decide; [done|]. by destruct (kv k r').
  - intros [= <- <-] _. destruct Hr as [Hal Ho]. apply (tree_alike _ _ Hal). apply tree_pids; [done..|].
    intros pid. unfold kown in Ho. by rewrite Ho.
Qed.

(** [spawn]. *)
Lemma tree_spawn q p argv env cwd k r k' : 0 ≤ getpid → tree_ok k →
  kr_heap k !! q = Some p → pr_pc p = PRunning → spawn getpid kid q argv env cwd k = Some (r, k') →
  (∀ c v, kv k c = None → kv k' c = Some v → ∀ q u, kv k q = Some u → v_pc u = PTorn → v_pid u ≠ v_pid v) →
  tree_ok k'.
Proof.
  intros Hg Hok Hqp Hpc. unfold spawn. rewrite Hqp.
  destruct (k_newProcess getpid kid (Some q) argv env k) as [[c|] k1] eqn:E;
    destruct (k_newProcess_spec _ _ _ _ _ _ Hg (to_pids k Hok) E) as [Hp Hr].
  - destruct Hr as (pid & Hpos & -> & Hfree & Ho & Hn & Ht & Hh & _).
    destruct (cloneForExec _ _) as [t s]. set (c := kr_next k) in *.
    assert (c ≠ q) as Hcq.
    { intros E'. assert (is_Some (kv k q)) as Hd%(to_dom k Hok) by (by rewrite (kv_heap k q p Hqp)). unfold c in *. lia. }
    set (k2 := proc_update c _ _).
    assert (∀ r, kv k2 r = if decide (r = c) then Some (new_view pid (Some q)) else kv k r) as Hv2.
    { intros r'. unfold k2. rewrite kv_update_same by done. unfold kv. simpl. rewrite Hh, lookup_insert.
      case_decide; [subst; by rewrite decide_True|by rewrite decide_False]. }
    assert (kr_heap k2 !! q = Some p) as Hq2.
    { unfold k2, proc_update. simpl. rewrite lookup_alter_ne, Hh by done. by rewrite lookup_insert_ne. }
    destruct (kr_heap k2 !! c) as [child|] eqn:Ec; [|done].
    assert (pr_pid child = pid) as Hcp.
    { pose proof (Hv2 c) as Hx. rewrite (kv_heap _ _ _ Ec), decide_True in Hx by done. by injection Hx. }
    destruct (pr_children p) as [m|] eqn:Em; [|done]. intros [= <- <-] Hquiet.
    set (k3 := proc_update q _ k2) in *.
    assert (∀ r, kv k3 r = if decide (r = c) then Some (new_view pid (Some q))
        else (λ u, if decide (Some q = Some r) then u <| v_kids ::= fmap <[pid := c]> |> else u) <$> kv k r) as Hv3.
    { intros r'. unfold k3. rewrite (kv_update_to q _ k2 r' p Hq2), Hv2.
      destruct (decide (r' = q)) as [->|Hrq].
      - rewrite decide_False, (kv_heap k q p Hqp) by done. simpl. rewrite decide_True by done.
        unfold pview. simpl. by rewrite Em, Hcp.
      - case_decide; [done|]. destruct (kv k r'); simpl; [|done]. rewrite decide_False; [done|]. congruence. }
    apply (tree_new k k3 pid (Some q)); try done.
    + intros q' [= <-]. by apply (kv_pc k q p).
    + intros q' u Hu Hpc'. apply (Hquiet c (new_view pid (Some q))) with q'; try done.
      * apply eq_None_not_Some. intros Hs%(to_dom k Hok). unfold c in Hs. lia.
      * by rewrite Hv3, decide_True.
  - intros [= <- <-] _. destruct Hr as [Hal Ho]. apply (tree_alike _ _ Hal). apply tree_pids; [done..|].
    intros pid. unfold kown in Ho. by rewrite Ho.
Qed.

(** [waitpid]. *)
Lemma wait_scan_spec pid heap l :
  match wait_scan pid heap l with
  | (_, Some (cpid, c)) => (cpid, c) ∈ l ∧ matches pid cpid ∧ from_option pr_done false (heap !! c) = true
  | (found, None) =>
      (∀ cpid c, (cpid, c) ∈ l → matches pid cpid → from_option pr_done false (heap !! c) = false) ∧
      (found = true ↔ ∃ cpid c, (cpid, c) ∈ l ∧ matches pid cpid)
  end.
Proof.
  unfold matches. induction l as [|[cpid c] l IH]; simpl.
  { split; [by intros ? ? ?%not_elem_of_nil|]. split; [done|]. by intros (? & ? & ?%not_elem_of_nil & _). }
  destruct (decide (pid = -1 ∨ cpid = pid)) as [Hm|Hm].
  - assert (negb (pid =? -1) && negb (cpid =? pid) = false) as ->
      by (destruct (Z.eqb_spec pid (-1)), (Z.eqb_spec cpid pid); simpl; tauto).
    destruct (from_option pr_done false (heap !! c)) eqn:Ed; [split_and!; [by left|done|done]|].
    destruct (wait_scan pid heap l) as [found [[cp d]|]]; simpl.
    + destruct IH as (? & ? & ?). split_and!; [by right|done|done].
    + destruct IH as [Hno _]. split.
      * intros cp d [[= -> ->]|Hin]%elem_of_cons Hmat; [done|by apply (Hno cp d)].
      * split; [intros _|done]. exists cpid, c. split; [by left|done].
  - assert (negb (pid =? -1) && negb (cpid =? pid) = true) as ->
      by (destruct (Z.eqb_spec pid (-1)), (Z.eqb_spec cpid pid); simpl; tauto).
    destruct (wait_scan pid heap l) as [found [[cp d]|]]; simpl.
    + destruct IH as (? & ? & ?). split_and!; [by right|done|done].
    + destruct IH as [Hno Hf]. split.
      * intros cp d [[= -> ->]|Hin]%elem_of_cons Hmat; [tauto|by apply (Hno cp d)].
      * rewrite Hf. split; intros (cp & d & Hin & Hmat); exists cp, d; (split; [|done]); [by right|].
        apply elem_of_cons in Hin as [[= -> ->]|]; [tauto|done].
Qed.

Lemma order_elem (order : gmap Z nat → list (Z * nat)) m pid c :
  (∀ m, order m ≡ₚ map_to_list m) → (pid, c) ∈ order m ↔ m !! pid = Some c.
Proof. intros Ho. by rewrite (Ho m), elem_of_map_to_list. Qed.

(** What one round does, from a good state: the process and its children map,
    the channel it took, and the result. *)
Definition round_result k k' q (p : proc) (m : gmap Z nat) (pid options : Z) (ch : nat) (r : wait_result) : Prop :=
  let n := (notifier_wait (pr_childEvts p)).2 in
  match r with
  | WReaped cpid status => ∃ c pc,
      m !! cpid = Some c ∧ kr_heap k !! c = Some pc ∧ matches pid cpid ∧ pr_done pc = true ∧ pr_pid pc = cpid ∧
      status = pr_status pc ∧ kr_next k' = kr_next k ∧
      kr_heap k' = <[q := p <| pr_childEvts := n |> <| pr_children := Some (delete cpid m) |>]> (kr_heap k) ∧
      (∀ x, kr_procs k' !! x = if decide (x = cpid) then None else kr_procs k !! x) ∧
      owner_iff k' ∧ pids_ok (kr_pids k')
  | _ =>
      k' = proc_update q (λ p, p <| pr_childEvts := n |>) k ∧
      (∀ cpid c, m !! cpid = Some c → matches pid cpid → from_option pr_done false (kr_heap k !! c) = false) ∧
      (r = WNoChild ↔ ¬ ∃ cpid c, m !! cpid = Some c ∧ matches pid cpid) ∧
      (r = WNone → Z.land options WNOHANG ≠ 0)
  end.

Lemma waitpid_round_spec order q p m pid options k ch r k' :
  (∀ m, order m ≡ₚ map_to_list m) → tree_ok k → kr_heap k !! q = Some p → pr_children p = Some m →
  waitpid_round order q pid options k = (ch, r, k') →
  ch = (notifier_wait (pr_childEvts p)).1 ∧ round_result k k' q p m pid options ch r.
Proof.
  intros Hord Hok Hq Hm. unfold waitpid_round. rewrite Hq. cbn beta iota. rewrite Hm.
  change (default ∅ (Some m)) with m. unfold round_result.
  destruct (notifier_wait (pr_childEvts p)) as [ch0 n]. cbn [fst snd].
  set (k1 := proc_update q (λ p, p <| pr_childEvts := n |>) k).
  assert (∀ c, from_option pr_done false (kr_heap k1 !! c) = from_option pr_done false (kr_heap k !! c)) as Hdn.
  { intros c. unfold k1, proc_update. simpl. rewrite lookup_alter. case_decide; [subst|done]. by destruct (kr_heap k !! c). }
  pose proof (wait_scan_spec pid (kr_heap k1) (order m)) as Hs.
  destruct (wait_scan pid (kr_heap k1) (order m)) as [found [[cpid c]|]].
  - destruct Hs as (Hin%(order_elem order m cpid c Hord) & Hmat & Hd). rewrite Hdn in Hd.
    pose proof (kv_heap k q p Hq) as Hkq.
    destruct (to_child k Hok q (pview p) m cpid c Hkq Hm Hin) as (_ & v & Hv & Epid & _).
    pose proof (child_not_self k q (pview p) m cpid c Hok Hkq Hm Hin) as Hcq.
    unfold kv in Hv. destruct (kr_heap k !! c) as [pc|] eqn:Hc; [|done]. injection Hv as <-. simpl in Epid, Hd.
    set (k2 := proc_update q (λ p, p <| pr_children := Some (delete cpid m) |>) k1).
    assert (kr_heap k2 = <[q := p <| pr_childEvts := n |> <| pr_children := Some (delete cpid m) |>]> (kr_heap k)) as Hh.
    { unfold k2, k1, proc_update. simpl. apply map_eq. intros x.
      rewrite !lookup_alter, lookup_insert. repeat case_decide; subst; try done. by rewrite Hq. }
    assert (kr_heap k2 !! c = Some pc) as Hc2 by (rewrite Hh, lookup_insert_ne; done).
    rewrite Hc2. change (from_option pr_pid 0 (Some pc)) with (pr_pid pc). rewrite Epid.
    match goal with |- (if found then ?x else _) = _ → _ => replace (if found then x else x) with x by (by destruct found) end.
    intros E. injection E as <- <- <-. split; [done|]. exists c, pc.
    assert (∀ x, kr_heap (forgetLocked cpid k2) !! x = kr_heap k2 !! x) as Hfh
      by (intros x; unfold forgetLocked; by destruct (kr_procs k2 !! cpid)).
    split_and!; try done.
    + by rewrite Hfh, Hc2.
    + by rewrite forget_next.
    + rewrite <- Hh. apply map_eq. apply Hfh.
    + intros x. by rewrite forget_procs.
    + apply forget_owner_iff. exact (to_owner k Hok).
    + apply forget_pids. exact (to_pids k Hok).
  - destruct Hs as [Hno Hf].
    assert (∀ cpid c, m !! cpid = Some c → matches pid cpid → from_option pr_done false (kr_heap k !! c) = false) as Hno'.
    { intros cpid c Hin Hmat. rewrite <- Hdn. apply (Hno cpid c); [by apply order_elem|done]. }
    assert (found = true ↔ ∃ cpid c, m !! cpid = Some c ∧ matches pid cpid) as Hf'.
    { rewrite Hf. by split; intros (cpid & c & Hin & Hmat); exists cpid, c; (split; [|done]); apply (order_elem order). }
    destruct found; [destruct (Z.eqb_spec (Z.land options WNOHANG) 0)|]; intros [= <- <- <-];
      (split; [done|]); split_and!; try done.
    + split; [done|]. intros Hx. by destruct Hx; apply Hf'.
    + split; [done|]. intros Hx. by destruct Hx; apply Hf'.
    + split; [|done]. intros _ Hx%Hf'. done.
Qed.

Lemma running_kids k q p : tree_ok k → kr_heap k !! q = Some p → pr_pc p = PRunning →
  ∃ m, pr_children p = Some m.
Proof.
  intros Hok Hq Hpc. apply (to_kids k Hok q (pview p)); [by apply kv_heap|]. by left.
Qed.

Lemma tree_wait order q p pid options k ch r k' :
  (∀ m, order m ≡ₚ map_to_list m) → tree_ok k → kr_heap k !! q = Some p → pr_pc p = PRunning →
  waitpid_round order q pid options k = (ch, r, k') →
  tree_ok (match r with WBlock => proc_update q (λ p, p <| pr_pc := PWaiting ch pid |>) k' | _ => k' end).
Proof.
  intros Hord Hok Hq Hpc Hround. destruct (running_kids k q p Hok Hq Hpc) as [m Hm].
  destruct (waitpid_round_spec order q p m pid options k ch r k' Hord Hok Hq Hm Hround) as [-> Hr].
  pose proof (kv_heap k q p Hq) as Hkq. set (n := (notifier_wait (pr_childEvts p)).2) in *.
  assert (∀ k1 pc, (∀ x, kv k1 x = if decide (x = q) then Some ((pview p) <| v_evts := n |> <| v_pc := pc |>) else kv k x) →
    kr_next k1 = kr_next k → kr_procs k1 = kr_procs k → kr_pids k1 = kr_pids k →
    (pc = PRunning ∨ pc = PWaiting (notifier_wait (pr_childEvts p)).1 pid ∧
       ∀ cpid c, m !! cpid = Some c → matches pid cpid → from_option pr_done false (kr_heap k !! c) = false) →
    tree_ok k1) as Hone.
  { intros k1 pc Hv1 Hn1 Ht1 Hp1 Hpc1.
    pose proof (to_done k Hok q _ Hkq) as Hd. simpl in Hd. rewrite Hpc in Hd.
    apply (tree_one k k1 q (pview p) _ Hok Hkq Hv1 Hn1 Ht1 Hp1); simpl; try done; rewrite ?Hpc.
    - rewrite Hd. by destruct Hpc1 as [-> |[-> _]].
    - by destruct Hpc1 as [-> |[-> _]].
    - by destruct Hpc1 as [-> |[-> _]].
    - by destruct Hpc1 as [-> |[-> _]].
    - apply known_wait.
    - intros ch' p'. destruct Hpc1 as [-> |[-> Hnone]]; [done|]. intros [= <- <-]. right. split; [apply wait_known|].
      intros m' pid' c v Hm' Hc Hmat Hcv. rewrite Hm in Hm'. injection Hm' as <-.
      specialize (Hnone pid' c Hc Hmat). unfold kv in Hcv. destruct (kr_heap k !! c); [|done]. by injection Hcv as <-.
    - rewrite Hd. done. }
  assert (∀ f, (∀ x, pview (f x) = (pview x) <| v_evts := n |> ) → ∀ x,
    kv (proc_update q f k) x = if decide (x = q) then Some ((pview p) <| v_evts := n |>) else kv k x) as Hv0.
  { intros f Hf x. rewrite (kv_update_to q f k x p Hq). by rewrite Hf. }
  destruct r as [cpid status| | |]; simpl in Hr.
  - destruct Hr as (c & pc & Hin & Hc & Hmat & Hd & Epid & _ & Hnext & Hh & Hprocs & How & Hp).
    apply (tree_take k k' q c (pview p) (pview pc) m n); try done.
    + by subst cpid.
    + by rewrite (kv_heap k c pc Hc).
    + by subst cpid.
    + intros x. unfold kv. subst cpid. rewrite Hh, lookup_insert. unfold pview at 3. cbn [v_pid].
      case_decide; [subst; by rewrite decide_True|by rewrite decide_False].
  - destruct Hr as [-> _]. apply (Hone _ PRunning); [|done..|by left]. rewrite <- Hpc. by apply Hv0.
  - destruct Hr as [-> _]. apply (Hone _ PRunning); [|done..|by left]. rewrite <- Hpc. by apply Hv0.
  - destruct Hr as (-> & Hnone & _). eapply Hone; [|done..|right; split; [reflexivity|exact Hnone]].
    intros x. rewrite (kv_update q _ (λ u, u <| v_pc := PWaiting (notifier_wait (pr_childEvts p)).1 pid |>)) by done.
    rewrite Hv0 by done. by case_decide.
Qed.

Lemma tree_wake q p ch pid k : tree_ok k → kr_heap k !! q = Some p → pr_pc p = PWaiting ch pid →
  tree_ok (proc_update q (λ p, p <| pr_pc := PRunning |>) k).
Proof.
  intros Hok Hq Hpc. pose proof (kv_heap k q p Hq) as Hkq.
  eapply (tree_one k _ q (pview p)); [done|done|intros x; by apply (kv_update_to q _ k x p)|done..| | | | | | | | |];
    simpl; rewrite ?Hpc; try done; pose proof (to_done k Hok q _ Hkq) as Hd; simpl in Hd; rewrite Hpc in Hd; try done.
  rewrite Hd. done.
Qed.

Lemma tree_finish status q p k : tree_ok k → kr_heap k !! q = Some p → pr_pc p = PRunning →
  tree_ok (finish_teardown status q k).
Proof.
  intros Hok Hq Hpc. pose proof (kv_heap k q p Hq) as Hkq. unfold finish_teardown. rewrite Hq.
  destruct (fd_closeAll _ _) as [t s]. destruct (shm_detachAll _ _ _) as [sh o].
  set (k1 := k <| kr_files := _ |>). assert (kr_heap k1 !! q = Some p) as Hq1 by done.
  eapply (tree_one k _ q (pview p)); [done|done|intros x; rewrite (kv_update_to q _ k1 x p Hq1); done|done..| | | | | | | | |];
    simpl; rewrite ?Hpc; try done; pose proof (to_done k Hok q _ Hkq) as Hd; simpl in Hd; rewrite Hpc in Hd; auto.
Qed.

(** The loop over the children of a process that ends. *)
Lemma orphan_fold l k : tree_ok k →
  let k' := foldr orphan_child k l in
  kr_next k' = kr_next k ∧ pids_ok (kr_pids k') ∧ owner_iff k' ∧
  (∀ r, kv k' r = if decide (r ∈ l.*2) then (λ v, v <| v_gone := true |>) <$> kv k r else kv k r) ∧
  (∀ p c, kr_procs k' !! p = Some c ↔ kr_procs k !! p = Some c ∧ ∀ c', (p, c') ∈ l → vdone k c' = false).
Proof.
  intros Hok. cbv zeta. induction l as [|[pid c] l (IHn & IHp & IHo & IHv & IHt)].
  { simpl. split_and!; [done|apply Hok|exact (to_owner k Hok)|done|].
    intros p c. split; [|by intros []]. intros Hc. split; [done|]. by intros c' ?%not_elem_of_nil. }
  cbn [foldr]. rewrite fmap_cons. set (k0 := foldr orphan_child k l) in *. unfold orphan_child. cbn [fst snd].
  set (k1 := proc_update c (λ p, p <| pr_parentGone := true |>) k0).
  assert (∀ r, kv k1 r = if decide (r = c) then (λ v, v <| v_gone := true |>) <$> kv k0 r else kv k0 r) as Hv1
    by (intros r; by apply kv_update).
  assert (from_option pr_done false (kr_heap k1 !! c) = vdone k c) as Hdn.
  { transitivity (from_option v_done false (kv k1 c)); [unfold kv; by destruct (kr_heap k1 !! c)|].
    rewrite Hv1, decide_True, IHv by done. unfold vdone. case_decide; by destruct (kv k c). }
  assert (∀ k2, (∀ r, kv k2 r = kv k1 r) → ∀ r, kv k2 r =
    if decide (r ∈ c :: l.*2) then (λ v, v <| v_gone := true |>) <$> kv k r else kv k r) as Hv2.
  { intros k2 Hk2 r. rewrite Hk2, Hv1, IHv. destruct (decide (r = c)) as [->|Hrc].
    - destruct (decide (c ∈ c :: l.*2)) as [_|[]]; [|by left]. case_decide; [|done]. by destruct (kv k c).
    - destruct (decide (r ∈ l.*2)); [rewrite decide_True; [done|by right]|].
      rewrite decide_False; [done|]. by intros [|]%elem_of_cons. }
  rewrite Hdn. destruct (vdone k c) eqn:Ed; (split; [by rewrite ?forget_next|]).
  - split; [by apply forget_pids|]. split; [by apply forget_owner_iff|].
    split; [apply Hv2; intros r; by rewrite kv_forget|].
    intros p d. rewrite forget_procs. case_decide as Hp.
    + split; [done|]. intros [_ Hall]. rewrite (Hall c) in Ed; [done|]. subst. by left.
    + change (kr_procs k1) with (kr_procs k0). rewrite IHt. split; intros [Hd Hall]; (split; [done|]).
      * intros c' [[= -> ->]|Hin]%elem_of_cons; [done|by apply Hall].
      * intros c' Hin. apply Hall. by right.
  - split; [done|]. split; [done|]. split; [by apply Hv2|].
    intros p d. change (kr_procs k1) with (kr_procs k0). rewrite IHt.
    split; intros [Hd Hall]; (split; [done|]).
    + intros c' [[= -> ->]|Hin]%elem_of_cons; [done|by apply Hall].
    + intros c' Hin. apply Hall. by right.
Qed.

Lemma pview_orphan p : v_orphan (pview p) = is_orphan p.
Proof. done. Qed.

Lemma tree_finish_reap q p k : tree_ok k → kr_heap k !! q = Some p → pr_pc p = PTorn → tree_ok (finish_reap q k).
Proof.
  intros Hok Hq Hpc. pose proof (kv_heap k q p Hq) as Hkq. unfold finish_reap. rewrite Hq.
  destruct (to_kids k Hok q _ Hkq) as [m Hm]; [simpl; auto|]. simpl in Hm. rewrite Hm.
  change (default ∅ (Some m)) with m.
  destruct (orphan_fold (map_to_list m) k Hok) as (Hn & Hp & Ho & Hv & Ht).
  set (k1 := foldr orphan_child k (map_to_list m)) in *.
  set (k2 := if is_orphan p then forgetLocked (pr_pid p) k1 else k1).
  assert (∀ c, c ∈ (map_to_list m).*2 ↔ ∃ pid, m !! pid = Some c) as Hin.
  { intros c. rewrite list_elem_of_fmap. split.
    - intros ([pid d] & -> & Hx%elem_of_map_to_list). by exists pid.
    - intros [pid Hx]. exists (pid, c). by rewrite elem_of_map_to_list. }
  assert (∀ r, kv k2 r = kv k1 r) as Hv2 by (intros r; unfold k2; destruct (is_orphan p); [apply kv_forget|done]).
  assert (q ∉ (map_to_list m).*2) as Hqm.
  { intros [pid Hx]%Hin. by apply (child_not_self k q (pview p) m pid q). }
  eapply (tree_reap k _ q (pview p) m); try done.
  - unfold k2. simpl. destruct (is_orphan p); [by apply forget_pids|done].
  - unfold k2. destruct (is_orphan p); [by apply (forget_owner_iff _ k1)|done].
  - unfold k2. simpl. destruct (is_orphan p); [by rewrite forget_next|done].
  - intros x c. transitivity (kr_procs k2 !! x = Some c); [done|].
    assert (kr_procs k1 !! x = Some c ↔ kr_procs k !! x = Some c ∧ ∀ c', m !! x = Some c' → vdone k c' = false) as Ht1.
    { rewrite Ht. by setoid_rewrite elem_of_map_to_list. }
    rewrite pview_orphan. unfold k2. destruct (is_orphan p).
    + rewrite forget_procs. simpl. case_decide as Hx; [split; [done|]; intros (_ & _ & Hne); by destruct (Hne eq_refl)|]. rewrite Ht1. tauto.
    + rewrite Ht1. split; [intros []; by split_and!|by intros (? & ? & _)].
  - rewrite (kv_update q _ (λ v, v <| v_kids := None |> <| v_pc := if is_orphan p then PFinished else PNotify |>)) by done.
    rewrite decide_True, Hv2, Hv, decide_False, Hkq by done. done.
  - intros x c v Hx Hcv.
    assert (c ≠ q) as Hcq by by apply (child_not_self k q (pview p) m x c).
    rewrite (kv_update q _ (λ v, v <| v_kids := None |> <| v_pc := if is_orphan p then PFinished else PNotify |>)) by done.
    rewrite decide_False, Hv2, Hv, decide_True, Hcv by (done || apply Hin; by exists x). done.
  - intros c Hcq Hno.
    rewrite (kv_update q _ (λ v, v <| v_kids := None |> <| v_pc := if is_orphan p then PFinished else PNotify |>)) by done.
    rewrite decide_False, Hv2, Hv, decide_False; [done| |done]. intros [x Hx]%Hin. by apply (Hno x).
Qed.

Lemma tree_finish_notify q p k : tree_ok k → kr_heap k !! q = Some p → pr_pc p = PNotify → tree_ok (finish_notify q k).
Proof.
  intros Hok Hq Hpc. pose proof (kv_heap k q p Hq) as Hkq. unfold finish_notify. rewrite Hq. simpl.
  destruct (pr_parent p) as [r|] eqn:Epar; [|done].
  destruct (to_parent k Hok q (pview p) r Hkq Epar) as [Hlt [w Hw]].
  set (k1 := proc_update r (λ p, p <| pr_childEvts ::= notifier_notify |>) k).
  assert (∀ x, kv k1 x = if decide (x = r) then Some (w <| v_evts ::= notifier_notify |>) else kv k x) as Hv1.
  { intros x. unfold k1. rewrite (kv_update r _ (λ v, v <| v_evts ::= notifier_notify |>)) by done.
    case_decide; subst; [by rewrite Hw|done]. }
  assert (tree_ok k1) as Hok1.
  { apply (tree_one k k1 r w _ Hok Hw Hv1); try done; simpl.
    - apply (to_done k Hok r w Hw).
    - auto.
    - intros ch Hch. apply closed_known. by apply known_notify.
    - apply closed_notify.
    - by left.
    - by right; left. }
  set (k2 := proc_Signal SIGCHLD r k1). pose proof (alike_Signal SIGCHLD r k1) as Hal.
  assert (tree_ok k2) as Hok2 by by apply (tree_alike k1).
  destruct Hal as (Hv2 & _). fold k2 in Hv2.
  assert (kv k2 q = Some (pview p)) as Hkq2 by (rewrite Hv2, Hv1, decide_False; [done|lia]).
  assert (∀ x, kv (proc_update q (λ p, p <| pr_pc := PFinished |>) k2) x =
    if decide (x = q) then Some ((pview p) <| v_pc := PFinished |>) else kv k2 x) as Hv3.
  { intros x. rewrite (kv_update q _ (λ v, v <| v_pc := PFinished |>)) by done.
    case_decide; [subst; by rewrite Hkq2|done]. }
  apply (tree_one k2 _ q (pview p) _ Hok2 Hkq2 Hv3); simpl; rewrite ?Hpc; try done.
  - pose proof (to_done k Hok q _ Hkq) as Hd. simpl in Hd. by rewrite Hd, Hpc.
  - intros _. right; right. intros r' w' ch pid E Hw' Hpc'. rewrite Epar in E. injection E as <-.
    rewrite Hv2, Hv1, decide_True in Hw' by done. injection Hw' as <-. simpl in *. apply known_notify.
    apply (to_wait k Hok r w ch pid Hw Hpc').
Qed.

(** ** Every step *)
Lemma tree_step k k' : 0 ≤ getpid → tree_ok k → kquiet k k' → tree_ok k'.
Proof.
  intros Hg Hok [Hstep Hquiet].
  destruct Hstep as [argv env cwd k|q p argv env cwd k r k' Hq Hpc Hs|q p p' k Hq Hown|s k|sig q k
    |order q p pid options k ch r k' Hord Hq Hpc Hr|q p ch pid k Hq Hpc|e q p k Hq Hpc|q p k Hq Hpc|q p k Hq Hpc|t k Ht Hiff].
  - destruct (k_Start getpid kid argv env cwd k) as [r k'] eqn:E. by apply (tree_start argv env cwd k r k').
  - by apply (tree_spawn q p argv env cwd k r k').
  - apply (tree_alike k); [|done]. split; [|done]. intros x. rewrite (kv_update_to q _ k x p Hq), Hown.
    case_decide; [subst; by rewrite (kv_heap k q p Hq)|done].
  - apply (tree_alike k); [apply alike_files|done].
  - apply (tree_alike k); [apply alike_Signal|done].
  - by apply (tree_wait order q p pid options k ch r k').
  - by apply (tree_wake q p ch pid k).
  - by apply (tree_finish _ q p k).
  - by apply (tree_finish_reap q p k).
  - by apply (tree_finish_notify q p k).
  - by apply tree_pids.
Qed.

Lemma tree_init k : kinit k → tree_ok k.
Proof.
  intros (t & o & h & -> & Ht & Hfree). split; unfold kv, kown; simpl; try (by intros *; rewrite lookup_empty).
  - done.
  - intros c. rewrite lookup_empty. by intros []%is_Some_None.
  - intros pid. rewrite lookup_empty. split; [intros E; by destruct (Hfree pid)|by intros []%is_Some_None].
Qed.

Lemma tree_reachable k : 0 ≤ getpid → reachable kinit kquiet k → tree_ok k.
Proof. intros Hg. apply reachable_inv; [apply tree_init|]. intros ? ? _. by apply tree_step. Qed.
End lifecycle.

(** * Properties *)
Section properties.
Context {OS HS : Type} `{HostMMU OS} `{HostIO HS}.
Context (getpid : Z) (kid : nat).
#[local] Abbreviation kern := (kernel OS HS).
Implicit Types (k : kern) (q c : nat).

(** C3. Pids neither leak nor dangle: at every point of every run, the kernel owns
    exactly the pids in its table; a pid in the table is that of a process
    which has not been through its last section under the lock, or of an exited
    child its parent can still wait for; and once all processes have finished
    the table is empty and the kernel owns no pid. *)
Theorem pids_never_leak k :
  0 ≤ getpid → reachable (kinit kid) (kquiet getpid kid) k →
  (∀ pid, pidOwner pid (kr_pids k) = Some kid ↔ is_Some (k_lookup pid k)) ∧
  (∀ pid c, k_lookup pid k = Some c → ∃ p, kr_heap k !! c = Some p ∧ pr_pid p = pid ∧
     (pr_pc p ≠ PNotify ∧ pr_pc p ≠ PFinished ∨
      ∃ q r m, pr_parent p = Some q ∧ kr_heap k !! q = Some r ∧ pr_children r = Some m ∧ m !! pid = Some c)) ∧
  ((∀ c p, kr_heap k !! c = Some p → pr_pc p = PFinished) →
     kr_procs k = ∅ ∧ ∀ pid, pidOwner pid (kr_pids k) ≠ Some kid).
Proof.
  intros Hg Hr. pose proof (tree_reachable getpid kid k Hg Hr) as Hok.
  assert (∀ pid c, k_lookup pid k = Some c → ∃ p, kr_heap k !! c = Some p ∧ pr_pid p = pid ∧
     (pr_pc p ≠ PNotify ∧ pr_pc p ≠ PFinished ∨
      ∃ q r m, pr_parent p = Some q ∧ kr_heap k !! q = Some r ∧ pr_children r = Some m ∧ m !! pid = Some c)) as Htab.
  { intros pid c Hc. destruct (to_table _ k Hok pid c Hc) as (v & Hv & Hpid).
    pose proof Hv as Hv'. unfold kv in Hv. destruct (kr_heap k !! c) as [p|]; [|done]. injection Hv as <-.
    exists p. split_and!; [done|done|].
    destruct (decide (pr_pc p = PNotify ∨ pr_pc p = PFinished)) as [Hpc|]; [right|left; tauto].
    destruct (to_zombie _ k Hok pid c _ Hc Hv' (to_gone _ k Hok pid c _ Hc Hv' Hpc)) as (q & u & m & Epar & Hu & Hm & Hin).
    unfold kv in Hu. destruct (kr_heap k !! q) as [r|] eqn:Hq; [|done]. injection Hu as <-. by exists q, r, m. }
  split; [exact (to_owner _ k Hok)|]. split; [done|]. intros Hfin.
  assert (kr_procs k = ∅) as Hempty.
  { apply map_empty. intros pid. apply eq_None_not_Some. intros [c Hc].
    destruct (Htab pid c Hc) as (p & Hp & _ & [[_ Hne]|(q & r & m & _ & Hq & Hm & _)]).
    - by destruct (Hne (Hfin c p Hp)).
    - pose proof (to_nokids _ k Hok q (pview r) (kv_heap k q r Hq) ltac:(right; by apply (Hfin q))) as Hnone.
      simpl in Hnone. congruence. }
  split; [done|]. intros pid Ho. apply (to_owner _ k Hok pid) in Ho. rewrite Hempty, lookup_empty in Ho.
  by apply is_Some_None in Ho.
Qed.

(** A process that has not ended is the one its pid names: [kill] with that pid
    reaches it, and no other such process has the same pid. *)
Theorem running_pid_unique k c p c' p' :
  0 ≤ getpid → reachable (kinit kid) (kquiet getpid kid) k →
  kr_heap k !! c = Some p → pr_done p = false →
  0 < pr_pid p ∧ k_lookup (pr_pid p) k = Some c ∧
  (kr_heap k !! c' = Some p' → pr_done p' = false → pr_pid p' = pr_pid p → c' = c).
Proof.
  intros Hg Hr Hc Hd. pose proof (tree_reachable getpid kid k Hg Hr) as Hok.
  assert (∀ c p, kr_heap k !! c = Some p → pr_done p = false → kr_procs k !! pr_pid p = Some c) as Hlive.
  { intros d x Hx Hdx. apply (to_live _ k Hok d (pview x)); [by apply kv_heap|done]. }
  pose proof (Hlive c p Hc Hd) as Hl. split_and!; [by apply (to_pos _ k Hok _ c)|done|].
  intros Hc' Hd' E. pose proof (Hlive c' p' Hc' Hd') as Hl'. rewrite E in Hl'. unfold k_lookup in *. congruence.
Qed.

(** C4. [waitpid] is exact.  In any reachable state, whatever order the children
    are looked at in: it reports a child only if that child has exited, with
    the status it exited with, and takes it: its pid is given up and it is
    never reported again.  It blocks (or returns 0 under WNOHANG) only if some
    child matches and no matching child has exited, and fails with ECHILD
    exactly when no child matches. *)
Theorem waitpid_exact order q p pid options k ch r k' :
  0 ≤ getpid → reachable (kinit kid) (kquiet getpid kid) k → (∀ m, order m ≡ₚ map_to_list m) →
  kr_heap k !! q = Some p → pr_pc p = PRunning → waitpid_round order q pid options k = (ch, r, k') →
  ∃ m, pr_children p = Some m ∧
  match r with
  | WReaped cpid status => ∃ c pc,
      m !! cpid = Some c ∧ matches pid cpid ∧ kr_heap k !! c = Some pc ∧ pr_parent pc = Some q ∧
      pr_pid pc = cpid ∧ pr_done pc = true ∧ status = pr_status pc ∧
      k_lookup cpid k' = None ∧ pidOwner cpid (kr_pids k') ≠ Some kid ∧
      pr_children <$> kr_heap k' !! q = Some (Some (delete cpid m))
  | _ =>
      (∀ cpid c pc, m !! cpid = Some c → matches pid cpid → kr_heap k !! c = Some pc → pr_done pc = false) ∧
      (r = WNoChild ↔ ¬ ∃ cpid c, m !! cpid = Some c ∧ matches pid cpid) ∧
      (r = WNone → Z.land options WNOHANG ≠ 0)
  end.
Proof.
  intros Hg Hr Hord Hq Hpc Hround. pose proof (tree_reachable getpid kid k Hg Hr) as Hok.
  destruct (running_kids kid k q p Hok Hq Hpc) as [m Hm]. exists m. split; [done|].
  destruct (waitpid_round_spec kid order q p m pid options k ch r k' Hord Hok Hq Hm Hround) as [_ Hres].
  unfold round_result in Hres. destruct r as [cpid status| | |].
  2-4: destruct Hres as (_ & Hno & Hnc & Hopt); split_and!; [|apply Hnc|apply Hopt];
    intros cpid c pc Hin Hmat Hc; specialize (Hno cpid c Hin Hmat); by rewrite Hc in Hno.
  destruct Hres as (c & pc & Hin & Hc & Hmat & Hd & Epid & Est & _ & Hh & Ht & How & _).
  destruct (to_child _ k Hok q (pview p) m cpid c (kv_heap k q p Hq) Hm Hin) as (_ & v & Hv & _ & Epar & _).
  rewrite (kv_heap k c pc Hc) in Hv. injection Hv as <-.
  assert (kr_procs k' !! cpid = None) as Hgone by (rewrite Ht; by rewrite decide_True).
  exists c, pc. split_and!; try done.
  - intros Ho. apply (How cpid) in Ho. rewrite Hgone in Ho. by apply is_Some_None in Ho.
  - by rewrite Hh, lookup_insert_eq.
Qed.

(** C22. A parent blocked in [waitpid] is woken: if a child it waits for has exited,
    the channel it sleeps on is closed, or that child has yet to notify it. *)
Theorem waitpid_woken k q p ch pid m cpid c pc :
  0 ≤ getpid → reachable (kinit kid) (kquiet getpid kid) k →
  kr_heap k !! q = Some p → pr_pc p = PWaiting ch pid → pr_children p = Some m →
  m !! cpid = Some c → matches pid cpid → kr_heap k !! c = Some pc → pr_done pc = true →
  chan_closed (pr_childEvts p) ch = true ∨
  (pr_pc pc = PTorn ∨ pr_pc pc = PNotify) ∧ pr_parent pc = Some q ∧ pr_parentGone pc = false.
Proof.
  intros Hg Hr Hq Hpc Hm Hin Hmat Hc Hd. pose proof (tree_reachable getpid kid k Hg Hr) as Hok.
  destruct (to_wait _ k Hok q (pview p) ch pid (kv_heap k q p Hq) Hpc) as [_ Hw].
  destruct (to_child _ k Hok q (pview p) m cpid c (kv_heap k q p Hq) Hm Hin) as (_ & v & Hv & _ & Epar & Eg).
  rewrite (kv_heap k c pc Hc) in Hv. injection Hv as <-.
  destruct (Hw m cpid c (pview pc) Hm Hin Hmat (kv_heap k c pc Hc) Hd); auto.
Qed.

(** What a process exits with: the status of its first [exit] if it called it
    (later ones, and being killed, change nothing), otherwise SIGKILL if it was
    killed, SIGABRT if its guest trapped, 0 or 1 (in the exit-code byte) as its
    [run] returned; and that is what the parent's [waitpid] of it then reports,
    at the first attempt. *)
Theorem exit_status_reported order q c p pc e options k ch r k' :
  0 ≤ getpid → reachable (kinit kid) (kquiet getpid kid) k → (∀ m, order m ≡ₚ map_to_list m) →
  kr_heap k !! q = Some p → pr_pc p = PRunning → kr_heap k !! c = Some pc → pr_pc pc = PRunning →
  pr_parent pc = Some q → pr_parentGone pc = false → q ≠ c → e ≠ GNoStart →
  waitpid_round order q (pr_pid pc) options (finish_teardown (execute_status e pc) c k) = (ch, r, k') →
  r = WReaped (pr_pid pc)
        (if pr_exitSet pc then pr_status pc
         else if sg_killed (pr_sig pc) then SIGKILL
         else match e with GReturned true => 0 | GReturned false => 256 | _ => SIGABRT end) ∧
  (∀ s s', execute_status e (proc_exit s' (proc_exit s pc).2).2 = execute_status e (proc_exit s pc).2).
Proof.
  intros Hg Hr Hord Hq Hpq Hc Hpc Epar Eg Hqc He Hround. split.
  2: { intros s s'. unfold proc_exit. by destruct (pr_exitSet pc) eqn:E; simpl; rewrite ?E. }
  pose proof (tree_reachable getpid kid k Hg Hr) as Hok.
  set (st := execute_status e pc) in *. pose proof (tree_finish kid st c pc k Hok Hc Hpc) as Hok1.
  set (k1 := finish_teardown st c k) in *.
  assert (kr_heap k1 !! q = Some p ∧ ∃ pc1, kr_heap k1 !! c = Some pc1 ∧ pr_done pc1 = true ∧
    pr_status pc1 = st ∧ pr_pid pc1 = pr_pid pc) as (Hq1 & pc1 & Hc1 & Hd1 & Hst & Epid).
  { unfold k1, finish_teardown. rewrite Hc. destruct (fd_closeAll _ _) as [t s].
    destruct (shm_detachAll _ _ _) as [sh o]. unfold proc_update. simpl. split; [by rewrite lookup_alter_ne|].
    rewrite lookup_alter_eq, Hc. simpl. eexists. split_and!; reflexivity. }
  destruct (running_kids kid k1 q p Hok1 Hq1 Hpq) as [m Hm].
  destruct (waitpid_round_spec kid order q p m (pr_pid pc) options k1 ch r k' Hord Hok1 Hq1 Hm Hround) as [_ Hres].
  assert (0 < pr_pid pc ∧ m !! pr_pid pc = Some c) as [Hpos Hin].
  { pose proof (to_live _ k Hok c (pview pc) (kv_heap k c pc Hc)) as Hl. simpl in Hl.
    pose proof (to_done _ k Hok c (pview pc) (kv_heap k c pc Hc)) as Hdn. simpl in Hdn. rewrite Hpc in Hdn.
    specialize (Hl Hdn). split; [by apply (to_pos _ k Hok _ c)|].
    destruct (to_zombie _ k Hok (pr_pid pc) c (pview pc) Hl (kv_heap k c pc Hc)) as (q' & u & m' & E & Hu & Hm' & Hin).
    { unfold v_orphan. simpl. by rewrite Epar, Eg. }
    simpl in E. rewrite Epar in E. injection E as <-. rewrite (kv_heap k q p Hq) in Hu. injection Hu as <-.
    simpl in Hm'. congruence. }
  unfold round_result in Hres. destruct r as [cpid status| | |].
  2-4: destruct Hres as (_ & Hno & _); specialize (Hno (pr_pid pc) c Hin ltac:(by right));
    rewrite Hc1 in Hno; simpl in Hno; congruence.
  destruct Hres as (d & pd & Hd & Hpd & [?|Ecp] & _ & _ & -> & _); [lia|]. subst cpid.
  rewrite Hin in Hd. injection Hd as <-. rewrite Hc1 in Hpd. injection Hpd as <-. f_equal.
  rewrite Hst. unfold st, execute_status. destruct e; [done|done|]. by destruct (pr_exitSet pc), (sg_killed (pr_sig pc)).
Qed.
End properties.

(** * A run

    A process starts, spawns a child and waits for it; the child exits. *)
Definition demo_order (m : gmap Z nat) : list (Z * nat) := map_to_list m.

Definition run0 : kernel Sim.sim unit := k_New pids_zero Sim.boot tt.
Definition run1 := (k_Start 42 1 ["postgres"] [] "/" run0).2.
Definition run2 := from_option snd run1 (spawn 42 1 0 ["postgres"] [] "/" run1).
Definition round2 : nat * wait_result * kernel Sim.sim unit := waitpid_round demo_order 0 (-1) 0 run2.
Definition run3 := proc_update 0 (λ p, p <| pr_pc := PWaiting 0 (-1) |>) round2.2.
Definition the (q : nat) (k : kernel Sim.sim unit) : proc := default (newProcess 0 None [] []) (kr_heap k !! q).
Definition run4 := finish_teardown (execute_status (GReturned false) (the 1 run3)) 1 run3.
Definition run4' := finish_teardown (execute_status (GReturned false) (the 1 run2)) 1 run2.

(** Nothing is in the window that [kquiet] is about. *)
Lemma quiet_none (k k' : kernel Sim.sim unit) : kstep 42 1 k k' →
  map_Forall (λ _ p, pr_pc p ≠ PTorn) (kr_heap k) → kquiet 42 1 k k'.
Proof.
  intros Hs Hall. split; [done|]. intros c v _ _ q u Hu Hpc. unfold kv in Hu.
  destruct (kr_heap k !! q) as [p|] eqn:E; [|done]. injection Hu as <-. by destruct (Hall q p E).
Qed.

Lemma the_lookup q k : is_Some (kr_heap k !! q) → kr_heap k !! q = Some (the q k).
Proof. intros [p E]. unfold the. by rewrite E. Qed.

Lemma run2_reachable : reachable (kinit 1) (kquiet 42 1) run2.
Proof.
  exists run0. split; [exists pids_zero, Sim.boot, tt; split_and!; [done|by left|done]|].
  eapply rtc_l; [apply (quiet_none run0 run1); [apply k_start|by decided]|].
  apply rtc_once. apply quiet_none; [|by decided].
  apply (k_spawn 42 1 0 (the 0 run1) ["postgres"] [] "/" run1 86018);
    [apply the_lookup; decided|by vm_compute|].
  unfold run2. destruct (spawn 42 1 0 ["postgres"] [] "/" run1) as [[r k]|] eqn:E; simpl.
  - assert (fst <$> spawn 42 1 0 ["postgres"] [] "/" run1 = Some 86018) as Hr by by vm_compute.
    rewrite E in Hr. simpl in Hr. by injection Hr as ->.
  - assert (is_Some (spawn 42 1 0 ["postgres"] [] "/" run1)) as Hs by decided. rewrite E in Hs.
    by apply is_Some_None in Hs.
Qed.

Lemma demo_order_ok m : demo_order m ≡ₚ map_to_list m.
Proof. done. Qed.

Definition round4 : nat * wait_result * kernel Sim.sim unit := waitpid_round demo_order 0 86018 0 run4'.

Lemma round_eq {A B C} (x : A * B * C) a b : x.1 = (a, b) → x = (a, b, x.2).
Proof. destruct x as [[??]?]. simpl. by intros [= -> ->]. Qed.

Lemma run4_reachable : reachable (kinit 1) (kquiet 42 1) run4.
Proof.
  destruct run2_reachable as (k0 & Hi & Hsteps). exists k0. split; [done|].
  apply (rtc_r _ run3); [apply (rtc_r _ run2); [exact Hsteps|]|].
  - apply quiet_none; [|by decided]. unfold run3.
    apply (k_wait 42 1 demo_order 0 (the 0 run2) (-1) 0 run2 0 WBlock round2.2 demo_order_ok);
      [apply the_lookup; decided|by vm_compute|].
    unfold round2. apply round_eq. by vm_compute.
  - apply quiet_none; [|by decided]. unfold run4.
    apply (k_finish 42 1 (GReturned false) 1 (the 1 run3)); [apply the_lookup; decided|by vm_compute].
Qed.

Lemma run4'_reachable : reachable (kinit 1) (kquiet 42 1) run4'.
Proof.
  destruct run2_reachable as (k0 & Hi & Hsteps). exists k0. split; [done|].
  apply (rtc_r _ run2); [exact Hsteps|]. apply quiet_none; [|by decided].
  unfold run4'. apply (k_finish 42 1 (GReturned false) 1 (the 1 run2)); [apply the_lookup; decided|by vm_compute].
Qed.

Lemma pids_never_leak_witness :
  pidOwner 86018 (kr_pids run4) = Some 1%nat ↔ is_Some (k_lookup 86018 run4).
Proof. exact (proj1 (pids_never_leak 42 1 run4 ltac:(lia) run4_reachable) 86018). Defined.

Lemma running_pid_unique_witness : k_lookup (pr_pid (the 0 run4)) run4 = Some 0%nat.
Proof.
  apply (running_pid_unique 42 1 run4 0 (the 0 run4) 0 (the 0 run4));
    [lia|apply run4_reachable|apply the_lookup; decided|by vm_compute].
Defined.

Lemma waitpid_exact_witness :
  round4.1.2 = WReaped 86018 256 ∧ ∃ m, pr_children (the 0 run4') = Some m.
Proof.
  split; [by vm_compute|].
  destruct (waitpid_exact 42 1 demo_order 0 (the 0 run4') 86018 0 run4' round4.1.1 round4.1.2 round4.2
    ltac:(lia) run4'_reachable demo_order_ok (the_lookup 0 run4' ltac:(decided)) ltac:(by vm_compute))
    as (m & Hm & _); [unfold round4; by destruct (waitpid_round demo_order 0 86018 0 run4') as [[? ?] ?]|]. by exists m.
Defined.

Lemma waitpid_woken_witness :
  chan_closed (pr_childEvts (the 0 run4)) 0 = true ∨
  (pr_pc (the 1 run4) = PTorn ∨ pr_pc (the 1 run4) = PNotify) ∧ pr_parent (the 1 run4) = Some 0%nat ∧
    pr_parentGone (the 1 run4) = false.
Proof.
  apply (waitpid_woken 42 1 run4 0 (the 0 run4) 0 (-1) {[86018 := 1%nat]} 86018 1 (the 1 run4));
    [lia|apply run4_reachable|apply the_lookup; decided|by vm_compute|by vm_compute|by vm_compute|by left
    |apply the_lookup; decided|by vm_compute].
Defined.

Lemma exit_status_reported_witness : round4.1.2 = WReaped (pr_pid (the 1 run2)) 256.
Proof.
  destruct (exit_status_reported 42 1 demo_order 0 1 (the 0 run2) (the 1 run2) (GReturned false) 0 run2
    round4.1.1 round4.1.2 round4.2 ltac:(lia) run2_reachable demo_order_ok
    (the_lookup 0 run2 ltac:(decided)) ltac:(by vm_compute) (the_lookup 1 run2 ltac:(decided))
    ltac:(by vm_compute) ltac:(by vm_compute) ltac:(by vm_compute) ltac:(done) ltac:(done)) as [E _].
  - assert (pr_pid (the 1 run2) = 86018) as -> by by vm_compute. 
    unfold round4, run4'. by destruct (waitpid_round _ _ _ _ _) as [[? ?] ?].
  - rewrite E. by vm_compute.
Defined.

(** The window is real.  A child closes [done]; its parent ends and gives up the
    child's pid; the pid goes to a new process; and the child's own last
    section, finding itself an orphan, gives the pid up again: the new process
    runs, but its pid names nothing and can be allocated once more. *)
Definition race0 := finish_teardown (execute_status (GReturned true) (the 0 run4')) 0 run4'.
Definition race1 := finish_reap 0 race0.
Definition race2 := race1 <| kr_pids := PidTab 2 (Some ∅) |>.
Definition race3 := (k_Start 42 1 ["postgres"] [] "/" race2).2.
Definition race4 := finish_reap 1 race3.

Lemma pid_reused_too_early :
  rtc (kstep 42 1) run4' race4 ∧ pr_pc (the 2 race4) = PRunning ∧ pr_pid (the 2 race4) = 86018 ∧
  k_lookup 86018 race4 = None ∧ pidOwner 86018 (kr_pids race4) = None.
Proof.
  split; [|split_and!; by vm_compute].
  apply (rtc_l _ _ race0).
  { unfold race0. apply (k_finish 42 1 (GReturned true) 0 (the 0 run4') run4'); [apply the_lookup; decided|by vm_compute]. }
  apply (rtc_l _ _ race1).
  { unfold race1. apply (k_reap 42 1 0 (the 0 race0)); [apply the_lookup; decided|by vm_compute]. }
  apply (rtc_l _ _ race2).
  { unfold race2. apply (k_foreign 42 1 (PidTab 2 (Some ∅)) race1); [by right|]. intros pid.
    assert (owners (kr_pids race1) = ∅) as -> by by vm_compute. done. }
  apply (rtc_l _ _ race3); [unfold race3; apply (k_start 42 1 ["postgres"] [] "/" race2)|].
  apply rtc_once. unfold race4. apply (k_reap 42 1 1 (the 1 race3)); [apply the_lookup; decided|by vm_compute].
Qed.
