(* ===== verification/Host.v ===== *)
(** The host interface ([src/internal/kernel/host.go]): what a process calls.

    A call of the [fd], [net], [shm] and [sig] interfaces runs on an [hstate],
    the calling process and the files and shared objects of its kernel; those
    of [proc] run on the whole kernel.  A call that may block takes a schedule,
    as [fd_io] does. *)
From S2P Require Import Prelude Abi Notify Bytes Vmem GuestMem Signals Sema FdTable Pipe Stdio Shm Paths Pids Socket World Alarm Process.
From Stdlib Require Import Ascii.

Record hstate (OS HS : Type) := HState { h_p : proc; h_s : kstate OS HS }.
Arguments HState {OS HS}. Arguments h_p {OS HS}. Arguments h_s {OS HS}.
#[export] Instance eta_hstate OS HS : Eta (hstate OS HS) := λ r, {| h_p := h_p r; h_s := h_s r |}.

(** How a host call goes: it returns to the guest, or it is still blocked when
    its schedule ends, or Go panics in it. *)
Inductive outcome (S : Type) := Ret (r : hostret) (s : S) | Blocked | Panic.
Arguments Ret {S}. Arguments Blocked {S}. Arguments Panic {S}.

Definition returns {S} (n : Z) (s : S) : outcome S := Ret (n, None) s.
Definition or_blocked {S} (r : option (hostret * S)) : outcome S :=
  match r with Some (r, s) => Ret r s | None => Blocked end.

(** [strings.Cut(v, "=")]: what is before and after the first one. *)
Fixpoint cut_eq (v : string) : string * string :=
  match v with
  | EmptyString => (EmptyString, EmptyString)
  | String c v =>
      if decide (c = "="%char) then (EmptyString, v)
      else let '(name, value) := cut_eq v in (String c name, value)
  end.

Definition HasProgram (programs : list string) (argv0 : string) : bool :=
  bool_decide (Base argv0 ∈ programs).

Section host.
Context {OS HS : Type} `{HostMMU OS} `{HostIO HS}.
#[local] Abbreviation host := (hstate OS HS).
#[local] Abbreviation world := (kworld OS HS).
Implicit Types (h : host).

(** *** The parts of the state *)
Definition h_w h : world := o_files (h_s h).
Definition h_mem h : memory := pr_mem (h_p h).
Definition h_os h : OS := w_os (h_w h).
Definition set_w (f : world → world) h : host := h <| h_s ::= λ s, s <| o_files ::= f |> |>.
Definition set_os (o : OS) h : host := set_w (λ w, w <| w_os := o |>) h.

(** An operation of the process's descriptor table. *)
Definition on_fds {A} (f : fdTable → kstate OS HS → A * fdTable * kstate OS HS) h : A * host :=
  let '(a, t, s) := f (pr_fds (h_p h)) (h_s h) in
  (a, HState ((h_p h) <| pr_fds := t |>) s).

(** The process signals itself. *)
Definition h_Signal (sig : Z) h : host :=
  let '(sg, o) := Signal (h_mem h) sig (pr_sig (h_p h)) (h_os h) in
  set_os o (h <| h_p ::= λ p, p <| pr_sig := sg |> |>).

(** *** Guest memory *)
Definition h_readU32 (addr : Z) h : option Z := readU32 (h_os h) (h_mem h) addr.
Definition h_writeU32 (addr v : Z) h : bool * host :=
  let '(ok, o) := writeU32 (h_mem h) addr v (h_os h) in (ok, set_os o h).
(** The bytes of [mem.Slice(addr, n)]. *)
Definition h_slice (addr n : Z) h : option bytes :=
  match Slice addr n (h_mem h) with
  | None => None
  | Some (a, _) => Some (mem_read (h_os h) (h_mem h) a n)
  end.

(** [None]: [encode] panics. *)
Definition writeSockaddr (a : sockaddr) (addr lenAddr : Z) h : option (Z * host) :=
  if (addr =? 0) || (lenAddr =? 0) then Some (0, h)
  else match h_readU32 lenAddr h with
       | None => Some (- EFAULT, h)
       | Some room =>
           match encode a with
           | None => None
           | Some enc =>
               let n := Z.min (u32 (zlen enc)) room in
               match Slice addr n (h_mem h) with
               | None => Some (- EFAULT, h)
               | Some (b, _) =>
                   let h := set_os (mem_write (h_mem h) b (ztake n enc) (h_os h)) h in
                   Some (0, (h_writeU32 lenAddr (u32 (zlen enc)) h).2)
               end
           end
       end.

(** *** sig *)
Definition sigHost_Register (addr : Z) h : Z * host :=
  let '(r, sg, o) := registerSignals (h_mem h) addr (pr_sig (h_p h)) (h_os h) in
  (r, set_os o (h <| h_p ::= λ p, p <| pr_sig := sg |> |>)).

(** [time.Duration(usec) * time.Microsecond]. *)
Definition usec_duration (usec : Z) : Z := i64 (i64 usec * 1000).

Definition sigHost_SetAlarm (valueUsec intervalUsec now : Z) h : Z * host :=
  let '(rem, a) := setAlarm (usec_duration valueUsec) (usec_duration intervalUsec) now (pr_alarm (h_p h)) in
  (Z.quot rem 1000, h <| h_p ::= λ p, p <| pr_alarm := a |> |>).

(** The zero time is no deadline: then the timer's case is never chosen. *)
Definition sleep_deadline (usec now : Z) : option Z :=
  if usec =? 2 ^ 64 - 1 then None else Some (now + usec_duration usec).
Definition sched_ok (deadline : option Z) {E} (sched : list (E * Z)) : bool :=
  forallb (λ e, negb (e.2 =? 2) || bool_decide (deadline ≠ None)) sched.

Definition sigHost_Sleep (usec now : Z) (sched : list ((sigstate → OS → sigstate * OS) * Z)) h : outcome host :=
  if negb (sched_ok (sleep_deadline usec now) sched) then Blocked
  else match block (h_mem h) sched (pr_sig (h_p h)) (h_os h) with
       | None => Blocked
       | Some (r, sg, o) =>
           let h := set_os o (h <| h_p ::= λ p, p <| pr_sig := sg |> |>) in
           match r with
           | interrupted => returns (- EINTR) h
           | killed => Ret (0, Some errKilled) h
           | _ => returns 0 h
           end
       end.

(** *** fd *)

(** A new open file description, with its descriptor. *)
Definition add_file (f : kfile) (flags : Z) (cloexec : bool) h : Z * host :=
  on_fds (λ t s, let '(p, s) := newOpenFile f flags s in fd_add p cloexec t s) h.
Definition close_fd (fd : Z) h : Z * host := on_fds (fd_close fd) h.

Definition fdHost_Pipe (fdsAddr flags : Z) h : Z * host :=
  let '(p, w) := add_pipe (h_w h) in
  let h := set_w (λ _, w) h in
  let nb := Z.land flags O_NONBLOCK in
  let '(rfd, h) := add_file (KPipeReader p) nb false h in
  let '(wfd, h) := add_file (KPipeWriter p) nb false h in
  let '(ok, h) := h_writeU32 fdsAddr (u32 rfd) h in
  let '(ok, h) := if ok then h_writeU32 (u32 (fdsAddr + 4)) (u32 wfd) h else (false, h) in
  if ok then (0, h)
  else
    let '(_, h) := close_fd rfd h in
    let '(_, h) := close_fd wfd h in
    (- EFAULT, h).

Definition fdHost_Devnull h : Z * host := add_file KNull 0 false h.

(** The description a descriptor refers to, and its file. *)
Definition h_get (fd : Z) h : option (nat * kfile) :=
  match fd_get fd (pr_fds (h_p h)) with
  | None => None
  | Some p => (λ f, (p, of_f f)) <$> o_heap (h_s h) !! p
  end.
Definition h_nonblock (p : nat) h : bool := nonblock p (h_s h).
Definition h_changed (f : kfile) h : host := set_w (λ w, (kfile_changed f w).2) h.

(** [op] of [io] reads into, or writes from, the guest's buffer. *)
Definition read_op (f : kfile) (a n : Z) h : (Z * Z) * host :=
  let '((b, errno), w) := kfile_read f n (h_w h) in
  let h := set_w (λ _, w) h in
  ((zlen b, errno), set_os (mem_write (h_mem h) a b (h_os h)) h).
Definition write_op (f : kfile) (a n : Z) h : (Z * Z) * host :=
  let '(r, w) := kfile_write f (mem_read (h_os h) (h_mem h) a n) (h_w h) in
  (r, set_w (λ _, w) h).

#[local] Abbreviation schedule := (list ((host → host) * wakeReason)).

Definition fdHost_Read (fd buf n : Z) (sched : schedule) h : outcome host :=
  match h_get fd h with
  | None => returns (- EBADF) h
  | Some (p, f) =>
      match Slice buf n (h_mem h) with
      | None => returns (- EFAULT) h
      | Some (a, _) => or_blocked (fd_io (h_changed f) (read_op f a n) (h_nonblock p) sched h)
      end
  end.

Definition fdHost_Write (fd buf n : Z) (sched : schedule) h : outcome host :=
  match h_get fd h with
  | None => returns (- EBADF) h
  | Some (p, f) =>
      match Slice buf n (h_mem h) with
      | None => returns (- EFAULT) h
      | Some (a, _) =>
          match fd_io (h_changed f) (write_op f a n) (h_nonblock p) sched h with
          | None => Blocked
          | Some (r, h) => Ret r (if r.1 =? - EPIPE then h_Signal SIGPIPE h else h)
          end
      end
  end.

(** *** net *)

(** The socket a descriptor refers to and its description, or an errno. *)
Definition psocket (fd : Z) h : (nat * nat) + Z :=
  match h_get fd h with
  | None => inr (- EBADF)
  | Some (p, KSocket s) => inl (s, p)
  | Some _ => inr (- ENOTSOCK)
  end.

Definition sockaddrArg (addr n : Z) h : sockaddr + Z :=
  match h_slice addr n h with
  | None => inr (- EFAULT)
  | Some b => match decodeSockaddr b with inl a => inl a | inr e => inr (- e) end
  end.

(** An operation of the socket at [s]. *)
Definition on_socket {A} (d : A) (s : nat) (f : socket → A * socket) h : A * host :=
  let '(a, w) := at_socket d s f (h_w h) in (a, set_w (λ _, w) h).

Definition netHost_Socket (domain socktype protocol : Z) h : Z * host :=
  if negb ((domain =? AF_INET) || (domain =? AF_INET6) || (domain =? AF_UNIX)) then (- EAFNOSUPPORT, h)
  else if negb (Z.ldiff socktype (Z.lor SOCK_NONBLOCK SOCK_CLOEXEC) =? SOCK_STREAM) then (- EPROTONOSUPPORT, h)
  else
    let flags := if negb (Z.land socktype SOCK_NONBLOCK =? 0) then O_NONBLOCK else 0 in
    let '(s, w) := add_socket (newSocket domain) (h_w h) in
    add_file (KSocket s) flags (negb (Z.land socktype SOCK_CLOEXEC =? 0)) (set_w (λ _, w) h).

(** What the kernel is configured with, and what opening a new file in the
    filesystem of a mount does. *)
Context (mounts : list Mount) (fs_create : Mount → string → HS → HS).

Definition createSocketFile (guest : string) (w : HS) : HS :=
  match mountFor mounts guest with
  | None => w
  | Some (m, rel) => if negb (m_FS m) || bool_decide (rel = "") then w else fs_create m rel w
  end.

Definition netHost_Bind (fd addr n : Z) h : Z * host :=
  match psocket fd h with
  | inr e => (e, h)
  | inl (s, _) =>
      match sockaddrArg addr n h with
      | inr e => (e, h)
      | inl a =>
          match w_socks (h_w h) !! s with
          | None => (- EBADF, h)
          | Some k =>
              let '(e, k, u, x) := sock_bind net_Listen createSocketFile mounts a k
                                     (w_unix (h_w h)) (w_host (h_w h)) in
              (- e, set_w (λ w, w <| w_socks ::= <[s := k]> |> <| w_unix := u |> <| w_host := x |>) h)
          end
      end
  end.

Definition netHost_Listen (fd backlog : Z) h : Z * host :=
  match psocket fd h with
  | inr e => (e, h)
  | inl (s, _) => let '(e, h) := on_socket EBADF s sock_listen h in (- e, h)
  end.

(** [op] of [io] also leaves the new socket in [ns]. *)
Definition accept_op (s : nat) (x : host * option nat) : (Z * Z) * (host * option nat) :=
  let '((ns, e), h) := on_socket (None, EBADF) s sock_accept x.1 in
  match ns with
  | None => ((0, e), (h, None))
  | Some k => let '(i, w) := add_socket k (h_w h) in ((0, e), (set_w (λ _, w) h, Some i))
  end.

Definition netHost_Accept (fd addr lenAddr flags : Z) (sched : schedule) h : outcome host :=
  match psocket fd h with
  | inr e => returns e h
  | inl (s, p) =>
      match fd_io (λ x, (h_changed (KSocket s) x.1, x.2)) (accept_op s) (λ x, h_nonblock p x.1)
              (map (λ e, (λ x, (e.1 x.1, x.2), e.2)) sched) (h, None) with
      | None => Blocked
      | Some ((r, err), (h, ns)) =>
          if (r <? 0) || bool_decide (err ≠ None) then Ret (r, err) h
          else match ns with
               | None => Panic
               | Some i =>
                   let nflags := if negb (Z.land flags SOCK_NONBLOCK =? 0) then O_NONBLOCK else 0 in
                   let '(nfd, h) := add_file (KSocket i) nflags (negb (Z.land flags SOCK_CLOEXEC =? 0)) h in
                   match w_socks (h_w h) !! i ≫= k_peer with
                   | None => returns nfd h
                   | Some peer =>
                       match writeSockaddr peer addr lenAddr h with
                       | None => Panic
                       | Some (e, h) =>
                           if negb (e =? 0) then let '(_, h) := close_fd nfd h in returns e h
                           else returns nfd h
                       end
                   end
               end
      end
  end.

(** [vdial] is the rendezvous with a listener inside the kernel (see [sock_dial]). *)
Definition netHost_Connect (fd addr n : Z) (vdial : nat → HS → option (nat * netaddr) * HS) h : Z * host :=
  match psocket fd h with
  | inr e => (e, h)
  | inl (s, _) =>
      match sockaddrArg addr n h with
      | inr e => (e, h)
      | inl a =>
          match w_socks (h_w h) !! s with
          | None => (- EBADF, h)
          | Some k =>
              let '(e, k, x) := sock_connect net_Dial mounts a vdial k (w_unix (h_w h)) (w_host (h_w h)) in
              (- e, set_w (λ w, w <| w_socks ::= <[s := k]> |> <| w_host := x |>) h)
          end
      end
  end.

(** [op] of [io] in [Recv]. *)
Definition recv_op (s : nat) (a n : Z) (peek : bool) h : (Z * Z) * host :=
  let '((b, errno), h) := on_socket ([], EBADF) s (sock_recv n peek) h in
  ((zlen b, errno), set_os (mem_write (h_mem h) a b (h_os h)) h).
Definition send_op (s : nat) (a n : Z) h : (Z * Z) * host :=
  on_socket (0, EBADF) s (sock_send (mem_read (h_os h) (h_mem h) a n)) h.

(** The result of a call with [MSG_DONTWAIT]. *)
Definition dontwait (r : (Z * Z) * host) : hostret * host :=
  let '((n, e), h) := r in ((if negb (e =? 0) then - e else i32 n, None), h).

Definition netHost_Recv (fd buf n flags : Z) (sched : schedule) h : outcome host :=
  match psocket fd h with
  | inr e => returns e h
  | inl (s, p) =>
      match Slice buf n (h_mem h) with
      | None => returns (- EFAULT) h
      | Some (a, _) =>
          let peek := negb (Z.land flags MSG_PEEK =? 0) in
          if negb (Z.land flags MSG_DONTWAIT =? 0)
          then or_blocked (Some (dontwait (recv_op s a n peek h)))
          else or_blocked (fd_io (h_changed (KSocket s)) (recv_op s a n peek) (h_nonblock p) sched h)
      end
  end.

Definition netHost_Send (fd buf n flags : Z) (sched : schedule) h : outcome host :=
  match psocket fd h with
  | inr e => returns e h
  | inl (s, p) =>
      match Slice buf n (h_mem h) with
      | None => returns (- EFAULT) h
      | Some (a, _) =>
          match if negb (Z.land flags MSG_DONTWAIT =? 0) then Some (dontwait (send_op s a n h))
                else fd_io (h_changed (KSocket s)) (send_op s a n) (h_nonblock p) sched h with
          | None => Blocked
          | Some (r, h) =>
              Ret r (if (r.1 =? - EPIPE) && (Z.land flags MSG_NOSIGNAL =? 0) then h_Signal SIGPIPE h else h)
          end
      end
  end.

Definition netHost_Shutdown (fd how : Z) h : Z * host :=
  match psocket fd h with
  | inr e => (e, h)
  | inl (s, _) => let '(e, h) := on_socket EBADF s (sock_shutdown how) h in (- e, h)
  end.

Definition netHost_Getsockopt (fd level name val lenAddr : Z) h : Z * host :=
  match psocket fd h with
  | inr e => (e, h)
  | inl (s, _) =>
      match h_readU32 lenAddr h with
      | None => (- EFAULT, h)
      | Some room =>
          if room <? 4 then (- EINVAL, h)
          else
            let v := from_option (sock_getsockopt level name) 0 (w_socks (h_w h) !! s) in
            let '(ok, h) := h_writeU32 val (u32 v) h in
            let '(ok, h) := if ok then h_writeU32 lenAddr 4 h else (false, h) in
            (if ok then 0 else - EFAULT, h)
      end
  end.

Definition netHost_Setsockopt (fd level name val n : Z) h : Z * host :=
  match psocket fd h with
  | inr e => (e, h)
  | inl (s, _) =>
      match if 4 <=? n then h_readU32 val h else Some 0 with
      | None => (- EFAULT, h)
      | Some v =>
          let '(_, h) := on_socket tt s (λ k, (tt, sock_setsockopt level name (i32 v) k)) h in (0, h)
      end
  end.

Definition netHost_Getsockname (fd addr lenAddr : Z) h : option (Z * host) :=
  match psocket fd h with
  | inr e => Some (e, h)
  | inl (s, _) =>
      match w_socks (h_w h) !! s with
      | None => Some (- EBADF, h)
      | Some k => writeSockaddr (sock_getsockname k) addr lenAddr h
      end
  end.

Definition netHost_Getpeername (fd addr lenAddr : Z) h : option (Z * host) :=
  match psocket fd h with
  | inr e => Some (e, h)
  | inl (s, _) =>
      match w_socks (h_w h) !! s with
      | None => Some (- EBADF, h)
      | Some k =>
          match sock_getpeername k with
          | inr e => Some (- e, h)
          | inl a => writeSockaddr a addr lenAddr h
          end
      end
  end.

(** *** shm; [None] is a Go panic (see [MapRange]) *)
Definition on_shm {A} (f : shmTable → OS → A * shmTable * OS) h : A * host :=
  let '(a, t, o) := f (w_shm (h_w h)) (h_os h) in
  (a, set_w (λ w, w <| w_shm := t |> <| w_os := o |>) h).
Definition on_attached (f : memory → list attachment → shmTable → OS
    → option (Z * list attachment * shmTable * OS)) h : option (Z * host) :=
  match f (h_mem h) (pr_shmAttached (h_p h)) (w_shm (h_w h)) (h_os h) with
  | None => None
  | Some (r, al, t, o) =>
      Some (r, set_w (λ w, w <| w_shm := t |> <| w_os := o |>) (h <| h_p ::= λ p, p <| pr_shmAttached := al |> |>))
  end.

Definition shmHost_Create (size : Z) h : Z * host := on_shm (shm_create size) h.
Definition shmHost_Size (id : Z) h : Z := shm_size id (w_shm (h_w h)).
Definition shmHost_Attach (id addr : Z) h : option (Z * host) := on_attached (shm_attach id addr) h.
Definition shmHost_Remove (id : Z) h : Z * host := on_shm (shm_remove id) h.

Definition shmFD (fd : Z) h : nat + Z :=
  match h_get fd h with
  | None => inr (- EBADF)
  | Some (_, KShm s) => inl s
  | Some _ => inr (- EINVAL)
  end.

Definition shmHost_Open (nameAddr nameLen flags : Z) h : Z * host :=
  match h_slice nameAddr nameLen h with
  | None => (- EFAULT, h)
  | Some b =>
      let '(fd, t, s, sh) := shm_open KShm (string_of_bytes b) flags (pr_fds (h_p h)) (h_s h) (w_shm (h_w h)) in
      (fd, set_w (λ w, w <| w_shm := sh |>) (HState ((h_p h) <| pr_fds := t |>) s))
  end.

Definition shmHost_Unlink (nameAddr nameLen : Z) h : Z * host :=
  match h_slice nameAddr nameLen h with
  | None => (- EFAULT, h)
  | Some b => on_shm (shm_unlink (string_of_bytes b)) h
  end.

Definition shmHost_Truncate (fd size : Z) h : Z * host :=
  match shmFD fd h with
  | inr e => (e, h)
  | inl s => on_shm (shm_truncate s size) h
  end.

Definition shmHost_FdSize (fd : Z) h : Z :=
  match shmFD fd h with inr e => e | inl s => shm_fdSize s (w_shm (h_w h)) end.

Definition shmHost_MapFd (fd addr n : Z) h : option (Z * host) :=
  match shmFD fd h with
  | inr e => Some (e, h)
  | inl s => on_attached (shm_mapFd s addr n) h
  end.

Definition shmHost_Unmap (addr n : Z) h : option (Z * host) := on_attached (shm_unmap addr n) h.

(** *** proc *)
#[local] Abbreviation kern := (kernel OS HS).
Context (getpid : Z) (kid : nat) (programs : list string).

(** The guest memory of process [q]. *)
Definition proc_mem (q : nat) (k : kern) : memory := from_option pr_mem (Memory None 0 0) (kr_heap k !! q).

Definition procHost_Getpid (q : nat) (k : kern) : Z := from_option pr_pid 0 (kr_heap k !! q).
Definition procHost_Getppid (q : nat) (k : kern) : Z :=
  match kr_heap k !! q ≫= pr_parent with
  | None => 1
  | Some r => from_option pr_pid 0 (kr_heap k !! r)
  end.

(** [fuel] bounds the entries of [argv] and of [envp] (see [strings]). *)
Definition procHost_Spawn (fuel : nat) (q : nat) (argvAddr envpAddr cwdAddr : Z) (k : kern) : outcome kern :=
  let strs addr := strings (k_os k) (proc_mem q k) addr fuel in
  match strs argvAddr with
  | None => Blocked
  | Some None => returns (- EFAULT) k
  | Some (Some argv) =>
      match cstring (k_os k) (proc_mem q k) cwdAddr with
      | None => returns (- EFAULT) k
      | Some cwd =>
          match if negb (envpAddr =? 0) then strs envpAddr else Some (Some []) with
          | None => Blocked
          | Some None => returns (- EFAULT) k
          | Some (Some vars) =>
              let env := cut_eq <$> vars in
              match argv with
              | [] => returns (- EINVAL) k
              | argv0 :: _ =>
                  if negb (HasProgram programs argv0) then returns (- ENOENT) k
                  else match spawn getpid kid q argv env cwd k with
                       | None => Panic
                       | Some (pid, k) => returns pid k
                       end
              end
          end
      end
  end.

Definition procHost_Waitpid (order : gmap Z nat → list (Z * nat)) (q : nat) (pid statusAddr options : Z)
    (sched : list ((kern → kern) * wakeReason)) (k : kern) : outcome kern :=
  match waitpid order q pid options sched k with
  | None => Blocked
  | Some (cpid, status, errno, k) =>
      if errno <? 0 then returns errno k
      else if (0 <? cpid) && negb (statusAddr =? 0) then
        let '(ok, o) := writeU32 (proc_mem q k) statusAddr (u32 status) (k_os k) in
        returns (if ok then cpid else - EFAULT)
          (k <| kr_files ::= λ s, s <| o_files ::= λ w, w <| w_os := o |> |> |>)
      else returns cpid k
  end.

Definition procHost_Kill (syscall_Kill : Z → Z → Z) (host_EPERM : Z) (q : nat) (pid sig : Z) (k : kern) : Z * kern :=
  proc_kill getpid syscall_Kill host_EPERM q pid sig k.

Definition procHost_Exit (q : nat) (status : Z) (k : kern) : unwind * kern :=
  match kr_heap k !! q with
  | None => (errExit, k)
  | Some p => let '(u, p) := proc_exit status p in (u, proc_update q (λ _, p) k)
  end.

(** A call of process [q] on its kernel. *)
Definition by_process {A} (q : nat) (d : A) (f : host → A * host) (k : kern) : A * kern :=
  match kr_heap k !! q with
  | None => (d, k)
  | Some p =>
      let '(a, h) := f (HState p (kr_files k)) in
      (a, proc_update q (λ _, h_p h) (k <| kr_files := h_s h |>))
  end.
End host.

(** A process with two pages of memory and nothing open, on the concrete host. *)
Definition demo_host : hstate Sim.sim unit :=
  HState ((newProcess 1 None [] []) <| pr_mem := demo_boot.1 |>) (OFiles ∅ 0 (world_init demo_boot.2 ())).
Lemma demo_host_range (h : hstate Sim.sim unit) a n :
  h_mem h = demo_boot.1 → os_cell (h_os h) = os_cell demo_boot.2 → 0 ≤ a → a + n ≤ 131072 →
  priv_range (h_os h) (h_mem h) a n.
Proof.
  intros Hm Ho Ha Hn x Hx. unfold priv_at. rewrite Hm, Ho. apply demo_private. unfold PageSize. lia.
Qed.
