(* ===== verification/Poll.v ===== *)
(** [poll(2)] over a guest's array of [struct pollfd] ([src/internal/kernel/poll.go]).

    The files are looked up once; each round takes their channels, then goes
    through the entries in order, writing [revents] into guest memory.  The
    entries are read again in every round: the guest, or a process that shares
    its memory, may have changed them. *)
From S2P Require Import Prelude Abi Notify Bytes Vmem GuestMem Signals Sema FdTable Pipe Stdio Shm Paths Socket World Alarm Process Host.

Section poll.
Context {OS HS : Type} `{HostMMU OS} `{HostIO HS}.
#[local] Abbreviation host := (hstate OS HS).
#[local] Abbreviation schedule := (list ((host → host) * wakeReason)).
Implicit Types (h : host).

(** The fields of the entry at address [a]. *)
Definition pollfd_fd (a : Z) h : Z := i32 (le_val (mem_read (h_os h) (h_mem h) (a + OffPollfdFD) 4)).
Definition pollfd_events (a : Z) h : Z := i16 (le_val (mem_read (h_os h) (h_mem h) (a + OffPollfdEvents) 2)).
Definition put_revents (a v : Z) h : host :=
  set_os (mem_write (h_mem h) (a + OffPollfdRevents) (le_bytes 2 (u16 v)) (h_os h)) h.

Definition poll_files (a : Z) (nfds : nat) h : list (option kfile) :=
  map (λ i, let fd := pollfd_fd (a + SizeofPollfd * Z.of_nat i) h in
            if 0 <=? fd then snd <$> h_get fd h else None) (seq 0 nfds).

Definition poll_changed (files : list (option kfile)) h : host :=
  foldl (λ h fo, match fo with Some f => h_changed f h | None => h end) h files.

Definition poll_revents (fo : option kfile) (fd events : Z) h : Z :=
  if fd <? 0 then 0
  else match fo with
       | None => POLLNVAL
       | Some f => Z.land (kfile_poll f (h_w h)) (Z.lor events (Z.lor POLLERR POLLHUP))
       end.

(** The entries from address [a] on. *)
Fixpoint poll_scan (a : Z) (files : list (option kfile)) (ready : Z) h : Z * host :=
  match files with
  | [] => (ready, h)
  | fo :: files =>
      let revents := poll_revents fo (pollfd_fd a h) (pollfd_events a h) h in
      let h := put_revents a revents h in
      poll_scan (a + SizeofPollfd) files (if negb (revents =? 0) then i32 (ready + 1) else ready) h
  end.

Fixpoint poll_loop (a : Z) (files : list (option kfile)) (timeoutMs : Z) (sched : schedule) h : outcome host :=
  let '(ready, h) := poll_scan a files 0 (poll_changed files h) in
  if (0 <? ready) || (timeoutMs =? 0) then returns ready h
  else match sched with
       | [] => Blocked
       | (env, r) :: sched =>
           match r with
           | interrupted => returns (- EINTR) (env h)
           | killed => Ret (0, Some errKilled) (env h)
           | timedOut => returns 0 (env h)
           | woken => poll_loop a files timeoutMs sched (env h)
           end
       end.

(** There is a deadline, and so a time-out, only when [timeoutMs] is positive. *)
Definition timeouts_ok (timeoutMs : Z) (sched : schedule) : bool :=
  (0 <? timeoutMs) || forallb (λ e, bool_decide (e.2 ≠ timedOut)) sched.

(** The size of the array is computed on [uint32]; when it wraps around, the
    loops index past the slice. *)
Definition fdHost_Poll (fdsAddr nfds timeoutMs : Z) (sched : schedule) h : outcome host :=
  match Slice fdsAddr (u32 (nfds * SizeofPollfd)) (h_mem h) with
  | None => returns (- EFAULT) h
  | Some (a, _) =>
      if u32 (nfds * SizeofPollfd) <? nfds * SizeofPollfd then Panic
      else if negb (timeouts_ok timeoutMs sched) then Blocked
      else poll_loop a (poll_files a (Z.to_nat nfds) h) timeoutMs sched h
  end.
End poll.

(** * Lemmas *)
Section poll_laws.
Context {OS HS : Type} `{HostMMULaws OS} `{HostIO HS}.
#[local] Abbreviation host := (hstate OS HS).
Implicit Types (h : host).

(** What polling leaves alone: everything but guest memory. *)
Definition poll_same h h' : Prop :=
  h_p h' = h_p h ∧ o_heap (h_s h') = o_heap (h_s h) ∧ o_next (h_s h') = o_next (h_s h) ∧
  h_w h' = (h_w h) <| w_os := h_os h' |>.

Lemma world_os_id (w : kworld OS HS) : w <| w_os := w_os w |> = w.
Proof. by destruct w. Qed.
Lemma poll_same_refl h : poll_same h h.
Proof. split_and!; try done. unfold h_os. by rewrite world_os_id. Qed.
Lemma poll_same_trans h1 h2 h3 : poll_same h1 h2 → poll_same h2 h3 → poll_same h1 h3.
Proof.
  intros (A1 & A2 & A3 & A4) (B1 & B2 & B3 & B4). split_and!; [congruence..|].
  rewrite B4, A4. done.
Qed.
Lemma poll_same_set_os o h : poll_same h (set_os o h).
Proof. done. Qed.
Lemma kfile_poll_os f (w : kworld OS HS) o : kfile_poll f (w <| w_os := o |>) = kfile_poll f w.
Proof. by destruct f. Qed.
Lemma poll_same_revents h h' fo fd ev : poll_same h h' → poll_revents fo fd ev h' = poll_revents fo fd ev h.
Proof.
  intros (_ & _ & _ & Hw). unfold poll_revents. rewrite Hw. destruct fo; [|done]. by rewrite kfile_poll_os.
Qed.

Lemma land_range n a b : 0 ≤ n → 0 ≤ a < 2 ^ n → 0 ≤ Z.land a b < 2 ^ n.
Proof.
  intros Hn Ha. replace (Z.land a b) with (Z.land a b mod 2 ^ n); [apply Z.mod_pos_bound; lia|].
  rewrite <- Z.land_ones by done. rewrite <- Z.land_assoc, (Z.land_comm b), Z.land_assoc.
  by rewrite Z.land_ones, Z.mod_small by lia.
Qed.
Lemma kfile_poll_range f (w : kworld OS HS) : 0 ≤ kfile_poll f w < 16384.
Proof.
  assert (∀ {A} (g : A → Z) o, (∀ x, 0 ≤ g x < 16384) → 0 ≤ from_option g 0 o < 16384) as Ho
    by (intros A g [x|] Hg; [apply Hg|simpl; lia]).
  destruct f as [p|p|r|i| |k|k]; cbn [kfile_poll]; [apply Ho; intros x|apply Ho; intros x|apply Ho; intros x|
    decided|decided|apply Ho; intros x|decided].
  - unfold pipeReader_poll. repeat case_match; decided.
  - unfold pipeWriter_poll. repeat case_match; decided.
  - unfold readerFile_poll. repeat case_match; decided.
  - unfold sock_poll. destruct (k_state x); [decided|by destruct (0 <? _); decided|]. cbv zeta.
    repeat (apply lor_range || case_match); decided || lia.
Qed.

Lemma revents_range fo fd ev h : 0 ≤ poll_revents fo fd ev h < 2 ^ 15.
Proof.
  unfold poll_revents. destruct (fd <? 0); [lia|]. destruct fo as [f|]; [|decided].
  apply land_range; [lia|]. pose proof (kfile_poll_range f (h_w h)). lia.
Qed.

(** *** One entry *)
Lemma put_revents_same a v h : poll_same h (put_revents a v h).
Proof. done. Qed.
Lemma put_revents_cell a v h p x : os_cell (h_os (put_revents a v h)) p x = os_cell (h_os h) p x.
Proof. apply mem_write_cell. Qed.
Lemma put_revents_load a v h x :
  priv_range (h_os h) (h_mem h) (a + 6) 2 → priv_at (h_os h) (h_mem h) x →
  x < a + 6 ∨ a + 8 ≤ x → load (h_os (put_revents a v h)) (h_mem h) x = load (h_os h) (h_mem h) x.
Proof.
  intros Hr Hx Hd. unfold put_revents, h_os. simpl. fold (h_os h).
  rewrite load_mem_write; [|exact Hr|done]. unfold znth, OffPollfdRevents.
  destruct (Z.ltb_spec (x - (a + 6)) 0); [done|]. rewrite lookup_ge_None_2; [done|].
  rewrite length_le_bytes. lia.
Qed.
Definition pollfd_revents (a : Z) h : Z := le_val (mem_read (h_os h) (h_mem h) (a + OffPollfdRevents) 2).
Lemma put_revents_get a v h :
  priv_range (h_os h) (h_mem h) (a + 6) 2 → 0 ≤ v < 2 ^ 15 →
  pollfd_revents a (put_revents a v h) = v.
Proof.
  intros Hr Hv. unfold pollfd_revents, put_revents, h_os. simpl. fold (h_os h).
  change (h_mem (set_os _ h)) with (h_mem h).
  pose proof (mem_read_write (h_os h) (h_mem h) (a + OffPollfdRevents) (le_bytes 2 (u16 v)) Hr) as Hrw.
  change (zlen (le_bytes 2 (u16 v))) with 2 in Hrw. rewrite Hrw, le_val_bytes.
  rewrite (wrapU_small 16) by lia. apply Z.mod_small. lia.
Qed.

(** What is read at addresses whose bytes did not change. *)
Lemma mem_read_ext (o o' : OS) m a n :
  (∀ x, a ≤ x < a + n → load o' m x = load o m x) → mem_read o' m a n = mem_read o m a n.
Proof.
  intros He. unfold mem_read. apply list_fmap_ext. intros i y Hi.
  apply lookup_seq in Hi as [-> Hi]. apply He. lia.
Qed.

(** *** All entries *)
Definition poll_answers (a : Z) (files : list (option kfile)) h : list Z :=
  imap (λ i fo, let e := a + SizeofPollfd * Z.of_nat i in
                poll_revents fo (pollfd_fd e h) (pollfd_events e h) h) files.
Definition poll_count (l : list Z) : Z := zlen (filter (λ v, v ≠ 0) l).

Lemma poll_answers_cons a fo files h :
  poll_answers a (fo :: files) h =
    poll_revents fo (pollfd_fd a h) (pollfd_events a h) h :: poll_answers (a + SizeofPollfd) files h.
Proof.
  unfold poll_answers. rewrite imap_cons. f_equal; [by rewrite Z.mul_0_r, Z.add_0_r|].
  apply imap_ext. intros i x _. simpl. by replace (a + SizeofPollfd * Z.of_nat (S i))
    with (a + SizeofPollfd + SizeofPollfd * Z.of_nat i) by lia.
Qed.

(** The entries depend on the bytes of their first two fields only. *)
Lemma poll_answers_ext a files h h' :
  poll_same h h' →
  (∀ i x, 0 ≤ i < zlen files → a + 8 * i ≤ x < a + 8 * i + 6 →
     load (h_os h') (h_mem h) x = load (h_os h) (h_mem h) x) →
  poll_answers a files h' = poll_answers a files h.
Proof.
  intros Hs He. apply imap_ext. intros i fo Hi. apply lookup_lt_Some in Hi.
  cbv zeta. rewrite (poll_same_revents h h') by done.
  assert (h_mem h' = h_mem h) as Hm by (unfold h_mem; by rewrite (proj1 Hs)).
  unfold SizeofPollfd. f_equal.
  - unfold pollfd_fd, OffPollfdFD. rewrite Hm. do 2 f_equal. apply mem_read_ext. intros x Hx.
    apply (He (Z.of_nat i)); unfold zlen; lia.
  - unfold pollfd_events, OffPollfdEvents. rewrite Hm. do 2 f_equal. apply mem_read_ext. intros x Hx.
    apply (He (Z.of_nat i)); unfold zlen; lia.
Qed.

Lemma poll_count_cons v l : poll_count (v :: l) = (if negb (v =? 0) then 1 else 0) + poll_count l.
Proof.
  unfold poll_count. rewrite filter_cons. case_decide; zcase; try done. by rewrite zlen_cons.
Qed.
Lemma poll_count_bounds l : 0 ≤ poll_count l ≤ zlen l.
Proof.
  split; [apply zlen_nonneg|]. unfold poll_count, zlen. pose proof (length_filter (λ v : Z, v ≠ 0) l). lia.
Qed.

(** The bytes of the [revents] of [n] entries at [a]. *)
Definition in_revents (a n x : Z) : Prop := ∃ i, 0 ≤ i < n ∧ a + 8 * i + 6 ≤ x < a + 8 * i + 8.

Lemma poll_scan_spec a files ready h r h' :
  poll_scan a files ready h = (r, h') →
  priv_range (h_os h) (h_mem h) a (8 * zlen files) → 0 ≤ ready → ready + zlen files < 2 ^ 31 →
  poll_same h h' ∧ (∀ p x, os_cell (h_os h') p x = os_cell (h_os h) p x) ∧
  r = ready + poll_count (poll_answers a files h) ∧
  (∀ i v, poll_answers a files h !! i = Some v → pollfd_revents (a + 8 * Z.of_nat i) h' = v) ∧
  (∀ x, priv_at (h_os h) (h_mem h) x → ¬ in_revents a (zlen files) x →
     load (h_os h') (h_mem h) x = load (h_os h) (h_mem h) x).
Proof.
  revert a ready h. induction files as [|fo files IH]; intros a ready h.
  { simpl. intros [= <- <-] _ _ _. split; [apply poll_same_refl|]. split_and!; try done.
    - change (poll_count _) with 0. lia. }
  rewrite poll_answers_cons, poll_count_cons, zlen_cons. cbn [poll_scan]. cbv zeta.
  set (v := poll_revents _ _ _ _). set (h1 := put_revents a v h). intros Hscan Hr Hr0 Hlen.
  pose proof (zlen_nonneg files).
  assert (Hra : priv_range (h_os h) (h_mem h) (a + 6) 2) by (intros x Hx; apply Hr; lia).
  assert (Hv : 0 ≤ v < 2 ^ 15) by apply revents_range.
  assert (Hm1 : h_mem h1 = h_mem h) by done.
  assert (Hc1 : ∀ p x, os_cell (h_os h1) p x = os_cell (h_os h) p x) by (intros; apply put_revents_cell).
  destruct (IH _ _ _ Hscan) as (Hs & Hc & Hcount & Hans & Hother).
  - intros x Hx. unfold priv_at. rewrite Hc1, Hm1. apply Hr. unfold SizeofPollfd in Hx. lia.
  - case_match; [rewrite wrapS_small|]; lia.
  - case_match; [rewrite wrapS_small|]; lia.
  - assert (Hext : poll_answers (a + SizeofPollfd) files h1 = poll_answers (a + SizeofPollfd) files h).
    { apply poll_answers_ext; [done|]. unfold SizeofPollfd. intros i x Hi Hx.
      apply put_revents_load; [done|apply Hr; lia|lia]. }
    rewrite Hext in *. split_and!.
    + by apply (poll_same_trans _ h1).
    + intros p x. by rewrite Hc.
    + rewrite Hcount. case_match; [rewrite wrapS_small|]; lia.
    + intros [|i] w; simpl; [intros [= <-]|intros Hw].
      * rewrite Z.add_0_r. unfold pollfd_revents at 1.
        replace (h_mem h') with (h_mem h1) by (unfold h_mem; by rewrite (proj1 Hs)).
        rewrite (mem_read_ext (h_os h1)); [by apply put_revents_get|].
        intros x Hx. apply Hother.
        -- unfold priv_at. rewrite Hc1. apply Hra. unfold OffPollfdRevents in Hx. lia.
        -- unfold OffPollfdRevents, SizeofPollfd in *. intros (j & ? & ?). lia.
      * replace (a + 8 * Z.of_nat (S i)) with (a + SizeofPollfd + 8 * Z.of_nat i)
          by (unfold SizeofPollfd; lia). by apply Hans.
    + intros x Hx Hn. rewrite <- Hm1 at 1. rewrite Hother.
      * rewrite Hm1. apply put_revents_load; [done..|].
        destruct (decide (a + 6 ≤ x < a + 8)); [|lia]. destruct Hn. exists 0. lia.
      * unfold priv_at. by rewrite Hc1, Hm1.
      * intros (i & ? & ?). apply Hn. exists (i + 1). unfold SizeofPollfd in *. lia.
Qed.

(** *** Taking the channels *)
Lemma kfile_changed_poll f g (w : kworld OS HS) : kfile_poll f (kfile_changed g w).2 = kfile_poll f w.
Proof.
  assert (∀ {X} (m : gmap nat X) (q k : nat) x x' (poll : X → Z), m !! q = Some x → poll x' = poll x →
    from_option poll 0 (<[q := x']> m !! k) = from_option poll 0 (m !! k)) as Hins.
  { intros X m q k x x' poll Hx He. destruct (decide (q = k)) as [->|].
    - by rewrite lookup_insert_eq, Hx.
    - by rewrite lookup_insert_ne. }
  destruct g as [q|q|q| | |q| ]; simpl; try done; unfold at_pipe, at_reader, at_socket.
  - destruct (w_pipes w !! q) eqn:E; [|done]. destruct f; simpl; try done; by eapply Hins.
  - destruct (w_pipes w !! q) eqn:E; [|done]. destruct f; simpl; try done; by eapply Hins.
  - destruct (w_readers w !! q) eqn:E; [|done]. destruct f; simpl; try done; by eapply Hins.
  - destruct (w_socks w !! q) eqn:E; [|done]. destruct f; simpl; try done; by eapply Hins.
Qed.
Lemma kfile_changed_os g (w : kworld OS HS) : w_os (kfile_changed g w).2 = w_os w.
Proof.
  destruct g as [q|q|q| | |q| ]; simpl; try done; unfold at_pipe, at_reader, at_socket.
  1,2: by destruct (w_pipes w !! q).
  - by destruct (w_readers w !! q).
  - by destruct (w_socks w !! q).
Qed.

Lemma poll_changed_spec files h :
  h_p (poll_changed files h) = h_p h ∧ h_os (poll_changed files h) = h_os h ∧
  o_heap (h_s (poll_changed files h)) = o_heap (h_s h) ∧
  ∀ f, kfile_poll f (h_w (poll_changed files h)) = kfile_poll f (h_w h).
Proof.
  revert h. induction files as [|[f|] files IH]; intros h; simpl; [done| |apply IH].
  destruct (IH (h_changed f h)) as (-> & -> & -> & Hp). split_and!; try done.
  - unfold h_changed, h_os. simpl. apply kfile_changed_os.
  - intros g. rewrite Hp. unfold h_changed. simpl. apply kfile_changed_poll.
Qed.

Lemma poll_answers_changed a files gs h : poll_answers a files (poll_changed gs h) = poll_answers a files h.
Proof.
  destruct (poll_changed_spec gs h) as (Hp & Ho & _ & Hf). apply imap_ext. intros i fo _. cbv zeta.
  unfold poll_revents, pollfd_fd, pollfd_events, h_mem. rewrite Hp, Ho.
  destruct (_ <? 0); [done|]. destruct fo; [|done]. by rewrite Hf.
Qed.
End poll_laws.

(** What [poll(2)] says of the entry at [a]. *)
Definition poll_answer {OS HS} `{HostMMU OS} `{HostIO HS} (a : Z) (h : hstate OS HS) : Z :=
  if pollfd_fd a h <? 0 then 0
  else match h_get (pollfd_fd a h) h with
       | None => POLLNVAL
       | Some (_, f) =>
           Z.land (kfile_poll f (h_w h)) (Z.lor (pollfd_events a h) (Z.lor POLLERR POLLHUP))
       end.
Definition poll_reference {OS HS} `{HostMMU OS} `{HostIO HS} (a nfds : Z) (h : hstate OS HS) : list Z :=
  map (λ i, poll_answer (a + 8 * Z.of_nat i) h) (seq 0 (Z.to_nat nfds)).

(** * Properties *)
Section poll_properties.
Context {OS HS : Type} `{HostMMULaws OS} `{HostIO HS}.

Lemma poll_answers_reference a nfds (h : hstate OS HS) :
  poll_answers a (poll_files a (Z.to_nat nfds) h) h = poll_reference a nfds h.
Proof.
  unfold poll_reference. apply list_eq. intros i. unfold poll_answers, poll_files, SizeofPollfd.
  rewrite list_lookup_imap. change (@map) with (@fmap list _). rewrite !list_lookup_fmap.
  destruct (seq 0 (Z.to_nat nfds) !! i) as [j|] eqn:E; [|done]. apply lookup_seq in E as [-> _]. simpl. f_equal.
  unfold poll_revents, poll_answer. destruct (Z.ltb_spec (pollfd_fd (a + 8 * Z.of_nat i) h) 0); [done|].
  destruct (Z.leb_spec 0 (pollfd_fd (a + 8 * Z.of_nat i) h)); [|lia]. by destruct (h_get _ h) as [[p f]|].
Qed.

(** C13. [poll] answers for every entry at once, exactly: with the file each
    descriptor refers to, it stores in [revents] what that file's readiness and
    the events asked for say ([POLLNVAL] for a descriptor that is not open,
    nothing for a negative one), returns how many are not zero, and changes no
    other byte of the guest's memory; it blocks only when nothing is ready. *)
Theorem poll_exact (a nfds timeoutMs : Z) (h : hstate OS HS) :
  0 ≤ nfds < 2 ^ 29 → a + 8 * nfds ≤ m_size (h_mem h) →
  priv_range (h_os h) (h_mem h) a (8 * nfds) →
  let answers := poll_reference a nfds h in
  match fdHost_Poll a nfds timeoutMs [] h with
  | Ret (r, err) h' =>
      err = None ∧ r = poll_count answers ∧ (0 < r ∨ timeoutMs = 0) ∧
      (∀ i v, answers !! i = Some v → pollfd_revents (a + 8 * Z.of_nat i) h' = v) ∧
      (∀ x, priv_at (h_os h) (h_mem h) x → ¬ in_revents a nfds x →
         load (h_os h') (h_mem h) x = load (h_os h) (h_mem h) x) ∧
      h_p h' = h_p h ∧ (∀ f, kfile_poll f (h_w h') = kfile_poll f (h_w h))
  | Blocked => timeoutMs ≠ 0 ∧ Forall (λ v, v = 0) answers
  | Panic => False
  end.
Proof.
  intros Hn Hsz Hr. cbv zeta. rewrite <- poll_answers_reference. unfold fdHost_Poll, SizeofPollfd.
  rewrite (wrapU_small 32) by lia. unfold Slice. rewrite Z.mul_comm.
  destruct (Z.ltb_spec (m_size (h_mem h)) (a + 8 * nfds)); [lia|].
  rewrite Z.ltb_irrefl. replace (timeouts_ok timeoutMs []) with true by (by destruct (0 <? timeoutMs) eqn:E; unfold timeouts_ok; rewrite E).
  cbn [negb poll_loop]. set (files := poll_files a (Z.to_nat nfds) h).
  assert (zlen files = nfds) as Hl
    by (unfold files, poll_files, zlen; rewrite length_map, length_seq; lia).
  destruct (poll_scan a files 0 (poll_changed files h)) as [r h'] eqn:E.
  destruct (poll_changed_spec files h) as (Hp & Ho & _ & Hf).
  assert (Hm : h_mem (poll_changed files h) = h_mem h) by (unfold h_mem; by rewrite Hp).
  destruct (poll_scan_spec _ _ _ _ _ _ E) as (Hs & Hc & -> & Hans & Hoth); [|lia|lia|].
  { by rewrite Ho, Hm, Hl. }
  rewrite poll_answers_changed, Ho, Hm, Hl in *. rewrite Z.add_0_l.
  pose proof (poll_count_bounds (poll_answers a files h)).
  destruct (Z.ltb_spec 0 (poll_count (poll_answers a files h))); simpl;
    [|destruct (Z.eqb_spec timeoutMs 0); simpl].
  1,2: split_and!; [done|done|tauto|done|done|by rewrite (proj1 Hs)|];
    intros f; destruct Hs as (_ & _ & _ & ->); by rewrite kfile_poll_os.
  split; [done|]. apply Forall_forall. intros v Hv. destruct (decide (v = 0)) as [|Hv0]; [done|].
  assert (v ∈ filter (λ v, v ≠ 0) (poll_answers a files h)) as Hin by (by apply list_elem_of_filter).
  unfold poll_count in *. destruct (filter _ _) as [|w l]; [by apply not_elem_of_nil in Hin|]. rewrite zlen_cons in *.
  pose proof (zlen_nonneg l). lia.
Qed.
End poll_properties.

(** With 2^29 entries or more the size of the array wraps around to a small
    one, and the loop that reads the descriptors indexes past the slice. *)
Lemma poll_overflow_panics {OS HS} `{HostMMU OS} `{HostIO HS} (a nfds timeoutMs : Z) sched (h : hstate OS HS) :
  2 ^ 29 ≤ nfds < 2 ^ 32 → a + u32 (nfds * 8) ≤ m_size (h_mem h) →
  fdHost_Poll a nfds timeoutMs sched h = Panic.
Proof.
  intros Hn Hs. unfold fdHost_Poll, SizeofPollfd, Slice.
  destruct (Z.ltb_spec (m_size (h_mem h)) (a + u32 (nfds * 8))); [lia|].
  pose proof (wrapU_range 32 (nfds * 8) ltac:(lia)).
  destruct (Z.ltb_spec (u32 (nfds * 8)) (nfds * 8)); [done|lia].
Qed.

(** Three entries: the write end of a pipe, a negative descriptor, and one that
    is not open. *)
Definition demo_poll : hstate Sim.sim unit :=
  let put a v h := (h_writeU32 a v h).2 in
  put 16 77 (put 8 (2 ^ 32 - 1) (put 4 POLLOUT (put 0 (FDBase + 1) (fdHost_Pipe 64 0 demo_host).2))).

Lemma poll_exact_witness :
  let answers := poll_reference 0 3 demo_poll in
  answers = [POLLOUT; 0; POLLNVAL] ∧
  match fdHost_Poll 0 3 (-1) [] demo_poll with
  | Ret (r, err) h' =>
      r = 2 ∧ ∀ i v, answers !! i = Some v → pollfd_revents (0 + 8 * Z.of_nat i) h' = v
  | _ => False
  end.
Proof.
  split; [vm_compute; reflexivity|].
  pose proof (poll_exact 0 3 (-1) demo_poll ltac:(lia) ltac:(vm_compute; discriminate)
                ltac:(apply demo_host_range; [reflexivity|reflexivity|lia|lia])) as Hp.
  cbv zeta in Hp. assert (match fdHost_Poll 0 3 (-1) [] demo_poll with Ret _ _ => True | _ => False end) as Hret
    by (vm_compute; exact I).
  destruct (fdHost_Poll 0 3 (-1) [] demo_poll) as [[r err] h'| |]; [|contradiction|contradiction].
  destruct Hp as (_ & Hr & _ & Ha & _). split; [rewrite Hr; vm_compute; reflexivity|exact Ha].
Defined.
