(* ===== verification/HostLaws.v ===== *)
(** What the host calls of [Host.v] do for a guest: its bytes through a pipe
    and back, no byte outside the buffer it passed, the errors of bad
    descriptors, SIGPIPE, addresses as [accept(2)] gives them, and calls that
    always return. *)
From S2P Require Import Prelude Abi Notify Bytes Vmem GuestMem Signals Sema FdTable Pipe Stdio Shm Paths Pids Socket World Alarm Process Host Poll.

Section laws.
Context {OS HS : Type} `{HostMMULaws OS} `{HostIO HS}.
#[local] Abbreviation host := (hstate OS HS).
Implicit Types (h : host).

(** ** Guest memory *)
Lemma h_writeU32_spec addr v h : addr + 4 ≤ m_size (h_mem h) →
  h_writeU32 addr v h = (true, set_os (mem_write (h_mem h) addr (le_bytes 4 v) (h_os h)) h).
Proof. intros Hs. unfold h_writeU32, writeU32, Slice. by destruct (Z.ltb_spec (m_size (h_mem h)) (addr + 4)); [lia|]. Qed.

Lemma h_writeU32_fault addr v h : m_size (h_mem h) < addr + 4 → h_writeU32 addr v h = (false, h).
Proof.
  intros Hs. unfold h_writeU32, writeU32, Slice. destruct (Z.ltb_spec (m_size (h_mem h)) (addr + 4)); [|lia].
  unfold set_os, set_w, h_os, h_w. destruct h as [p [hp n w]]. simpl. by destruct w.
Qed.

Lemma h_os_write a b h : h_os (set_os (mem_write (h_mem h) a b (h_os h)) h) = mem_write (h_mem h) a b (h_os h).
Proof. done. Qed.

Lemma h_readU32_write addr v h :
  addr + 4 ≤ m_size (h_mem h) → priv_range (h_os h) (h_mem h) addr 4 → 0 ≤ v < 2 ^ 32 →
  h_readU32 addr (set_os (mem_write (h_mem h) addr (le_bytes 4 v) (h_os h)) h) = Some v.
Proof.
  intros Hs Hp Hv. unfold h_readU32. rewrite h_os_write.
  change (h_mem (set_os _ h)) with (h_mem h).
  apply (readU32_writeU32 (h_os h) _ _ v); [exact Hp|exact Hv|]. unfold writeU32, Slice.
  by destruct (Z.ltb_spec (m_size (h_mem h)) (addr + 4)); [lia|].
Qed.

Lemma h_readU32_other addr a b h :
  addr + 4 ≤ m_size (h_mem h) → priv_range (h_os h) (h_mem h) addr 4 →
  priv_range (h_os h) (h_mem h) a (zlen b) → addr + 4 ≤ a ∨ a + zlen b ≤ addr →
  h_readU32 addr (set_os (mem_write (h_mem h) a b (h_os h)) h) = h_readU32 addr h.
Proof.
  intros Hs Hp Hb Hd. unfold h_readU32. rewrite h_os_write. unfold readU32, Slice.
  change (h_mem (set_os _ h)) with (h_mem h).
  destruct (Z.ltb_spec (m_size (h_mem h)) (addr + 4)); [lia|].
  by rewrite mem_read_other by (done || tauto).
Qed.

(** ** Descriptors *)
Lemma add_file_spec f flags cloexec h fd h' :
  FDBase + Z.of_nat (size (pr_fds (h_p h))) < 2 ^ 31 → add_file f flags cloexec h = (fd, h') →
  FDBase ≤ fd < 2 ^ 31 ∧ pr_fds (h_p h) !! fd = None ∧
  h_p h' = (h_p h) <| pr_fds := <[fd := FdEntry (o_next (h_s h)) cloexec]> (pr_fds (h_p h)) |> ∧
  o_heap (h_s h') = <[o_next (h_s h) := OpenFile f flags 1]> (o_heap (h_s h)) ∧
  o_next (h_s h') = S (o_next (h_s h)) ∧ h_w h' = h_w h.
Proof.
  intros Hs. pose proof (free_fd_base (pr_fds (h_p h)) Hs) as (Hr & Hf & _).
  unfold add_file, on_fds, newOpenFile, fd_add. cbv zeta beta iota.
  revert Hr Hf. generalize (free_fd (pr_fds (h_p h)) FDBase (S (size (pr_fds (h_p h))))) as r.
  intros r Hr Hf [= <- <-]. split; [lia|]. split; [done|]. split; [done|]. split; [|done].
  simpl. apply map_eq. intros p. rewrite lookup_alter. case_decide as E; [subst p|].
  - by rewrite !lookup_insert_eq.
  - by rewrite !lookup_insert_ne by done.
Qed.

Lemma h_get_spec fd h e f :
  pr_fds (h_p h) !! fd = Some e → o_heap (h_s h) !! fe_of e = Some f →
  h_get fd h = Some (fe_of e, of_f f).
Proof. intros Hfd Hf. unfold h_get, fd_get. rewrite Hfd. simpl. by rewrite Hf. Qed.

Lemma h_get_set_os fd o h : h_get fd (set_os o h) = h_get fd h.
Proof. done. Qed.

Lemma size_insert_le {V} (t : gmap Z V) fd e : (size (<[fd := e]> t) ≤ S (size t))%nat.
Proof. destruct (t !! fd) eqn:E; [rewrite map_size_insert_Some by eauto|rewrite map_size_insert_None by done]; lia. Qed.

(** [Pipe] on a process with room for two descriptors and an array in its memory. *)
Lemma fdHost_Pipe_spec a flags h :
  FDBase + Z.of_nat (size (pr_fds (h_p h))) + 1 < 2 ^ 31 →
  0 ≤ a → a + 8 ≤ m_size (h_mem h) ≤ 2 ^ 32 →
  ∃ rfd wfd h',
    fdHost_Pipe a flags h = (0, h') ∧ FDBase ≤ rfd < 2 ^ 31 ∧ FDBase ≤ wfd < 2 ^ 31 ∧ rfd ≠ wfd ∧
    h_get rfd h' = Some (o_next (h_s h), KPipeReader (w_next (h_w h))) ∧
    h_get wfd h' = Some (S (o_next (h_s h)), KPipeWriter (w_next (h_w h))) ∧
    w_pipes (h_w h') !! w_next (h_w h) = Some newPipe ∧ h_mem h' = h_mem h ∧
    h_os h' = mem_write (h_mem h) (u32 (a + 4)) (le_bytes 4 (u32 wfd))
                (mem_write (h_mem h) a (le_bytes 4 (u32 rfd)) (h_os h)).
Proof.
  intros Hsz Ha Hm. unfold fdHost_Pipe. destruct (add_pipe (h_w h)) as [p w] eqn:Ep.
  injection Ep as <- <-. set (h0 := set_w _ h).
  destruct (add_file (KPipeReader _) _ _ h0) as [rfd h1] eqn:E1.
  apply add_file_spec in E1 as (Hr1 & Hn1 & Hp1 & Hh1 & Ho1 & Hw1);
    [|change (pr_fds (h_p h0)) with (pr_fds (h_p h)); lia].
  destruct (add_file (KPipeWriter _) _ _ h1) as [wfd h2] eqn:E2.
  apply add_file_spec in E2 as (Hr2 & Hn2 & Hp2 & Hh2 & Ho2 & Hw2).
  2: { rewrite Hp1. simpl. pose proof (size_insert_le (pr_fds (h_p h)) rfd (FdEntry (o_next (h_s h)) false)). lia. }
  assert (Hm2 : h_mem h2 = h_mem h) by (unfold h_mem; by rewrite Hp2, Hp1).
  assert (Hos2 : h_os h2 = h_os h) by (unfold h_os; by rewrite Hw2, Hw1).
  rewrite h_writeU32_spec by (rewrite Hm2; lia). rewrite (wrapU_small 32 (a + 4)) by lia.
  rewrite h_writeU32_spec by (change (h_mem (set_os _ h2)) with (h_mem h2); rewrite Hm2; lia).
  change (h_mem (set_os _ h2)) with (h_mem h2). rewrite h_os_write, Hm2, Hos2.
  assert (rfd ≠ wfd) as Hne.
  { intros ->. rewrite Hp1 in Hn2. simpl in Hn2. by rewrite lookup_insert_eq in Hn2. }
  do 3 eexists. split; [reflexivity|]. split; [exact Hr1|]. split; [exact Hr2|]. split; [done|].
  rewrite !h_get_set_os. split_and!.
  - rewrite (h_get_spec _ _ (FdEntry (o_next (h_s h0)) false) (OpenFile (KPipeReader (w_next (h_w h))) (Z.land flags O_NONBLOCK) 1));
      [done| |].
    + rewrite Hp2, Hp1. simpl. by rewrite lookup_insert_ne, lookup_insert_eq.
    + rewrite Hh2, Ho1, lookup_insert_ne by (simpl; lia). by rewrite Hh1, lookup_insert_eq.
  - rewrite (h_get_spec _ _ (FdEntry (o_next (h_s h1)) false) (OpenFile (KPipeWriter (w_next (h_w h))) (Z.land flags O_NONBLOCK) 1));
      [simpl; by rewrite Ho1| |].
    + rewrite Hp2. simpl. by rewrite lookup_insert_eq.
    + by rewrite Hh2, lookup_insert_eq.
  - change (w_pipes (h_w h2) !! w_next (h_w h) = Some newPipe). rewrite Hw2, Hw1. simpl. by rewrite lookup_insert_eq.
  - by change (h_mem (set_os _ _)) with (h_mem h2).
  - done.
Qed.

(** What a call that only touches the files leaves alone. *)
Definition same_table h h' : Prop :=
  h_p h' = h_p h ∧ o_heap (h_s h') = o_heap (h_s h).
Lemma same_table_get h h' fd : same_table h h' → h_get fd h' = h_get fd h.
Proof. intros [Hp Hh]. unfold h_get. by rewrite Hp, Hh. Qed.

Lemma zlen_mem_read (o : OS) m a n : zlen (mem_read o m a n) = Z.max 0 n.
Proof. unfold mem_read, zlen. rewrite length_fmap, length_seq. lia. Qed.

Lemma at_pipe_spec {A} (d : A) p f (w : kworld OS HS) x r x' :
  w_pipes w !! p = Some x → f x = (r, x') → at_pipe d p f w = (r, w <| w_pipes ::= <[p := x']> |>).
Proof. intros Hx Hf. unfold at_pipe. by rewrite Hx, Hf. Qed.

(** ** A pipe's ends *)
Definition waited (x : pipe) : pipe := x <| p_n := (notifier_wait (p_n x)).2 |>.
Lemma h_changed_pipe p f h x :
  f = KPipeReader p ∨ f = KPipeWriter p → w_pipes (h_w h) !! p = Some x →
  h_changed f h = set_w (λ w, w <| w_pipes ::= <[p := waited x]> |>) h.
Proof.
  intros Hf Hx. unfold h_changed, set_w.
  assert ((kfile_changed f (h_w h)).2 = (h_w h) <| w_pipes ::= <[p := waited x]> |>) as Hw.
  { destruct Hf as [-> | ->]; unfold kfile_changed;
      by rewrite (at_pipe_spec _ _ pipe_changed (h_w h) x _ _ Hx eq_refl). }
  unfold h_w in Hw. destruct h as [q [hp nx w]]. simpl in *. by rewrite Hw.
Qed.
Lemma write_to_pipe fd q p a n h x :
  h_get fd h = Some (q, KPipeWriter p) → w_pipes (h_w h) !! p = Some x → p_buf x = [] → p_readers x ≠ 0 →
  0 < n ≤ pipeCapacity → a + n ≤ m_size (h_mem h) →
  ∃ h' x', fdHost_Write fd a n [] h = Ret (n, None) h' ∧ same_table h h' ∧ h_os h' = h_os h ∧
    w_pipes (h_w h') !! p = Some x' ∧ p_buf x' = mem_read (h_os h) (h_mem h) a n.
Proof.
  intros Hfd Hx Hb Hrd Hn Hs. unfold fdHost_Write. rewrite Hfd. unfold Slice.
  destruct (Z.ltb_spec (m_size (h_mem h)) (a + n)); [lia|]. cbn [fd_io].
  rewrite (h_changed_pipe p _ h x) by auto. unfold write_op. cbn [kfile_write].
  set (data := mem_read _ _ a n).
  assert (Hw : pipeWriter_write data (waited x) =
    ((n, 0), (waited x) <| p_buf ::= λ buf, buf ++ ztake n data |> <| p_n ::= notifier_notify |>)).
  { unfold pipeWriter_write. simpl. rewrite Hb. unfold data. rewrite zlen_mem_read.
    change (zlen []) with 0. rewrite Z.max_r, Z.sub_0_r, Z.min_l by lia.
    destruct (Z.eqb_spec (p_readers x) 0); [done|]. destruct (Z.eqb_spec n 0); [lia|].
    destruct (Z.leb_spec pipeCapacity 0); [lia|]. destruct (Z.ltb_spec pipeCapacity n); [lia|].
    by rewrite andb_false_r. }
  rewrite (at_pipe_spec _ _ _ _ (waited x) _ _) by
    ((simpl; by rewrite lookup_insert_eq) || exact Hw).
  assert (n < 2 ^ 31) by (change pipeCapacity with 65536 in Hn; lia).
  simpl. rewrite wrapS_small by lia. replace (n =? - EPIPE) with false by (symmetry; apply Z.eqb_neq; abi_lia).
  do 2 eexists. split; [reflexivity|]. split; [done|]. split; [done|]. split.
  - simpl. by rewrite lookup_insert_eq.
  - simpl. rewrite Hb. unfold data. apply ztake_all. rewrite zlen_mem_read. lia.
Qed.

Lemma read_from_pipe fd q p a n h x :
  h_get fd h = Some (q, KPipeReader p) → w_pipes (h_w h) !! p = Some x → zlen (p_buf x) = n →
  0 < n < 2 ^ 31 → a + n ≤ m_size (h_mem h) →
  ∃ h', fdHost_Read fd a n [] h = Ret (n, None) h' ∧ same_table h h' ∧
    h_os h' = mem_write (h_mem h) a (p_buf x) (h_os h).
Proof.
  intros Hfd Hx Hb Hn Hs. unfold fdHost_Read. rewrite Hfd. unfold Slice.
  destruct (Z.ltb_spec (m_size (h_mem h)) (a + n)); [lia|]. cbn [fd_io].
  rewrite (h_changed_pipe p _ h x) by auto. unfold read_op. cbn [kfile_read].
  assert (Hr : pipeReader_read n (waited x) =
    ((p_buf x, 0), (waited x) <| p_buf := [] |> <| p_n ::= notifier_notify |>)).
  { unfold pipeReader_read. simpl. rewrite Hb. destruct (Z.eqb_spec n 0); [lia|].
    destruct (Z.ltb_spec 0 n); [|lia]. rewrite Z.min_id. rewrite ztake_all, zdrop_all by lia. done. }
  rewrite (at_pipe_spec _ _ _ _ (waited x) _ _) by
    ((simpl; by rewrite lookup_insert_eq) || exact Hr).
  simpl. rewrite Hb, wrapS_small by lia. eexists. split; [reflexivity|]. done.
Qed.

(** ** What comes back from a file *)

(** [b] fits a buffer of [n] bytes, and an error comes without data. *)
Definition read_fits (n : Z) (r : bytes * Z) : Prop := zlen r.1 ≤ n ∧ 0 ≤ r.2 ∧ (r.2 = 0 ∨ r.1 = []).

Lemma read_fits_nil n e : 0 ≤ n → 0 ≤ e → read_fits n ([], e).
Proof. intros. split_and!; [done..|by right]. Qed.
Lemma read_fits_take n k b : 0 ≤ n → k ≤ n → read_fits n (ztake k b, 0).
Proof. intros. split_and!; simpl; [rewrite zlen_take; pose proof (zlen_nonneg b); lia|done|by left]. Qed.
Hint Resolve read_fits_nil read_fits_take : core.

Lemma sock_recv_fits n peek s : 0 ≤ n → read_fits n (sock_recv n peek s).1.
Proof.
  intros Hn. unfold sock_recv. case_bool_decide; [by apply read_fits_nil|].
  destruct (n =? 0); [by apply read_fits_nil|].
  destruct (0 <? _); [apply read_fits_take; lia|]. by destruct (k_rerr s) as [[]|]; apply read_fits_nil.
Qed.

Lemma kfile_read_fits f n (w : kworld OS HS) :
  0 ≤ n → read_fits n (kfile_read f n w).1 ∧ w_os (kfile_read f n w).2 = w_os w.
Proof.
  intros Hn. destruct f as [p|p|q|i| |s|s]; simpl; try (split; [by apply read_fits_nil|done]).
  - unfold at_pipe. destruct (w_pipes w !! p) as [x|]; [|split; [by apply read_fits_nil|done]].
    destruct (pipeReader_read n x) as [r x'] eqn:E. simpl. split; [|done].
    change r with (r, x').1. rewrite <- E. unfold pipeReader_read.
    destruct (n =? 0); [by apply read_fits_nil|]. destruct (0 <? _); [apply read_fits_take; lia|].
    by destruct (_ =? 0); apply read_fits_nil.
  - unfold at_reader. destruct (w_readers w !! q) as [x|]; [|split; [by apply read_fits_nil|done]].
    destruct (readerFile_read n x) as [r x'] eqn:E. simpl. split; [|done].
    change r with (r, x').1. rewrite <- E. unfold readerFile_read.
    destruct (0 <? _); [apply read_fits_take; lia|]. by destruct (rf_eof x); apply read_fits_nil.
  - unfold at_socket. destruct (w_socks w !! s) as [x|]; [|split; [by apply read_fits_nil|done]].
    unfold sock_read. destruct (sock_recv n false x) as [r x'] eqn:E. simpl. split; [|done].
    change r with (r, x').1. rewrite <- E. by apply sock_recv_fits.
Qed.

Lemma h_changed_same f h : h_p (h_changed f h) = h_p h ∧ h_os (h_changed f h) = h_os h.
Proof. split; [done|]. unfold h_changed, h_os. simpl. apply kfile_changed_os. Qed.

Lemma fd_io_once {S} (changed : S → S) (op : S → (Z * Z) * S) nb s r s' :
  fd_io changed op nb [] s = Some (r, s') →
  ∃ n e, op (changed s) = ((n, e), s') ∧ r = (if e =? 0 then i32 n else - e, None).
Proof.
  simpl. destruct (op (changed s)) as [[n e] s1]. intros Hr. exists n, e.
  destruct (e =? 0); [by simplify_eq|]. destruct (_ || _); [by simplify_eq|done].
Qed.

(** What an operation that fills a buffer may do. *)
Definition fills (a n : Z) h (r : (Z * Z) * host) : Prop :=
  ∃ b e, r.1 = (zlen b, e) ∧ read_fits n (b, e) ∧ h_p r.2 = h_p h ∧ h_os r.2 = mem_write (h_mem h) a b (h_os h).

Lemma read_op_fills f a n h : 0 ≤ n → fills a n h (read_op f a n h).
Proof.
  intros Hn. destruct (kfile_read_fits f n (h_w h) Hn) as [Hf Ho]. unfold read_op.
  destruct (kfile_read f n (h_w h)) as [[b e] w]. simpl in *. exists b, e. split_and!; try done.
  transitivity (mem_write (h_mem h) a b (w_os w)); [done|by rewrite Ho].
Qed.
Lemma recv_op_fills s a n peek h : 0 ≤ n → fills a n h (recv_op s a n peek h).
Proof.
  intros Hn. unfold recv_op, on_socket, at_socket. destruct (w_socks (h_w h) !! s) as [x|] eqn:E.
  - pose proof (sock_recv_fits n peek x Hn) as Hf. destruct (sock_recv n peek x) as [[b e] x'].
    exists b, e. done.
  - exists [], EBADF. split_and!; [done|by apply read_fits_nil|done..].
Qed.

(** The call as a whole. *)
Definition confined (buf n : Z) h (r : Z) h' : Prop :=
  r ≤ n ∧ h_p h' = h_p h ∧
  ∀ x, priv_at (h_os h) (h_mem h) x → x < buf ∨ buf + Z.max 0 r ≤ x →
    load (h_os h') (h_mem h) x = load (h_os h) (h_mem h) x.

Lemma confined_refl buf n h r : r ≤ n → confined buf n h r h.
Proof. done. Qed.

Lemma fills_confined a n h0 h x r e h' :
  h_p h0 = h_p h → h_os h0 = h_os h → 0 ≤ n < 2 ^ 31 → priv_range (h_os h) (h_mem h) a n →
  fills a n h0 x → x = ((r, e), h') → confined a n h (if e =? 0 then i32 r else - e) h'.
Proof.
  intros Hp Ho Hn Hr (b & e' & Hx & (Hl & He & Hb) & Hp' & Ho') ->. simpl in *. simplify_eq.
  assert (h_mem h0 = h_mem h) as Hm by (unfold h_mem; by rewrite Hp). rewrite Hm, Ho in Ho'.
  pose proof (zlen_nonneg b). split_and!; [zcase; [rewrite wrapS_small|]; lia|by rewrite Hp'|].
  intros y Hy Hd. rewrite Ho'. rewrite load_mem_write; [|intros z Hz; apply Hr; lia|done].
  unfold znth. destruct (Z.ltb_spec (y - a) 0); [done|]. rewrite lookup_ge_None_2; [done|].
  destruct (Z.eqb_spec e' 0); [rewrite wrapS_small in Hd by lia; unfold zlen in *; lia|].
  destruct Hb as [?| ->]; [lia|]. simpl. lia.
Qed.

(** ** Signals to oneself *)
Definition pending (sig : Z) h : bool :=
  match sg_ctl (pr_sig (h_p h)) with
  | Some a => Z.testbit (load64 (h_os h) (h_mem h) a) sig
  | None => Z.testbit (sg_early (pr_sig (h_p h))) sig
  end.
Definition ctl_safe h : Prop := ∀ a, sg_ctl (pr_sig (h_p h)) = Some a → ctl_ok (h_os h) (h_mem h) a.

Lemma h_Signal_pending sig h :
  ctl_safe h → 0 ≤ sig < 64 → sig ≠ SIGKILL →
  pending sig (h_Signal sig h) = true ∧ sg_wake (pr_sig (h_p (h_Signal sig h))) = true.
Proof.
  intros Hc Hs Hk. unfold h_Signal, Signal. destruct (Z.eqb_spec sig SIGKILL); [done|].
  destruct (sg_ctl (pr_sig (h_p h))) as [a|] eqn:E.
  - pose proof (signal_post_words (h_mem h) sig (pr_sig (h_p h)) a (h_os h) E (Hc a E) Hs) as Hw.
    destruct (signal_post _ _ _ _) as [sg o]. destruct Hw as (-> & Hw & _). split; [|done].
    unfold pending, h_os. simpl. rewrite E.
    change (Z.testbit (load64 o (h_mem h) a) sig = true). rewrite Hw, Z.lor_spec, sigbit_testbit by lia.
    by rewrite bool_decide_eq_true_2, orb_true_r.
  - unfold signal_post. rewrite E. split; [|done]. unfold pending. simpl. rewrite E.
    rewrite Z.lor_spec, sigbit_testbit by lia. by rewrite bool_decide_eq_true_2, orb_true_r.
Qed.

(** [io] when the operation fails at once for a reason other than EAGAIN. *)
Lemma fd_io_fails {S} (changed : S → S) (op : S → (Z * Z) * S) nb sched s n e s' :
  op (changed s) = ((n, e), s') → e ≠ 0 → e ≠ EAGAIN →
  fd_io changed op nb sched s = Some ((- e, None), s').
Proof.
  intros Hop He Ha. destruct sched; simpl; rewrite Hop;
    (destruct (Z.eqb_spec e 0); [done|]); by destruct (Z.eqb_spec e EAGAIN).
Qed.

Lemma h_changed_socket s k h : w_socks (h_w h) !! s = Some k →
  w_socks (h_w (h_changed (KSocket s) h)) !! s = Some (sock_changed k).2.
Proof.
  destruct h as [q [hp nx w]]. unfold h_w. simpl. intros Hk. unfold at_socket. rewrite Hk. simpl.
  by rewrite lookup_insert_eq.
Qed.

(** ** Writing an address *)
Lemma load_other (o : OS) m a b x n :
  priv_range o m a n → zlen b ≤ n → priv_at o m x → x < a ∨ a + n ≤ x →
  load (mem_write m a b o) m x = load o m x.
Proof.
  intros Hr Hn Hx Hd. pose proof (zlen_nonneg b).
  rewrite load_mem_write; [|intros y Hy; apply Hr; lia|done].
  unfold znth. destruct (Z.ltb_spec (x - a) 0); [done|]. rewrite lookup_ge_None_2; [done|].
  unfold zlen in *. lia.
Qed.

(** ** Strings *)
Lemma strings_from_total (o : OS) m addr i fuel :
  0 ≤ addr < 2 ^ 32 → m_size m < 2 ^ 32 → 0 ≤ i → i < 2 ^ 30 →
  addr + 4 * i < 2 ^ 32 → 2 ^ 32 ≤ addr + 4 * (i + Z.of_nat fuel) →
  strings_from o m addr i fuel ≠ None.
Proof.
  intros Ha Hm. revert i. induction fuel as [|fuel IH]; intros i Hi Hi' Hlt Hge; [lia|].
  simpl. rewrite (wrapU_small 32 (addr + 4 * i)) by lia.
  destruct (readU32 o m (addr + 4 * i)) as [ptr|] eqn:E; [|done].
  assert (addr + 4 * i + 4 ≤ m_size m).
  { unfold readU32, Slice in E. by destruct (Z.ltb_spec (m_size m) (addr + 4 * i + 4)). }
  destruct (ptr =? 0); [done|]. destruct (cstring o m ptr); [|done].
  rewrite (wrapU_small 32 (i + 1)) by lia.
  specialize (IH (i + 1) ltac:(lia) ltac:(lia) ltac:(lia) ltac:(lia)).
  destruct (strings_from o m addr (i + 1) fuel) as [[l|]|]; done.
Qed.

Lemma strings_total (o : OS) m addr fuel :
  0 ≤ addr < 2 ^ 32 → m_size m < 2 ^ 32 → 2 ^ 30 ≤ Z.of_nat fuel → strings o m addr fuel ≠ None.
Proof. intros Ha Hm Hf. apply strings_from_total; lia. Qed.
End laws.

(** * Properties *)
Section properties.
Context {OS HS : Type} `{HostMMULaws OS} `{HostIO HS}.
#[local] Abbreviation host := (hstate OS HS).
Implicit Types (h : host).

(** C14. A pipe carries a guest's bytes: [Pipe] stores two descriptor numbers at the
    address it is given; what is then written to the second from one place in
    guest memory is read from the first into another, whole and in order, and
    both calls return its length. *)
Theorem guest_pipe_roundtrip (fdsAddr flags src dst n : Z) (h : host) :
  FDBase + Z.of_nat (size (pr_fds (h_p h))) + 1 < 2 ^ 31 →
  0 ≤ fdsAddr → fdsAddr + 8 ≤ m_size (h_mem h) ≤ 2 ^ 32 → priv_range (h_os h) (h_mem h) fdsAddr 8 →
  0 < n ≤ pipeCapacity → src + n ≤ m_size (h_mem h) → dst + n ≤ m_size (h_mem h) →
  priv_range (h_os h) (h_mem h) dst n →
  ∃ rfd wfd h1 h2 h3,
    fdHost_Pipe fdsAddr flags h = (0, h1) ∧
    h_readU32 fdsAddr h1 = Some rfd ∧ h_readU32 (fdsAddr + 4) h1 = Some wfd ∧ rfd ≠ wfd ∧
    fdHost_Write wfd src n [] h1 = Ret (n, None) h2 ∧
    fdHost_Read rfd dst n [] h2 = Ret (n, None) h3 ∧
    mem_read (h_os h3) (h_mem h) dst n = mem_read (h_os h1) (h_mem h) src n.
Proof.
  intros Hsz Ha Hm Hpf Hn Hsrc Hdst Hpd.
  destruct (fdHost_Pipe_spec fdsAddr flags h Hsz Ha Hm)
    as (rfd & wfd & h1 & Hpipe & Hr & Hw & Hne & Hgr & Hgw & Hx & Hm1 & Hos1).
  destruct (write_to_pipe wfd _ _ src n h1 newPipe Hgw Hx eq_refl ltac:(done) Hn ltac:(by rewrite Hm1))
    as (h2 & x & Hwr & Hs2 & Hos2 & Hx2 & Hb2).
  assert (Hm2 : h_mem h2 = h_mem h) by (unfold h_mem; rewrite (proj1 Hs2); exact Hm1).
  assert (Hl : zlen (p_buf x) = n) by (rewrite Hb2, zlen_mem_read; lia).
  assert (n < 2 ^ 31) by (change pipeCapacity with 65536 in Hn; lia).
  destruct (read_from_pipe rfd _ _ dst n h2 x ltac:(by rewrite (same_table_get h1)) Hx2 Hl ltac:(lia)
    ltac:(by rewrite Hm2)) as (h3 & Hrd & Hs3 & Hos3).
  assert (FDBase = 1048576) as HF by done.
  assert (Hc : ∀ p x, os_cell (h_os h1) p x = os_cell (h_os h) p x)
    by (intros; by rewrite Hos1, !mem_write_cell).
  rewrite (wrapU_small 32 (fdsAddr + 4)), !(wrapU_small 32) in Hos1 by lia.
  exists rfd, wfd, h1, h2, h3. split; [done|].
  assert (Hp1 : priv_range (mem_write (h_mem h) fdsAddr (le_bytes 4 rfd) (h_os h)) (h_mem h) fdsAddr 8)
    by (intros y Hy; unfold priv_at; rewrite mem_write_cell; by apply Hpf).
  split_and!; try done.
  - unfold h_readU32. rewrite Hm1, Hos1. unfold readU32, Slice. destruct (Z.ltb_spec (m_size (h_mem h)) (fdsAddr + 4)); [lia|].
    rewrite mem_read_other; [|intros y Hy; apply Hp1; unfold zlen in Hy; rewrite length_le_bytes in Hy; lia
      |intros y Hy; apply Hp1; lia|lia].
    pose proof (mem_read_write (h_os h) (h_mem h) fdsAddr (le_bytes 4 rfd)) as Hrw.
    change (zlen (le_bytes 4 rfd)) with 4 in Hrw. rewrite Hrw by (intros y Hy; apply Hpf; lia).
    rewrite le_val_bytes. f_equal. apply Z.mod_small. lia.
  - unfold h_readU32. rewrite Hm1, Hos1.
    apply (readU32_writeU32 (mem_write (h_mem h) fdsAddr (le_bytes 4 rfd) (h_os h)) (h_mem h) _ wfd); [|lia|].
    + intros y Hy. apply Hp1. lia.
    + unfold writeU32, Slice. by destruct (Z.ltb_spec (m_size (h_mem h)) (fdsAddr + 4 + 4)); [lia|].
  - rewrite Hm1 in Hb2. rewrite <- Hb2, Hos3, Hm2, Hos2. rewrite <- Hl at 1. apply mem_read_write.
    rewrite Hl. intros y Hy. unfold priv_at. rewrite Hc. by apply Hpd.
Qed.


(** The errors of descriptors that will not do: on one that is not open every
    call fails with EBADF, on one that is open but no socket the [net] calls
    fail with ENOTSOCK, and a call that fails so changes nothing at all. *)
Theorem bad_descriptor (mounts : list Mount) (create : Mount → string → HS → HS) (fd : Z) (h : host) (e : Z) :
  (pr_fds (h_p h) !! fd = None ∧ e = EBADF) ∨
  (∃ p f, h_get fd h = Some (p, f) ∧ (∀ s, f ≠ KSocket s) ∧ e = ENOTSOCK) →
  (∀ a n, netHost_Bind mounts create fd a n h = (- e, h)) ∧
  (∀ n, netHost_Listen fd n h = (- e, h)) ∧
  (∀ a l f sched, netHost_Accept fd a l f sched h = returns (- e) h) ∧
  (∀ a n d, netHost_Connect mounts fd a n d h = (- e, h)) ∧
  (∀ a n f sched, netHost_Recv fd a n f sched h = returns (- e) h) ∧
  (∀ a n f sched, netHost_Send fd a n f sched h = returns (- e) h) ∧
  (∀ how, netHost_Shutdown fd how h = (- e, h)) ∧
  (∀ l n v a, netHost_Getsockopt fd l n v a h = (- e, h)) ∧
  (∀ l n v a, netHost_Setsockopt fd l n v a h = (- e, h)) ∧
  (∀ a l, netHost_Getsockname fd a l h = Some (- e, h)) ∧
  (∀ a l, netHost_Getpeername fd a l h = Some (- e, h)) ∧
  (e = EBADF →
     (∀ a n sched, fdHost_Read fd a n sched h = returns (- EBADF) h) ∧
     (∀ a n sched, fdHost_Write fd a n sched h = returns (- EBADF) h) ∧
     close_fd fd h = (- EBADF, h) ∧
     (∀ n, on_fds (fdHost_Dup fd n) h = (- EBADF, h)) ∧
     (∀ c a, on_fds (fdHost_Fcntl fd c a) h = (- EBADF, h)) ∧
     (∀ n, shmHost_Truncate fd n h = (- EBADF, h)) ∧ shmHost_FdSize fd h = - EBADF ∧
     (∀ a n, shmHost_MapFd fd a n h = Some (- EBADF, h))).
Proof.
  intros Hbad. assert (psocket fd h = inr (- e)) as Hps.
  { unfold psocket. destruct Hbad as [[Hn ->]|(p & f & -> & Hf & ->)].
    - unfold h_get, fd_get. by rewrite Hn.
    - destruct f; try done. by destruct (Hf s). }
  unfold netHost_Bind, netHost_Listen, netHost_Accept, netHost_Connect, netHost_Recv, netHost_Send,
    netHost_Shutdown, netHost_Getsockopt, netHost_Setsockopt, netHost_Getsockname, netHost_Getpeername.
  rewrite Hps. do 11 (split; [done|]). intros ->.
  destruct Hbad as [[Hn _]|(p & f & _ & _ & [=])].
  assert (h_get fd h = None) as Hg by (unfold h_get, fd_get; by rewrite Hn).
  assert (fd_get fd (pr_fds (h_p h)) = None) as Hg' by (unfold fd_get; by rewrite Hn).
  assert (HState ((h_p h) <| pr_fds := pr_fds (h_p h) |>) (h_s h) = h) as Hid
    by (destruct h as [q s]; by destruct q).
  unfold fdHost_Read, fdHost_Write, close_fd, on_fds, fd_close, fdHost_Dup, fdHost_Fcntl,
    shmHost_Truncate, shmHost_FdSize, shmHost_MapFd, shmFD.
  rewrite Hg, Hg', Hn, delete_id by done. rewrite Hid. done.
Qed.

(** C24. Writing where nobody can read any more fails with EPIPE and raises SIGPIPE
    in the writer, which is woken by it: for a pipe whose readers are gone, and
    for a socket that was shut down or whose connection failed, unless the call
    asked for no signal. *)
Theorem broken_pipe_signalled (fd buf n flags : Z) sched (h : host) q f :
  ctl_safe h → buf + n ≤ m_size (h_mem h) → h_get fd h = Some (q, f) →
  (∀ p x, f = KPipeWriter p → w_pipes (h_w h) !! p = Some x → p_readers x = 0 →
     ∃ h', fdHost_Write fd buf n sched h = Ret (- EPIPE, None) h' ∧
       pending SIGPIPE h' = true ∧ sg_wake (pr_sig (h_p h')) = true) ∧
  (∀ s k, f = KSocket s → w_socks (h_w h) !! s = Some k → k_state k = sockConnected →
     k_werr k || k_wshut k = true →
     ∃ h', netHost_Send fd buf n flags sched h = Ret (- EPIPE, None) h' ∧
       (Z.land flags MSG_NOSIGNAL = 0 → pending SIGPIPE h' = true ∧ sg_wake (pr_sig (h_p h')) = true) ∧
       (Z.land flags MSG_NOSIGNAL ≠ 0 → h_p h' = h_p h ∧ h_os h' = h_os h)).
Proof.
  intros Hc Hs Hfd. assert (Slice buf n (h_mem h) = Some (buf, buf + n)) as Hsl
    by (unfold Slice; by destruct (Z.ltb_spec (m_size (h_mem h)) (buf + n)); [lia|]).
  split.
  - intros p x -> Hx Hrd. unfold fdHost_Write. rewrite Hfd, Hsl.
    set (h1 := h_changed (KPipeWriter p) h).
    assert (write_op (KPipeWriter p) buf n h1 = ((0, EPIPE), set_w (λ w, w <| w_pipes ::= <[p := waited x]> |>) h1)) as Hop.
    { unfold write_op. simpl. rewrite (at_pipe_spec _ _ _ _ (waited x) (0, EPIPE) (waited x)); [done| |].
      - unfold h1. rewrite (h_changed_pipe p _ h x) by auto. simpl. by rewrite lookup_insert_eq.
      - unfold pipeWriter_write. simpl. by rewrite Hrd. }
    rewrite (fd_io_fails _ _ _ _ _ _ _ _ Hop) by done. cbn [fst]. rewrite Z.eqb_refl.
    eexists. split; [done|]. destruct (h_changed_same (KPipeWriter p) h) as [Hp Ho]. fold h1 in Hp, Ho.
    apply h_Signal_pending; [|done..]. intros a Ha. change (sg_ctl (pr_sig (h_p h1)) = Some a) in Ha.
    change (ctl_ok (h_os h1) (h_mem h1) a). unfold h_mem. rewrite Hp in Ha. rewrite Hp, Ho. by apply Hc.
  - intros s k -> Hk Hst Hw. unfold netHost_Send, psocket. rewrite Hfd, Hsl.
    assert (∀ h0 k0, h_p h0 = h_p h → h_os h0 = h_os h → w_socks (h_w h0) !! s = Some k0 →
      k_state k0 = sockConnected → k_werr k0 || k_wshut k0 = true →
      ∃ h', send_op s buf n h0 = ((0, EPIPE), h') ∧ h_p h' = h_p h ∧ h_os h' = h_os h) as Hop.
    { intros h0 k0 Hp Ho Hk0 Hst0 Hw0. eexists. unfold send_op, on_socket, at_socket. rewrite Hk0.
      unfold sock_send. rewrite Hst0, Hw0. simpl. split; [reflexivity|done]. }
    assert (∃ h', (if negb (Z.land flags MSG_DONTWAIT =? 0) then Some (dontwait (send_op s buf n h))
      else fd_io (h_changed (KSocket s)) (send_op s buf n) (h_nonblock q) sched h) = Some ((- EPIPE, None), h') ∧
      h_p h' = h_p h ∧ h_os h' = h_os h) as (h' & -> & Hp & Ho).
    { destruct (negb _).
      - destruct (Hop h k) as (h' & -> & ?); [done..|]. by exists h'.
      - destruct (h_changed_same (KSocket s) h) as [Hp Ho].
        destruct (Hop (h_changed (KSocket s) h) (sock_changed k).2) as (h' & Hop' & ?); try done.
        { by apply h_changed_socket. }
        exists h'. split; [|done]. by rewrite (fd_io_fails _ _ _ _ _ _ _ _ Hop'). }
    eexists. split; [reflexivity|]. cbn [fst]. rewrite Z.eqb_refl. simpl. split.
    + intros ->. apply h_Signal_pending; [|done..]. intros a Ha. rewrite Hp in Ha. unfold h_mem. rewrite Hp, Ho. by apply Hc.
    + intros Hne. destruct (Z.eqb_spec (Z.land flags MSG_NOSIGNAL) 0); done.
Qed.

(** Addresses are given back the way [accept(2)] says: the encoding is cut to
    the room the guest has, its full length is stored in place of that room, and
    nothing else in the guest's memory changes. *)
Theorem sockaddr_written (a : sockaddr) (enc : bytes) (addr lenAddr room : Z) (h : host) :
  encode a = Some enc → zlen enc < 2 ^ 32 → addr ≠ 0 → lenAddr ≠ 0 →
  h_readU32 lenAddr h = Some room → 0 ≤ room →
  let n := Z.min (zlen enc) room in
  addr + n ≤ m_size (h_mem h) → priv_range (h_os h) (h_mem h) addr n →
  priv_range (h_os h) (h_mem h) lenAddr 4 → addr + n ≤ lenAddr ∨ lenAddr + 4 ≤ addr →
  ∃ h', writeSockaddr a addr lenAddr h = Some (0, h') ∧
    mem_read (h_os h') (h_mem h) addr n = ztake room enc ∧
    h_readU32 lenAddr h' = Some (zlen enc) ∧
    ∀ x, priv_at (h_os h) (h_mem h) x → ¬ (addr ≤ x < addr + n) → ¬ (lenAddr ≤ x < lenAddr + 4) →
      load (h_os h') (h_mem h) x = load (h_os h) (h_mem h) x.
Proof.
  intros Henc Hl Ha Hla Hroom Hr0 n Hsz Hp Hpl Hd. pose proof (zlen_nonneg enc) as Hl0.
  assert (lenAddr + 4 ≤ m_size (h_mem h)) as Hls.
  { unfold h_readU32, readU32, Slice in Hroom. by destruct (Z.ltb_spec (m_size (h_mem h)) (lenAddr + 4)). }
  assert (zlen (ztake n enc) = n) as Hn by (rewrite zlen_take; lia).
  unfold writeSockaddr. rewrite (proj2 (Z.eqb_neq addr 0)), (proj2 (Z.eqb_neq lenAddr 0)) by done.
  cbn [orb]. rewrite Hroom, Henc, (wrapU_small 32 (zlen enc)) by lia. fold n. unfold Slice.
  destruct (Z.ltb_spec (m_size (h_mem h)) (addr + n)); [lia|].
  set (o1 := mem_write (h_mem h) addr (ztake n enc) (h_os h)). set (h1 := set_os o1 h).
  assert (h_mem h1 = h_mem h) as Hm1 by done. assert (h_os h1 = o1) as Ho1 by done.
  assert (∀ y m, priv_range (h_os h) (h_mem h) y m → priv_range o1 (h_mem h) y m) as Hc
    by (intros y m Hy x Hx; unfold priv_at, o1; rewrite mem_write_cell; by apply Hy).
  rewrite (h_writeU32_spec lenAddr (zlen enc) h1) by (by rewrite Hm1).
  eexists. split; [reflexivity|]. cbn [snd]. rewrite h_os_write, Hm1, Ho1. split_and!.
  - rewrite mem_read_other; [|by apply Hc|by apply Hc|unfold zlen; rewrite length_le_bytes; lia].
    rewrite <- Hn at 1. unfold o1. rewrite mem_read_write by (by rewrite Hn). unfold n.
    destruct (decide (zlen enc ≤ room)); [|by rewrite Z.min_r by lia].
    rewrite Z.min_l by lia. by rewrite !ztake_all by lia.
  - apply (h_readU32_write lenAddr (zlen enc) h1); [exact Hls|by apply Hc|lia].
  - intros x Hx Hx1 Hx2. rewrite (load_other _ _ _ _ _ 4);
      [|by apply Hc|unfold zlen; rewrite length_le_bytes; lia| |lia].
    + unfold o1. apply (load_other _ _ _ _ _ n); [done|lia|done|lia].
    + unfold priv_at, o1. by rewrite mem_write_cell.
Qed.

(** C16. [Spawn] always comes back: neither the search for the end of a string nor
    the loops over the two arrays can go on for ever in a memory of less than
    4 GiB.  It fails without having made a process, or makes a child of the
    caller, with the arguments, the environment (each variable cut at its first
    equals sign) and the directory read from the caller's memory, and returns
    its pid. *)
Theorem spawn_returns (getpid : Z) (kid : nat) (programs : list string) (fuel q : nat)
    (argvAddr envpAddr cwdAddr : Z) (k : kernel OS HS) (p : proc) :
  kr_heap k !! q = Some p → is_Some (pr_children p) → kr_heap k !! kr_next k = None →
  m_size (pr_mem p) < 2 ^ 32 → 0 ≤ argvAddr < 2 ^ 32 → 0 ≤ envpAddr < 2 ^ 32 → 2 ^ 30 ≤ Z.of_nat fuel →
  ∃ r k', procHost_Spawn getpid kid programs fuel q argvAddr envpAddr cwdAddr k = Ret (r, None) k' ∧
    ((r ∈ [- EFAULT; - EINVAL; - ENOENT; - EAGAIN] ∧ kr_heap k' = kr_heap k ∧ kr_procs k' = kr_procs k) ∨
     ∃ argv0 argv vars cwd child,
       strings (k_os k) (pr_mem p) argvAddr fuel = Some (Some (argv0 :: argv)) ∧
       HasProgram programs argv0 = true ∧
       (if envpAddr =? 0 then Some (Some []) else strings (k_os k) (pr_mem p) envpAddr fuel) = Some (Some vars) ∧
       cstring (k_os k) (pr_mem p) cwdAddr = Some cwd ∧
       kr_heap k' !! kr_next k = Some child ∧ kr_procs k' !! r = Some (kr_next k) ∧
       pr_pid child = r ∧ pr_parent child = Some q ∧ pr_argv child = argv0 :: argv ∧
       pr_env child = cut_eq <$> vars ∧ pr_cwd child = cwd).
Proof.
  intros Hq [m Hm] Hfresh Hsz Ha He Hf. unfold procHost_Spawn.
  assert (proc_mem q k = pr_mem p) as -> by (unfold proc_mem; by rewrite Hq).
  assert (∀ addr, 0 ≤ addr < 2 ^ 32 → strings (k_os k) (pr_mem p) addr fuel ≠ None) as Hs
    by (intros; by apply strings_total).
  assert (∀ e, e ∈ [- EFAULT; - EINVAL; - ENOENT; - EAGAIN] → ∃ r k', returns e k = Ret (r, None) k' ∧
    ((r ∈ [- EFAULT; - EINVAL; - ENOENT; - EAGAIN] ∧ kr_heap k' = kr_heap k ∧ kr_procs k' = kr_procs k) ∨ False)) as Hfail
    by (intros e ?; exists e, k; split; [done|by left]).
  destruct (strings (k_os k) (pr_mem p) argvAddr fuel) as [[argv|]|] eqn:Eargv;
    [|destruct (Hfail (- EFAULT)) as (r & k' & ? & [?|[]]); [set_solver|eauto]|by destruct (Hs argvAddr)].
  destruct (cstring _ _ cwdAddr) as [cwd|];
    [|destruct (Hfail (- EFAULT)) as (r & k' & ? & [?|[]]); [set_solver|eauto]].
  rewrite if_negb. destruct (if envpAddr =? 0 then _ else _) as [[vars|]|] eqn:Eenv;
    [|destruct (Hfail (- EFAULT)) as (r & k' & ? & [?|[]]); [set_solver|eauto]|
     destruct (envpAddr =? 0); [done|by destruct (Hs envpAddr)]].
  destruct argv as [|argv0 argv]; [destruct (Hfail (- EINVAL)) as (r & k' & ? & [?|[]]); [set_solver|eauto]|].
  destruct (HasProgram programs argv0) eqn:Eprog; simpl;
    [|destruct (Hfail (- ENOENT)) as (r & k' & ? & [?|[]]); [set_solver|eauto]].
  unfold spawn. rewrite Hq. unfold k_newProcess.
  destruct (allocPid getpid kid (kr_pids k)) as [pid t]. destruct (Z.eqb_spec pid 0).
  { exists (- EAGAIN). eexists. split; [done|]. left. split; [set_solver|done]. }
  destruct (cloneForExec _ _) as [tab s]. simpl. rewrite Hm, lookup_alter_eq, lookup_insert_eq. simpl.
  assert (q ≠ kr_next k) by (intros ->; congruence).
  do 2 eexists. split; [reflexivity|]. right. exists argv0, argv, vars, cwd. eexists.
  do 4 (split; [done|]). split; [simpl; by rewrite lookup_alter_ne, lookup_alter_eq, lookup_insert_eq by done|].
  split; [simpl; by rewrite lookup_insert_eq|]. done.
Qed.
End properties.

Lemma guest_pipe_roundtrip_witness :
  let h := (h_writeU32 200 305419896 demo_host).2 in
  ∃ rfd wfd h1 h2 h3,
    fdHost_Pipe 64 0 h = (0, h1) ∧ h_readU32 64 h1 = Some rfd ∧ h_readU32 68 h1 = Some wfd ∧
    fdHost_Write wfd 200 4 [] h1 = Ret (4, None) h2 ∧ fdHost_Read rfd 300 4 [] h2 = Ret (4, None) h3 ∧
    mem_read (h_os h3) (h_mem h) 300 4 = [120; 86; 52; 18].
Proof.
  intros h. assert (∀ a n, 0 ≤ a → a + n ≤ 131072 → priv_range (h_os h) (h_mem h) a n) as Hp
    by (intros; by apply demo_host_range).
  assert (Hm : m_size (h_mem h) = 2 * PageSize) by reflexivity. unfold PageSize in *.
  destruct (guest_pipe_roundtrip 64 0 200 300 4 h) as (rfd & wfd & h1 & h2 & h3 & E1 & E2 & E3 & _ & E4 & E5 & E6);
    [reflexivity|lia|lia|apply Hp; lia|change pipeCapacity with 65536; lia|lia|lia|apply Hp; lia|].
  exists rfd, wfd, h1, h2, h3. split_and!; try assumption.
  rewrite E6. apply (f_equal snd) in E1. cbn [snd] in E1. rewrite <- E1. vm_compute. reflexivity.
Defined.

(** A process with a pipe: the read end is [FDBase], the write end [FDBase + 1]. *)
Definition demo_piped : hstate Sim.sim unit := (fdHost_Pipe 64 0 demo_host).2.


Lemma bad_descriptor_witness :
  netHost_Shutdown FDBase SHUT_WR demo_piped = (- ENOTSOCK, demo_piped) ∧
  fdHost_Read 7 0 1 [] demo_piped = Ret (- EBADF, None) demo_piped.
Proof.
  split.
  - apply (bad_descriptor [] (λ _ _ w, w) FDBase demo_piped ENOTSOCK). right. exists 0%nat, (KPipeReader 0).
    split; [vm_compute; reflexivity|]. split; [by intros|reflexivity].
  - destruct (bad_descriptor [] (λ _ _ w, w) 7 demo_piped EBADF) as (_ & _ & _ & _ & _ & _ & _ & _ & _ & _ & _ & Hf).
    + left. split; [vm_compute; reflexivity|reflexivity].
    + destruct (Hf eq_refl) as (Hr & _). apply Hr.
Defined.

Lemma broken_pipe_signalled_witness :
  let h := (close_fd FDBase demo_piped).2 in
  match fdHost_Write (FDBase + 1) 64 8 [] h with
  | Ret (r, _) h' => r = - EPIPE ∧ pending SIGPIPE h' = true
  | _ => False
  end.
Proof.
  intros h. destruct (broken_pipe_signalled (FDBase + 1) 64 8 0 [] h 1 (KPipeWriter 0)) as [Hp _].
  - intros a. vm_compute. discriminate.
  - vm_compute. discriminate.
  - vm_compute. reflexivity.
  - destruct (Hp 0%nat (Pipe [] 0 1 new_notifier)) as (h' & -> & Hpend & _);
      [reflexivity|vm_compute; reflexivity|reflexivity|]. split; [reflexivity|exact Hpend].
Defined.

Lemma sockaddr_written_witness :
  let a := Sockaddr AF_INET [127; 0; 0; 1] 5432 [] in
  let h := (h_writeU32 400 6 demo_host).2 in
  ∃ h', writeSockaddr a 300 400 h = Some (0, h') ∧
    mem_read (h_os h') (h_mem h) 300 6 = [1; 0; 21; 56; 127; 0] ∧ h_readU32 400 h' = Some 16.
Proof.
  intros a h. assert (encode a = Some [1; 0; 21; 56; 127; 0; 0; 1; 0; 0; 0; 0; 0; 0; 0; 0]) as He by reflexivity.
  destruct (sockaddr_written a _ 300 400 6 h He) as (h' & H1 & H2 & H3 & _);
    [reflexivity|lia|lia|vm_compute; reflexivity|lia|vm_compute; discriminate| | |left; vm_compute; discriminate|].
  - change (priv_range (h_os h) (h_mem h) 300 6). apply demo_host_range; [reflexivity|reflexivity|lia|lia].
  - apply demo_host_range; [reflexivity|reflexivity|lia|lia].
  - exists h'. split; [exact H1|]. split; [exact H2|exact H3].
Defined.

(** A kernel of one process; its memory is all zeroes. *)
Definition demo_spawner : kernel Sim.sim unit :=
  Kern {[0%nat := (newProcess 4097 None ["postgres"%string] []) <| pr_mem := demo_boot.1 |>]} 1 ∅ pids_zero
    (OFiles ∅ 0 (world_init demo_boot.2 ())).

Lemma spawn_returns_witness :
  ∃ r k', procHost_Spawn 2 7 ["postgres"%string] (Z.to_nat (2 ^ 30)) 0 64 0 128 demo_spawner = Ret (r, None) k'.
Proof.
  destruct (spawn_returns 2 7 ["postgres"%string] (Z.to_nat (2 ^ 30)) 0 64 0 128 demo_spawner
              ((newProcess 4097 None ["postgres"%string] []) <| pr_mem := demo_boot.1 |>)) as (r & k' & Hr & _);
    [reflexivity|by eexists|reflexivity|reflexivity|lia|lia|rewrite Z2Nat.id; lia|].
  exists r, k'. exact Hr.
Defined.
