(* ===== verification/System.v ===== *)
(** All host calls together: one type of calls and the function that runs one
    for a process, the well-formedness of the descriptors and files of a
    kernel, which no call breaks, and the calls as steps of [Lifecycle]. *)
From S2P Require Import Prelude Abi Notify Bytes Vmem GuestMem Signals Sema FdTable Pipe Stdio Shm Paths Pids Socket World Alarm Process Lifecycle Host Poll.

#[local] Arguments add_file : simpl never.
#[local] Arguments close_fd : simpl never.
#[local] Arguments on_socket : simpl never.
#[local] Arguments add_pipe : simpl never.
#[local] Arguments add_socket : simpl never.

Section calls.
Context {OS HS : Type} `{HostMMU OS} `{HostIO HS}.
#[local] Abbreviation host := (hstate OS HS).
#[local] Abbreviation schedule := (list ((host → host) * wakeReason)).

Inductive host_call :=
| HRegister (addr : Z)
| HSetAlarm (valueUsec intervalUsec now : Z)
| HSleep (usec now : Z) (sched : list ((sigstate → OS → sigstate * OS) * Z))
| HPipe (fdsAddr flags : Z)
| HDevnull
| HRead (fd buf n : Z) (sched : schedule)
| HWrite (fd buf n : Z) (sched : schedule)
| HClose (fd : Z)
| HDup (fd newFd : Z)
| HFcntl (fd cmd arg : Z)
| HPoll (fdsAddr nfds timeoutMs : Z) (sched : schedule)
| HSocket (domain socktype protocol : Z)
| HBind (fd addr n : Z)
| HListen (fd backlog : Z)
| HAccept (fd addr lenAddr flags : Z) (sched : schedule)
| HConnect (fd addr n : Z) (vdial : nat → HS → option (nat * netaddr) * HS)
| HRecv (fd buf n flags : Z) (sched : schedule)
| HSend (fd buf n flags : Z) (sched : schedule)
| HShutdown (fd how : Z)
| HGetsockopt (fd level name val lenAddr : Z)
| HSetsockopt (fd level name val n : Z)
| HGetsockname (fd addr lenAddr : Z)
| HGetpeername (fd addr lenAddr : Z)
| HShmCreate (size : Z)
| HShmAttach (id addr : Z)
| HShmRemove (id : Z)
| HShmOpen (nameAddr nameLen flags : Z)
| HShmUnlink (nameAddr nameLen : Z)
| HShmTruncate (fd size : Z)
| HShmMapFd (fd addr n : Z)
| HShmUnmap (addr n : Z).

Definition plain (r : Z * host) : outcome host := returns r.1 r.2.
Definition or_panic (r : option (Z * host)) : outcome host :=
  match r with Some (n, h) => returns n h | None => Panic end.

Definition host_exec (mounts : list Mount) (create : Mount → string → HS → HS) (c : host_call) (h : host)
    : outcome host :=
  match c with
  | HRegister a => plain (sigHost_Register a h)
  | HSetAlarm v i now => plain (sigHost_SetAlarm v i now h)
  | HSleep u now sched => sigHost_Sleep u now sched h
  | HPipe a fl => plain (fdHost_Pipe a fl h)
  | HDevnull => plain (fdHost_Devnull h)
  | HRead fd b n sched => fdHost_Read fd b n sched h
  | HWrite fd b n sched => fdHost_Write fd b n sched h
  | HClose fd => plain (on_fds (fdHost_Close fd) h)
  | HDup fd fd' => plain (on_fds (fdHost_Dup fd fd') h)
  | HFcntl fd cmd arg => plain (on_fds (fdHost_Fcntl fd cmd arg) h)
  | HPoll a n t sched => fdHost_Poll a n t sched h
  | HSocket d t p => plain (netHost_Socket d t p h)
  | HBind fd a n => plain (netHost_Bind mounts create fd a n h)
  | HListen fd n => plain (netHost_Listen fd n h)
  | HAccept fd a l fl sched => netHost_Accept fd a l fl sched h
  | HConnect fd a n d => plain (netHost_Connect mounts fd a n d h)
  | HRecv fd b n fl sched => netHost_Recv fd b n fl sched h
  | HSend fd b n fl sched => netHost_Send fd b n fl sched h
  | HShutdown fd how => plain (netHost_Shutdown fd how h)
  | HGetsockopt fd l n v a => plain (netHost_Getsockopt fd l n v a h)
  | HSetsockopt fd l n v m => plain (netHost_Setsockopt fd l n v m h)
  | HGetsockname fd a l => or_panic (netHost_Getsockname fd a l h)
  | HGetpeername fd a l => or_panic (netHost_Getpeername fd a l h)
  | HShmCreate n => plain (shmHost_Create n h)
  | HShmAttach i a => or_panic (shmHost_Attach i a h)
  | HShmRemove i => plain (shmHost_Remove i h)
  | HShmOpen a n fl => plain (shmHost_Open a n fl h)
  | HShmUnlink a n => plain (shmHost_Unlink a n h)
  | HShmTruncate fd n => plain (shmHost_Truncate fd n h)
  | HShmMapFd fd a n => or_panic (shmHost_MapFd fd a n h)
  | HShmUnmap a n => or_panic (shmHost_Unmap a n h)
  end.

(** What the other processes may do while a call is blocked. *)
Definition call_envs (c : host_call) : list (host → host) :=
  match c with
  | HRead _ _ _ s | HWrite _ _ _ s | HPoll _ _ _ s | HAccept _ _ _ _ s | HRecv _ _ _ _ s | HSend _ _ _ _ s => s.*1
  | _ => []
  end.

(** Process [q] makes a call. *)
Definition run_call mounts create (q : nat) (c : host_call) (k : kernel OS HS) : outcome (kernel OS HS) :=
  match kr_heap k !! q with
  | None => Blocked
  | Some p =>
      match host_exec mounts create c (HState p (kr_files k)) with
      | Ret r h => Ret r (proc_update q (λ _, h_p h) (k <| kr_files := h_s h |>))
      | Blocked => Blocked
      | Panic => Panic
      end
  end.

(** * Well-formedness *)
Implicit Types (w : kworld OS HS) (h : host) (t : shmTable).

(** The object a file refers to exists. *)
Definition kfile_ok w (f : kfile) : Prop :=
  match f with
  | KPipeReader p | KPipeWriter p => is_Some (w_pipes w !! p)
  | KReader r => is_Some (w_readers w !! r)
  | KSocket i => is_Some (w_socks w !! i)
  | KShm i => is_Some (shm_heap (w_shm w) !! i)
  | KWriter _ | KNull => True
  end.

(** Names and ids lead to segments; no address is in use that is yet to be
    given out. *)
Record world_ok w : Prop := {
  wo_names n i : shm_names (w_shm w) !! n = Some i → is_Some (shm_heap (w_shm w) !! i);
  wo_ids n i : shm_segs (w_shm w) !! n = Some i → is_Some (shm_heap (w_shm w) !! i);
  wo_shm i : is_Some (shm_heap (w_shm w) !! i) → (i < shm_ptr (w_shm w))%nat;
  wo_pipes i : is_Some (w_pipes w !! i) → (i < w_next w)%nat;
  wo_readers i : is_Some (w_readers w !! i) → (i < w_next w)%nat;
  wo_socks i : is_Some (w_socks w !! i) → (i < w_next w)%nat;
}.

Record files_ok (s : kstate OS HS) : Prop := {
  fo_world : world_ok (o_files s);
  fo_file p f : o_heap s !! p = Some f → kfile_ok (o_files s) (of_f f);
  fo_next p : is_Some (o_heap s !! p) → (p < o_next s)%nat;
}.

(** Every descriptor refers to an open file, every attachment to a segment. *)
Record proc_ok (s : kstate OS HS) (p : proc) : Prop := {
  po_fds fd e : pr_fds p !! fd = Some e → is_Some (o_heap s !! fe_of e);
  po_att a : a ∈ pr_shmAttached p → is_Some (shm_heap (w_shm (o_files s)) !! at_s a);
}.

Definition host_ok h : Prop := files_ok (h_s h) ∧ proc_ok (h_s h) (h_p h).

(** Objects are never dropped, and an open file stays the file it was opened as. *)
Record world_ext w w' : Prop := {
  we_pipes i : is_Some (w_pipes w !! i) → is_Some (w_pipes w' !! i);
  we_readers i : is_Some (w_readers w !! i) → is_Some (w_readers w' !! i);
  we_socks i : is_Some (w_socks w !! i) → is_Some (w_socks w' !! i);
  we_shm i : is_Some (shm_heap (w_shm w) !! i) → is_Some (shm_heap (w_shm w') !! i);
}.
Record files_ext (s s' : kstate OS HS) : Prop := {
  fx_world : world_ext (o_files s) (o_files s');
  fx_heap p f : o_heap s !! p = Some f → ∃ f', o_heap s' !! p = Some f' ∧ of_f f' = of_f f;
}.

Definition kernel_ok (k : kernel OS HS) : Prop :=
  files_ok (kr_files k) ∧ ∀ q p, kr_heap k !! q = Some p → proc_ok (kr_files k) p.

(** ** Extension *)
#[export] Instance world_ext_preorder : PreOrder world_ext.
Proof.
  split; [by split|]. intros w1 w2 w3 [] []. split; auto.
Qed.
#[export] Instance files_ext_preorder : PreOrder files_ext.
Proof.
  split.
  - intros s. split; [done|]. intros p f Hf. by exists f.
  - intros s1 s2 s3 [W1 H1'] [W2 H2']. split; [by etransitivity|]. intros p f Hf.
    destruct (H1' p f Hf) as (f' & Hf' & <-). by apply H2'.
Qed.

Lemma kfile_ok_ext w w' f : world_ext w w' → kfile_ok w f → kfile_ok w' f.
Proof. intros []. destruct f; simpl; auto. Qed.
Lemma proc_ok_ext s s' p : files_ext s s' → proc_ok s p → proc_ok s' p.
Proof.
  intros [[] He] [Hf Ha]. split; [|auto]. intros fd e Hfd. destruct (Hf fd e Hfd) as [f Hp].
  destruct (He _ _ Hp) as (f' & Hf' & _). by exists f'.
Qed.

(** ** Steps of the world *)
Definition wsafe w w' : Prop := world_ok w → world_ok w' ∧ world_ext w w'.
Lemma wsafe_refl w : wsafe w w.
Proof. by split. Qed.
Lemma wsafe_trans w1 w2 w3 : wsafe w1 w2 → wsafe w2 w3 → wsafe w1 w3.
Proof. intros A B Hw. destruct (A Hw) as [Hw2 E]. destruct (B Hw2). split; [done|by etransitivity]. Qed.

(** A world that differs only in what no file refers to. *)
Lemma wsafe_same w w' :
  w_pipes w' = w_pipes w → w_readers w' = w_readers w → w_socks w' = w_socks w → w_next w' = w_next w →
  w_shm w' = w_shm w → wsafe w w'.
Proof.
  intros Hp Hr Hs Hn Hsh [? ? ? ? ? ?]. split; split; rewrite ?Hp, ?Hr, ?Hs, ?Hn, ?Hsh; auto.
Qed.

Lemma insert_is_Some {V} (m : gmap nat V) k v i :
  is_Some (m !! k) → is_Some (<[k := v]> m !! i) ↔ is_Some (m !! i).
Proof.
  intros Hk. destruct (decide (k = i)) as [<-|]; [by rewrite lookup_insert_eq|by rewrite lookup_insert_ne].
Qed.

Lemma at_pipe_safe {A} (d : A) p f w : wsafe w (at_pipe d p f w).2.
Proof.
  unfold at_pipe. destruct (w_pipes w !! p) as [x|] eqn:E; [|apply wsafe_refl]. destruct (f x) as [r x'].
  assert (∀ i, is_Some (<[p := x']> (w_pipes w) !! i) ↔ is_Some (w_pipes w !! i)) as Hi
    by (intros i; by apply insert_is_Some).
  intros [? ? ? ? ? ?]. split; split; simpl; auto; intros i; rewrite Hi; auto.
Qed.
Lemma at_reader_safe {A} (d : A) p f w : wsafe w (at_reader d p f w).2.
Proof.
  unfold at_reader. destruct (w_readers w !! p) as [x|] eqn:E; [|apply wsafe_refl]. destruct (f x) as [r x'].
  assert (∀ i, is_Some (<[p := x']> (w_readers w) !! i) ↔ is_Some (w_readers w !! i)) as Hi
    by (intros i; by apply insert_is_Some).
  intros [? ? ? ? ? ?]. split; split; simpl; auto; intros i; rewrite Hi; auto.
Qed.
Lemma set_socket_safe (i : nat) (k : socket) w g : is_Some (w_socks w !! i) →
  (∀ w, w_pipes (g w) = w_pipes w ∧ w_readers (g w) = w_readers w ∧ w_socks (g w) = w_socks w ∧
        w_next (g w) = w_next w ∧ w_shm (g w) = w_shm w) →
  wsafe w (g (w <| w_socks ::= <[i := k]> |>)).
Proof.
  intros E Hg. destruct (Hg (w <| w_socks ::= <[i := k]> |>)) as (Hp & Hr & Hs & Hn & Hsh).
  assert (∀ j, is_Some (<[i := k]> (w_socks w) !! j) ↔ is_Some (w_socks w !! j)) as Hi
    by (intros j; by apply insert_is_Some).
  intros [? ? ? ? ? ?]. split; split; rewrite ?Hp, ?Hr, ?Hs, ?Hn, ?Hsh; simpl; auto; intros j; rewrite Hi; auto.
Qed.
Lemma at_socket_safe {A} (d : A) p f w : wsafe w (at_socket d p f w).2.
Proof.
  unfold at_socket. destruct (w_socks w !! p) as [x|] eqn:E; [|apply wsafe_refl]. destruct (f x) as [r x'].
  apply (set_socket_safe p x' w id); [by rewrite E|done].
Qed.

(** ** Steps of the shared memory table *)
Record tab_ok t : Prop := {
  tk_names n i : shm_names t !! n = Some i → is_Some (shm_heap t !! i);
  tk_ids n i : shm_segs t !! n = Some i → is_Some (shm_heap t !! i);
  tk_ptr i : is_Some (shm_heap t !! i) → (i < shm_ptr t)%nat;
}.
Definition seg_at t (i : nat) : Prop := is_Some (shm_heap t !! i).
Definition tab_ext t t' : Prop := ∀ i, seg_at t i → seg_at t' i.
Definition tsafe t t' : Prop := tab_ok t → tab_ok t' ∧ tab_ext t t'.
Lemma tsafe_refl t : tsafe t t.
Proof. intros ?. split; [done|]. by intros i. Qed.
Lemma tsafe_trans t1 t2 t3 : tsafe t1 t2 → tsafe t2 t3 → tsafe t1 t3.
Proof. intros A B Ht. destruct (A Ht) as [Ht2 E]. destruct (B Ht2) as [? E']. split; [done|]. intros i Hi. by apply E', E. Qed.

Lemma wsafe_tab w t' (g : kworld OS HS → kworld OS HS) : tsafe (w_shm w) t' →
  (∀ w, w_pipes (g w) = w_pipes w ∧ w_readers (g w) = w_readers w ∧ w_socks (g w) = w_socks w ∧
        w_next (g w) = w_next w ∧ w_shm (g w) = w_shm w) →
  wsafe w (g (w <| w_shm := t' |>)).
Proof.
  intros Ht Hg. destruct (Hg (w <| w_shm := t' |>)) as (Hp & Hr & Hs & Hn & Hsh).
  intros [? ? ? ? ? ?]. destruct Ht as [[] He]; [by split|].
  split; split; rewrite ?Hp, ?Hr, ?Hs, ?Hn, ?Hsh; simpl; auto.
Qed.

(** Fewer names or ids, and a change to one segment. *)
Lemma shrink_safe t t' :
  shm_ptr t' = shm_ptr t → (∀ i, seg_at t' i ↔ seg_at t i) →
  (∀ n i, shm_names t' !! n = Some i → ∃ n', shm_names t !! n' = Some i) →
  (∀ n i, shm_segs t' !! n = Some i → ∃ n', shm_segs t !! n' = Some i) → tsafe t t'.
Proof.
  intros Hp Hh Hn Hs [Tn Ts Tp]. split; [|intros i; by apply Hh]. split.
  - intros n i Hi. apply Hh. destruct (Hn n i Hi) as [n' ?]. by apply (Tn n').
  - intros n i Hi. apply Hh. destruct (Hs n i Hi) as [n' ?]. by apply (Ts n').
  - intros i. rewrite Hp. intros Hi. by apply Tp, Hh.
Qed.
Lemma shm_update_at s f t i : seg_at (shm_update s f t) i ↔ seg_at t i.
Proof. unfold seg_at, shm_update. simpl. rewrite lookup_alter. case_decide; subst; [apply fmap_is_Some|done]. Qed.
Lemma shm_update_safe s f t : tsafe t (shm_update s f t).
Proof. apply shrink_safe; [done|apply shm_update_at|eauto..]. Qed.
Lemma forget_id_safe n t : tsafe t (t <| shm_segs ::= delete n |>).
Proof. apply shrink_safe; [done..|eauto|]. simpl. intros k i [_ Hk]%lookup_delete_Some. by exists k. Qed.
Lemma forget_name_safe n t : tsafe t (t <| shm_names ::= delete n |>).
Proof. apply shrink_safe; [done..| |eauto]. simpl. intros k i [_ Hk]%lookup_delete_Some. by exists k. Qed.
Hint Resolve tsafe_refl shm_update_safe forget_id_safe forget_name_safe : core.

Lemma maybeFree_safe s t (o : OS) : tsafe t (maybeFree s t o).1.
Proof.
  unfold maybeFree. destruct (shm_heap t !! s) as [g|]; [|apply tsafe_refl]. destruct (_ && _); [|apply tsafe_refl].
  destruct (ss_seg g); simpl; [|apply forget_id_safe]. eapply tsafe_trans; [apply forget_id_safe|apply shm_update_safe].
Qed.
Lemma free_after_safe s f t (o : OS) : tsafe t (maybeFree s (shm_update s f t) o).1.
Proof. eapply tsafe_trans; [apply shm_update_safe|apply maybeFree_safe]. Qed.
Hint Resolve maybeFree_safe free_after_safe : core.

Lemma newSegment_safe name t : tsafe t (newSegment name t).2 ∧ (tab_ok t → seg_at (newSegment name t).2 (newSegment name t).1).
Proof.
  assert (∀ i, seg_at t i → seg_at (newSegment name t).2 i) as He.
  { intros i Hi. unfold seg_at in *. simpl. destruct (decide (shm_ptr t = i)) as [<-|];
      [by rewrite lookup_insert_eq|by rewrite lookup_insert_ne]. }
  assert (seg_at (newSegment name t).2 (shm_ptr t)) as Hnew by (unfold seg_at; simpl; by rewrite lookup_insert_eq).
  split; [|done]. intros [Tn Ts Tp]. split; [|done]. split; simpl.
  - intros n i Hi. by apply He, (Tn n).
  - intros n i. destruct (decide (shm_next t = n)) as [<-|].
    + rewrite lookup_insert_eq. by intros [= <-].
    + rewrite lookup_insert_ne by done. intros Hi. by apply He, (Ts n).
  - intros i. destruct (decide (shm_ptr t = i)) as [<-|]; [lia|]. rewrite lookup_insert_ne by done.
    intros Hi%Tp. lia.
Qed.

Lemma shm_create_safe n t (o : OS) : tsafe t (shm_create n t o).1.2.
Proof.
  unfold shm_create. destruct (n =? 0); [apply tsafe_refl|]. destruct (NewSegment n o) as [[v|] o']; [|apply tsafe_refl].
  destruct (newSegment "" t) as [s t'] eqn:E. simpl. eapply tsafe_trans; [|apply shm_update_safe].
  change t' with (s, t').2. rewrite <- E. apply newSegment_safe.
Qed.
Lemma shm_remove_safe i t (o : OS) : tsafe t (shm_remove i t o).1.2.
Proof.
  unfold shm_remove. destruct (shm_get i t) as [[s g]|]; [|apply tsafe_refl]. destruct (ss_removed g); [apply tsafe_refl|].
  pose proof (free_after_safe s (λ g, g <| ss_removed := true |>) t o) as Hs. destruct (maybeFree _ _ _). exact Hs.
Qed.
Lemma shm_unlink_safe n t (o : OS) : tsafe t (shm_unlink n t o).1.2.
Proof.
  unfold shm_unlink. destruct (shm_names t !! n) as [s|]; [|apply tsafe_refl].
  pose proof (free_after_safe s (λ g, g <| ss_removed := true |>) (t <| shm_names ::= delete n |>) o) as Hs.
  destruct (maybeFree _ _ _). eapply tsafe_trans; [apply forget_name_safe|exact Hs].
Qed.
Lemma shm_truncate_safe s n t (o : OS) : tsafe t (shm_truncate s n t o).1.2.
Proof.
  unfold shm_truncate. destruct (seg_of s t); [apply tsafe_refl|]. destruct (n =? 0); [apply tsafe_refl|].
  destruct (NewSegment n o) as [[v|] o']; [apply shm_update_safe|apply tsafe_refl].
Qed.
Lemma shm_open_seg_safe name flags t r t' : shm_open_seg name flags t = (r, t') →
  tsafe t t' ∧ (∀ s, tab_ok t → r = inr s → seg_at t' s).
Proof.
  unfold shm_open_seg. destruct (shm_names t !! name) as [s|] eqn:En.
  - destruct (_ && _); intros [= <- <-]; [by split; [apply tsafe_refl|]|]. split; [apply shm_update_safe|]. intros ? [Tn _ _] [= <-].
    apply shm_update_at. by apply (Tn name).
  - destruct (negb _); [intros [= <- <-]; by split; [apply tsafe_refl|]|]. destruct (newSegment name t) as [s t1] eqn:E.
    intros [= <- <-]. destruct (newSegment_safe name t) as [Hs Hat]. rewrite E in *. simpl in *.
    assert (tab_ok t → tab_ok (t1 <| shm_names ::= <[name := s]> |>)) as Hok.
    { intros Ht. destruct (Hs Ht) as [[Tn Ts Tp] _]. specialize (Hat Ht). split; simpl; [|auto..].
      intros n i. destruct (decide (name = n)) as [<-|]; [rewrite lookup_insert_eq; by intros [= <-]|].
      rewrite lookup_insert_ne by done. apply Tn. }
    split.
    + intros Ht. destruct (Hs Ht) as [_ He]. specialize (Hok Ht).
      destruct (shm_update_safe s (λ g, g <| ss_fds ::= λ n, n + 1 |>) _ Hok) as [? _]. split; [done|].
      intros i Hi. apply shm_update_at. by apply He.
    + intros ? Ht [= <-]. apply shm_update_at. by apply Hat.
Qed.

Lemma dropAttachments_safe al a n t (o : OS) :
  tsafe t (dropAttachmentsLocked al a n t o).1.2 ∧ (dropAttachmentsLocked al a n t o).1.1 ⊆ al.
Proof.
  revert t o. induction al as [|x al IH]; intros t o; simpl; [by split; [apply tsafe_refl|]|]. destruct (within a n x).
  - destruct (shm_detach (at_s x) t o) as [t1 o1] eqn:E. destruct (IH t1 o1) as [Hs Hsub]. split; [|set_solver].
    eapply tsafe_trans; [|exact Hs]. change t1 with (t1, o1).1. rewrite <- E. apply free_after_safe.
  - destruct (IH t o) as [Hs Hsub]. destruct (dropAttachmentsLocked al a n t o) as [[kept t1] o1]. simpl in *.
    split; [done|]. set_solver.
Qed.

(** An operation of a process's attachments. *)
Definition att_safe (al : list attachment) t (r : option (Z * list attachment * shmTable * OS)) : Prop :=
  match r with
  | None => True
  | Some (_, al', t', _) =>
      tsafe t t' ∧ (tab_ok t → (∀ x, x ∈ al → seg_at t (at_s x)) → ∀ x, x ∈ al' → seg_at t' (at_s x))
  end.
Lemma att_safe_refl al t r (o : OS) : att_safe al t (Some (r, al, t, o)).
Proof. split; [apply tsafe_refl|done]. Qed.
Hint Resolve att_safe_refl : core.

Lemma mapLocked_safe s v a n m al t (o : OS) : (tab_ok t → seg_at t s) → att_safe al t (mapLocked s v a n m al t o).
Proof.
  intros Hs. unfold mapLocked. destruct (MapRange a v n m o) as [o'| |]; [|done|done].
  destruct (dropAttachments_safe al a n t o') as [Hd Hsub].
  destruct (dropAttachmentsLocked al a n t o') as [[al' t'] o'']. simpl in *. split.
  - eapply tsafe_trans; [exact Hd|apply shm_update_safe].
  - intros Ht Hal x Hx. apply shm_update_at. destruct (Hd Ht) as [_ He]. apply He.
    apply elem_of_app in Hx as [Hx|Hx%list_elem_of_singleton]; [by apply Hal, Hsub|subst x; by apply Hs].
Qed.
Lemma shm_attach_safe i a m al t (o : OS) : att_safe al t (shm_attach i a m al t o).
Proof.
  unfold shm_attach. destruct (shm_get i t) as [[s g]|] eqn:E; [|done]. destruct (ss_removed g); [done|].
  destruct (ss_seg g) as [v|]; [|done]. apply mapLocked_safe. intros [_ Ts _]. unfold shm_get in E.
  destruct (shm_segs t !! i) as [s'|] eqn:Es; [|done]. destruct (shm_heap t !! s') eqn:Eh; [|done].
  simpl in E. simplify_eq. by apply (Ts i).
Qed.
Lemma shm_mapFd_safe s a n m al t (o : OS) : att_safe al t (shm_mapFd s a n m al t o).
Proof.
  unfold shm_mapFd, seg_of. destruct (shm_heap t !! s) as [g|] eqn:E; [|done]. simpl.
  destruct (ss_seg g); [|done]. apply mapLocked_safe. intros _. by exists g.
Qed.
Lemma shm_unmap_safe a n m al t (o : OS) : att_safe al t (shm_unmap a n m al t o).
Proof.
  unfold shm_unmap. destruct (Unmap a n m o) as [o'| |]; [|done|done].
  destruct (dropAttachments_safe al a n t o') as [Hd Hsub].
  destruct (dropAttachmentsLocked al a n t o') as [[al' t'] o'']. simpl in *. split; [done|].
  intros Ht Hal x Hx. destruct (Hd Ht) as [_ He]. by apply He, Hal, Hsub.
Qed.

(** ** The operations of files *)
Lemma kfile_read_safe f n w : wsafe w (kfile_read f n w).2.
Proof.
  destruct f; simpl; try apply wsafe_refl; [apply at_pipe_safe|apply at_reader_safe|apply at_socket_safe].
Qed.
Lemma kfile_write_safe f b w : wsafe w (kfile_write f b w).2.
Proof.
  destruct f; simpl; try apply wsafe_refl; [apply at_pipe_safe| |apply at_socket_safe].
  destruct (writerFile_write _ _ _). by apply wsafe_same.
Qed.
Lemma kfile_changed_safe f w : wsafe w (kfile_changed f w).2.
Proof.
  destruct f as [i|i|i|i| |i|i]; simpl; try apply wsafe_refl.
  - pose proof (at_pipe_safe 0%nat i pipe_changed w) as Hs. by destruct (at_pipe _ _ _ _).
  - pose proof (at_pipe_safe 0%nat i pipe_changed w) as Hs. by destruct (at_pipe _ _ _ _).
  - pose proof (at_reader_safe 0%nat i readerFile_changed w) as Hs. by destruct (at_reader _ _ _ _).
  - pose proof (at_socket_safe 0%nat i sock_changed w) as Hs. by destruct (at_socket _ _ _ _).
Qed.
Lemma actions_safe acts w : wsafe w (foldl (λ w a, do_action a w) w acts).
Proof.
  revert w. induction acts as [|a acts IH]; intros w; simpl; [apply wsafe_refl|].
  eapply wsafe_trans; [|apply IH]. destruct a as [?|?|?|[]]; by apply wsafe_same.
Qed.
Lemma kfile_release_safe f w : wsafe w (kfile_release f w).
Proof.
  destruct f as [i|i|i|i| |i|i]; cbn [kfile_release]; try apply wsafe_refl.
  - apply at_pipe_safe.
  - apply at_pipe_safe.
  - apply at_reader_safe.
  - pose proof (at_socket_safe [] i sock_release w) as Hs. destruct (at_socket _ _ _ _) as [acts w'].
    eapply wsafe_trans; [exact Hs|]. eapply wsafe_trans; [apply (actions_safe acts)|apply at_socket_safe].
  - pose proof (free_after_safe i (λ g, g <| ss_fds ::= λ n, n - 1 |>) (w_shm w) (w_os w)) as Hs.
    unfold shmFile_release. destruct (maybeFree _ _ _) as [t o].
    by apply (wsafe_tab w t (λ w, w <| w_os := o |>)).
Qed.

(** ** The operations of descriptor tables *)
Implicit Types (tb : fdTable) (s : kstate OS HS).
Definition tabs_ok (s : kstate OS HS) (tb : fdTable) : Prop :=
  ∀ fd e, tb !! fd = Some e → is_Some (o_heap s !! fe_of e).
Definition ssafe (s s' : kstate OS HS) : Prop := files_ok s → files_ok s' ∧ files_ext s s'.
Lemma ssafe_refl s : ssafe s s.
Proof. by split. Qed.
Lemma ssafe_trans s1 s2 s3 : ssafe s1 s2 → ssafe s2 s3 → ssafe s1 s3.
Proof. intros A B Hs. destruct (A Hs) as [Hs2 E]. destruct (B Hs2). split; [done|by etransitivity]. Qed.
Lemma tabs_ok_ext s s' tb : files_ext s s' → tabs_ok s tb → tabs_ok s' tb.
Proof.
  intros [_ He] Ht fd e Hfd. destruct (Ht fd e Hfd) as [f Hf]. destruct (He _ _ Hf) as (f' & ? & _). by exists f'.
Qed.

Lemma files_world s w : wsafe (o_files s) w → ssafe s (s <| o_files := w |>).
Proof.
  intros Hw [Fw Ff Fn]. destruct (Hw Fw) as [Hw' He]. split; [split; simpl; [done| |done]|split; [done|]].
  - intros p f Hf. by apply (kfile_ok_ext (o_files s)), (Ff p).
  - intros p f Hf. by exists f.
Qed.
(** A change to an open file that is not its kind. *)
Lemma files_alter s p g : (∀ f, of_f (g f) = of_f f) → ssafe s (s <| o_heap ::= alter g p |>).
Proof.
  intros Hg [Fw Ff Fn]. split; [split; simpl; [done|..]|split; [done|]]; simpl; intros q.
  all: rewrite lookup_alter; destruct (decide (p = q)) as [<-|].
  - intros f. destruct (o_heap s !! p) eqn:E; simpl; [|done]. intros [= <-]. rewrite Hg. by apply (Ff p).
  - intros f. apply Ff.
  - intros Hf%fmap_is_Some. by apply Fn.
  - apply Fn.
  - intros f ->. simpl. eauto.
  - intros f Hf. by exists f.
Qed.
Lemma ref_safe p s : ssafe s (ref p s).
Proof. by apply files_alter. Qed.
Lemma unref_safe p s : ssafe s (unref p s).
Proof.
  unfold unref. destruct (o_heap s !! p) as [f|] eqn:E; [|apply ssafe_refl].
  set (f' := f <| of_refs := i32 (of_refs f - 1) |>).
  assert (ssafe s (s <| o_heap ::= <[p := f']> |>)) as Hs.
  { intros Hok.
    assert (s <| o_heap ::= <[p := f']> |> = s <| o_heap ::= alter (λ f, f <| of_refs := i32 (of_refs f - 1) |>) p |>) as ->.
    { destruct s as [hp nx w]. simpl in *. f_equal. apply map_eq. intros i.
      destruct (decide (p = i)) as [<-|]; [by rewrite lookup_insert_eq, lookup_alter_eq, E|].
      by rewrite lookup_insert_ne, lookup_alter_ne by done. }
    by apply files_alter. }
  destruct (_ =? 0); [|exact Hs]. eapply ssafe_trans; [exact Hs|].
  apply (files_world (s <| o_heap ::= <[p := f']> |>)). apply kfile_release_safe.
Qed.

Lemma newOpenFile_safe f flags s p s' : newOpenFile f flags s = (p, s') → kfile_ok (o_files s) f →
  ssafe s s' ∧ is_Some (o_heap s' !! p).
Proof.
  intros [= <- <-] Hf. split; [|simpl; by rewrite lookup_insert_eq]. intros [Fw Ff Fn].
  assert (o_heap s !! o_next s = None) as Hfresh.
  { destruct (o_heap s !! o_next s) eqn:E; [|done]. specialize (Fn (o_next s) ltac:(by rewrite E)). lia. }
  split; [split; simpl; [done|..]|split; [done|]]; simpl.
  - intros p g. destruct (decide (o_next s = p)) as [<-|]; [rewrite lookup_insert_eq; by intros [= <-]|].
    rewrite lookup_insert_ne by done. apply Ff.
  - intros p. destruct (decide (o_next s = p)) as [<-|]; [lia|]. rewrite lookup_insert_ne by done. intros Hp%Fn. lia.
  - intros p g Hg. exists g. rewrite lookup_insert_ne by congruence. done.
Qed.

Definition tstep (tb : fdTable) s (tb' : fdTable) s' : Prop :=
  ssafe s s' ∧ (files_ok s → tabs_ok s tb → tabs_ok s' tb').
Lemma tstep_refl tb s : tstep tb s tb s.
Proof. split; [apply ssafe_refl|done]. Qed.

Lemma tabs_insert s (tb : fdTable) fd e : tabs_ok s tb → is_Some (o_heap s !! fe_of e) → tabs_ok s (<[fd := e]> tb).
Proof.
  intros Ht He x u. destruct (decide (fd = x)) as [<-|]; [rewrite lookup_insert_eq; by intros [= <-]|].
  rewrite lookup_insert_ne by done. apply Ht.
Qed.
Lemma tabs_delete s (tb : fdTable) fd : tabs_ok s tb → tabs_ok s (delete fd tb).
Proof. intros Ht x u [_ Hx]%lookup_delete_Some. by apply (Ht x). Qed.
Lemma heap_at_ext s s' p : files_ext s s' → is_Some (o_heap s !! p) → is_Some (o_heap s' !! p).
Proof. intros [_ He] [f Hf]. destruct (He _ _ Hf) as (f' & ? & _). by exists f'. Qed.

Lemma fd_add_step p cloexec tb s : (files_ok s → is_Some (o_heap s !! p)) →
  tstep tb s (fd_add p cloexec tb s).1.2 (fd_add p cloexec tb s).2.
Proof.
  intros Hp. unfold fd_add. simpl. split; [apply ref_safe|]. intros Hs Ht.
  destruct (ref_safe p s Hs) as [_ He]. apply tabs_insert; [by apply (tabs_ok_ext s)|].
  cbn [fe_of]. apply (heap_at_ext s); [done|by apply Hp].
Qed.
Lemma fd_close_step fd tb s : tstep tb s (fd_close fd tb s).1.2 (fd_close fd tb s).2.
Proof.
  unfold fd_close. destruct (tb !! fd) as [e|]; simpl.
  - split; [apply unref_safe|]. intros Hs Ht. destruct (unref_safe (fe_of e) s Hs) as [_ He].
    by apply tabs_delete, (tabs_ok_ext s).
  - split; [apply ssafe_refl|]. intros _ Ht. by apply tabs_delete.
Qed.
Lemma install_step fd p cloexec tb s : (files_ok s → is_Some (o_heap s !! p)) →
  tstep tb s (install fd p cloexec tb s).1 (install fd p cloexec tb s).2.
Proof.
  intros Hp. unfold install. cbn [fst snd].
  assert (ssafe s (match tb !! fd with Some e => unref (fe_of e) (ref p s) | None => ref p s end)) as Hsafe.
  { destruct (tb !! fd); [eapply ssafe_trans; [apply ref_safe|apply unref_safe]|apply ref_safe]. }
  split; [exact Hsafe|]. intros Hs Ht. destruct (Hsafe Hs) as [_ He].
  apply tabs_insert; [by apply (tabs_ok_ext s)|]. cbn [fe_of]. apply (heap_at_ext s); [done|by apply Hp].
Qed.

Lemma dup_step fd newFd tb s : tabs_ok s tb → tstep tb s (fdHost_Dup fd newFd tb s).1.2 (fdHost_Dup fd newFd tb s).2.
Proof.
  intros Ht. unfold fdHost_Dup, fd_get. destruct (tb !! fd) as [e|] eqn:E; simpl; [|apply tstep_refl].
  destruct (newFd <? 0); [apply fd_add_step; intros _; by apply (Ht fd)|].
  destruct (negb (validHostFD newFd)); [apply tstep_refl|]. destruct (negb _); [|apply tstep_refl].
  apply install_step. intros _. by apply (Ht fd).
Qed.
Lemma fcntl_step fd cmd arg tb s : tabs_ok s tb →
  tstep tb s (fdHost_Fcntl fd cmd arg tb s).1.2 (fdHost_Fcntl fd cmd arg tb s).2.
Proof.
  intros Ht. unfold fdHost_Fcntl, fd_get. destruct (tb !! fd) as [e|] eqn:E; simpl; [|apply tstep_refl].
  destruct (cmd =? F_GETFD); [apply tstep_refl|]. destruct (cmd =? F_SETFD).
  { unfold setCloexec. rewrite E. simpl. split; [apply ssafe_refl|]. intros _ _. apply tabs_insert; [done|]. simpl.
    by apply (Ht fd). }
  destruct (cmd =? F_GETFL); [apply tstep_refl|]. destruct (cmd =? F_SETFL).
  { simpl. split; [by apply files_alter|]. intros Hs _. destruct (files_alter s (fe_of e) (λ f, f <| of_flags := Z.land arg O_NONBLOCK |>) ltac:(done) Hs) as [_ He].
    by apply (tabs_ok_ext s). }
  destruct (_ || _); [|apply tstep_refl]. apply fd_add_step. intros _. by apply (Ht fd).
Qed.

(** ** Host calls

    [V] is what is also asked of the process: nothing, or that the call leaves
    alone what the process table is about. *)
Context (V : relation proc) (HV : PreOrder V) (V_own : ∀ p p', pview p' = pview p → V p p').

Definition hsafe h h' : Prop :=
  (host_ok h → host_ok h' ∧ files_ext (h_s h) (h_s h')) ∧ V (h_p h) (h_p h').
Lemma hsafe_refl h : hsafe h h.
Proof. by split. Qed.
Lemma hsafe_trans h1 h2 h3 : hsafe h1 h2 → hsafe h2 h3 → hsafe h1 h3.
Proof.
  intros [A A'] [B B']. split; [|by etransitivity]. intros Hh. destruct (A Hh) as [Hh2 E].
  destruct (B Hh2). split; [done|by etransitivity].
Qed.
Hint Resolve hsafe_refl : core.

Lemma set_w_safe h f : wsafe (h_w h) (f (h_w h)) → hsafe h (set_w f h).
Proof.
  intros Hw. split; [|done]. intros [Hs Hp]. destruct (files_world (h_s h) _ Hw Hs) as [Hs' He].
  split; [|done]. split; [done|]. by apply (proc_ok_ext (h_s h)).
Qed.
Lemma set_os_safe o h : hsafe h (set_os o h).
Proof. apply set_w_safe. by apply wsafe_same. Qed.
Lemma set_os_trans o h h' : hsafe h h' → hsafe h (set_os o h').
Proof. intros Hs. eapply hsafe_trans; [exact Hs|apply set_os_safe]. Qed.

(** Changes to the process alone. *)
Lemma set_p_safe h f :
  pr_fds (f (h_p h)) = pr_fds (h_p h) → pr_shmAttached (f (h_p h)) = pr_shmAttached (h_p h) →
  pview (f (h_p h)) = pview (h_p h) → hsafe h (h <| h_p ::= f |>).
Proof.
  intros Hf Ha Hv. split; [|by apply V_own]. intros [Hs [Pf Pa]]. split; [|done]. split; [done|].
  split; simpl; [by rewrite Hf|by rewrite Ha].
Qed.

Lemma on_fds_safe {A} (f : fdTable → kstate OS HS → A * fdTable * kstate OS HS) h :
  (host_ok h → tstep (pr_fds (h_p h)) (h_s h) (f (pr_fds (h_p h)) (h_s h)).1.2 (f (pr_fds (h_p h)) (h_s h)).2) →
  hsafe h (on_fds f h).2.
Proof.
  unfold on_fds. destruct (f _ _) as [[a tb] s]. cbn [fst snd]. intros Hf. split; [|by apply V_own].
  intros [Hs [Pf Pa]]. destruct (Hf (conj Hs (Build_proc_ok _ _ Pf Pa))) as [Hss Ht].
  destruct (Hss Hs) as [Hs' He]. split; [|done]. split; [done|]. split; simpl; [by apply Ht|].
  intros a' Ha'. apply (we_shm _ _ (fx_world _ _ He)). by apply Pa.
Qed.

Lemma h_writeU32_safe a v h : hsafe h (h_writeU32 a v h).2.
Proof. unfold h_writeU32. destruct (writeU32 _ _ _ _). apply set_os_safe. Qed.
Lemma h_Signal_safe sig h : hsafe h (h_Signal sig h).
Proof. unfold h_Signal. destruct (Signal _ _ _ _). apply set_os_trans. by apply set_p_safe. Qed.
Lemma h_changed_safe f h : hsafe h (h_changed f h).
Proof. apply set_w_safe, kfile_changed_safe. Qed.
Hint Resolve set_os_safe set_os_trans h_writeU32_safe h_Signal_safe h_changed_safe : core.

Lemma add_file_safe f flags cloexec h : (host_ok h → kfile_ok (h_w h) f) → hsafe h (add_file f flags cloexec h).2.
Proof.
  intros Hf. apply on_fds_safe. intros Hok. destruct (newOpenFile f flags (h_s h)) as [p s] eqn:E.
  destruct (newOpenFile_safe _ _ _ _ _ E (Hf Hok)) as [Hs Hp].
  destruct (fd_add_step p cloexec (pr_fds (h_p h)) s (λ _, Hp)) as [Hs2 Ht]. split.
  - by eapply ssafe_trans.
  - intros Hfs Htb. destruct (Hs Hfs) as [Hfs' He]. apply Ht; [done|]. by apply (tabs_ok_ext (h_s h)).
Qed.
Lemma close_fd_safe fd h : hsafe h (close_fd fd h).2.
Proof. apply on_fds_safe. intros _. apply fd_close_step. Qed.
Hint Resolve close_fd_safe : core.

(** [io], for any relation that its parts respect. *)
Lemma fd_io_safe {S} (R : relation S) `{!PreOrder R} (changed : S → S) (op : S → (Z * Z) * S)
    (nb : S → bool) (sched : list ((S → S) * wakeReason)) :
  (∀ x, R x (changed x)) → (∀ x, R x (op x).2) → (∀ e, e ∈ sched → ∀ x, R x (e.1 x)) →
  ∀ x r x', fd_io changed op nb sched x = Some (r, x') → R x x'.
Proof.
  intros Hc Ho. induction sched as [|[env r0] sched IH]; intros He x r x'; simpl;
    pose proof (Ho (changed x)) as Hos; destruct (op (changed x)) as [[n e] x1]; simpl in Hos;
    (assert (R x x1) as Hx1 by (etransitivity; [apply Hc|exact Hos]));
    (destruct (e =? 0); [by intros [= <- <-]|]); (destruct (_ || _); [by intros [= <- <-]|]); [done|].
  assert (R x (env x1)) as Hxe by (etransitivity; [exact Hx1|]; apply (He (env, r0)); set_solver).
  destruct r0; try (intros [= <- <-]; exact Hxe);
    intros Hr; (etransitivity; [exact Hxe|]); (eapply IH; [|exact Hr]); intros; apply He; set_solver.
Qed.
#[local] Instance hsafe_preorder : PreOrder hsafe.
Proof. split; [exact hsafe_refl|exact hsafe_trans]. Qed.

(** The result of a call, wherever it returns. *)
Definition osafe h (o : outcome host) : Prop := match o with Ret _ h' => hsafe h h' | _ => True end.
Lemma plain_safe h r : hsafe h r.2 → osafe h (plain r).
Proof. done. Qed.
Lemma or_panic_safe h r : (∀ n h', r = Some (n, h') → hsafe h h') → osafe h (or_panic r).
Proof. destruct r as [[n h']|]; simpl; [|done]. eauto. Qed.

Lemma read_op_safe f a n h : hsafe h (read_op f a n h).2.
Proof.
  unfold read_op. pose proof (kfile_read_safe f n (h_w h)) as Hs. destruct (kfile_read _ _ _) as [[b e] w].
  simpl. apply set_os_trans. by apply set_w_safe.
Qed.
Lemma write_op_safe f a n h : hsafe h (write_op f a n h).2.
Proof.
  unfold write_op. pose proof (kfile_write_safe f (mem_read (h_os h) (h_mem h) a n) (h_w h)) as Hs.
  destruct (kfile_write _ _ _) as [r w]. by apply set_w_safe.
Qed.
Lemma on_socket_safe {A} (d : A) i f h : hsafe h (on_socket d i f h).2.
Proof.
  unfold on_socket. pose proof (at_socket_safe d i f (h_w h)) as Hs. destruct (at_socket _ _ _ _) as [a w].
  by apply set_w_safe.
Qed.
Lemma recv_op_safe i a n peek h : hsafe h (recv_op i a n peek h).2.
Proof.
  unfold recv_op. pose proof (on_socket_safe ([], EBADF) i (sock_recv n peek) h) as Hs.
  destruct (on_socket _ _ _ _) as [[b e] h1]. by apply set_os_trans.
Qed.

(** A new object. *)
Lemma add_pipe_safe w p w' : add_pipe w = (p, w') → wsafe w w' ∧ is_Some (w_pipes w' !! p).
Proof.
  intros [= <- <-]. split; [|simpl; by rewrite lookup_insert_eq]. intros [? ? ? Wp Wr Ws].
  split; split; simpl; auto; intros i Hi; try (apply Wr in Hi || apply Ws in Hi; lia).
  - destruct (decide (w_next w = i)) as [<-|]; [lia|]. rewrite lookup_insert_ne in Hi by done. apply Wp in Hi. lia.
  - destruct (decide (w_next w = i)) as [<-|]; [by rewrite lookup_insert_eq|by rewrite lookup_insert_ne].
Qed.
Lemma add_socket_safe k w j w' : add_socket k w = (j, w') → wsafe w w' ∧ is_Some (w_socks w' !! j).
Proof.
  intros [= <- <-]. split; [|simpl; by rewrite lookup_insert_eq]. intros [? ? ? Wp Wr Ws].
  split; split; simpl; auto; intros i Hi; try (apply Wr in Hi || apply Wp in Hi; lia).
  - destruct (decide (w_next w = i)) as [<-|]; [lia|]. rewrite lookup_insert_ne in Hi by done. apply Ws in Hi. lia.
  - destruct (decide (w_next w = i)) as [<-|]; [by rewrite lookup_insert_eq|by rewrite lookup_insert_ne].
Qed.

(** *** The handlers *)
Lemma or_blocked_safe h (r : option (hostret * host)) :
  (∀ x h', r = Some (x, h') → hsafe h h') → osafe h (or_blocked r).
Proof. destruct r as [[x h']|]; simpl; [|done]. eauto. Qed.

Lemma fdHost_Pipe_safe a fl h : hsafe h (fdHost_Pipe a fl h).2.
Proof.
  unfold fdHost_Pipe. destruct (add_pipe (h_w h)) as [p w] eqn:E.
  destruct (add_pipe_safe _ _ _ E) as [Hw Hp]. set (h0 := set_w (λ _, w) h).
  assert (hsafe h h0) as H0' by (by apply set_w_safe).
  pose proof (add_file_safe (KPipeReader p) (Z.land fl O_NONBLOCK) false h0 (λ _, Hp)) as H1'.
  assert (host_ok (add_file (KPipeReader p) (Z.land fl O_NONBLOCK) false h0).2 →
    kfile_ok (h_w (add_file (KPipeReader p) (Z.land fl O_NONBLOCK) false h0).2) (KPipeWriter p)) as Hk by done.
  destruct (add_file (KPipeReader p) _ _ h0) as [rfd h1].
  pose proof (add_file_safe (KPipeWriter p) (Z.land fl O_NONBLOCK) false h1 Hk) as H2'.
  destruct (add_file (KPipeWriter p) _ _ h1) as [wfd h2].
  pose proof (h_writeU32_safe a (u32 rfd) h2) as H3'. destruct (h_writeU32 a _ h2) as [ok h3]. cbn [fst snd] in *.
  assert (hsafe h (if ok then h_writeU32 (u32 (a + 4)) (u32 wfd) h3 else (false, h3)).2) as H4'.
  { etransitivity; [exact H0'|]. etransitivity; [exact H1'|]. etransitivity; [exact H2'|].
    etransitivity; [exact H3'|]. destruct ok; [apply h_writeU32_safe|done]. }
  destruct (if ok then _ else _) as [ok' h4]. cbn [fst snd] in *. destruct ok'; [done|].
  pose proof (close_fd_safe rfd h4) as H5'. destruct (close_fd rfd h4) as [x h5].
  pose proof (close_fd_safe wfd h5) as H6'. destruct (close_fd wfd h5) as [y h6]. cbn [fst snd] in *.
  by do 2 (etransitivity; [eassumption|]).
Qed.

Lemma kfile_ok_get fd p f h : host_ok h → h_get fd h = Some (p, f) → kfile_ok (h_w h) f.
Proof.
  intros [Hs _]. unfold h_get. destruct (fd_get _ _) as [q|]; [|done].
  destruct (o_heap (h_s h) !! q) as [g|] eqn:E; [|done]. simpl. intros [= <- <-]. by apply (fo_file _ Hs q).
Qed.

Lemma fdHost_Read_safe fd b n (sched : schedule) h :
  (∀ e, e ∈ sched → ∀ h, hsafe h (e.1 h)) → osafe h (fdHost_Read fd b n sched h).
Proof.
  intros He. unfold fdHost_Read. destruct (h_get fd h) as [[p f]|]; [|done].
  destruct (Slice b n (h_mem h)) as [[a e]|]; [|done]. apply or_blocked_safe.
  apply (fd_io_safe hsafe); [apply h_changed_safe|apply read_op_safe|done].
Qed.
Lemma fdHost_Write_safe fd b n (sched : schedule) h :
  (∀ e, e ∈ sched → ∀ h, hsafe h (e.1 h)) → osafe h (fdHost_Write fd b n sched h).
Proof.
  intros He. unfold fdHost_Write. destruct (h_get fd h) as [[p f]|]; [|done].
  destruct (Slice b n (h_mem h)) as [[a e]|]; [|done].
  destruct (fd_io _ _ _ _ h) as [[r h']|] eqn:E; [|done].
  apply (fd_io_safe hsafe) in E; [|apply h_changed_safe|apply write_op_safe|done].
  simpl. destruct (r.1 =? _); [|done]. etransitivity; [exact E|apply h_Signal_safe].
Qed.
Lemma netHost_Recv_safe fd b n fl (sched : schedule) h :
  (∀ e, e ∈ sched → ∀ h, hsafe h (e.1 h)) → osafe h (netHost_Recv fd b n fl sched h).
Proof.
  intros He. unfold netHost_Recv. destruct (psocket fd h) as [[i p]|]; [|done].
  destruct (Slice b n (h_mem h)) as [[a e]|]; [|done]. destruct (negb (Z.land fl MSG_DONTWAIT =? 0)).
  - pose proof (recv_op_safe i a n (negb (Z.land fl MSG_PEEK =? 0)) h) as Hs.
    by destruct (recv_op _ _ _ _ h) as [[x y] h'].
  - apply or_blocked_safe. apply (fd_io_safe hsafe); [apply h_changed_safe|intros; apply recv_op_safe|done].
Qed.
Lemma netHost_Send_safe fd b n fl (sched : schedule) h :
  (∀ e, e ∈ sched → ∀ h, hsafe h (e.1 h)) → osafe h (netHost_Send fd b n fl sched h).
Proof.
  intros He. unfold netHost_Send. destruct (psocket fd h) as [[i p]|]; [|done].
  destruct (Slice b n (h_mem h)) as [[a e]|]; [|done].
  assert (∀ r, (if negb (Z.land fl MSG_DONTWAIT =? 0) then Some (dontwait (send_op i a n h))
    else fd_io (h_changed (KSocket i)) (send_op i a n) (h_nonblock p) sched h) = Some r → hsafe h r.2) as Hr.
  { destruct (negb (Z.land fl MSG_DONTWAIT =? 0)).
    - intros r [= <-]. pose proof (on_socket_safe (0, EBADF) i (sock_send (mem_read (h_os h) (h_mem h) a n)) h) as Hs.
      unfold send_op. by destruct (on_socket _ _ _ h) as [[x y] h'].
    - intros [r h'] E. apply (fd_io_safe hsafe) in E; [done|apply h_changed_safe|intros; apply on_socket_safe|done]. }
  destruct (if negb _ then _ else _) as [[r h']|]; [|done]. specialize (Hr _ eq_refl). simpl in *.
  destruct (_ && _); [|done]. etransitivity; [exact Hr|apply h_Signal_safe].
Qed.

Lemma writeSockaddr_safe a x l h n h' : writeSockaddr a x l h = Some (n, h') → hsafe h h'.
Proof.
  unfold writeSockaddr. destruct (_ || _); [by intros [= <- <-]|]. destruct (h_readU32 l h); [|by intros [= <- <-]].
  destruct (encode a); [|done]. destruct (Slice _ _ _) as [[b e]|]; [|by intros [= <- <-]].
  intros [= <- <-]. etransitivity; [apply set_os_safe|apply h_writeU32_safe].
Qed.

(** [Accept] also carries the new socket. *)
Definition asafe (x y : host * option nat) : Prop :=
  hsafe x.1 y.1 ∧ ((∀ i, x.2 = Some i → is_Some (w_socks (h_w x.1) !! i)) →
    host_ok x.1 → ∀ i, y.2 = Some i → is_Some (w_socks (h_w y.1) !! i)).
#[local] Instance asafe_preorder : PreOrder asafe.
Proof.
  split; [by split|]. intros x y z [A A'] [B B']. split; [by etransitivity|]. intros Hx Hok.
  apply B'; [by apply A'|]. by apply A.
Qed.
Lemma asafe_host x h : hsafe x.1 h → asafe x (h, x.2).
Proof.
  intros Hs. split; [done|]. simpl. intros Hx Hok i Hi. destruct Hs as [Hs _]. destruct (Hs Hok) as [_ He].
  apply (we_socks _ _ (fx_world _ _ He)). by apply Hx.
Qed.
Lemma accept_op_safe i x : asafe x (accept_op i x).2.
Proof.
  unfold accept_op. pose proof (on_socket_safe (None, EBADF) i sock_accept x.1) as Hs.
  destruct (on_socket _ _ _ _) as [[[k|] e] h]; cbn [fst snd] in *; [|by split].
  destruct (add_socket k (h_w h)) as [j w] eqn:E. destruct (add_socket_safe _ _ _ _ E) as [Hw Hj].
  cbn [fst snd]. split; cbn [fst snd]; [etransitivity; [exact Hs|by apply set_w_safe]|]. intros _ _ ? [= <-]. exact Hj.
Qed.
Lemma netHost_Accept_safe fd a l fl (sched : schedule) h :
  (∀ e, e ∈ sched → ∀ h, hsafe h (e.1 h)) → osafe h (netHost_Accept fd a l fl sched h).
Proof.
  intros He. unfold netHost_Accept. destruct (psocket fd h) as [[i p]|]; [|done].
  destruct (fd_io _ _ _ _ _) as [[[r err] [h1 ns]]|] eqn:E; [|done].
  apply (fd_io_safe asafe) in E.
  2: { intros x. apply asafe_host, h_changed_safe. }
  2: { apply accept_op_safe. }
  2: { intros e (e0 & -> & Hin)%list_elem_of_fmap x. simpl. by apply asafe_host, He. }
  destruct E as [Hs Hns]. cbn [fst snd] in *. specialize (Hns ltac:(done)).
  destruct (_ || _); [done|]. destruct ns as [j|]; [|done]. cbv zeta.
  pose proof (add_file_safe (KSocket j) (if negb (Z.land fl SOCK_NONBLOCK =? 0) then O_NONBLOCK else 0)
    (negb (Z.land fl SOCK_CLOEXEC =? 0)) h1) as Hadd.
  assert (hsafe h (add_file (KSocket j) (if negb (Z.land fl SOCK_NONBLOCK =? 0) then O_NONBLOCK else 0)
    (negb (Z.land fl SOCK_CLOEXEC =? 0)) h1).2) as H2'.
  { split; [|etransitivity; [apply Hs|]].
    - intros Hok. assert (hsafe h1 (add_file (KSocket j) (if negb (Z.land fl SOCK_NONBLOCK =? 0) then O_NONBLOCK else 0)
        (negb (Z.land fl SOCK_CLOEXEC =? 0)) h1).2) as H1' by (apply Hadd; intros _; by apply Hns).
      by apply (hsafe_trans _ _ _ Hs H1').
    - by apply V_own. }
  destruct (add_file (KSocket j) _ _ h1) as [nfd h2]. cbn [snd] in H2'.
  destruct (w_socks (h_w h2) !! j ≫= k_peer) as [peer|]; [|exact H2'].
  destruct (writeSockaddr peer a l h2) as [[e h3]|] eqn:Ew; [|done].
  apply writeSockaddr_safe in Ew. assert (hsafe h h3) by (by etransitivity).
  destruct (negb (e =? 0)); [|done]. pose proof (close_fd_safe nfd h3) as Hc. destruct (close_fd nfd h3).
  eapply hsafe_trans; [eassumption|exact Hc].
Qed.

Lemma fdHost_Poll_safe a n tm (sched : schedule) h :
  (∀ e, e ∈ sched → ∀ h, hsafe h (e.1 h)) → osafe h (fdHost_Poll a n tm sched h).
Proof.
  intros He. unfold fdHost_Poll. destruct (Slice _ _ _) as [[b e]|]; [|done]. destruct (_ <? _); [done|].
  destruct (negb _); [done|]. generalize (poll_files b (Z.to_nat n) h) as fs. intros fs.
  assert (∀ b fs ready h, hsafe h (poll_scan b fs ready h).2) as Hscan.
  { intros b' fs'. revert b'. induction fs' as [|fo fs' IH]; intros b' ready h'; simpl; [done|].
    etransitivity; [|apply IH]. apply set_os_safe. }
  assert (∀ fs h, hsafe h (poll_changed fs h)) as Hch.
  { induction fs0 as [|fo fs0 IH]; intros h'; simpl; [done|]. etransitivity; [|apply IH].
    destruct fo; [apply h_changed_safe|done]. }
  revert h. induction sched as [|[env r] sched IH]; intros h; cbn [poll_loop].
  all: assert (hsafe h (poll_scan b fs 0 (poll_changed fs h)).2) as Hs by (etransitivity; [apply Hch|apply Hscan]).
  all: destruct (poll_scan b fs 0 (poll_changed fs h)) as [ready h1]; cbn [snd] in Hs.
  all: destruct (_ || _); [exact Hs|]. 1: done.
  assert (hsafe h (env h1)) as Henv by (etransitivity; [exact Hs|apply (He (env, r)); set_solver]).
  destruct r; try exact Henv. specialize (IH ltac:(intros; apply He; set_solver) (env h1)).
  destruct (poll_loop _ _ _ _ _); simpl in *; [by etransitivity|done..].
Qed.

Lemma bind_safe mounts create fd a n h : hsafe h (netHost_Bind mounts create fd a n h).2.
Proof.
  unfold netHost_Bind. destruct (psocket fd h) as [[i p]|]; [|done]. destruct (sockaddrArg a n h); [|done].
  destruct (w_socks (h_w h) !! i) as [k|] eqn:E; [|done]. destruct (sock_bind _ _ _ _ _ _ _) as [[[e k'] u] x].
  apply set_w_safe. apply (set_socket_safe i k' (h_w h) (λ w, w <| w_unix := u |> <| w_host := x |>)); [by rewrite E|done].
Qed.
Lemma connect_safe mounts fd a n d h : hsafe h (netHost_Connect mounts fd a n d h).2.
Proof.
  unfold netHost_Connect. destruct (psocket fd h) as [[i p]|]; [|done]. destruct (sockaddrArg a n h); [|done].
  destruct (w_socks (h_w h) !! i) as [k|] eqn:E; [|done]. destruct (sock_connect _ _ _ _ _ _ _) as [[e k'] x].
  apply set_w_safe. apply (set_socket_safe i k' (h_w h) (λ w, w <| w_host := x |>)); [by rewrite E|done].
Qed.
Lemma socket_op_safe {A} (d : A) i f h (g : A → Z) : hsafe h (let '(e, h) := on_socket d i f h in (g e, h)).2.
Proof. pose proof (on_socket_safe d i f h) as Hs. by destruct (on_socket d i f h). Qed.
Lemma getsockopt_safe fd l n v a h : hsafe h (netHost_Getsockopt fd l n v a h).2.
Proof.
  unfold netHost_Getsockopt. destruct (psocket fd h) as [[i p]|]; [|done]. destruct (h_readU32 a h); [|done].
  destruct (_ <? _); [done|]. cbv zeta. set (x := u32 _).
  pose proof (h_writeU32_safe v x h) as Hs. destruct (h_writeU32 v x h) as [ok h1]. cbn [snd] in Hs. destruct ok; [|done].
  pose proof (h_writeU32_safe a 4 h1) as Hs2. destruct (h_writeU32 a 4 h1) as [ok h2]. cbn [snd] in *. by etransitivity.
Qed.
Lemma on_shm_safe {A} (f : shmTable → OS → A * shmTable * OS) h :
  tsafe (w_shm (h_w h)) (f (w_shm (h_w h)) (h_os h)).1.2 → hsafe h (on_shm f h).2.
Proof.
  unfold on_shm. destruct (f _ _) as [[a t] o]. intros Ht. apply set_w_safe.
  by apply (wsafe_tab (h_w h) t (λ w, w <| w_os := o |>)).
Qed.
Lemma on_attached_safe f h n h' :
  att_safe (pr_shmAttached (h_p h)) (w_shm (h_w h)) (f (h_mem h) (pr_shmAttached (h_p h)) (w_shm (h_w h)) (h_os h)) →
  on_attached f h = Some (n, h') → hsafe h h'.
Proof.
  unfold on_attached. destruct (f _ _ _ _) as [[[[r al] t] o]|]; [|done]. intros [Ht Hal] [= <- <-].
  assert (wsafe (h_w h) ((h_w h) <| w_shm := t |> <| w_os := o |>)) as Hw
    by (by apply (wsafe_tab (h_w h) t (λ w, w <| w_os := o |>))).
  split; [|by apply V_own]. intros [Hs [Pf Pa]]. destruct (files_world (h_s h) _ Hw Hs) as [Hs' He].
  split; [|exact He]. split; [exact Hs'|]. split; [by apply (tabs_ok_ext (h_s h))|].
  simpl. apply Hal; [|done]. destruct (fo_world _ Hs). by split.
Qed.
Lemma shmHost_Open_safe a n fl h : hsafe h (shmHost_Open a n fl h).2.
Proof.
  unfold shmHost_Open, shm_open. destruct (h_slice a n h) as [b|]; [|done].
  destruct (shm_open_seg (string_of_bytes b) fl (w_shm (h_w h))) as [[e|i] t] eqn:E.
  - destruct (shm_open_seg_safe _ _ _ _ _ E) as [Ht _]. cbn [snd].
    replace (HState _ (h_s h)) with h by (destruct h as [q s]; by destruct q).
    apply set_w_safe. by apply (wsafe_tab (h_w h) t id).
  - destruct (shm_open_seg_safe _ _ _ _ _ E) as [Ht Hat].
    set (h1 := set_w (λ w, w <| w_shm := t |>) h).
    assert (hsafe h h1) as H1' by (apply set_w_safe; by apply (wsafe_tab (h_w h) t id)).
    assert (hsafe h (add_file (KShm i) 0 false h1).2) as H2'.
    { split; [|etransitivity; [apply H1'|by apply V_own]]. intros Hok.
      assert (hsafe h1 (add_file (KShm i) 0 false h1).2) as Hadd.
      { apply add_file_safe. intros _. apply Hat; [|done]. destruct Hok as [Hs _]. destruct (fo_world _ Hs). by split. }
      by apply (hsafe_trans _ _ _ H1' Hadd). }
    exact H2'.
Qed.

Lemma getsockname_safe fd a l h : osafe h (or_panic (netHost_Getsockname fd a l h)).
Proof.
  apply or_panic_safe. intros m h'. unfold netHost_Getsockname. destruct (psocket fd h) as [[i p]|]; [|by intros [= <- <-]].
  destruct (w_socks _ !! i); [apply writeSockaddr_safe|by intros [= <- <-]].
Qed.

Lemma getpeername_safe fd a l h : osafe h (or_panic (netHost_Getpeername fd a l h)).
Proof.
  apply or_panic_safe. intros m h'. unfold netHost_Getpeername. destruct (psocket fd h) as [[i p]|]; [|by intros [= <- <-]].
  destruct (w_socks _ !! i) as [k|]; [|by intros [= <- <-]].
  destruct (sock_getpeername k); [apply writeSockaddr_safe|by intros [= <- <-]].
Qed.

Lemma host_exec_safe mounts create c h :
  (∀ f, f ∈ call_envs c → ∀ h, hsafe h (f h)) → osafe h (host_exec mounts create c h).
Proof.
  intros He. assert (∀ sched : schedule, (∀ f, f ∈ sched.*1 → ∀ h, hsafe h (f h)) → ∀ e, e ∈ sched → ∀ h, hsafe h (e.1 h)) as Hsched
    by (intros sched Hf e Hin; apply Hf, list_elem_of_fmap; by exists e).
  destruct c; simpl in He; cbn [host_exec].
  all: try (apply plain_safe).
  - unfold sigHost_Register. destruct (registerSignals _ _ _ _) as [[r sg] o]. apply set_os_trans. by apply set_p_safe.
  - unfold sigHost_SetAlarm. destruct (setAlarm _ _ _ _) as [r a]. by apply set_p_safe.
  - unfold sigHost_Sleep. destruct (negb _); [done|]. destruct (block _ _ _ _) as [[[r sg] o]|]; [|done].
    assert (hsafe h (set_os o (h <| h_p ::= λ p, p <| pr_sig := sg |> |>))) as Hs by (apply set_os_trans; by apply set_p_safe).
    by destruct r.
  - apply fdHost_Pipe_safe.
  - by apply add_file_safe.
  - apply fdHost_Read_safe, Hsched, He.
  - apply fdHost_Write_safe, Hsched, He.
  - apply on_fds_safe. intros _. apply fd_close_step.
  - apply on_fds_safe. intros [_ [Pf _]]. by apply dup_step.
  - apply on_fds_safe. intros [_ [Pf _]]. by apply fcntl_step.
  - apply fdHost_Poll_safe, Hsched, He.
  - unfold netHost_Socket. destruct (negb _); [done|]. destruct (negb _); [done|].
    destruct (add_socket (newSocket domain) (h_w h)) as [i w] eqn:E. destruct (add_socket_safe _ _ _ _ E) as [Hw Hi].
    etransitivity; [by apply (set_w_safe h (λ _, w))|]. by apply add_file_safe.
  - apply bind_safe.
  - unfold netHost_Listen. destruct (psocket fd h) as [[i p]|]; [|done]. apply (socket_op_safe EBADF i sock_listen h (λ e, - e)).
  - apply netHost_Accept_safe, Hsched, He.
  - apply connect_safe.
  - apply netHost_Recv_safe, Hsched, He.
  - apply netHost_Send_safe, Hsched, He.
  - unfold netHost_Shutdown. destruct (psocket fd h) as [[i p]|]; [|done]. apply (socket_op_safe EBADF i (sock_shutdown how) h (λ e, - e)).
  - apply getsockopt_safe.
  - unfold netHost_Setsockopt. destruct (psocket fd h) as [[i p]|]; [|done]. destruct (if 4 <=? n then h_readU32 val h else Some 0) as [v|]; [|done].
    apply (socket_op_safe tt i (λ k, (tt, sock_setsockopt level name (i32 v) k)) h (λ _, 0)).
  - apply getsockname_safe.
  - apply getpeername_safe.
  - apply on_shm_safe, shm_create_safe.
  - apply or_panic_safe. intros m h'. apply on_attached_safe, shm_attach_safe.
  - apply on_shm_safe, shm_remove_safe.
  - apply shmHost_Open_safe.
  - unfold shmHost_Unlink. destruct (h_slice _ _ h); [|done]. apply on_shm_safe, shm_unlink_safe.
  - unfold shmHost_Truncate. destruct (shmFD fd h); [|done]. apply on_shm_safe, shm_truncate_safe.
  - apply or_panic_safe. intros m h'. unfold shmHost_MapFd. destruct (shmFD fd h); [|by intros [= <- <-]].
    apply on_attached_safe, shm_mapFd_safe.
  - apply or_panic_safe. intros m h'. apply on_attached_safe, shm_unmap_safe.
Qed.
End calls.

(** * The kernel as a whole *)
Section system.
Context {OS HS : Type} `{HostMMU OS} `{HostIO HS}.
Context (mounts : list Mount) (create : Mount → string → HS → HS) (programs : list string).
Context (getpid : Z) (kid : nat) (syscall_Kill : Z → Z → Z) (host_EPERM : Z).
#[local] Abbreviation kern := (kernel OS HS).
#[local] Abbreviation host := (hstate OS HS).
Implicit Types (k : kern) (q : nat).

(** What may happen to the caller of a blocked call meanwhile. *)
Definition env_ok (f : host → host) : Prop :=
  ∀ h, (host_ok h → host_ok (f h) ∧ files_ext (h_s h) (h_s (f h))) ∧ own_work (h_p h) (h_p (f h)).

(** The guests' calls, the ends of processes, and the goroutines behind
    standard input and the sockets. *)
Inductive sys_step : relation kern :=
| sy_start argv env cwd k : sys_step k (k_Start getpid kid argv env cwd k).2
| sy_spawn fuel q p argv envp cwd r k k' :
    kr_heap k !! q = Some p → pr_pc p = PRunning →
    procHost_Spawn getpid kid programs fuel q argv envp cwd k = Ret r k' → sys_step k k'
| sy_call q p c r k k' :
    kr_heap k !! q = Some p → pr_pc p = PRunning → (∀ f, f ∈ call_envs c → env_ok f) →
    run_call mounts create q c k = Ret r k' → sys_step k k'
| sy_kill q pid sig k : sys_step k (procHost_Kill getpid syscall_Kill host_EPERM q pid sig k).2
| sy_exit q status k : sys_step k (procHost_Exit q status k).2
| sy_wait order q p pid options k ch r k' :
    (∀ m, order m ≡ₚ map_to_list m) → kr_heap k !! q = Some p → pr_pc p = PRunning →
    waitpid_round order q pid options k = (ch, r, k') →
    sys_step k (match r with WBlock => proc_update q (λ p, p <| pr_pc := PWaiting ch pid |>) k' | _ => k' end)
| sy_wake q p ch pid k :
    kr_heap k !! q = Some p → pr_pc p = PWaiting ch pid →
    sys_step k (proc_update q (λ p, p <| pr_pc := PRunning |>) k)
| sy_finish e q p k :
    kr_heap k !! q = Some p → pr_pc p = PRunning → sys_step k (finish_teardown (execute_status e p) q k)
| sy_reap q p k : kr_heap k !! q = Some p → pr_pc p = PTorn → sys_step k (finish_reap q k)
| sy_notify q p k : kr_heap k !! q = Some p → pr_pc p = PNotify → sys_step k (finish_notify q k)
| sy_reader i f k :
    sys_step k (k <| kr_files ::= λ s, s <| o_files ::= λ w, (at_reader tt i (λ x, (tt, f x)) w).2 |> |>)
| sy_socket i f k :
    sys_step k (k <| kr_files ::= λ s, s <| o_files ::= λ w, (at_socket tt i (λ x, (tt, f x)) w).2 |> |>).

Definition sys_init k : Prop := ∃ t o h, k = k_New t o h.

(** ** What keeps a kernel well-formed *)
Lemma update_ok q g k :
  (∀ p, proc_ok (kr_files k) p → proc_ok (kr_files k) (g p)) → kernel_ok k → kernel_ok (proc_update q g k).
Proof.
  intros Hg [Hf Hp]. split; [done|]. simpl. intros r p. rewrite lookup_alter.
  destruct (decide (q = r)) as [<-|]; [|apply Hp]. destruct (kr_heap k !! q) eqn:E; simpl; [|done].
  intros [= <-]. by apply Hg, (Hp q).
Qed.
Lemma update_same q g k :
  (∀ p, pr_fds (g p) = pr_fds p) → (∀ p, pr_shmAttached (g p) = pr_shmAttached p) →
  kernel_ok k → kernel_ok (proc_update q g k).
Proof. intros Hf Ha. apply update_ok. intros p [Pf Pa]. split; [by rewrite Hf|by rewrite Ha]. Qed.

Lemma set_files_ok s k : ssafe (kr_files k) s → kernel_ok k → kernel_ok (k <| kr_files := s |>).
Proof.
  intros Hs [Hf Hp]. destruct (Hs Hf) as [Hf' He]. split; [done|]. intros q p Hq.
  apply (proc_ok_ext (kr_files k)); [done|]. by apply (Hp q).
Qed.
Lemma set_os_ok o k : kernel_ok k → kernel_ok (k <| kr_files ::= λ s, s <| o_files ::= λ w, w <| w_os := o |> |> |>).
Proof.
  apply (set_files_ok ((kr_files k) <| o_files ::= λ w, w <| w_os := o |> |>)). apply files_world. by apply wsafe_same.
Qed.
Lemma k_world_ok w k : wsafe (o_files (kr_files k)) w → kernel_ok k → kernel_ok (k <| kr_files ::= λ s, s <| o_files := w |> |>).
Proof. intros Hw. apply set_files_ok. by apply files_world. Qed.

Lemma proc_Signal_ok sig q k : kernel_ok k → kernel_ok (proc_Signal sig q k).
Proof.
  intros Hk. unfold proc_Signal. destruct (kr_heap k !! q) as [p|]; [|done]. destruct (Signal _ _ _ _) as [sg o].
  apply update_same; [done..|]. by apply set_os_ok.
Qed.
Lemma forgetLocked_ok pid k : kernel_ok k → kernel_ok (forgetLocked pid k).
Proof. unfold forgetLocked. by destruct (kr_procs k !! pid). Qed.

(** A descriptor table and an attachment list that are replaced along with the files. *)
Lemma replace_ok q g s k :
  kernel_ok k → (∀ p, kr_heap k !! q = Some p → ssafe (kr_files k) s ∧ (files_ok s → proc_ok s (g p))) →
  is_Some (kr_heap k !! q) → kernel_ok (proc_update q g (k <| kr_files := s |>)).
Proof.
  intros [Hf Hp] Hg [p Hq]. destruct (Hg p Hq) as [Hs Hgp]. destruct (Hs Hf) as [Hf' He].
  split; [done|]. simpl. intros r u. rewrite lookup_alter. destruct (decide (q = r)) as [<-|].
  - rewrite Hq. simpl. intros [= <-]. by apply Hgp.
  - intros Hr. apply (proc_ok_ext (kr_files k)); [done|]. by apply (Hp r).
Qed.

Lemma k_newProcess_ok parent argv env k c k' :
  kernel_ok k → k_newProcess getpid kid parent argv env k = (c, k') →
  kernel_ok k' ∧ ∀ i, c = Some i → is_Some (kr_heap k' !! i).
Proof.
  intros [Hf Hp]. unfold k_newProcess. destruct (allocPid _ _ _) as [pid t]. destruct (pid =? 0).
  { intros [= <- <-]. by split. }
  intros [= <- <-]. split; [|intros i [= <-]; simpl; by rewrite lookup_insert_eq]. split; [done|]. simpl.
  intros r p. destruct (decide (kr_next k = r)) as [<-|]; [|rewrite lookup_insert_ne by done; apply Hp].
  rewrite lookup_insert_eq. intros [= <-]. split; [intros fd e; simpl; unfold newFDTable; by rewrite lookup_empty|simpl; set_solver].
Qed.

Lemma open_step f flags s p s' fd tb : newOpenFile f flags s = (p, s') → kfile_ok (o_files s) f →
  ssafe s (install fd p false tb s').2 ∧
  (files_ok s → tabs_ok s tb → tabs_ok (install fd p false tb s').2 (install fd p false tb s').1).
Proof.
  intros E Hf. destruct (newOpenFile_safe _ _ _ _ _ E Hf) as [Hs Hp].
  destruct (install_step fd p false tb s' (λ _, Hp)) as [Hs2 Ht]. split; [by eapply ssafe_trans|].
  intros Hfs Htb. destruct (Hs Hfs) as [Hfs' He]. apply Ht; [done|]. by apply (tabs_ok_ext s).
Qed.

Lemma add_reader_safe (w : kworld OS HS) r w' : add_reader w = (r, w') → wsafe w w' ∧ is_Some (w_readers w' !! r).
Proof.
  intros [= <- <-]. split; [|simpl; by rewrite lookup_insert_eq]. intros [? ? ? Wp Wr Ws].
  split; split; simpl; auto; intros i Hi; try (apply Wp in Hi || apply Ws in Hi; lia).
  - destruct (decide (w_next w = i)) as [<-|]; [lia|]. rewrite lookup_insert_ne in Hi by done. apply Wr in Hi. lia.
  - destruct (decide (w_next w = i)) as [<-|]; [by rewrite lookup_insert_eq|by rewrite lookup_insert_ne].
Qed.

Lemma stdio_fds_safe (s s' : kstate OS HS) tb : stdio_fds s = (tb, s') → ssafe s s' ∧ (files_ok s → tabs_ok s' tb).
Proof.
  unfold stdio_fds. destruct (add_reader (o_files s)) as [r w] eqn:Er.
  destruct (add_reader_safe _ _ _ Er) as [Hw Hr]. set (s0 := s <| o_files := w |>).
  destruct (newOpenFile (KReader r) 0 s0) as [p0 s1] eqn:E0.
  destruct (open_step _ _ _ _ _ 0 newFDTable E0 Hr) as [A0 B0].
  destruct (install 0 p0 false newFDTable s1) as [t0 s2]. cbn [fst snd] in *.
  destruct (newOpenFile (KWriter 1) 0 s2) as [p1 s3] eqn:E1. destruct (open_step _ _ _ _ _ 1 t0 E1 I) as [A1 B1].
  destruct (install 1 p1 false t0 s3) as [t1 s4]. cbn [fst snd] in *.
  destruct (newOpenFile (KWriter 2) 0 s4) as [p2 s5] eqn:E2. destruct (open_step _ _ _ _ _ 2 t1 E2 I) as [A2 B2].
  intros Ei. rewrite Ei in *. cbn [fst snd] in *. pose proof (files_world s w Hw) as A. fold s0 in A. split.
  - do 3 (eapply ssafe_trans; [eassumption|]). done.
  - intros Hs. destruct (A Hs) as [Hs0 _]. destruct (A0 Hs0) as [Hs2 _]. destruct (A1 Hs2) as [Hs4 _].
    apply B2; [done|]. apply B1; [done|]. apply B0; [done|]. intros fd e. unfold newFDTable. by rewrite lookup_empty.
Qed.

Lemma clone_safe (s s' : kstate OS HS) tb tb' : cloneForExec tb s = (tb', s') → ssafe s s' ∧ (files_ok s → tabs_ok s tb → tabs_ok s' tb').
Proof.
  unfold cloneForExec. intros [= <- <-].
  assert (∀ l, ssafe s (foldr (λ e : Z * fdEntry, ref (fe_of e.2)) s l)) as Hl.
  { induction l as [|e l IH]; simpl; [apply ssafe_refl|]. eapply ssafe_trans; [exact IH|apply ref_safe]. }
  split; [apply Hl|]. intros Hs Ht fd e. rewrite lookup_fmap. intros (u & Hu & ->)%fmap_Some.
  apply map_lookup_filter_Some in Hu as [Hu _]. simpl. destruct (Hl (map_to_list (filter (λ e : Z * fdEntry, fe_cloexec e.2 = false) tb)) Hs) as [_ He].
  apply (heap_at_ext s); [exact He|]. by apply (Ht fd).
Qed.

Lemma closeAll_safe (s : kstate OS HS) tb : ssafe s (fd_closeAll tb s).2.
Proof.
  unfold fd_closeAll. cbn [snd]. generalize (merge_sort Z.le (map_to_list tb).*1) as l. intros l.
  revert s. induction l as [|fd l IH]; intros s; simpl; [apply ssafe_refl|].
  eapply ssafe_trans; [|apply IH]. destruct (tb !! fd); [apply unref_safe|apply ssafe_refl].
Qed.
Lemma detachAll_safe al t (o : OS) : tsafe t (shm_detachAll al t o).1.
Proof.
  revert t o. induction al as [|a al IH]; intros t o; simpl; [apply tsafe_refl|].
  destruct (shm_detach (at_s a) t o) as [t1 o1] eqn:E. eapply tsafe_trans; [|apply IH].
  change t1 with (t1, o1).1. rewrite <- E. apply free_after_safe.
Qed.

(** A new process gets its directory and its descriptors. *)
Lemma equip_ok (c : nat) cwd (t : fdTable) s k :
  kernel_ok k → is_Some (kr_heap k !! c) → ssafe (kr_files k) s → (files_ok s → tabs_ok s t) →
  kernel_ok (proc_update c (λ p, p <| pr_cwd := cwd |> <| pr_fds := t |>) (k <| kr_files := s |>)).
Proof.
  intros Hk Hc Hs Ht. apply replace_ok; [done| |done]. intros u Hu. split; [done|]. intros Hfs.
  destruct Hk as [Hf Hp]. destruct (Hs Hf) as [_ He]. split; [by apply Ht|].
  intros a Ha. apply (we_shm _ _ (fx_world _ _ He)). by apply (po_att _ _ (Hp c u Hu)).
Qed.

Lemma k_newProcess_files parent argv env k c k' :
  k_newProcess getpid kid parent argv env k = (c, k') → kr_files k' = kr_files k.
Proof.
  unfold k_newProcess. destruct (allocPid _ _ _) as [pid t]. destruct (pid =? 0); by intros [= _ <-].
Qed.

Lemma spawn_ok q argv env cwd k r k' :
  spawn getpid kid q argv env cwd k = Some (r, k') → kernel_ok k → kernel_ok k'.
Proof.
  unfold spawn. destruct (kr_heap k !! q) as [p|] eqn:Hq; [|done]. intros Hsp Hk.
  destruct (k_newProcess getpid kid (Some q) argv env k) as [oc k1] eqn:En.
  destruct (k_newProcess_ok _ _ _ _ _ _ Hk En) as [Hk1 Hc]. apply k_newProcess_files in En.
  destruct oc as [c|]; [|by injection Hsp as _ <-].
  assert (tabs_ok (kr_files k1) (pr_fds p)) as Hp by (rewrite En; exact (po_fds _ _ (proj2 Hk q p Hq))).
  destruct (cloneForExec (pr_fds p) (kr_files k1)) as [t s] eqn:Ec.
  destruct (clone_safe _ _ _ _ Ec) as [Hs Ht]. cbv zeta in Hsp.
  pose proof (equip_ok c cwd t s k1 Hk1 (Hc c eq_refl) Hs (λ _, Ht (proj1 Hk1) Hp)) as Hk2.
  revert Hsp Hk2. generalize (proc_update c (λ p, p <| pr_cwd := cwd |> <| pr_fds := t |>) (k1 <| kr_files := s |>)).
  intros k2. destruct (kr_heap k2 !! c); [|done]. destruct (pr_children p); [|done]. intros [= _ <-] Hk2.
  by apply update_same.
Qed.

Lemma Start_ok argv env cwd k : kernel_ok k → kernel_ok (k_Start getpid kid argv env cwd k).2.
Proof.
  intros Hk. unfold k_Start. destruct (k_newProcess getpid kid None argv env k) as [oc k1] eqn:En.
  destruct (k_newProcess_ok _ _ _ _ _ _ Hk En) as [Hk1 Hc]. destruct oc as [c|]; [|done].
  destruct (stdio_fds (kr_files k1)) as [t s] eqn:Es. destruct (stdio_fds_safe _ _ _ Es) as [Hs Ht].
  apply (equip_ok c cwd t s k1 Hk1 (Hc c eq_refl) Hs). intros _. by apply Ht, Hk1.
Qed.

Lemma teardown_ok status q k : kernel_ok k → kernel_ok (finish_teardown status q k).
Proof.
  intros Hk. unfold finish_teardown. destruct (kr_heap k !! q) as [p|] eqn:Hq; [|done].
  pose proof (closeAll_safe (kr_files k) (pr_fds p)) as Hs. assert ((fd_closeAll (pr_fds p) (kr_files k)).1 = ∅) as Ht by done.
  destruct (fd_closeAll (pr_fds p) (kr_files k)) as [t s]. simpl in Hs, Ht. subst t.
  pose proof (detachAll_safe (pr_shmAttached p) (w_shm (o_files s)) (w_os (o_files s))) as Hd.
  destruct (shm_detachAll _ _ _) as [sh o]. simpl in Hd.
  apply replace_ok; [done| |by eexists]. intros u Hu. split.
  - eapply ssafe_trans; [exact Hs|].
    apply (files_world s ((o_files s) <| w_shm := sh |> <| w_os := o |>)).
    by apply (wsafe_tab (o_files s) sh (λ w, w <| w_os := o |>)).
  - intros _. split; simpl; [intros fd e; by rewrite lookup_empty|set_solver].
Qed.

Lemma round_ok order q pid options k ch r k' :
  waitpid_round order q pid options k = (ch, r, k') → kernel_ok k → kernel_ok k'.
Proof.
  unfold waitpid_round. destruct (kr_heap k !! q) as [p|]; [|by intros [= <- <- <-]].
  destruct (notifier_wait _) as [c n]. cbv zeta. set (k1 := proc_update q _ k). intros Hr Hk.
  assert (kernel_ok k1) as Hk1 by (by apply update_same). clearbody k1.
  destruct (wait_scan pid (kr_heap k1) _) as [b [[cpid i]|]].
  - destruct b; injection Hr as _ _ <-; apply forgetLocked_ok; by apply update_same.
  - destruct b; cbn beta iota in Hr; by injection Hr as _ _ <-.
Qed.

Lemma reap_ok q k : kernel_ok k → kernel_ok (finish_reap q k).
Proof.
  intros Hk. unfold finish_reap. destruct (kr_heap k !! q) as [p|]; [|done]. cbv zeta.
  generalize (map_to_list (default ∅ (pr_children p))) as l. intros l.
  assert (kernel_ok (foldr orphan_child k l)) as Hl.
  { induction l as [|e l IH]; simpl; [done|]. unfold orphan_child.
    destruct (from_option _ _ _); [apply forgetLocked_ok|]; by apply update_same. }
  apply update_same; [done..|]. destruct (is_orphan p); [by apply forgetLocked_ok|done].
Qed.

Lemma notify_ok q k : kernel_ok k → kernel_ok (finish_notify q k).
Proof.
  intros Hk. unfold finish_notify. destruct (kr_heap k !! q ≫= pr_parent); [|done]. cbv zeta.
  apply update_same; [done..|]. apply proc_Signal_ok. by apply update_same.
Qed.

Lemma run_call_ok q c k r k' :
  (∀ f, f ∈ call_envs c → env_ok f) → run_call mounts create q c k = Ret r k' → kernel_ok k →
  kernel_ok k' ∧ files_ext (kr_files k) (kr_files k') ∧
  ∃ p p', kr_heap k !! q = Some p ∧ own_work p p' ∧ k' = proc_update q (λ _, p') (k <| kr_files := kr_files k' |>).
Proof.
  intros Henv. unfold run_call. destruct (kr_heap k !! q) as [p|] eqn:Hq; [|done].
  assert (PreOrder own_work) as HV.
  { split; [done|]. intros a b d A B. unfold own_work in *. by rewrite B. }
  pose proof (host_exec_safe own_work HV (λ p p' E, E) mounts create c (HState p (kr_files k)) Henv) as Hs.
  destruct (host_exec _ _ _ _) as [r0 h'| |]; [|done|done]. simpl in Hs. intros [= <- <-] Hk.
  destruct Hs as [Hs Hv]. destruct Hk as [Hf Hp]. destruct Hs as [[Hf' Hp'] He]; [split; [done|by apply (Hp q)]|].
  simpl in *. split; [|split; [done|by exists p, (h_p h')]].
  split; [done|]. simpl. intros i u. rewrite lookup_alter. destruct (decide (q = i)) as [<-|].
  - rewrite Hq. by intros [= <-].
  - intros Hi. apply (proc_ok_ext (kr_files k)); [done|]. by apply (Hp i).
Qed.

Lemma Spawn_cases fuel q argvA envA cwdA k r k' :
  procHost_Spawn getpid kid programs fuel q argvA envA cwdA k = Ret r k' →
  k' = k ∨ ∃ argv env cwd pid, spawn getpid kid q argv env cwd k = Some (pid, k').
Proof.
  unfold procHost_Spawn, returns. cbv zeta.
  destruct (strings _ _ argvA fuel) as [[argv|]|]; [|intros [= _ <-]; by left|done].
  destruct (cstring _ _ cwdA) as [cwd|]; [|intros [= _ <-]; by left].
  destruct (if negb (envA =? 0) then _ else _) as [[vars|]|]; [|intros [= _ <-]; by left|done].
  destruct argv as [|argv0 argv]; [intros [= _ <-]; by left|]. destruct (negb _); [intros [= _ <-]; by left|].
  destruct (spawn _ _ _ _ _ _ k) as [[pid k2]|] eqn:E; [|done]. intros [= _ <-]. right. eauto.
Qed.

Lemma sys_step_ok k k' : kernel_ok k → sys_step k k' → kernel_ok k'.
Proof.
  intros Hk. destruct 1 as [argv env cwd k|fuel q p argv envp cwd r k k' Hq Hpc Hs|q p c r k k' Hq Hpc He Hc|q pid sig k
    |q status k|order q p pid options k ch r k' Ho Hq Hpc Hr|q p ch pid k Hq Hpc|e q p k Hq Hpc|q p k Hq Hpc
    |q p k Hq Hpc|i f k|i f k].
  - by apply Start_ok.
  - destruct (Spawn_cases _ _ _ _ _ _ _ _ Hs) as [->|(? & ? & ? & ? & Hsp)]; [done|]. by eapply spawn_ok.
  - by apply (run_call_ok q c k r k').
  - unfold procHost_Kill, proc_kill. destruct (_ || _); [done|]. destruct (k_lookup _ k); [|done].
    cbn [snd]. destruct (sig =? 0); [done|by apply proc_Signal_ok].
  - unfold procHost_Exit. destruct (kr_heap k !! q) as [p|] eqn:Hq; [|done].
    destruct (proc_exit status p) as [u p'] eqn:E. cbn [snd]. destruct Hk as [Hf Hp].
    apply update_ok; [|by split]. intros _ _. destruct (Hp q p Hq) as [Pf Pa]. unfold proc_exit in E.
    injection E as _ <-. by destruct (pr_exitSet p).
  - assert (kernel_ok k') as Hk' by (by eapply round_ok). destruct r; try done. by apply update_same.
  - by apply update_same.
  - by apply teardown_ok.
  - by apply reap_ok.
  - by apply notify_ok.
  - apply (k_world_ok _ k); [|done]. apply at_reader_safe.
  - apply (k_world_ok _ k); [|done]. apply at_socket_safe.
Qed.

Lemma New_ok t o h : kernel_ok (k_New t o h : kern).
Proof.
  split; [|intros q p; simpl; by rewrite lookup_empty]. unfold k_New. simpl.
  split; simpl; [split; simpl; intros *; rewrite lookup_empty; try done; by intros [? ?]| |];
    intros *; rewrite lookup_empty; [done|by intros [? ?]].
Qed.

Lemma work_then_files q p p' s k :
  kr_heap k !! q = Some p → own_work p p' →
  rtc (kstep getpid kid) k (proc_update q (λ _, p') (k <| kr_files := s |>)).
Proof.
  intros Hq Hw. eapply rtc_l; [apply (k_files_step getpid kid s)|]. apply rtc_once.
  by apply (k_work getpid kid q p p').
Qed.

(** * Properties *)


End system.

(** A postmaster with a pipe that spawns nobody. *)
Definition demo_kernel : kernel Sim.sim unit := (k_Start 2 7 ["postgres"%string] [] "/" (k_New pids_zero demo_boot.2 ())).2.
Definition demo_called : outcome (kernel Sim.sim unit) := run_call [] (λ _ _ w, w) 0 HDevnull demo_kernel.

Lemma demo_called_step r k : demo_called = Ret r k →
  sys_step [] (λ _ _ w, w) ["postgres"%string] 2 7 (λ _ _, 0) 1 demo_kernel k.
Proof.
  unfold demo_called. intros E. destruct (kr_heap demo_kernel !! 0%nat) as [p|] eqn:Hp; [|vm_compute in Hp; discriminate].
  apply (sy_call _ _ _ _ _ _ _ 0%nat p HDevnull r demo_kernel k); [exact Hp| |simpl; set_solver|exact E].
  assert (pr_pc <$> kr_heap demo_kernel !! 0%nat = Some PRunning) as Hpc by (vm_compute; reflexivity).
  rewrite Hp in Hpc. by injection Hpc.
Qed.


