(* ===== verification/Clone.v ===== *)
(** [Clone] and [Open] of the in-memory filesystem ([src/internal/memfs/memfs.go]).

    The copy has a heap of its own.  Go ranges over a map in an unspecified
    order, the parameter [order]; [append] makes arrays with unspecified room
    to spare, the parameter [extra]. *)
From S2P Require Import Prelude Bytes Paths MemFS.
From Stdlib Require Import Ascii.

(** ** [fs.ValidPath] *)

(** [utf8.ValidString] on bytes. *)
Definition cont (lo hi b : Z) : bool := (lo <=? b) && (b <=? hi).
Fixpoint utf8_valid (l : bytes) : bool :=
  match l with
  | [] => true
  | b :: l =>
      if b <? 128 then utf8_valid l
      else if cont 194 223 b then
        match l with c :: l => cont 128 191 c && utf8_valid l | _ => false end
      else if cont 224 239 b then
        match l with
        | c :: d :: l =>
            cont (if b =? 224 then 160 else 128) (if b =? 237 then 159 else 191) c &&
            cont 128 191 d && utf8_valid l
        | _ => false
        end
      else if cont 240 244 b then
        match l with
        | c :: d :: e :: l =>
            cont (if b =? 240 then 144 else 128) (if b =? 244 then 143 else 191) c &&
            cont 128 191 d && cont 128 191 e && utf8_valid l
        | _ => false
        end
      else false
  end.

Definition ValidPath (name : string) : bool :=
  utf8_valid (bytes_of_string name) &&
  (bool_decide (name = ".") ||
   forallb (λ p, negb (bool_decide (p = "" ∨ p = "." ∨ p = ".."))) (split_slash name)).

(** [f.root] as a directory, the receiver [Open] and [AddTar] start from. *)
Definition Open (fsid : nat) (name : string) (now : Z) (f : FS) : result File * FS :=
  if negb (ValidPath name) then (Err F_EINVAL, f)
  else OpenAt (mkFile fsid (fs_root f) "." 0 0 0) name 0 0 now f.

(** ** [Clone] *)
Abbreviation copies := (gmap nat nat) (only parsing).

Section clone.
Context (order : gmap string nat → list (string * nat)) (extra : Z → Z).

(** [append([]byte(nil), data...)] *)
Definition clone_data (d : slice) : slice :=
  Slice_ (d_bytes d ++ zrepeat (extra (d_len d)) 0) (zlen (d_bytes d)).

(** The loop over the entries; [cl] is the recursive call. *)
Fixpoint clone_entries (cl : nat → copies * FS → option (nat * (copies * FS))) (c : nat)
    (l : list (string * nat)) (st : copies * FS) : option (copies * FS) :=
  match l with
  | [] => Some st
  | (name, child) :: l =>
      match cl child st with
      | None => None
      | Some (cc, (K, g)) => clone_entries cl c l (K, set_entry c name cc g)
      end
  end.

(** [clone(n, parent)]; [g] is the new filesystem.  [None] when the fuel is too
    small or a nil node is used. *)
Fixpoint clone (f : FS) (fuel : nat) (n : nat) (parent : option nat) (st : copies * FS)
    : option (nat * (copies * FS)) :=
  match fuel with
  | O => None
  | S fuel =>
      match st.1 !! n with
      | Some c => Some (c, st)
      | None =>
          match fs_heap f !! n with
          | None => None
          | Some nd =>
              let '(c, g) := fs_new_node (Node (n_mode nd) (clone_data (n_data nd)) (n_modTime nd) ∅ None) st.2 in
              let K := <[n := c]> st.1 in
              if isDir nd then
                let g := fs_update c (λ x, x <| n_parent := parent |>) g in
                match clone_entries (λ child, clone f fuel child (Some c)) c (order (n_entries nd)) (K, g) with
                | None => None
                | Some st => Some (c, st)
                end
              else Some (c, (K, g))
          end
      end
  end.

Definition Clone (fuel : nat) (f : FS) : option FS :=
  match clone f fuel (fs_root f) None (∅, mkFS ∅ 0 0) with
  | None => None
  | Some (root, (_, g)) =>
      Some (fs_update root (λ x, x <| n_parent := Some root |>) (g <| fs_root := root |>))
  end.
End clone.

(** * Regular files have no parent *)
Definition orphan_files (f : FS) : Prop :=
  ∀ p n, fs_heap f !! p = Some n → isDir n = false → n_parent n = None.

Lemma orphan_update f p g :
  (∀ n, fs_heap f !! p = Some n → isDir n = false → isDir (g n) = false → n_parent (g n) = n_parent n) →
  (∀ n, fs_heap f !! p = Some n → isDir n = true → isDir (g n) = true) →
  orphan_files f → orphan_files (fs_update p g f).
Proof.
  intros Hg Hd Ho q n. rewrite lookup_update. case_decide; [subst q|by apply Ho].
  intros (m & Hm & ->)%fmap_Some Hn. destruct (isDir m) eqn:E.
  - by rewrite (Hd m Hm E) in Hn.
  - rewrite (Hg m Hm E Hn). by apply (Ho p).
Qed.

Lemma orphan_keep f p g :
  (∀ n, isDir (g n) = isDir n ∧ n_parent (g n) = n_parent n) → orphan_files f → orphan_files (fs_update p g f).
Proof. intros Hg. apply orphan_update; intros n _; destruct (Hg n) as [E E']; congruence. Qed.

Lemma orphan_new f n : (isDir n = false → n_parent n = None) → orphan_files f → orphan_files (fs_new_node n f).2.
Proof. intros Hn Ho q m. simpl. intros [[<- <-]|[_ Hq]]%lookup_insert_Some; [done|by apply (Ho q)]. Qed.

Lemma orphan_entry f dir b p now : orphan_files f → orphan_files (touch dir now (set_entry dir b p f)).
Proof. intros. apply orphan_keep; [done|]. by apply orphan_keep. Qed.


Lemma orphan_newDir q now f : orphan_files f → orphan_files (newDir (Some q) now f).2.
Proof. apply orphan_new. intros Hd. by rewrite (isDir_mode _ 448) in Hd. Qed.

(** What an operation on the parent directory does, for a predicate of the
    filesystem it keeps. *)
Lemma at_parent_keeps {A} (P : FS → Prop) fl name f (k : nat → string → node → result A * FS) :
  P f → (∀ dir base d, P (k dir base d).2) → P (at_parent fl name f k).2.
Proof.
  intros Hf Hk. unfold at_parent. destruct (resolve_parent _ _ _) as [[dir base]| |]; [|done..].
  by destruct (fs_heap f !! dir).
Qed.

Lemma orphan_remove f dir b now : orphan_files f → orphan_files (remove_entry dir b now f).
Proof. intros. apply orphan_keep; [done|]. by apply orphan_keep. Qed.

Lemma WriteAt_orphan maxAlloc fl b off now f : orphan_files f → orphan_files (WriteAt maxAlloc fl b off now f).2.
Proof.
  intros Ho. unfold WriteAt. destruct (node_of f fl) as [nd| |]; [|done..].
  repeat (case_match; simpl; try done); by apply orphan_keep.
Qed.

Lemma OpenAt_orphan fl name flag perm now f : orphan_files f → orphan_files (OpenAt fl name flag perm now f).2.
Proof.
  intros Ho. unfold OpenAt.
  assert (orphan_files (open_node fl name flag perm now f).2) as Ho1.
  { unfold open_node. destruct (has flag fs_O_CREAT); [|done].
    destruct (resolve_parent _ _ _) as [[dir base]| |]; [|done..]. case_match; [done|].
    simpl. apply orphan_entry. by apply orphan_new. }
  destruct (open_node _ _ _ _ _ _) as [[n| |] f1]; simpl in *; [|done..].
  destruct (fs_heap f1 !! n) as [nd|]; [|done]. repeat (case_match; try done); by apply orphan_keep.
Qed.

Lemma MkdirAt_orphan fl name perm now f : orphan_files f → orphan_files (MkdirAt fl name perm now f).2.
Proof.
  intros Ho. apply (at_parent_keeps orphan_files); [done|]. intros dir base d. destruct (n_entries d !! base); [done|].
  unfold newDir, fs_new_node. apply orphan_entry. apply orphan_update; [|intros; by apply (isDir_mode _ (Z.lor (Perm perm) 448))|].
  - intros n Hn Hd. simpl in Hn. rewrite lookup_insert_eq in Hn. by simplify_eq.
  - by apply orphan_newDir.
Qed.

Lemma orphan_step maxAlloc f f' : fs_ok f → orphan_files f → fs_step maxAlloc f f' → orphan_files f'.
Proof.
  intros Hok Ho Hstep.
  destruct Hstep as [fl name flag perm now f|fl b off now f|fl b now f|fl size now f|fl now f|fl name now f
    |fl name perm now f|fl name now f|fl name now f|fuel fl old nd new now f r f' Hr|fl old nd new now f].
  - by apply OpenAt_orphan.
  - by apply WriteAt_orphan.
  - unfold Write. destruct (node_of f fl); [|done..].
    set (fl1 := if has _ _ then _ else _). pose proof (WriteAt_orphan maxAlloc fl1 b (f_offset fl1) now f Ho) as Hw.
    by destruct (WriteAt _ _ _ _ _ _).
  - unfold Truncate. destruct (node_of f fl); [|done..]. repeat (case_match; simpl; try done); by apply orphan_keep.
  - by apply orphan_keep.
  - unfold ChtimesAt. destruct (resolve _ _ _); [by apply orphan_keep|done..].
  - by apply MkdirAt_orphan.
  - apply (at_parent_keeps orphan_files); [done|]. intros dir base d. repeat (case_match; simpl; try done); by apply orphan_remove.
  - apply (at_parent_keeps orphan_files); [done|]. intros dir base d. repeat (case_match; simpl; try done); by apply orphan_remove.
  - revert Hr. unfold RenameAt.
    destruct (rename_plan fl old nd new f) as [[[[[[[n p] odir] obase] ndir] nbase]|]| |] eqn:Hplan;
      [|by intros [= _ <-]..].
    apply rename_plan_Some in Hplan as (Hn & _ & _).
    assert (orphan_files (rename_move n p odir ndir obase nbase now f)) as Hm.
    { unfold rename_move. do 4 (apply orphan_keep; [done|]).
      destruct (isDir n) eqn:Hd; [|done]. apply orphan_update; [|by intros m _ Hd1|done].
      intros m Hm Hd1. simplify_eq. congruence. }
    repeat (case_match; simplify_eq; try done); by intros [= _ <-].
  - unfold LinkAt.
    match goal with |- context [match ?x with _ => _ end] => destruct x as [[[p ndir] nbase]| |] end;
      [by apply orphan_entry|done..].
Qed.

Lemma orphan_New now : orphan_files (fs_New now).
Proof. intros p n. unfold fs_New. simpl. intros [<- <-]%lookup_singleton_Some. done. Qed.

(** * The copy is the same tree *)
Section copy.
Context (order : gmap string nat → list (string * nat)) (extra : Z → Z).
Context (order_perm : ∀ m, order m ≡ₚ map_to_list m).
Context (f : FS) (Hwf : fs_wf f) (Hs : slices_ok f).

Lemma clone_data_ok d : slice_ok d → slice_ok (clone_data extra d) ∧ d_bytes (clone_data extra d) = d_bytes d.
Proof.
  intros Hd. unfold clone_data, slice_ok. simpl. split; [zlia|].
  unfold d_bytes at 1. simpl. rewrite ztake_app_le by lia. by rewrite ztake_all by lia.
Qed.

(** What a copy has in common with its original from the start. *)
Definition same_node (nd cd : node) : Prop :=
  n_mode cd = n_mode nd ∧ n_modTime cd = n_modTime nd ∧ slice_ok (n_data cd) ∧
  d_bytes (n_data cd) = d_bytes (n_data nd) ∧
  (isDir nd = false → n_entries cd = ∅ ∧ n_parent cd = None).

(** The parent of a copied directory is the copy of its parent. *)
Definition same_parent (K : copies) (nd cd : node) : Prop :=
  ∃ d pc, n_parent nd = Some d ∧ K !! d = Some pc ∧ n_parent cd = Some pc.

(** All children are copied, and entered under the same names. *)
Definition same_entries (K : copies) (nd cd : node) : Prop :=
  ∀ b, match n_entries nd !! b with
       | Some x => ∃ y, K !! x = Some y ∧ n_entries cd !! b = Some y
       | None => n_entries cd !! b = None
       end.

Record cinv (K : copies) (g : FS) : Prop := {
  ci_fresh p : (fs_next g ≤ p)%nat → fs_heap g !! p = None;
  ci_node n c : K !! n = Some c → ∃ nd cd, fs_heap f !! n = Some nd ∧ fs_heap g !! c = Some cd ∧
    same_node nd cd ∧ (isDir nd = true → n ≠ fs_root f → same_parent K nd cd);
  ci_inj n n' c : K !! n = Some c → K !! n' = Some c → n = n';
  ci_surj c cd : fs_heap g !! c = Some cd → ∃ n, K !! n = Some c;
}.

Lemma isDir_same nd cd : same_node nd cd → isDir cd = isDir nd.
Proof. unfold isDir. by intros (-> & _). Qed.

(** How a call extends the state: [K'] and [g'] after [K] and [g], where only
    the entries of [c] changed among the nodes that were there, and every new
    copy is finished. *)
Record extends (busy : option nat) (K K' : copies) (g g' : FS) : Prop := {
  ex_sub : K ⊆ K';
  ex_next : (fs_next g ≤ fs_next g')%nat;
  ex_frame p : (p < fs_next g)%nat → busy ≠ Some p → fs_heap g' !! p = fs_heap g !! p;
  ex_done n c : K !! n = None → K' !! n = Some c → ∃ nd cd,
    fs_heap f !! n = Some nd ∧ fs_heap g' !! c = Some cd ∧ same_entries K' nd cd;
}.

Lemma ci_lt K g n c : cinv K g → K !! n = Some c → (c < fs_next g)%nat.
Proof.
  intros Hi Hc. destruct (ci_node _ _ Hi _ _ Hc) as (nd & cd & _ & Hcd & _).
  destruct (decide (c < fs_next g)%nat) as [|Hge]; [done|].
  rewrite (ci_fresh _ _ Hi) in Hcd by lia. done.
Qed.

Lemma same_entries_sub K K' nd cd : K ⊆ K' → same_entries K nd cd → same_entries K' nd cd.
Proof.
  intros Hsub He b. specialize (He b). destruct (n_entries nd !! b) as [x|]; [|done].
  destruct He as (y & Hy & Hb). exists y. split; [|done]. by eapply lookup_weaken.
Qed.

Lemma extends_refl K g busy : extends busy K K g g.
Proof. split; [done|lia|done|]. intros n c H1 H2. congruence. Qed.

(** Two extensions one after the other; the node being filled is an old one. *)
Lemma extends_trans busy n0 K1 K2 K3 g1 g2 g3 :
  (∀ c, busy = Some c → K1 !! n0 = Some c) → cinv K2 g2 → cinv K3 g3 →
  extends busy K1 K2 g1 g2 → extends busy K2 K3 g2 g3 → extends busy K1 K3 g1 g3.
Proof.
  intros Hb Hi2 Hi3 [S1 N1 F1 D1] [S2 N2 F2 D2]. split.
  - by etrans.
  - lia.
  - intros p Hp Hne. rewrite F2 by (done || lia). by apply F1.
  - intros n c Hn Hc. destruct (K2 !! n) as [c'|] eqn:E.
    + assert (K3 !! n = Some c') as Hc' by by eapply lookup_weaken.
      assert (c' = c) as -> by congruence.
      destruct (D1 n c Hn E) as (nd & cd & Hnd & Hcd & He).
      exists nd, cd. split_and!; [done| |by eapply same_entries_sub].
      rewrite F2; [done|by apply (ci_lt K2 g2 n)|]. intros ->.
      assert (n0 = n) as ->; [|rewrite (Hb _ eq_refl) in Hn; done].
      apply (ci_inj _ _ Hi2 n0 n c); [|done]. eapply lookup_weaken; [by apply Hb|done].
    + by apply D2.
Qed.

Lemma ci_dom K g : cinv K g → dom K ⊆ dom (fs_heap f).
Proof.
  intros Hi n [c Hc]%elem_of_dom. destruct (ci_node _ _ Hi _ _ Hc) as (nd & _ & Hnd & _).
  apply elem_of_dom. by exists nd.
Qed.

Lemma ci_size K g : cinv K g → (size K ≤ size (fs_heap f))%nat.
Proof. intros Hi. rewrite <- !size_dom. by apply subseteq_size, (ci_dom K g). Qed.

Lemma same_parent_sub K K' nd cd : K ⊆ K' → same_parent K nd cd → same_parent K' nd cd.
Proof. intros Hsub (d & pc & ? & ? & ?). exists d, pc. split_and!; [done| |done]. by eapply lookup_weaken. Qed.

(** Entering a child in a copied directory. *)
Lemma cinv_set_entry K g n nd c b y :
  cinv K g → K !! n = Some c → fs_heap f !! n = Some nd → isDir nd = true → cinv K (set_entry c b y g).
Proof.
  intros Hi Hc Hnd Hd. pose proof Hi as [Hfresh Hnode Hinj Hsurj]. split; [|..|done|].
  - intros p Hp. unfold set_entry. rewrite lookup_update. simpl in Hp. rewrite (Hfresh p Hp). by case_decide.
  - intros m cm Hm. destruct (Hnode m cm Hm) as (md & cd & Hmd & Hcd & Hsame & Hpar).
    unfold set_entry. rewrite lookup_update, Hcd. exists md. case_decide as E; [|by exists cd].
    eexists. split_and!; [done|done| |done]. subst cm. assert (m = n) as -> by by apply (Hinj m n c).
    simplify_eq. destruct Hsame as (? & ? & ? & ? & ?). split_and!; try done. congruence.
  - intros p cd. unfold set_entry. rewrite lookup_update. case_decide as E; [|by apply Hsurj].
    subst p. by exists n.
Qed.

(** The new node of a call that finds no copy. *)
Lemma cinv_new K g n nd (parent : option nat) :
  cinv K g → K !! n = None → fs_heap f !! n = Some nd →
  (n ≠ fs_root f → isDir nd = true →
     ∃ d pc, n_parent nd = Some d ∧ K !! d = Some pc ∧ parent = Some pc) →
  let cd := Node (n_mode nd) (clone_data extra (n_data nd)) (n_modTime nd) ∅
              (if isDir nd then parent else None) in
  cinv (<[n := fs_next g]> K) (fs_new_node cd g).2.
Proof.
  intros Hi Hn Hnd Hpar cd. pose proof Hi as [Hfresh Hnode Hinj Hsurj].
  destruct (clone_data_ok (n_data nd) (Hs n nd Hnd)) as [Hok Hbytes].
  assert (K ⊆ <[n := fs_next g]> K) as Hsub by by apply insert_subseteq.
  split.
  - intros p Hp. simpl in *. rewrite lookup_insert_ne by lia. apply Hfresh. lia.
  - intros m cm [[<- <-]|[Hne Hm]]%lookup_insert_Some.
    + exists nd, cd. simpl. rewrite lookup_insert_eq. split_and!; [done|done| |].
      * unfold cd. split_and!; try done. simpl. by intros ->.
      * intros Hd Hr. destruct (Hpar Hr Hd) as (d & pc & H1 & H2 & H3).
        exists d, pc. unfold cd. simpl. rewrite Hd. split_and!; [done| |done]. by eapply lookup_weaken.
    + destruct (Hnode m cm Hm) as (md & cd' & Hmd & Hcd & Hsame & Hp).
      exists md, cd'. simpl. rewrite lookup_insert_ne by (pose proof (ci_lt K g m cm Hi Hm); lia).
      split_and!; try done. intros. by eapply same_parent_sub, Hp.
  - intros m m' cm [[<- <-]|[Hne Hm]]%lookup_insert_Some [[<- Hc]|[Hne' Hm']]%lookup_insert_Some; try done.
    + pose proof (ci_lt K g m' _ Hi Hm'). lia.
    + pose proof (ci_lt K g m _ Hi Hm). lia.
    + by apply (Hinj m m' cm).
  - intros p cd'. simpl. intros [[<- _]|[Hne Hp]]%lookup_insert_Some; [exists n; by rewrite lookup_insert_eq|].
    destruct (Hsurj p cd' Hp) as [m Hm]. exists m. by eapply lookup_weaken.
Qed.

(** The state after a call. *)
Definition clone_post (fuel : nat) : Prop := ∀ n nd parent K g,
  cinv K g → fs_heap f !! n = Some nd →
  (K !! n = None → n ≠ fs_root f → isDir nd = true →
     ∃ d pc, n_parent nd = Some d ∧ K !! d = Some pc ∧ parent = Some pc) →
  (size (fs_heap f) < fuel + size K)%nat →
  ∃ c K' g', clone order extra f fuel n parent (K, g) = Some (c, (K', g')) ∧ cinv K' g' ∧
    K' !! n = Some c ∧ extends None K K' g g'.

Lemma clone_entries_spec fuel n nd c l K g cd :
  clone_post fuel → fs_heap f !! n = Some nd → isDir nd = true →
  (∀ b x, (b, x) ∈ l → n_entries nd !! b = Some x) → NoDup l.*1 →
  cinv K g → K !! n = Some c → fs_heap g !! c = Some cd → (size (fs_heap f) < fuel + size K)%nat →
  ∃ K' g' cd', clone_entries (λ child, clone order extra f fuel child (Some c)) c l (K, g) = Some (K', g') ∧
    cinv K' g' ∧ extends (Some c) K K' g g' ∧ fs_heap g' !! c = Some cd' ∧
    (∀ b, b ∉ l.*1 → n_entries cd' !! b = n_entries cd !! b) ∧
    ∀ b x, (b, x) ∈ l → ∃ y, K' !! x = Some y ∧ n_entries cd' !! b = Some y.
Proof.
  intros HP Hnd Hd. revert K g cd. induction l as [|[b x] l IH]; intros K g cd Hl Hnodup Hi Hc Hcd Hfuel.
  { exists K, g, cd. split_and!; try done; [apply extends_refl|]. by intros b x ?%not_elem_of_nil. }
  apply NoDup_cons in Hnodup as [Hb Hnodup]. simpl in Hb.
  assert (n_entries nd !! b = Some x) as Hbx by (apply Hl; constructor).
  destruct (wf_child f Hwf n nd b x Hnd Hbx) as [xd Hxd].
  destruct (HP x xd (Some c) K g Hi Hxd) as (cx & K1 & g1 & Hcl & Hi1 & Hcx & Hex1); [|done|].
  { intros _ _ Hxdir. exists n, c. by destruct (wf_up f Hwf n nd b x xd Hnd Hbx Hxd Hxdir). }
  assert (K1 !! n = Some c) as Hc1 by (eapply lookup_weaken; [done|apply (ex_sub _ _ _ _ _ Hex1)]).
  assert (fs_heap g1 !! c = Some cd) as Hcd1.
  { rewrite (ex_frame _ _ _ _ _ Hex1); [done|by apply (ci_lt K g n)|done]. }
  pose proof (cinv_set_entry K1 g1 n nd c b cx Hi1 Hc1 Hnd Hd) as Hi2.
  destruct (IH K1 (set_entry c b cx g1) (cd <| n_entries ::= <[b := cx]> |>)) as (K' & g' & cd' & Hce & Hi' & Hex & Hcd' & Hout & Hin);
    [intros; apply Hl; by constructor|done|done|done| |..].
  { unfold set_entry. rewrite lookup_update, decide_True by done. by rewrite Hcd1. }
  { enough (size K ≤ size K1)%nat by lia. rewrite <- !size_dom. apply subseteq_size, subseteq_dom, (ex_sub _ _ _ _ _ Hex1). }
  exists K', g', cd'. split_and!; [|done| |done|..].
  - cbn [clone_entries]. by rewrite Hcl.
  - eapply (extends_trans (Some c) n K K1); [by intros ? [= <-]|exact Hi2|exact Hi'| |exact Hex].
    destruct Hex1 as [S1 N1 F1 D1]. split; [done|done|..].
    + intros p Hp Hne. unfold set_entry. rewrite lookup_update, decide_False by congruence. by apply F1.
    + intros m cm Hm Hcm. destruct (D1 m cm Hm Hcm) as (md & cmd & H1 & H2 & H3). exists md, cmd.
      split_and!; [done| |done]. unfold set_entry. rewrite lookup_update, decide_False; [done|].
      intros ->. assert (m = n) as -> by by apply (ci_inj _ _ Hi1 m n cm). congruence.
  - intros b' Hb'. simpl in Hb'. rewrite Hout by set_solver. simpl. apply lookup_insert_ne. set_solver.
  - intros b' x' [[= -> ->]|Hin']%elem_of_cons; [|by apply Hin].
    exists cx. split; [eapply lookup_weaken; [done|apply (ex_sub _ _ _ _ _ Hex)]|].
    rewrite Hout by done. simpl. apply lookup_insert_eq.
Qed.

Lemma new_node_parent m d t g (parent : option nat) :
  fs_update (fs_next g) (λ x, x <| n_parent := parent |>) (fs_new_node (Node m d t ∅ None) g).2 =
  (fs_new_node (Node m d t ∅ parent) g).2.
Proof. unfold fs_update, fs_new_node. simpl. f_equal. by rewrite alter_insert_eq. Qed.

Lemma order_spec m : NoDup (order m).*1 ∧ ∀ b x, (b, x) ∈ order m ↔ m !! b = Some x.
Proof.
  split.
  - rewrite order_perm. apply NoDup_fst_map_to_list.
  - intros b x. rewrite order_perm. apply elem_of_map_to_list.
Qed.

Lemma clone_spec fuel : clone_post fuel.
Proof.
  induction fuel as [|fuel IH]; intros n nd parent K g Hi Hnd Hpar Hfuel.
  { pose proof (ci_size K g Hi). lia. }
  cbn [clone fst snd]. destruct (K !! n) as [c|] eqn:Hn.
  { exists c, K, g. split_and!; try done. apply extends_refl. }
  rewrite Hnd. unfold fs_new_node at 1. cbn [fst snd].
  pose proof (cinv_new K g n nd parent Hi Hn Hnd (Hpar eq_refl)) as Hi1. cbv zeta in Hi1.
  destruct (isDir nd) eqn:Hd.
  - pose proof (new_node_parent (n_mode nd) (clone_data extra (n_data nd)) (n_modTime nd) g parent) as Hg1.
    unfold fs_new_node at 1 in Hg1. cbn [snd] in Hg1. rewrite Hg1.
    set (g1 := (fs_new_node _ g).2) in *. set (K1 := <[n := fs_next g]> K) in *.
    destruct (order_spec (n_entries nd)) as [Hnodup Hin].
    destruct (clone_entries_spec fuel n nd (fs_next g) (order (n_entries nd)) K1 g1
        (Node (n_mode nd) (clone_data extra (n_data nd)) (n_modTime nd) ∅ parent) IH Hnd Hd)
      as (K' & g' & cd' & -> & Hi' & Hex & Hcd' & Hout & Hall); [by intros b x ?%Hin|done|done|..].
    + apply lookup_insert_eq.
    + unfold g1. simpl. apply lookup_insert_eq.
    + unfold K1. rewrite map_size_insert_None by done. lia.
    + assert (K' !! n = Some (fs_next g)) as Hc'.
      { eapply lookup_weaken; [|apply (ex_sub _ _ _ _ _ Hex)]. apply lookup_insert_eq. }
      exists (fs_next g), K', g'. split_and!; [done..|]. destruct Hex as [S1 N1 F1 D1]. split.
      * etrans; [by apply insert_subseteq|done].
      * unfold g1 in N1. simpl in N1. lia.
      * intros p Hp _. rewrite F1; [|unfold g1; simpl; lia|intros [= E]; lia]. unfold g1. simpl.
        rewrite lookup_insert_ne by lia. done.
      * intros m cm Hm Hcm. destruct (decide (m = n)) as [->|Hne].
        -- simplify_eq. exists nd, cd'. split_and!; [done..|]. intros b.
           destruct (n_entries nd !! b) as [x|] eqn:Hb; [apply (Hall b x); by apply Hin|].
           rewrite Hout; [done|]. intros [[b' x] [-> Hx]]%list_elem_of_fmap. simpl in Hb.
           apply Hin in Hx. congruence.
        -- apply D1; [|done]. unfold K1. by rewrite lookup_insert_ne.
  - exists (fs_next g), (<[n := fs_next g]> K), (fs_new_node (Node (n_mode nd) (clone_data extra (n_data nd)) (n_modTime nd) ∅ None) g).2.
    split_and!; [done|done|apply lookup_insert_eq|]. split.
    + by apply insert_subseteq.
    + simpl. lia.
    + intros p Hp _. simpl. by rewrite lookup_insert_ne by lia.
    + intros m cm Hm [[<- <-]|[_ Hcm]]%lookup_insert_Some; [|congruence].
      exists nd. simpl. rewrite lookup_insert_eq. eexists. split_and!; [done..|].
      intros b. rewrite (wf_file f Hwf n nd Hnd Hd). by rewrite lookup_empty.
Qed.

(** ** The finished copy *)

(** [K] maps the nodes that can be reached to their copies. *)
Record copied (K : copies) (g : FS) : Prop := {
  cp_root : K !! fs_root f = Some (fs_root g);
  cp_node n c : K !! n = Some c → ∃ nd cd, fs_heap f !! n = Some nd ∧ fs_heap g !! c = Some cd ∧
    same_node nd cd ∧ (isDir nd = true → same_parent K nd cd) ∧ same_entries K nd cd;
  cp_inj n n' c : K !! n = Some c → K !! n' = Some c → n = n';
  cp_surj c cd : fs_heap g !! c = Some cd → ∃ n, K !! n = Some c;
  cp_fresh p : (fs_next g ≤ p)%nat → fs_heap g !! p = None;
}.

Lemma Clone_copied : ∃ K g, Clone order extra (S (size (fs_heap f))) f = Some g ∧ copied K g.
Proof.
  destruct (wf_root f Hwf) as (rd & Hrd & Hrdir & Hrpar).
  destruct (clone_spec (S (size (fs_heap f))) (fs_root f) rd None ∅ (mkFS ∅ 0 0)) as (r & K & g & Hcl & Hi & Hr & Hex).
  - split; simpl; try done.
  - done.
  - by intros _ ?.
  - rewrite map_size_empty. lia.
  - unfold Clone. rewrite Hcl. eexists K, _. split; [done|].
    destruct (ci_node _ _ Hi _ _ Hr) as (rd' & rc & Hrd' & Hrc & Hrsame & _). simplify_eq.
    set (g1 := g <| fs_root := r |>).
    assert (∀ p, fs_heap (fs_update r (λ x, x <| n_parent := Some r |>) g1) !! p =
      if decide (r = p) then (λ x, x <| n_parent := Some r |>) <$> fs_heap g !! p else fs_heap g !! p) as L
      by (intros p; by rewrite lookup_update).
    split.
    + exact Hr.
    + intros n c Hc. destruct (ci_node _ _ Hi _ _ Hc) as (nd & cd & Hnd & Hcd & Hsame & Hpar).
      destruct (ex_done _ _ _ _ _ Hex n c (lookup_empty n) Hc) as (nd' & cd' & Hnd' & Hcd' & He).
      assert (nd' = nd) as -> by congruence. assert (cd' = cd) as -> by congruence.
      exists nd. rewrite L. case_decide as Hrc'.
      * subst c. assert (n = fs_root f) as -> by by apply (ci_inj _ _ Hi n (fs_root f) r).
        rewrite Hcd. eexists. simplify_eq. split_and!; [done|done| | |exact He].
        -- destruct Hsame as (? & ? & ? & ? & ?). split_and!; try done. intros Hx. congruence.
        -- intros _. exists (fs_root f), r. by split_and!.
      * exists cd. split_and!; try done. intros Hd. apply Hpar; [done|]. intros ->. congruence.
    + apply (ci_inj _ _ Hi).
    + intros c cd. rewrite L. case_decide as E; [subst; intros _; by exists (fs_root f)|]. apply (ci_surj _ _ Hi).
    + intros p Hp. rewrite L. simpl in Hp. rewrite (ci_fresh _ _ Hi p Hp). by case_decide.
Qed.

Section finished.
Context (K : copies) (g : FS) (Hc : copied K g).

(** Every node of the copy, with its original. *)
Lemma copied_node c cd : fs_heap g !! c = Some cd → ∃ n nd, K !! n = Some c ∧ fs_heap f !! n = Some nd ∧
  same_node nd cd ∧ (isDir nd = true → same_parent K nd cd) ∧ same_entries K nd cd.
Proof.
  intros Hcd. destruct (cp_surj _ _ Hc c cd Hcd) as [n Hn].
  destruct (cp_node _ _ Hc n c Hn) as (nd & cd' & Hnd & Hcd' & ?). simplify_eq. by exists n, nd.
Qed.

Lemma copied_entry nd cd b y : same_entries K nd cd → n_entries cd !! b = Some y →
  ∃ x, n_entries nd !! b = Some x ∧ K !! x = Some y.
Proof.
  intros He Hb. specialize (He b). destruct (n_entries nd !! b) as [x|]; [|congruence].
  destruct He as (y' & ? & ?). simplify_eq. by exists x.
Qed.

Lemma copied_rooted n c : rooted f n → K !! n = Some c → rooted g c.
Proof.
  intros Hr. revert c. induction Hr as [|d dn q Hd Hdd Hq _ IH]; intros c Hn.
  - rewrite (cp_root _ _ Hc) in Hn. simplify_eq. constructor.
  - destruct (cp_node _ _ Hc d c Hn) as (nd & cd & Hnd & Hcd & Hsame & Hpar & _). simplify_eq.
    destruct (Hpar Hdd) as (q' & pc & Hq' & Hpc & Hcp). simplify_eq.
    apply (rooted_up g c cd pc); [done| |done|by apply IH]. by rewrite (isDir_same _ _ Hsame).
Qed.

Lemma copied_wf : fs_wf g.
Proof.
  destruct (wf_root f Hwf) as (rd & Hrd & Hrdir & Hrpar). split.
  - destruct (cp_node _ _ Hc _ _ (cp_root _ _ Hc)) as (nd & cd & Hnd & Hcd & Hsame & Hpar & _). simplify_eq.
    destruct (Hpar Hrdir) as (d & pc & Hd & Hpc & Hcp). rewrite Hrpar in Hd. simplify_eq.
    rewrite (cp_root _ _ Hc) in Hpc. simplify_eq. exists cd. split_and!; [done|by rewrite (isDir_same _ _ Hsame)|done].
  - apply (cp_fresh _ _ Hc).
  - intros c cd b y (n & nd & Hn & Hnd & _ & _ & He)%copied_node Hb.
    destruct (copied_entry _ _ _ _ He Hb) as (x & _ & Hx).
    destruct (cp_node _ _ Hc x y Hx) as (_ & yd & _ & Hyd & _). by exists yd.
  - intros c cd (n & nd & Hn & Hnd & Hsame & _)%copied_node Hd. rewrite (isDir_same _ _ Hsame) in Hd.
    by apply Hsame.
  - intros c cd (n & nd & Hn & Hnd & Hsame & Hpar & _)%copied_node Hd. rewrite (isDir_same _ _ Hsame) in Hd.
    destruct (Hpar Hd) as (d & pc & Hdp & Hpc & Hcp). exists pc.
    destruct (cp_node _ _ Hc d pc Hpc) as (dn & pd & Hdn & Hpd & Hs2 & _). exists pd. split_and!; [done..|].
    rewrite (isDir_same _ _ Hs2). destruct (wf_dir f Hwf n nd Hnd Hd) as (q & qn & ? & ? & ?). congruence.
  - intros c cd (n & nd & Hn & Hnd & Hsame & _)%copied_node Hd. rewrite (isDir_same _ _ Hsame) in Hd.
    apply (copied_rooted n); [by apply (wf_rooted f Hwf n nd)|done].
  - intros c cd b y (n & nd & Hn & Hnd & _ & _ & He)%copied_node Hb.
    destruct (copied_entry _ _ _ _ He Hb) as (x & Hx & _). by apply (wf_name f Hwf n nd b x).
  - intros c cd b y yd (n & nd & Hn & Hnd & _ & _ & He)%copied_node Hb Hyd Hd.
    destruct (copied_entry _ _ _ _ He Hb) as (x & Hbx & Hx).
    destruct (cp_node _ _ Hc x y Hx) as (xd & yd' & Hxd & Hyd' & Hsame & Hpar & _). simplify_eq.
    rewrite (isDir_same _ _ Hsame) in Hd. destruct (wf_up f Hwf n nd b x xd Hnd Hbx Hxd Hd) as [Hup Hne].
    destruct (Hpar Hd) as (d & pc & ? & ? & ?). split; [congruence|]. intros ->. apply Hne.
    by apply (cp_inj _ _ Hc x (fs_root f) (fs_root g)), (cp_root _ _ Hc).
  - intros c cd b b' y yd (n & nd & Hn & Hnd & _ & _ & He)%copied_node Hb Hb' Hyd Hd.
    destruct (copied_entry _ _ _ _ He Hb) as (x & Hbx & Hx).
    destruct (copied_entry _ _ _ _ He Hb') as (x' & Hbx' & Hx').
    assert (x' = x) as -> by by apply (cp_inj _ _ Hc x' x y).
    destruct (cp_node _ _ Hc x y Hx) as (xd & yd' & Hxd & Hyd' & Hsame & _). simplify_eq.
    rewrite (isDir_same _ _ Hsame) in Hd. by apply (wf_one f Hwf n nd b b' x xd).
Qed.

Lemma copied_ok : fs_ok g ∧ orphan_files g.
Proof.
  split; [split; [apply copied_wf|]|].
  - intros c cd (n & nd & Hn & Hnd & Hsame & _)%copied_node. apply Hsame.
  - intros c cd (n & nd & Hn & Hnd & Hsame & _)%copied_node Hd. rewrite (isDir_same _ _ Hsame) in Hd.
    by apply Hsame.
Qed.

(** ** Names mean the same in both *)
Definition res_rel {A B} (R : A → B → Prop) (r : result A) (r' : result B) : Prop :=
  match r, r' with
  | Ok a, Ok b => R a b
  | Err e, Err e' => e = e'
  | Panic, Panic => True
  | _, _ => False
  end.

Definition cur_rel (x y : option nat) : Prop :=
  match x, y with Some n, Some c => K !! n = Some c | None, None => True | _, _ => False end.

Lemma walk_copied parts cur cur' : orphan_files f → cur_rel cur cur' →
  res_rel cur_rel (walk f cur parts) (walk g cur' parts).
Proof.
  intros Ho. revert cur cur'. induction parts as [|p parts IH]; intros cur cur' Hcur; [done|].
  cbn [walk]. case_decide; [by apply IH|].
  assert (cur = Some (fs_root f) ↔ cur' = Some (fs_root g)) as Hroot.
  { pose proof (cp_root _ _ Hc) as Hr. destruct cur as [n|], cur' as [c|]; try done. simpl in Hcur.
    split; intros [= ->]; [congruence|]. f_equal. by apply (cp_inj _ _ Hc n _ (fs_root g)). }
  destruct cur as [n|], cur' as [c|]; try done; simpl in Hcur; cbn [mbind option_bind].
  - destruct (cp_node _ _ Hc n c Hcur) as (nd & cd & Hnd & Hcd & Hsame & Hpar & He). rewrite Hnd, Hcd.
    rewrite (isDir_same _ _ Hsame). case_decide as Hdd.
    + destruct (decide (Some n = Some (fs_root f))) as [E|E], (decide (Some c = Some (fs_root g))) as [E'|E'];
        [done|naive_solver..|]. apply IH. destruct (isDir nd) eqn:Hd.
      * destruct (Hpar eq_refl) as (d & pc & -> & ? & ->). done.
      * rewrite (Ho n nd Hnd Hd). destruct Hsame as (_ & _ & _ & _ & Hfile). by rewrite (proj2 (Hfile Hd)).
    + destruct (isDir nd); simpl; [|done]. specialize (He p). destruct (n_entries nd !! p) as [x|].
      * destruct He as (y & Hy & ->). by apply IH.
      * by rewrite He.
  - case_decide; [|done]. by rewrite !decide_False by done.
Qed.

Lemma resolve_copied name : orphan_files f →
  res_rel (λ n c, K !! n = Some c) (resolve f (fs_root f) name) (resolve g (fs_root g) name).
Proof.
  intros Ho. unfold resolve. destruct (IsAbs name); [done|].
  pose proof (walk_copied (split_slash name) (Some (fs_root f)) (Some (fs_root g)) Ho (cp_root _ _ Hc)) as Hw.
  destruct (walk f _ _) as [[n|]| |], (walk g _ _) as [[c|]| |]; simpl in *; try done.
  destruct (cp_node _ _ Hc n c Hw) as (nd & cd & Hnd & Hcd & Hsame & _). rewrite Hnd, Hcd.
  rewrite (isDir_same _ _ Hsame). by case_match.
Qed.
End finished.
End copy.

(** ** Opening *)
Lemma walk_no_dotdot f parts c n :
  fs_wf f → Forall (λ p, p ≠ "..") parts → fs_heap f !! c = Some n →
  match walk f (Some c) parts with
  | Ok (Some c') => is_Some (fs_heap f !! c')
  | Ok None | Panic => False
  | Err _ => True
  end.
Proof.
  intros Hwf. revert c n. induction parts as [|p parts IH]; intros c n Hp Hn; [by exists n|].
  apply Forall_cons in Hp as [Hpp Hp]. cbn [walk]. case_decide; [by apply (IH c n)|].
  rewrite decide_False by done. cbn [mbind option_bind]. rewrite Hn.
  destruct (isDir n); simpl; [|done]. destruct (n_entries n !! p) as [x|] eqn:Hx; [|done].
  destruct (wf_child f Hwf c n p x Hn Hx) as [xn Hxn]. by apply (IH x xn).
Qed.

Lemma ValidPath_parts name : ValidPath name = true → Forall (λ p, p ≠ "..") (split_slash name).
Proof.
  unfold ValidPath. intros [_ [->%bool_decide_eq_true|Hall]%orb_prop]%andb_prop.
  - by repeat constructor.
  - rewrite forallb_forall in Hall. apply Forall_forall. intros p Hp%list_elem_of_In.
    specialize (Hall p Hp). apply negb_true_iff, bool_decide_eq_false in Hall. naive_solver.
Qed.

Lemma resolve_valid f name : fs_wf f → ValidPath name = true → resolve f (fs_root f) name ≠ Panic.
Proof.
  intros Hwf Hv. unfold resolve. destruct (IsAbs name); [done|].
  destruct (wf_root f Hwf) as (rd & Hrd & _).
  pose proof (walk_no_dotdot f _ (fs_root f) rd Hwf (ValidPath_parts name Hv) Hrd) as Hw.
  destruct (walk f _ _) as [[c|]| |]; simpl; try done. destruct Hw as [n ->]. by case_match.
Qed.

(** * Properties *)
Lemma reachable_fs maxAlloc now f : reachable (λ f, f = fs_New now) (fs_step maxAlloc) f → fs_ok f ∧ orphan_files f.
Proof.
  apply (reachable_inv _ _ (λ f, fs_ok f ∧ orphan_files f)).
  - intros f0 ->. split; [apply fs_New_ok|apply orphan_New].
  - intros f0 f1 _ [Hok Ho] Hstep. split; [by apply (fs_step_ok maxAlloc f0)|by apply (orphan_step maxAlloc f0)].
Qed.

(** C30. Cloning a filesystem always succeeds and yields the same tree: the copy is
    well formed, every name leads in it to a node with the mode, time, bytes and
    entries of the one it leads to in the original, or fails in the same way,
    and two names lead to one node in the copy exactly when they do in the
    original, so hard links are preserved. *)
Theorem clone_same_tree order extra maxAlloc now (f : FS) :
  (∀ m, order m ≡ₚ map_to_list m) → reachable (λ f, f = fs_New now) (fs_step maxAlloc) f →
  ∃ g, Clone order extra (S (size (fs_heap f))) f = Some g ∧ fs_wf g ∧ slices_ok g ∧
    (∀ name, res_rel (λ p q, ∃ nd cd, fs_heap f !! p = Some nd ∧ fs_heap g !! q = Some cd ∧
         n_mode cd = n_mode nd ∧ n_modTime cd = n_modTime nd ∧
         d_bytes (n_data cd) = d_bytes (n_data nd) ∧ dom (n_entries cd) = dom (n_entries nd))
       (resolve f (fs_root f) name) (resolve g (fs_root g) name)) ∧
    ∀ name name' p p' q q',
      resolve f (fs_root f) name = Ok p → resolve f (fs_root f) name' = Ok p' →
      resolve g (fs_root g) name = Ok q → resolve g (fs_root g) name' = Ok q' → p = p' ↔ q = q'.
Proof.
  intros Hord [[Hwf Hs] Ho]%reachable_fs.
  destruct (Clone_copied order extra Hord f Hwf Hs) as (K & g & Hcl & Hc).
  destruct (copied_ok f Hwf K g Hc) as [[Hwf' Hs'] _].
  exists g. split_and!; [done..| |].
  - intros name. pose proof (resolve_copied f K g Hc name Ho) as Hr.
    destruct (resolve f _ _) as [n| |], (resolve g _ _) as [c| |]; simpl in *; try done.
    destruct (cp_node _ _ _ Hc n c Hr) as (nd & cd & Hnd & Hcd & (Hm & Ht & _ & Hb & _) & _ & He).
    exists nd, cd. split_and!; try done. apply set_eq. intros b. rewrite !elem_of_dom. specialize (He b).
    destruct (n_entries nd !! b); [|by rewrite He]. destruct He as (y & _ & ->). split; by eexists.
  - intros name name' p p' q q' Hp Hp' Hq Hq'.
    pose proof (resolve_copied f K g Hc name Ho) as Hr. pose proof (resolve_copied f K g Hc name' Ho) as Hr'.
    rewrite Hp, Hq in Hr. rewrite Hp', Hq' in Hr'. simpl in *.
    split; [intros ->; congruence|]. intros ->. by apply (cp_inj _ _ _ Hc p p' q').
Qed.

(** [demo_fs] with a second link to its file. *)
Definition demo_links : FS := (LinkAt (root_file demo_fs) "base/1/2619" (Some (root_file demo_fs)) "base/2619" 5 demo_fs).2.

Lemma demo_links_reachable maxAlloc : reachable (λ f, f = fs_New 1) (fs_step maxAlloc) demo_links.
Proof.
  destruct (demo_fs_reachable maxAlloc) as (f0 & H0 & Hs). exists f0. split; [done|].
  eapply rtc_r; [exact Hs|].
  apply (st_link maxAlloc (root_file demo_fs) "base/1/2619" (Some (root_file demo_fs)) "base/2619" 5 demo_fs).
Qed.

Lemma clone_same_tree_witness :
  ∃ g, Clone map_to_list (λ _, 3) (S (size (fs_heap demo_links))) demo_links = Some g ∧ fs_wf g ∧
    resolve g (fs_root g) "base/1/2619" = resolve g (fs_root g) "base/2619".
Proof.
  destruct (clone_same_tree map_to_list (λ _, 3) 0 1 demo_links) as (g & Hg & Hwf & _);
    [done|apply demo_links_reachable|].
  exists g. split; [exact Hg|]. split; [exact Hwf|].
  assert (Some g = Clone map_to_list (λ _, 3) (S (size (fs_heap demo_links))) demo_links) as E by (symmetry; exact Hg).
  vm_compute in E. injection E as ->. vm_compute. reflexivity.
Defined.

(** Opening a valid path never panics, whatever files and directories there
    are: what [..] after a regular file does to the other operations cannot
    happen, and an invalid path is refused. *)
Theorem open_never_panics fsid name now (f : FS) :
  fs_wf f → (Open fsid name now f).1 ≠ Panic ∧
    (ValidPath name = false → Open fsid name now f = (Err F_EINVAL, f)) ∧ (Open fsid name now f).2 = f.
Proof.
  intros Hwf. unfold Open. destruct (ValidPath name) eqn:Hv; simpl; [|by split_and!].
  split_and!; [|done|]; unfold OpenAt, open_node; simpl.
  - pose proof (resolve_valid f name Hwf Hv) as Hr.
    destruct (resolve f (fs_root f) name) as [p| |] eqn:E; simpl; [|done..].
    destruct (resolve_Ok f _ _ _ E) as [nd ->]. by destruct (isDir nd).
  - destruct (resolve f (fs_root f) name) as [p| |]; simpl; [|done..].
    destruct (fs_heap f !! p) as [nd|]; [|done]. by destruct (isDir nd).
Qed.

Lemma open_never_panics_witness :
  (Open 0 "base/1/2619" 9 demo_fs).1 ≠ Panic ∧ (Open 0 "base/../x" 9 demo_fs).1 = Err F_EINVAL.
Proof.
  split; [|vm_compute; reflexivity]. apply (open_never_panics 0 "base/1/2619" 9 demo_fs).
  apply (reachable_fs 0 1 demo_fs (demo_fs_reachable 0)).
Defined.
