(* ===== verification/Tar.v ===== *)
(** [AddTar] and [mkdirAll] of the in-memory filesystem
    ([src/internal/memfs/memfs.go]).

    An archive is what [archive/tar]'s reader delivers: the headers, with the
    pieces a member's contents are read in and whether reading them ends
    without an error, and whether the archive itself does.  [now] is the time
    of the whole call. *)
From S2P Require Import Prelude Paths MemFS Clone.
From Stdlib Require Import Ascii.

Definition TypeReg : Z := 48.
Definition TypeDir : Z := 53.

Record Header := mkHeader { h_Name : string; h_Typeflag : Z; h_Mode : Z; h_ModTime : Z }.
Record member := mkMember { m_header : Header; m_reads : list bytes; m_read_ok : bool }.

Inductive tar_err := TE (e : fserr) | TE_read | TE_short | TE_type (name : string).
Inductive tar_result := TOk | TErr (e : tar_err) | TPanic.

Definition tar_of {A} (r : result A) : tar_result :=
  match r with Ok _ => TOk | Err e => TErr (TE e) | Panic => TPanic end.

(** [path.Dir]: all but the last component, cleaned. *)
Definition path_Dir (name : string) : string :=
  match rev (split_slash name) with
  | _ :: ((_ :: _) as rdir) => Clean (join_slash (rev rdir) +:+ "/")
  | _ => "."
  end.

(** [errors.Is(err, fs.ErrExist)] for an errno. *)
Definition is_exist (e : fserr) : bool := bool_decide (e = F_EEXIST ∨ e = F_ENOTEMPTY).

Definition tar_root (f : FS) : File := mkFile 0 (fs_root f) "." 0 0 0.

(** The loop of [mkdirAll], from [cur] on. *)
Fixpoint mkdirs (parts : list string) (cur : string) (perm now : Z) (f : FS) : result unit * FS :=
  match parts with
  | [] => (Ok tt, f)
  | p :: parts =>
      let cur := Join [cur; p] in
      match MkdirAt (tar_root f) cur perm now f with
      | (Ok _, f) => mkdirs parts cur perm now f
      | (Err e, f) => if is_exist e then mkdirs parts cur perm now f else (Err e, f)
      | (Panic, f) => (Panic, f)
      end
  end.
Definition mkdirAll (name : string) (perm now : Z) (f : FS) : result unit * FS :=
  mkdirs (split_slash name) "" perm now f.

(** [io.Copy(file, tr)]: one write per piece read. *)
Fixpoint copy_reads (maxAlloc : Z) (fl : File) (reads : list bytes) (read_ok : bool) (now : Z) (f : FS)
    : tar_result * FS :=
  match reads with
  | [] => (if read_ok then TOk else TErr TE_read, f)
  | b :: reads =>
      if zlen b =? 0 then copy_reads maxAlloc fl reads read_ok now f
      else
        match Write maxAlloc fl b now f with
        | (Ok n, fl, f) =>
            if n =? zlen b then copy_reads maxAlloc fl reads read_ok now f else (TErr TE_short, f)
        | (Err e, _, f) => (TErr (TE e), f)
        | (Panic, _, f) => (TPanic, f)
        end
  end.

Definition member_name (h : Header) : string := TrimSlash (Clean (TrimPrefix (h_Name h) "./")).
Definition skipped (h : Header) : bool := bool_decide (member_name h = "." ∨ member_name h = "").

Definition create_flags : Z := Z.lor fs_O_CREAT (Z.lor fs_O_TRUNC fs_O_WRONLY).

(** The file of a regular member, once the directories above it exist. *)
Definition add_regular (maxAlloc : Z) (m : member) (now : Z) (f : FS) : tar_result * FS :=
  let h := m_header m in
  match OpenAt (tar_root f) (member_name h) create_flags (u32 (h_Mode h)) now f with
  | (Ok file, f) =>
      match copy_reads maxAlloc file (m_reads m) (m_read_ok m) now f with
      | (TOk, f) => (TOk, touch (f_node file) (h_ModTime h) f)
      | x => x
      end
  | (Err e, f) => (TErr (TE e), f)
  | (Panic, f) => (TPanic, f)
  end.

(** One turn of the loop of [AddTar]. *)
Definition add_member (maxAlloc : Z) (m : member) (now : Z) (f : FS) : tar_result * FS :=
  let h := m_header m in
  let name := member_name h in
  if skipped h then (TOk, f)
  else if h_Typeflag h =? TypeDir then
    let '(r, f) := mkdirAll name (u32 (h_Mode h)) now f in (tar_of r, f)
  else if h_Typeflag h =? TypeReg then
    match (if decide (path_Dir name = ".") then (Ok tt, f) else mkdirAll (path_Dir name) 448 now f) with
    | (Ok _, f) => add_regular maxAlloc m now f
    | (r, f) => (tar_of r, f)
    end
  else (TErr (TE_type (h_Name h)), f).

Fixpoint AddTar (maxAlloc : Z) (ms : list member) (eof : bool) (now : Z) (f : FS) : tar_result * FS :=
  match ms with
  | [] => (if eof then TOk else TErr TE_read, f)
  | m :: ms =>
      match add_member maxAlloc m now f with
      | (TOk, f) => AddTar maxAlloc ms eof now f
      | x => x
      end
  end.

(** * Everything is a sequence of file operations *)
Section steps.
Context (maxAlloc : Z).

Lemma mkdirs_steps parts cur perm now f : rtc (fs_step maxAlloc) f (mkdirs parts cur perm now f).2.
Proof.
  revert cur f. induction parts as [|p parts IH]; intros cur f; [apply rtc_refl|]. cbn [mkdirs]. cbv zeta.
  pose proof (st_mkdir maxAlloc (tar_root f) (Join [cur; p]) perm now f) as Hst.
  destruct (MkdirAt _ _ _ _ _) as [[u|e|] f1]; cbn [snd] in Hst; try by apply rtc_once.
  - by eapply rtc_l.
  - destruct (is_exist e); [by eapply rtc_l|by apply rtc_once].
Qed.

Lemma copy_steps fl reads ok now f : rtc (fs_step maxAlloc) f (copy_reads maxAlloc fl reads ok now f).2.
Proof.
  revert fl f. induction reads as [|b reads IH]; intros fl f; [apply rtc_refl|]. cbn [copy_reads].
  destruct (zlen b =? 0); [apply IH|].
  pose proof (st_append maxAlloc fl b now f) as Hst.
  destruct (Write _ _ _ _ _) as [[[n|e|] fl1] f1]; cbn [snd] in Hst; try by apply rtc_once.
  destruct (n =? zlen b); [by eapply rtc_l|by apply rtc_once].
Qed.

Lemma add_member_steps m now f : rtc (fs_step maxAlloc) f (add_member maxAlloc m now f).2.
Proof.
  unfold add_member. cbv zeta. destruct (skipped _); [apply rtc_refl|]. destruct (_ =? TypeDir).
  { pose proof (mkdirs_steps (split_slash (member_name (m_header m))) "" (u32 (h_Mode (m_header m))) now f) as Hs.
    unfold mkdirAll. by destruct (mkdirs _ _ _ _ _). }
  destruct (_ =? TypeReg); [|apply rtc_refl].
  match goal with |- context [match ?x with (_, _) => _ end] =>
    assert (rtc (fs_step maxAlloc) f x.2) as Hd
      by (case_decide; [apply rtc_refl|apply mkdirs_steps]); destruct x as [[u|e|] f1] end;
    cbn [snd] in *; try done.
  etrans; [exact Hd|]. unfold add_regular. cbv zeta.
  pose proof (st_open maxAlloc (tar_root f1) (member_name (m_header m)) create_flags (u32 (h_Mode (m_header m))) now f1) as Ho.
  destruct (OpenAt _ _ _ _ _ _) as [[fl|e|] f2]; cbn [snd] in Ho; try by apply rtc_once.
  eapply rtc_l; [exact Ho|].
  pose proof (copy_steps fl (m_reads m) (m_read_ok m) now f2) as Hc.
  destruct (copy_reads _ _ _ _ _ _) as [[] f3]; cbn [snd] in *; try done.
  eapply rtc_r; [exact Hc|]. apply (st_chtimes maxAlloc fl).
Qed.

Lemma AddTar_steps ms eof now f : rtc (fs_step maxAlloc) f (AddTar maxAlloc ms eof now f).2.
Proof.
  revert f. induction ms as [|m ms IH]; intros f; [apply rtc_refl|]. cbn [AddTar].
  pose proof (add_member_steps m now f) as Hm. destruct (add_member _ _ _ _) as [[] f1]; [|done..].
  etrans; [exact Hm|apply IH].
Qed.

Lemma fs_ok_steps f f' : fs_ok f → rtc (fs_step maxAlloc) f f' → fs_ok f'.
Proof. intros Hok Hs. induction Hs as [|f f1 f' Hst _ IH]; [done|]. apply IH. by apply (fs_step_ok maxAlloc f). Qed.
End steps.

(** * Growing trees

    No node but the root has two names.  [frame x f f']: [f'] has all the
    entries of [f], and its files apart from [x] are as they were. *)
Definition strict (f : FS) : Prop :=
  ∀ d b d' b' p, entry f d b = Some p → entry f d' b' = Some p → d = d' ∧ b = b'.

Record frame (x : option nat) (f f' : FS) : Prop := {
  fr_root : fs_root f' = fs_root f;
  fr_entry d b p : entry f d b = Some p → entry f' d b = Some p;
  fr_node p n : fs_heap f !! p = Some n → ∃ n', fs_heap f' !! p = Some n' ∧ isDir n' = isDir n ∧
    (isDir n = false → x ≠ Some p → n_data n' = n_data n ∧ n_modTime n' = n_modTime n);
}.

Lemma frame_refl x f : frame x f f.
Proof. split; [done|done|]. intros p n Hn. exists n. by split_and!. Qed.

Lemma frame_trans x f1 f2 f3 : frame x f1 f2 → frame x f2 f3 → frame x f1 f3.
Proof.
  intros [R1 E1 N1] [R2 E2 N2]. split; [congruence|auto|].
  intros p n Hn. destruct (N1 p n Hn) as (n2 & Hn2 & D2 & K2). destruct (N2 p n2 Hn2) as (n3 & Hn3 & D3 & K3).
  exists n3. split_and!; [done|congruence|]. intros Hd Hx.
  destruct (K2 Hd Hx). destruct K3; [congruence..|]. split; congruence.
Qed.

Lemma frame_weaken x f f' : frame None f f' → frame x f f'.
Proof.
  intros [R E N]. split; [done|done|]. intros p n Hn. destruct (N p n Hn) as (n' & ? & ? & Hk).
  exists n'. split_and!; [done..|]. intros Hd _. by apply Hk.
Qed.

(** An update that keeps entries and kind. *)
Lemma update_frame x f p g :
  (∀ n, isDir (g n) = isDir n ∧ n_entries (g n) = n_entries n) →
  (x = Some p ∨ ∀ n, fs_heap f !! p = Some n → isDir n = true) → frame x f (fs_update p g f).
Proof.
  intros Hg Hx. split; [done|..].
  - intros d b q. by rewrite entry_update_same by (intros n; apply Hg).
  - intros q n Hn. rewrite lookup_update, Hn. case_decide as E; [|by exists n].
    subst q. exists (g n). split_and!; [done|by destruct (Hg n)|]. intros Hd Hne.
    destruct Hx as [->|Hx]; [done|]. rewrite (Hx n Hn) in Hd. done.
Qed.

Lemma strict_update f p g : (∀ n, n_entries (g n) = n_entries n) → strict f → strict (fs_update p g f).
Proof. intros Hg Hs d b d' b' q. rewrite !entry_update_same by done. apply Hs. Qed.

(** Entering a new node. *)
Lemma entry_old f d b p : fs_ok f → entry f d b = Some p → (p < fs_next f)%nat ∧ (d < fs_next f)%nat.
Proof.
  intros [Hwf _]. unfold entry. intros (n & Hn & Hb)%bind_Some.
  destruct (wf_child f Hwf d n b p Hn Hb) as [pn Hp]. pose proof (wf_fresh f Hwf) as Hf.
  split; destruct (decide (p < fs_next f ∧ d < fs_next f)%nat) as [[]|Hge]; try done.
  - destruct (decide (p < fs_next f)%nat); [done|]. by rewrite Hf in Hp by lia.
  - destruct (decide (d < fs_next f)%nat); [done|]. by rewrite Hf in Hn by lia.
Qed.

Lemma new_entry f nn dir base d b dn :
  n_entries nn = ∅ → fs_heap f !! dir = Some dn → dir ≠ fs_next f →
  entry (set_entry dir base (fs_next f) (fs_new_node nn f).2) d b =
    if decide (d = dir ∧ b = base) then Some (fs_next f)
    else if decide (d = fs_next f) then None else entry f d b.
Proof.
  intros Hnn Hdn Hne. unfold set_entry. rewrite entry_update. unfold entry. simpl.
  destruct (decide (dir = d)) as [<-|Hd].
  - rewrite lookup_insert_ne, Hdn by congruence. simpl. rewrite (decide_False (P := dir = fs_next f)) by done.
    destruct (decide (b = base)) as [->|Hb].
    + rewrite decide_True by done. apply lookup_insert_eq.
    + rewrite lookup_insert_ne by done. rewrite decide_False by (by intros [_ ?]). done.
  - rewrite (decide_False (P := d = dir ∧ _)) by (by intros [-> _]).
    destruct (decide (d = fs_next f)) as [->|Hd'].
    + rewrite lookup_insert_eq. simpl. by rewrite Hnn.
    + by rewrite lookup_insert_ne.
Qed.

Lemma enter_new f nn dir base dn :
  fs_ok f → n_entries nn = ∅ → fs_heap f !! dir = Some dn → isDir dn = true → entry f dir base = None →
  let f1 := set_entry dir base (fs_next f) (fs_new_node nn f).2 in
  frame None f f1 ∧ (strict f → strict f1) ∧ entry f1 dir base = Some (fs_next f) ∧
  fs_heap f1 !! fs_next f = Some nn ∧ (∃ dn1, fs_heap f1 !! dir = Some dn1 ∧ isDir dn1 = true).
Proof.
  intros Hok Hnn Hdn Hdd Hno f1.
  assert (dir ≠ fs_next f) as Hne.
  { intros ->. rewrite (wf_fresh f (proj1 Hok)) in Hdn by lia. done. }
  assert (∀ d b, entry f1 d b = if decide (d = dir ∧ b = base) then Some (fs_next f)
    else if decide (d = fs_next f) then None else entry f d b) as E by (intros; by apply (new_entry f nn _ _ _ _ dn)).
  split_and!.
  - split; [done|..].
    + intros d b p Hp. rewrite E. destruct (entry_old f d b p Hok Hp) as [Hlt Hlt'].
      rewrite decide_False by (intros [-> ->]; congruence). by rewrite decide_False by lia.
    + intros p n Hn. assert (p ≠ fs_next f) as Hp.
      { intros ->. by rewrite (wf_fresh f (proj1 Hok)) in Hn. }
      unfold f1, set_entry. rewrite lookup_update. simpl. rewrite lookup_insert_ne, Hn by done.
      case_decide as Ed; [|by exists n]. eexists. split; [done|]. by split_and!.
  - intros Hs d b d' b' p. rewrite !E.
    destruct (decide (d = dir ∧ b = base)) as [[-> ->]|H1], (decide (d' = dir ∧ b' = base)) as [[-> ->]|H2];
      repeat case_decide; try done.
    + intros [= <-] Hp. destruct (entry_old f d' b' _ Hok Hp). lia.
    + intros Hp [= <-]. destruct (entry_old f d b _ Hok Hp). lia.
    + apply Hs.
  - by rewrite E, decide_True.
  - unfold f1, set_entry. rewrite lookup_update, decide_False by done. apply lookup_insert_eq.
  - unfold f1, set_entry. rewrite lookup_update, decide_True by done. simpl.
    rewrite lookup_insert_ne, Hdn by done. eexists. split; [done|]. done.
Qed.

(** ** [MkdirAt] and [mkdirAll] *)
Lemma MkdirAt_frame name perm now f :
  fs_ok f → let f' := (MkdirAt (tar_root f) name perm now f).2 in
  frame None f f' ∧ (strict f → strict f').
Proof.
  intros Hok. unfold MkdirAt, at_parent. destruct (resolve_parent _ _ _) as [[dir base]| |] eqn:Hr;
    [|by split; [apply frame_refl|]..].
  apply resolve_parent_Ok in Hr as (Hb & dn & Hdn & Hdd). rewrite Hdn.
  destruct (n_entries dn !! base) as [q|] eqn:Hno; [by split; [apply frame_refl|]|].
  unfold newDir. cbn [fs_new_node fst snd]. cbv zeta.
  set (nn := Node _ _ _ _ _). set (g := λ n, n <| n_mode := _ |>).
  assert (fs_update (fs_next f) g (f <| fs_heap ::= <[fs_next f := nn]> |> <| fs_next ::= S |>) =
    (fs_new_node (g nn) f).2) as ->.
  { unfold fs_update, fs_new_node. simpl. f_equal. by rewrite alter_insert_eq. }
  destruct (enter_new f (g nn) dir base dn Hok eq_refl Hdn Hdd) as (Hfr & Hst & _ & _ & dn1 & Hdn1 & Hdd1).
  { unfold entry. by rewrite Hdn. }
  split; [|intros; apply strict_update; [done|by apply Hst]].
  eapply frame_trans; [exact Hfr|]. apply update_frame; [done|]. right. intros n Hn. congruence.
Qed.

Lemma mkdirs_frame parts cur perm now f :
  fs_ok f → let f' := (mkdirs parts cur perm now f).2 in frame None f f' ∧ (strict f → strict f').
Proof.
  revert cur f. induction parts as [|p parts IH]; intros cur f Hok; [by split; [apply frame_refl|]|].
  cbn [mkdirs]. cbv zeta.
  pose proof (MkdirAt_frame (Join [cur; p]) perm now f Hok) as [Hfr Hst].
  pose proof (fs_step_ok 0 _ _ Hok (st_mkdir 0 (tar_root f) (Join [cur; p]) perm now f)) as Hok1.
  destruct (MkdirAt _ _ _ _ _) as [[u|e|] f1]; cbn [snd] in *; try done; [|destruct (is_exist e); [|done]].
  - destruct (IH (Join [cur; p]) f1 Hok1) as [Hfr' Hst'].
    split; [by eapply frame_trans|]. intros. by apply Hst', Hst.
  - destruct (IH (Join [cur; p]) f1 Hok1) as [Hfr' Hst'].
    split; [by eapply frame_trans|]. intros. by apply Hst', Hst.
Qed.

(** ** Creating a file *)
Lemma create_frame name perm now f fl f' :
  fs_ok f → OpenAt (tar_root f) name create_flags perm now f = (Ok fl, f') →
  ∃ dir base, resolve_parent f (fs_root f) name = Ok (dir, base) ∧
    entry f' dir base = Some (f_node fl) ∧ file_at f' (f_node fl) [] ∧
    writable fl = true ∧ has (f_flag fl) fs_O_APPEND = false ∧ f_offset fl = 0 ∧
    frame (Some (f_node fl)) f f' ∧ (strict f → strict f').
Proof.
  intros Hok. unfold OpenAt, open_node. change (has create_flags fs_O_CREAT) with true. cbv iota.
  change (f_node (tar_root f)) with (fs_root f).
  destruct (resolve_parent f (fs_root f) name) as [[dir base]| |] eqn:Hr; [|done..].
  pose proof Hr as Hr'. apply resolve_parent_Ok in Hr' as (Hb & dn & Hdn & Hdd). rewrite Hdn.
  cbn [mbind option_bind]. change (has create_flags fs_O_EXCL) with false. cbv iota.
  set (ent := n_entries dn !! base). destruct ent as [p|] eqn:Hent; subst ent.
  - destruct (wf_child f (proj1 Hok) dir dn base p Hdn Hent) as [pn Hpn]. rewrite Hpn.
    change (has create_flags fs_O_TRUNC) with true. destruct (isDir pn) eqn:Hpd; [done|].
    change (writable (mkFile (f_fs (tar_root f)) p (Base name) create_flags 0 0)) with true.
    cbn [andb]. cbv iota. intros [= <- <-]. cbn [f_node f_flag f_offset].
    exists dir, base.
    lazymatch goal with |- _ ∧ entry (fs_update _ ?h _) _ _ = _ ∧ _ => set (g := h) end.
    split_and!; try done.
    + rewrite entry_update_same by done. unfold entry. by rewrite Hdn.
    + exists (g pn). rewrite lookup_update, decide_True, Hpn by done. split_and!; [done|exact Hpd|..].
      * pose proof (proj2 Hok p pn Hpn) as Hsl. unfold slice_ok in *. simpl. lia.
      * unfold d_bytes. simpl. by apply ztake_le_0.
    + apply update_frame; [done|by left].
    + by apply strict_update.
  - cbn [fs_new_node fst snd]. cbv zeta. set (nn := Node _ _ _ _ _).
    assert (isDir nn = false) as Hnd by (unfold isDir; simpl; by rewrite file_mode).
    change (f <| fs_heap ::= <[fs_next f := nn]> |> <| fs_next ::= S |>) with (fs_new_node nn f).2.
    change (fs_update dir (λ d : node, d <| n_entries ::= <[base := fs_next f]> |>) (fs_new_node nn f).2)
      with (set_entry dir base (fs_next f) (fs_new_node nn f).2).
    destruct (enter_new f nn dir base dn Hok eq_refl Hdn Hdd) as (Hfr & Hst & Hen & Hnn & dn1 & Hdn1 & Hdd1).
    { unfold entry. by rewrite Hdn. }
    set (f1 := set_entry _ _ _ _) in *. unfold touch at 1. rewrite lookup_update.
    assert (dir ≠ fs_next f) as Hne by (intros ->; congruence).
    rewrite decide_False, Hnn by done. cbv iota. rewrite Hnd.
    change (has create_flags fs_O_TRUNC) with true.
    change (writable (mkFile (f_fs (tar_root f)) (fs_next f) (Base name) create_flags 0 0)) with true.
    cbn [andb]. cbv iota. intros [= <- <-]. cbn [f_node f_flag f_offset].
    exists dir, base.
    lazymatch goal with |- _ ∧ entry (fs_update _ ?h _) _ _ = _ ∧ _ => set (g := h) end.
    split_and!; try done.
    + unfold touch. by rewrite !entry_update_same by done.
    + exists (g nn). rewrite lookup_update, decide_True by done. unfold touch.
      rewrite lookup_update, decide_False, Hnn by done. by split_and!.
    + eapply frame_trans; [apply frame_weaken; exact Hfr|].
      eapply frame_trans; [|apply update_frame; [done|by left]].
      apply update_frame; [done|]. right. intros n Hn. congruence.
    + intros Hs. unfold touch. do 2 (apply strict_update; [done|]). by apply Hst.
Qed.

(** ** Copying a member into it *)
Lemma pwrite_end b l : pwrite (zlen l) b l = l ++ b.
Proof.
  unfold pwrite. pose proof (zlen_nonneg b). rewrite Z.max_r by lia. rewrite resize_grow by lia.
  replace (zlen l + zlen b - zlen l) with (zlen b) by lia.
  rewrite ztake_app_le by lia. rewrite ztake_all by lia. f_equal.
  rewrite zdrop_all; [apply app_nil_r|]. zlia.
Qed.

Lemma WriteAt_frame maxAlloc fl b off now f :
  frame (Some (f_node fl)) f (WriteAt maxAlloc fl b off now f).2 ∧
  (strict f → strict (WriteAt maxAlloc fl b off now f).2).
Proof.
  unfold WriteAt. destruct (node_of f fl) as [nd| |]; [|by split; [apply frame_refl|]..].
  repeat (case_match; [by split; [apply frame_refl|]|]).
  repeat (case_match; simpl; try by split; [apply frame_refl|]);
    (split; [apply update_frame; [done|by left]|by apply strict_update]).
Qed.

Lemma copy_spec maxAlloc fl reads ok now f l f' :
  file_at f (f_node fl) l → writable fl = true → has (f_flag fl) fs_O_APPEND = false → f_offset fl = zlen l →
  zlen l + zlen (concat reads) < 2 ^ 63 →
  copy_reads maxAlloc fl reads ok now f = (TOk, f') →
  file_at f' (f_node fl) (l ++ concat reads) ∧ frame (Some (f_node fl)) f f' ∧ (strict f → strict f').
Proof.
  revert fl f l. induction reads as [|b reads IH]; intros fl f l Hat Hw Ha Ho Hlen.
  { cbn [copy_reads]. destruct ok; [|done]. intros [= <-]. simpl. rewrite app_nil_r.
    split_and!; [done|apply frame_refl|done]. }
  cbn [copy_reads concat] in *. rewrite zlen_app in Hlen.
  pose proof (zlen_nonneg (concat reads)). pose proof (zlen_nonneg b). pose proof (zlen_nonneg l).
  destruct (Z.eqb_spec (zlen b) 0) as [Hb|Hb].
  { apply zlen_zero in Hb as ->. simpl. by apply IH. }
  unfold Write, node_of. pose proof Hat as (nd & Hnd & _). rewrite Hnd, Ha.
  destruct (WriteAt_frame maxAlloc fl b (f_offset fl) now f) as [Hfr Hst].
  destruct (WriteAt maxAlloc fl b (f_offset fl) now f) as [r f1] eqn:E.
  assert (0 ≤ f_offset fl ∧ f_offset fl + zlen b < 2 ^ 63) as [Hlo Hhi] by (rewrite Ho; lia).
  destruct (WriteAt_spec _ _ _ _ _ _ _ _ _ Hat Hw Hlo Hhi E) as [(-> & _)|[-> Hat1]]; [done|].
  rewrite Ho, pwrite_end in Hat1. rewrite Z.eqb_refl. cbn [snd] in *. intros Hc.
  destruct (IH (fl <| f_offset ::= λ o, i64 (o + zlen b) |>) f1 (l ++ b)) as (Hat2 & Hfr2 & Hst2); try done.
  - simpl. rewrite Ho, zlen_app. apply wrapS_small; lia.
  - rewrite zlen_app. lia.
  - rewrite <- app_assoc in Hat2. split_and!; [exact Hat2|by eapply frame_trans|]. intros. by apply Hst2, Hst.
Qed.

(** ** Where names lead *)
Lemma walk_app f cur l1 l2 :
  walk f cur (l1 ++ l2) = (let! c := walk f cur l1 in walk f c l2).
Proof.
  revert cur. induction l1 as [|p l1 IH]; intros cur; [done|]. cbn [app walk].
  case_decide; [apply IH|]. case_decide.
  - case_decide; [done|]. destruct (cur ≫= _); [apply IH|done].
  - destruct (cur ≫= _) as [n|]; [|done]. destruct (negb _); [done|]. destruct (n_entries n !! p); [apply IH|done].
Qed.

Lemma walk_normal f c b parts : normal b →
  walk f (Some c) (b :: parts) =
    match fs_heap f !! c with
    | None => Panic
    | Some n => if negb (isDir n) then Err F_ENOTDIR
                else match n_entries n !! b with None => Err F_ENOENT | Some c => walk f (Some c) parts end
    end.
Proof.
  intros (H1 & H2 & H3 & _). cbn [walk]. rewrite decide_False by naive_solver. by rewrite decide_False.
Qed.

Lemma walk_frame x f f' parts c r :
  frame x f f' → Forall normal parts → walk f (Some c) parts = Ok (Some r) → walk f' (Some c) parts = Ok (Some r).
Proof.
  intros [R E N] Hp. revert c. induction Hp as [|b parts Hb Hp IH]; intros c; [done|].
  rewrite !walk_normal by done. destruct (fs_heap f !! c) as [n|] eqn:Hn; [|done].
  destruct (N c n Hn) as (n' & Hn' & Hd & _). rewrite Hn', Hd. destruct (negb _); [done|].
  destruct (n_entries n !! b) as [q|] eqn:Hq; [|done].
  assert (entry f c b = Some q) as Hen by (unfold entry; by rewrite Hn).
  apply E in Hen. unfold entry in Hen. rewrite Hn' in Hen. simpl in Hen. rewrite Hen. apply IH.
Qed.

Lemma walk_snoc f c l b r : normal b → walk f (Some c) (l ++ [b]) = Ok (Some r) →
  walk f (Some c) l ≠ Ok None → ∃ d, walk f (Some c) l = Ok (Some d) ∧ entry f d b = Some r.
Proof.
  intros Hb. rewrite walk_app. destruct (walk f (Some c) l) as [[d|]| |]; cbn [rbind]; try done.
  rewrite walk_normal by done. destruct (fs_heap f !! d) as [n|] eqn:Hn; [|done].
  destruct (negb _); [done|]. destruct (n_entries n !! b) as [q|] eqn:Hq; [|done]. simpl.
  intros [= ->] _. exists d. split; [done|]. unfold entry. by rewrite Hn.
Qed.

Lemma walk_normals_Some f c l r : Forall normal l → walk f (Some c) l = Ok r → ∃ d, r = Some d.
Proof.
  intros Hl. revert c. induction Hl as [|b l Hb Hl IH]; intros c; [simpl; intros [= <-]; by exists c|].
  rewrite walk_normal by done. destruct (fs_heap f !! c) as [n|]; [|done]. destruct (negb _); [done|].
  destruct (n_entries n !! b); [apply IH|done].
Qed.

(** In a strict tree a node has one name. *)
Lemma walk_unique f l1 l2 p :
  fs_ok f → strict f → Forall normal l1 → Forall normal l2 →
  walk f (Some (fs_root f)) l1 = Ok (Some p) → walk f (Some (fs_root f)) l2 = Ok (Some p) → l1 = l2.
Proof.
  intros [Hwf _] Hs. revert l2 p. induction l1 as [|b1 l1 IH] using rev_ind; intros l2 p Hl1 Hl2 H1 H2.
  - simpl in H1. simplify_eq. destruct l2 as [|b2 l2 _] using rev_ind; [done|]. exfalso.
    apply Forall_app in Hl2 as [Hl2 Hb2]. apply Forall_inv in Hb2.
    apply walk_snoc in H2 as (d & _ & Hen); [|done|].
    + unfold entry in Hen. apply bind_Some in Hen as (dn & Hdn & Hb).
      destruct (wf_root f Hwf) as (rn & Hrn & Hrd & _). by destruct (wf_up f Hwf d dn b2 _ rn Hdn Hb Hrn Hrd).
    + intros Hw. by destruct (walk_normals_Some _ _ _ _ Hl2 Hw) as [? ?].
  - apply Forall_app in Hl1 as [Hl1 Hb1]. apply Forall_inv in Hb1.
    apply walk_snoc in H1 as (d1 & Hw1 & He1); [|done|intros Hw; by destruct (walk_normals_Some _ _ _ _ Hl1 Hw) as [? ?]].
    destruct l2 as [|b2 l2 _] using rev_ind.
    + simpl in H2. simplify_eq. unfold entry in He1. apply bind_Some in He1 as (dn & Hdn & Hb).
      destruct (wf_root f Hwf) as (rn & Hrn & Hrd & _). by destruct (wf_up f Hwf d1 dn b1 _ rn Hdn Hb Hrn Hrd).
    + apply Forall_app in Hl2 as [Hl2 Hb2]. apply Forall_inv in Hb2.
      apply walk_snoc in H2 as (d2 & Hw2 & He2); [|done|intros Hw; by destruct (walk_normals_Some _ _ _ _ Hl2 Hw) as [? ?]].
      destruct (Hs _ _ _ _ _ He1 He2) as [-> ->]. f_equal. by apply (IH l2 d2).
Qed.

Lemma drop_empty_cons b l : b ≠ "" → drop_empty (b :: l) = b :: l.
Proof. intros Hb. destruct l; simpl; [done|]. by rewrite decide_False. Qed.

(** A cleaned relative name. *)
Lemma member_name_rel y : TrimSlash (Clean y) ≠ "" → IsAbs (TrimSlash (Clean y)) = false →
  TrimSlash (Clean y) = Clean y ∧ IsAbs y = false.
Proof.
  intros Hne Habs. destruct (clean_parts_Clean y) as [_ Hy].
  destruct (TrimSlash_spec (Clean y)) as [E|E].
  - split; [done|]. by rewrite <- Hy, <- E.
  - pose proof (Clean_trailing _ _ E) as Hroot. rewrite Hroot in Hne. done.
Qed.

Lemma resolve_parent_member f y dir base :
  let name := TrimSlash (Clean y) in
  name ≠ "" → name ≠ "." → resolve_parent f (fs_root f) name = Ok (dir, base) →
  Forall normal (split_slash name) ∧
  ∃ l, split_slash name = l ++ [base] ∧ walk f (Some (fs_root f)) l = Ok (Some dir).
Proof.
  intros name Hne Hnd Hr. pose proof Hr as Hok. apply resolve_parent_Ok in Hok as (Hb & _).
  unfold resolve_parent in Hr. destruct (IsAbs name) eqn:Habs; [done|].
  destruct (member_name_rel y Hne Habs) as [Hname Hy]. fold name in Hname.
  assert (split_slash name = clean_parts y) as Hsplit.
  { pose proof (split_Clean y) as Hs. rewrite Hy, <- Hname in Hs. destruct (clean_parts y) eqn:E; [|done].
    exfalso. apply Hnd. rewrite <- (join_split name), Hs. done. }
  assert (∀ x, last (split_slash name) = Some x → x ≠ "") as Hlast.
  { intros x Hx%last_Some_elem_of ->. rewrite Hsplit in Hx.
    destruct (clean_parts_spec y) as (k & ns & E & Hns & _). rewrite E in Hx.
    apply elem_of_app in Hx as [[? _]%elem_of_replicate|Hx]; [done|].
    rewrite Forall_forall in Hns. by destruct (Hns _ Hx) as [? _]. }
  destruct (split_slash name) as [|b0 l0 _] eqn:Es using rev_ind; [by destruct (split_nonempty name)|].
  rewrite rev_app_distr in Hr. cbn [rev app] in Hr.
  rewrite drop_empty_cons in Hr by (apply Hlast; by rewrite last_snoc).
  case_decide; [done|]. rewrite rev_involutive in Hr.
  destruct (walk f (Some (fs_root f)) l0) as [cur| |] eqn:Hw; cbn [rbind] in Hr; try done.
  destruct (walk_end f cur true) as [c| |] eqn:Hwe; cbn [rbind] in Hr; try done. injection Hr as -> ->.
  assert (cur = Some dir) as ->.
  { unfold walk_end in Hwe. destruct cur as [c|]; [|done]. destruct (fs_heap f !! c); [|done].
    destruct (_ && _); [done|]. by injection Hwe as ->. }
  split; [|by exists l0].
  destruct (clean_parts_spec y) as (k & ns & E & Hns & _). rewrite Hsplit, E.
  destruct k as [|k]; [done|]. exfalso. rewrite E in Hsplit. cbn [replicate app] in Hsplit.
  destruct l0 as [|p l0]; [injection Hsplit as -> _; by destruct Hb as (_ & _ & ? & _)|].
  injection Hsplit as -> _. cbn [walk] in Hw. rewrite decide_False in Hw by naive_solver.
  rewrite decide_True in Hw by done. by rewrite decide_True in Hw.
Qed.

(** ** What an archive leaves behind *)

(** [name] leads to a regular file with these contents and time. *)
Definition holds (f : FS) (name : string) (l : bytes) (t : Z) : Prop :=
  Forall normal (split_slash name) ∧ ∃ p n,
    walk f (Some (fs_root f)) (split_slash name) = Ok (Some p) ∧
    fs_heap f !! p = Some n ∧ isDir n = false ∧ d_bytes (n_data n) = l ∧ n_modTime n = t.

Lemma holds_frame x f f' name l t :
  frame x f f' → (∀ p, x = Some p → walk f (Some (fs_root f)) (split_slash name) ≠ Ok (Some p)) →
  holds f name l t → holds f' name l t.
Proof.
  intros Hfr Hx (Hn & p & n & Hw & Hp & Hd & Hl & Ht). split; [done|].
  destruct (fr_node _ _ _ Hfr p n Hp) as (n' & Hn' & Hd' & Hk).
  destruct Hk as [Hk1 Hk2]; [done|intros ->; by apply (Hx p)|].
  exists p, n'. rewrite (fr_root _ _ _ Hfr), Hk1, Hk2, Hd'. split_and!; [|done..].
  by eapply walk_frame.
Qed.

Lemma holds_resolve f name l t : holds f name l t →
  ∃ p n, resolve f (fs_root f) name = Ok p ∧ fs_heap f !! p = Some n ∧ isDir n = false ∧
    d_bytes (n_data n) = l ∧ n_modTime n = t.
Proof.
  intros (Hn & p & n & Hw & Hp & Hd & Hl & Ht). exists p, n. split_and!; [|done..].
  unfold resolve. assert (IsAbs name = false) as ->.
  { rewrite <- (join_split name). apply IsAbs_join. intros q Hq. rewrite Forall_forall in Hn.
    by destruct (Hn q Hq) as (? & _ & _ & ?). }
  rewrite Hw. cbn [rbind]. unfold walk_end. rewrite Hp, Hd. cbn [negb andb].
  rewrite bool_decide_eq_false_2; [done|]. intros [Hlast _].
  apply last_Some_elem_of in Hlast. rewrite Forall_forall in Hn. by destruct (Hn _ Hlast) as [? _].
Qed.

Definition is_file (h : Header) : Prop := skipped h = false ∧ h_Typeflag h = TypeReg.

Lemma add_regular_spec maxAlloc m now f f' :
  fs_ok f → strict f → skipped (m_header m) = false → zlen (concat (m_reads m)) < 2 ^ 63 →
  add_regular maxAlloc m now f = (TOk, f') →
  strict f' ∧ holds f' (member_name (m_header m)) (concat (m_reads m)) (h_ModTime (m_header m)) ∧
  ∀ name l t, name ≠ member_name (m_header m) → holds f name l t → holds f' name l t.
Proof.
  intros Hok Hs Hskip Hlen. unfold add_regular. cbv zeta.
  set (name := member_name (m_header m)). set (h := m_header m) in *.
  apply bool_decide_eq_false in Hskip. fold name in Hskip.
  pose proof (OpenAt_ok (tar_root f) name create_flags (u32 (h_Mode h)) now f Hok) as Hok1.
  destruct (OpenAt (tar_root f) name create_flags (u32 (h_Mode h)) now f) as [[fl|e|] f1] eqn:Ho; try done.
  cbn [snd] in Hok1.
  destruct (create_frame _ _ _ _ _ _ Hok Ho) as (dir & base & Hr & Hen & Hat & Hw & Ha & Hoff & Hfr1 & Hst1).
  pose proof (copy_steps maxAlloc fl (m_reads m) (m_read_ok m) now f1) as Hcs.
  destruct (copy_reads _ _ _ _ _ _) as [[] f2] eqn:Hc; try done.
  destruct (copy_spec _ _ _ _ _ _ [] _ Hat Hw Ha Hoff Hlen Hc) as (Hat2 & Hfr2 & Hst2).
  cbn [snd] in Hcs. intros [= <-]. set (p := f_node fl) in *.
  assert (frame (Some p) f (touch p (h_ModTime h) f2)) as Hfr.
  { eapply frame_trans; [exact Hfr1|]. eapply frame_trans; [exact Hfr2|]. by apply update_frame; [|left]. }
  assert (strict (touch p (h_ModTime h) f2)) as Hst by (apply strict_update; [done|by apply Hst2, Hst1]).
  assert (fs_ok (touch p (h_ModTime h) f2)) as Hok' by (apply fs_ok_touch; by eapply fs_ok_steps).
  destruct (resolve_parent_member f _ dir base ltac:(naive_solver) ltac:(naive_solver) Hr) as (Hnorm & lp & Hsplit & Hwl).
  change (Forall normal (split_slash name)) in Hnorm. change (split_slash name = lp ++ [base]) in Hsplit.
  assert (walk (touch p (h_ModTime h) f2) (Some (fs_root (touch p (h_ModTime h) f2))) (split_slash name) = Ok (Some p)) as Hwp.
  { rewrite Hsplit, walk_app, (fr_root _ _ _ Hfr). rewrite Hsplit in Hnorm. apply Forall_app in Hnorm as [Hn1 Hn2].
    rewrite (walk_frame _ _ _ _ _ _ Hfr Hn1 Hwl). cbn [rbind]. apply Forall_inv in Hn2.
    rewrite walk_normal by done.
    assert (entry (touch p (h_ModTime h) f2) dir base = Some p) as He.
    { unfold touch. rewrite entry_update_same by done. by apply (fr_entry _ _ _ Hfr2). }
    unfold entry in He. apply bind_Some in He as (dn & Hdn & Hbp). rewrite Hdn.
    destruct (isDir dn) eqn:Hdd; cbn [negb]; [by rewrite Hbp|].
    rewrite (wf_file _ (proj1 Hok') dir dn Hdn Hdd) in Hbp. by rewrite lookup_empty in Hbp. }
  split_and!; [done|..].
  - split; [done|]. destruct Hat2 as (n & Hn & Hd & _ & Hl). exists p, (n <| n_modTime := h_ModTime h |>).
    split_and!; [exact Hwp| |done..]. unfold touch. rewrite lookup_update, decide_True by done. fold p in Hn. by rewrite Hn.
  - intros name' l t Hne Hh. apply (holds_frame (Some p) f); [done| |done].
    intros q [= <-] Hq. apply Hne. destruct Hh as [Hn' _].
    rewrite <- (join_split name'), <- (join_split name). f_equal.
    apply (walk_unique _ _ _ p Hok' Hst Hn' Hnorm); [|done].
    rewrite (fr_root _ _ _ Hfr). by eapply walk_frame.
Qed.

Definition in_bounds (m : member) : Prop := zlen (concat (m_reads m)) < 2 ^ 63.

Lemma add_member_spec maxAlloc m now f f' :
  fs_ok f → strict f → in_bounds m → add_member maxAlloc m now f = (TOk, f') →
  fs_ok f' ∧ strict f' ∧
  (is_file (m_header m) → holds f' (member_name (m_header m)) (concat (m_reads m)) (h_ModTime (m_header m))) ∧
  ∀ name l t, (is_file (m_header m) → name ≠ member_name (m_header m)) → holds f name l t → holds f' name l t.
Proof.
  intros Hok Hs Hlen Ham.
  assert (fs_ok f') as Hok'.
  { pose proof (add_member_steps maxAlloc m now f) as Hst. rewrite Ham in Hst. by eapply fs_ok_steps. }
  split; [done|]. unfold add_member in Ham. cbv zeta in Ham. unfold is_file.
  destruct (skipped (m_header m)) eqn:Hskip; [injection Ham as <-; split_and!; [done|by intros [? _]|done]|].
  destruct (Z.eqb_spec (h_Typeflag (m_header m)) TypeDir) as [Ht|Ht].
  { pose proof (mkdirs_frame (split_slash (member_name (m_header m))) "" (u32 (h_Mode (m_header m))) now f Hok) as [Hfr Hst].
    unfold mkdirAll in Ham. destruct (mkdirs _ _ _ _ _) as [r f1]. cbn [snd] in *. injection Ham as _ <-.
    split_and!; [by apply Hst|intros [_ E]; rewrite Ht in E; done|]. intros name l t _. by apply (holds_frame None). }
  destruct (Z.eqb_spec (h_Typeflag (m_header m)) TypeReg) as [Ht'|Ht']; [|done].
  set (dirs := if decide (path_Dir _ = _) then _ else _) in Ham.
  assert (fs_ok dirs.2 ∧ frame None f dirs.2 ∧ strict dirs.2) as (Hok1 & Hfr & Hst).
  { subst dirs. case_decide; [by split_and!; [|apply frame_refl|]|]. split; [by eapply fs_ok_steps, (mkdirs_steps 0)|].
    destruct (mkdirs_frame (split_slash (path_Dir (member_name (m_header m)))) "" 448 now f Hok) as [? Hst]. split; [done|by apply Hst]. }
  clearbody dirs. destruct dirs as [[u|e|] f1]; cbn [snd] in *; [|done..].
  destruct (add_regular_spec maxAlloc m now f1 f' Hok1 Hst Hskip Hlen Ham) as (Hst' & Hh & Hkeep).
  split_and!; [done|done|]. intros name l t Hne Hh1. apply Hkeep; [by apply Hne|]. by apply (holds_frame None f).
Qed.

Lemma AddTar_keeps maxAlloc ms eof now f f' name l t :
  fs_ok f → strict f → Forall in_bounds ms → AddTar maxAlloc ms eof now f = (TOk, f') →
  (∀ m, m ∈ ms → is_file (m_header m) → name ≠ member_name (m_header m)) → holds f name l t → holds f' name l t.
Proof.
  revert f. induction ms as [|m ms IH]; intros f Hok Hs Hb Ha Hne Hh; cbn [AddTar] in Ha.
  { destruct eof; [|done]. by injection Ha as <-. }
  apply Forall_cons in Hb as [Hbm Hb].
  destruct (add_member maxAlloc m now f) as [[] f1] eqn:E; try done.
  destruct (add_member_spec maxAlloc m now f f1 Hok Hs Hbm E) as (Hok1 & Hs1 & _ & Hk).
  apply (IH f1); try done; [intros; apply Hne; [by constructor|done]|].
  apply Hk; [|done]. apply Hne. constructor.
Qed.

Lemma AddTar_app maxAlloc ms1 ms2 eof now f f' : AddTar maxAlloc (ms1 ++ ms2) eof now f = (TOk, f') →
  ∃ f1, AddTar maxAlloc ms1 true now f = (TOk, f1) ∧ AddTar maxAlloc ms2 eof now f1 = (TOk, f').
Proof.
  revert f. induction ms1 as [|m ms1 IH]; intros f; cbn [app AddTar]; [by exists f|].
  destruct (add_member maxAlloc m now f) as [[] f1]; try done. apply IH.
Qed.

Lemma AddTar_inv maxAlloc ms eof now f f' :
  fs_ok f → strict f → Forall in_bounds ms → AddTar maxAlloc ms eof now f = (TOk, f') → fs_ok f' ∧ strict f'.
Proof.
  revert f. induction ms as [|m ms IH]; intros f Hok Hs Hb Ha; cbn [AddTar] in Ha.
  { destruct eof; [|done]. by injection Ha as <-. }
  apply Forall_cons in Hb as [Hbm Hb].
  destruct (add_member maxAlloc m now f) as [[] f1] eqn:E; try done.
  destruct (add_member_spec maxAlloc m now f f1 Hok Hs Hbm E) as (Hok1 & Hs1 & _ & _). by apply (IH f1).
Qed.

Lemma strict_New now : strict (fs_New now).
Proof.
  intros d b d' b' p. unfold entry, fs_New. simpl. intros (n & [<- <-]%lookup_singleton_Some & Hb)%bind_Some.
  simpl in Hb. by rewrite lookup_empty in Hb.
Qed.

(** * Properties *)

(** Unpacking an archive into a new filesystem keeps everything it holds: when
    [AddTar] succeeds, the name of every regular member, the last one of that
    name, leads to a regular file with exactly the member's bytes and time,
    however the reader cut them and whatever directories and files came before
    and after; and the filesystem is one the file operations can produce. *)
Theorem tar_unpacked (maxAlloc : Z) (ms1 : list member) (m : member) (ms2 : list member) (eof : bool) (t0 now : Z) (f : FS) :
  AddTar maxAlloc (ms1 ++ m :: ms2) eof now (fs_New t0) = (TOk, f) →
  Forall in_bounds (ms1 ++ m :: ms2) → is_file (m_header m) →
  (∀ m', m' ∈ ms2 → is_file (m_header m') → member_name (m_header m') ≠ member_name (m_header m)) →
  reachable (λ f, f = fs_New t0) (fs_step maxAlloc) f ∧
  ∃ p n, resolve f (fs_root f) (member_name (m_header m)) = Ok p ∧ fs_heap f !! p = Some n ∧
    isDir n = false ∧ d_bytes (n_data n) = concat (m_reads m) ∧ n_modTime n = h_ModTime (m_header m).
Proof.
  intros Ha Hb Hf Hlast. split.
  { exists (fs_New t0). split; [done|]. pose proof (AddTar_steps maxAlloc (ms1 ++ m :: ms2) eof now (fs_New t0)) as Hst.
    by rewrite Ha in Hst. }
  apply AddTar_app in Ha as (f1 & Ha1 & Ha2). apply Forall_app in Hb as [Hb1 [Hbm Hb2]%Forall_cons].
  destruct (AddTar_inv _ _ _ _ _ _ (fs_New_ok t0) (strict_New t0) Hb1 Ha1) as [Hok1 Hs1].
  cbn [AddTar] in Ha2. destruct (add_member maxAlloc m now f1) as [[] f2] eqn:E; try done.
  destruct (add_member_spec maxAlloc m now f1 f2 Hok1 Hs1 Hbm E) as (Hok2 & Hs2 & Hh & _).
  apply holds_resolve. eapply (AddTar_keeps _ _ _ _ f2); [done..| |by apply Hh].
  intros m' Hm' Hf' He. by apply (Hlast m').
Qed.

Definition demo_archive : list member :=
  [ mkMember (mkHeader "./" TypeDir 493 5) [] true;
    mkMember (mkHeader "./base/" TypeDir 493 6) [] true;
    mkMember (mkHeader "./base/1/PG_VERSION" TypeReg 384 7) [[49]; []; [56;10]] true;
    mkMember (mkHeader "base/1/2619" TypeReg 384 8) [[1;2;3]] true ].

Lemma tar_unpacked_witness :
  match AddTar (2 ^ 47) demo_archive true 9 (fs_New 1) with
  | (TOk, f) => ∃ p n, resolve f (fs_root f) "base/1/PG_VERSION" = Ok p ∧ fs_heap f !! p = Some n ∧
      d_bytes (n_data n) = [49;56;10] ∧ n_modTime n = 7
  | _ => False
  end.
Proof.
  destruct (AddTar (2 ^ 47) demo_archive true 9 (fs_New 1)) as [[] f] eqn:E; try (vm_compute in E; discriminate).
  destruct (tar_unpacked (2 ^ 47) (take 2 demo_archive)
    (mkMember (mkHeader "./base/1/PG_VERSION" TypeReg 384 7) [[49]; []; [56;10]] true)
    (drop 3 demo_archive) true 1 9 f) as (_ & p & n & Hr & Hn & _ & Hb & Ht).
  - exact E.
  - by repeat constructor.
  - split; reflexivity.
  - intros m' ->%list_elem_of_singleton _. vm_compute. discriminate.
  - exists p, n. split_and!; [exact Hr|exact Hn|exact Hb|exact Ht].
Defined.
