(* ===== verification/WasmObj.v ===== *)
(** The symbol table of relocatable WebAssembly objects
    ([src/wasm/internal/wasmobj/wasmobj.go]) and what [wasmlocalize] does to it
    ([src/wasm/cmd/wasmlocalize/main.go]).

    A reader works on a Go slice: the bytes up to its capacity and its length.
    Indexing is checked against the length, slicing against the capacity, and
    a failed check panics: [Crash].  Loops take fuel; [symbols_total] shows that
    it never runs out. *)
From S2P Require Import Prelude Bytes.
From Stdlib Require Import Ascii.

Definition KindFunction : Z := 0.
Definition KindData : Z := 1.
Definition KindGlobal : Z := 2.
Definition KindSection : Z := 3.
Definition KindTag : Z := 4.
Definition KindTable : Z := 5.
Definition FlagBindingWeak : Z := 1.
Definition FlagBindingLocal : Z := 2.
Definition FlagUndefined : Z := 16.
Definition FlagExplicitName : Z := 64.
Definition sectionCustom : Z := 0.
Definition sectionType : Z := 1.
Definition sectionImport : Z := 2.
Definition sectionFunction : Z := 3.
Definition linkingSymTable : Z := 8.

Record FuncSig := mkSig { fs_params : bytes; fs_results : bytes }.

Record Symbol := mkSymbol {
  s_kind : Z;
  s_flags : Z;
  s_flagsOffset : Z;
  s_name : string;
  s_func : option FuncSig;
}.
#[export] Instance eta_Symbol : Eta Symbol := λ r,
  {| s_kind := s_kind r; s_flags := s_flags r; s_flagsOffset := s_flagsOffset r;
     s_name := s_name r; s_func := s_func r |}.

Definition flags_defined (flags : Z) : bool := Z.land flags FlagUndefined =? 0.
Definition flags_local (flags : Z) : bool := negb (Z.land flags FlagBindingLocal =? 0).
Definition Defined (s : Symbol) : bool := flags_defined (s_flags s).
Definition Local_ (s : Symbol) : bool := flags_local (s_flags s).
Definition flags_named (flags : Z) : bool :=
  flags_defined flags || negb (Z.land flags FlagExplicitName =? 0).

(** ** Results *)
Inductive obj_err :=
| NotModule | BadForm (form : Z) | BadIndex (name : string) | BadKind (kind : Z) | NoLinking.

Inductive res (A : Type) := Done (a : A) | Fail (e : obj_err) | Crash | NoFuel.
Arguments Done {A}. Arguments Fail {A}. Arguments Crash {A}. Arguments NoFuel {A}.
#[export] Instance res_bind : MBind res := λ A B k r,
  match r with Done a => k a | Fail e => Fail e | Crash => Crash | NoFuel => NoFuel end.

(** ** The reader *)
Record reader := Reader { rd_arr : bytes; rd_len : Z; rd_i : Z; rd_base : Z }.
#[export] Instance eta_reader : Eta reader := λ r,
  {| rd_arr := rd_arr r; rd_len := rd_len r; rd_i := rd_i r; rd_base := rd_base r |}.

Definition rd_rest (r : reader) : bytes := zdrop (rd_i r) (ztake (rd_len r) (rd_arr r)).

Definition reader_byte (r : reader) : res (Z * reader) :=
  match znth (ztake (rd_len r) (rd_arr r)) (rd_i r) with
  | None => Crash
  | Some c => Done (c, r <| rd_i ::= λ i, i + 1 |>)
  end.

(** The loop of [uleb] on the bytes that are left: the value and how many it
    took.  Go shifts everything out of a [uint64] from 64 on. *)
Fixpoint uleb_go (l : bytes) (v shift : Z) : option (Z * Z) :=
  match l with
  | [] => None
  | c :: l =>
      let v := Z.lor v (u64 (Z.shiftl (Z.land c 127) shift)) in
      if Z.land c 128 =? 0 then Some (v, 1)
      else match uleb_go l v (shift + 7) with Some (v, n) => Some (v, n + 1) | None => None end
  end.
Definition reader_uleb (r : reader) : res (Z * reader) :=
  match uleb_go (rd_rest r) 0 0 with
  | None => Crash
  | Some (v, n) => Done (v, r <| rd_i ::= λ i, i + n |>)
  end.

(** [r.b[r.i : r.i+n]] *)
Definition slice_ok (r : reader) (n : Z) : bool :=
  (rd_i r <=? i64 (rd_i r + n)) && (i64 (rd_i r + n) <=? zlen (rd_arr r)).
Definition reader_bytes (r : reader) (n : Z) : res (bytes * reader) :=
  if slice_ok r n
  then Done (ztake n (zdrop (rd_i r) (rd_arr r)), r <| rd_i ::= λ i, i64 (i + n) |>)
  else Crash.
Definition reader_sub (r : reader) (n : Z) : res (reader * reader) :=
  if slice_ok r n
  then Done (Reader (zdrop (rd_i r) (rd_arr r)) n 0 (rd_base r + rd_i r), r <| rd_i ::= λ i, i64 (i + n) |>)
  else Crash.

Definition reader_name (r : reader) : res (string * reader) :=
  '(n, r) ← reader_uleb r; '(b, r) ← reader_bytes r (i64 n); Done (string_of_bytes b, r).

Definition reader_limits (r : reader) : res reader :=
  '(flags, r) ← reader_byte r; '(_, r) ← reader_uleb r;
  if Z.land flags 1 =? 0 then Done r else '(_, r) ← reader_uleb r; Done r.

(** [for range n] and [for r.i < len(r.b)] *)
Fixpoint range_loop {S} (fuel : nat) (n : Z) (body : S → res S) (s : S) : res S :=
  match fuel with
  | O => NoFuel
  | Datatypes.S fuel => if n =? 0 then Done s else s ← body s; range_loop fuel (n - 1) body s
  end.
Fixpoint while_loop {S} (fuel : nat) (rd : S → reader) (body : S → res S) (s : S) : res S :=
  match fuel with
  | O => NoFuel
  | Datatypes.S fuel => if rd_len (rd s) <=? rd_i (rd s) then Done s else s ← body s; while_loop fuel rd body s
  end.
Definition rd_fuel (r : reader) : nat := S (Z.to_nat (rd_len r)).

(** ** Sections *)
Record symstate := mkSt {
  st_types : list FuncSig;
  st_imports : Z;
  st_funcTypes : list Z;
  st_syms : list Symbol;
  st_found : bool;
}.
#[export] Instance eta_symstate : Eta symstate := λ r,
  {| st_types := st_types r; st_imports := st_imports r; st_funcTypes := st_funcTypes r;
     st_syms := st_syms r; st_found := st_found r |}.

Definition type_entry (s : reader * symstate) : res (reader * symstate) :=
  '(form, sec) ← reader_byte s.1;
  if negb (form =? 96) then Fail (BadForm form)
  else
    '(n, sec) ← reader_uleb sec; '(ps, sec) ← reader_bytes sec (i64 n);
    '(n, sec) ← reader_uleb sec; '(rs, sec) ← reader_bytes sec (i64 n);
    Done (sec, s.2 <| st_types ::= λ l, l ++ [mkSig ps rs] |>).

Definition import_entry (s : reader * symstate) : res (reader * symstate) :=
  '(_, sec) ← reader_name s.1; '(_, sec) ← reader_name sec;
  '(kind, sec) ← reader_byte sec;
  if kind =? 0 then '(_, sec) ← reader_uleb sec; Done (sec, s.2 <| st_imports ::= λ n, n + 1 |>)
  else if kind =? 1 then '(_, sec) ← reader_byte sec; sec ← reader_limits sec; Done (sec, s.2)
  else if kind =? 2 then sec ← reader_limits sec; Done (sec, s.2)
  else if kind =? 3 then '(_, sec) ← reader_byte sec; '(_, sec) ← reader_byte sec; Done (sec, s.2)
  else if kind =? 4 then '(_, sec) ← reader_byte sec; '(_, sec) ← reader_uleb sec; Done (sec, s.2)
  else Done (sec, s.2).

Definition func_entry (s : reader * symstate) : res (reader * symstate) :=
  '(t, sec) ← reader_uleb s.1; Done (sec, s.2 <| st_funcTypes ::= λ l, l ++ [u32 t] |>).

(** The signature of a defined function symbol: an index out of the functions is
    an error, a type out of the types panics. *)
Definition sym_func (st : symstate) (name : string) (idx : Z) : res FuncSig :=
  match znth (st_funcTypes st) (i64 idx - st_imports st) with
  | None => Fail (BadIndex name)
  | Some t => match znth (st_types st) t with None => Crash | Some f => Done f end
  end.

Definition opt_name (named : bool) (ss : reader) : res (string * reader) :=
  if named then reader_name ss else Done ("", ss).

Definition read_symbol (st : symstate) (ss : reader) : res (Symbol * reader) :=
  '(kind, ss) ← reader_byte ss;
  let offset := rd_base ss + rd_i ss in
  '(flags, ss) ← reader_uleb ss;
  if kind =? KindFunction then
    '(idx, ss) ← reader_uleb ss;
    '(name, ss) ← opt_name (flags_named flags) ss;
    if flags_defined flags
    then f ← sym_func st name idx; Done (mkSymbol kind flags offset name (Some f), ss)
    else Done (mkSymbol kind flags offset name None, ss)
  else if kind =? KindData then
    '(name, ss) ← reader_name ss;
    if flags_defined flags
    then '(_, ss) ← reader_uleb ss; '(_, ss) ← reader_uleb ss; '(_, ss) ← reader_uleb ss;
         Done (mkSymbol kind flags offset name None, ss)
    else Done (mkSymbol kind flags offset name None, ss)
  else if (kind =? KindGlobal) || (kind =? KindTag) || (kind =? KindTable) then
    '(_, ss) ← reader_uleb ss;
    '(name, ss) ← opt_name (flags_named flags) ss;
    Done (mkSymbol kind flags offset name None, ss)
  else if kind =? KindSection then
    '(_, ss) ← reader_uleb ss; Done (mkSymbol kind flags offset "" None, ss)
  else Fail (BadKind kind).

Definition symbol_entry (s : reader * symstate) : res (reader * symstate) :=
  '(sym, ss) ← read_symbol s.2 s.1; Done (ss, s.2 <| st_syms ::= λ l, l ++ [sym] |>).

(** One subsection of the linking section. *)
Definition link_entry (s : reader * symstate) : res (reader * symstate) :=
  '(sub, sec) ← reader_byte s.1;
  '(size, sec) ← reader_uleb sec;
  '(ss, sec) ← reader_sub sec (i64 size);
  if negb (sub =? linkingSymTable) then Done (sec, s.2)
  else
    '(n, ss) ← reader_uleb ss;
    '(_, st) ← range_loop (rd_fuel ss) n symbol_entry (ss, s.2);
    Done (sec, st).

(** The switch on the section id. *)
Definition read_section (id : Z) (sec : reader) (st : symstate) : res symstate :=
  if id =? sectionType then
    '(n, sec) ← reader_uleb sec; '(_, st) ← range_loop (rd_fuel sec) n type_entry (sec, st); Done st
  else if id =? sectionImport then
    '(n, sec) ← reader_uleb sec; '(_, st) ← range_loop (rd_fuel sec) n import_entry (sec, st); Done st
  else if id =? sectionFunction then
    '(n, sec) ← reader_uleb sec; '(_, st) ← range_loop (rd_fuel sec) n func_entry (sec, st); Done st
  else if id =? sectionCustom then
    '(name, sec) ← reader_name sec;
    if negb (bool_decide (name = "linking")) then Done st
    else
      '(_, sec) ← reader_uleb sec;
      '(_, st) ← while_loop (rd_fuel sec) fst link_entry (sec, st <| st_found := true |>);
      Done st
  else Done st.

Definition section_entry (s : reader * symstate) : res (reader * symstate) :=
  '(id, r) ← reader_byte s.1;
  '(size, r) ← reader_uleb r;
  '(sec, r) ← reader_sub r (i64 size);
  st ← read_section id sec s.2;
  Done (r, st).

Definition wasm_magic : bytes := [0; 97; 115; 109].

(** [Symbols(data)]; [spare] is what lies between the length of [data] and its
    capacity. *)
Definition Symbols (data spare : bytes) : res (list Symbol) :=
  if (zlen data <? 8) || negb (bool_decide (ztake 4 data = wasm_magic)) ||
     negb (le_val (ztake 4 (zdrop 4 data)) =? 1)
  then Fail NotModule
  else
    '(_, st) ← while_loop (S (length data)) fst section_entry
                 (Reader (data ++ spare) (zlen data) 8 0, mkSt [] 0 [] [] false);
    if st_found st then Done (st_syms st) else Fail NoLinking.

(** ** [wasmlocalize]: the loop over the symbols *)
Definition localizes (keep : string → bool) (s : Symbol) : bool :=
  Defined s && negb (Local_ s) && negb (bool_decide (s_name s = "")) &&
  ((s_kind s =? KindFunction) || (s_kind s =? KindData)) && negb (keep (s_name s)).

(** [data[off] |= FlagBindingLocal], which panics out of the slice. *)
Definition set_local (off : Z) (data : bytes) : option bytes :=
  match znth data off with
  | None => None
  | Some b => Some (ztake off data ++ Z.lor b FlagBindingLocal :: zdrop (off + 1) data)
  end.

Fixpoint patch (keep : string → bool) (syms : list Symbol) (data : bytes) : option bytes :=
  match syms with
  | [] => Some data
  | s :: syms =>
      if localizes keep s
      then match set_local (s_flagsOffset s) data with None => None | Some data => patch keep syms data end
      else patch keep syms data
  end.

Definition localize (keep : string → bool) (data spare : bytes) : res bytes :=
  syms ← Symbols data spare;
  match patch keep syms data with None => Crash | Some data => Done data end.

(** * Reading ends *)

(** [safe Q r]: [r] did not run out of fuel, and its value, if any, has [Q]. *)
Definition safe {A} (Q : A → Prop) (r : res A) : Prop :=
  match r with Done a => Q a | NoFuel => False | _ => True end.

Lemma safe_bind {A B} (P : A → Prop) (Q : B → Prop) (r : res A) (k : A → res B) :
  safe P r → (∀ a, P a → safe Q (k a)) → safe Q (r ≫= k).
Proof. destruct r; simpl; try done. intros Ha Hk. by apply Hk. Qed.

Definition advances (r r' : reader) : Prop := rd_len r' = rd_len r ∧ rd_i r ≤ rd_i r'.
Definition consumes (r r' : reader) : Prop :=
  rd_len r' = rd_len r ∧ rd_i r < rd_len r ∧ rd_i r < rd_i r'.

Lemma uleb_go_pos l v sh v' n : uleb_go l v sh = Some (v', n) → 0 < n ≤ zlen l.
Proof.
  revert v sh v' n. induction l as [|c l IH]; intros v sh v' n; [done|]. cbn [uleb_go]. cbv zeta.
  rewrite zlen_cons. pose proof (zlen_nonneg l). destruct (_ =? 0); [intros [= _ <-]; lia|].
  destruct (uleb_go l _ _) as [[v1 n1]|] eqn:E; [|done]. intros [= _ <-].
  apply IH in E. lia.
Qed.

Lemma znth_Some {A} (l : list A) i x : znth l i = Some x → 0 ≤ i < zlen l.
Proof.
  unfold znth, zlen. destruct (Z.ltb_spec i 0); [done|]. intros Hx%lookup_lt_Some. lia.
Qed.

Lemma safe_byte r : safe (λ x, consumes r x.2) (reader_byte r).
Proof.
  unfold reader_byte. destruct (znth _ _) as [c|] eqn:E; [|done].
  apply znth_Some in E. rewrite zlen_take in E. simpl. unfold consumes. simpl. lia.
Qed.
Lemma safe_uleb r : safe (λ x, consumes r x.2) (reader_uleb r).
Proof.
  unfold reader_uleb. destruct (uleb_go _ _ _) as [[v n]|] eqn:E; [|done].
  apply uleb_go_pos in E. unfold rd_rest in E. rewrite zlen_drop, zlen_take in E.
  simpl. unfold consumes. simpl. lia.
Qed.
Lemma safe_bytes r n : safe (λ x, advances r x.2) (reader_bytes r n).
Proof.
  unfold reader_bytes, slice_ok. destruct (_ && _) eqn:E; [|done].
  apply andb_prop in E as [E _]. apply Z.leb_le in E. simpl. by split.
Qed.
Lemma safe_sub r n : safe (λ x, advances r x.2 ∧ rd_i x.1 = 0) (reader_sub r n).
Proof.
  unfold reader_sub, slice_ok. destruct (_ && _) eqn:E; [|done].
  apply andb_prop in E as [E _]. apply Z.leb_le in E. simpl. by repeat split.
Qed.

#[local] Hint Resolve safe_byte safe_uleb safe_bytes safe_sub : safe.
(** Runs through a handler, one read at a time. *)
Ltac safe_step :=
  first
    [ eapply safe_bind; [solve [eauto with safe]|]; intros; repeat match goal with x : _ * _ |- _ => destruct x end; cbn [fst snd] in *
    | match goal with |- context [if ?b then _ else _] => destruct b end ].
Ltac safe_end := unfold consumes, advances in *; simpl in *; repeat split; try lia; try done.
Ltac safe_run := repeat safe_step; safe_end.

Lemma safe_name r : safe (λ x, consumes r x.2) (reader_name r).
Proof. unfold reader_name. safe_run. Qed.
Lemma safe_limits r : safe (consumes r) (reader_limits r).
Proof. unfold reader_limits. safe_run. Qed.
Lemma safe_opt_name b r : safe (λ x, advances r x.2) (opt_name b r).
Proof.
  destruct b; simpl; [|done]. pose proof (safe_name r) as Hn. destruct (reader_name r); try done.
  simpl in *. safe_end.
Qed.
Lemma safe_sym_func st name idx : safe (λ _, True) (sym_func st name idx).
Proof. unfold sym_func. destruct (znth _ _); [|done]. by destruct (znth _ _). Qed.
#[local] Hint Resolve safe_name safe_limits safe_opt_name safe_sym_func : safe.

Definition eats (body : reader * symstate → res (reader * symstate)) : Prop :=
  ∀ s, safe (λ s', consumes s.1 s'.1) (body s).

Lemma type_eats : eats type_entry.
Proof. intros [r st]. unfold type_entry. safe_run. Qed.
Lemma import_eats : eats import_entry.
Proof. intros [r st]. unfold import_entry. safe_run. Qed.
Lemma func_eats : eats func_entry.
Proof. intros [r st]. unfold func_entry. safe_run. Qed.
Lemma safe_symbol st r : safe (λ x, consumes r x.2) (read_symbol st r).
Proof. unfold read_symbol. cbv zeta. safe_run. Qed.
#[local] Hint Resolve safe_symbol : safe.
Lemma symbol_eats : eats symbol_entry.
Proof. intros [r st]. unfold symbol_entry. safe_run. Qed.

Lemma range_safe body fuel n s : eats body → rd_len s.1 - rd_i s.1 < Z.of_nat fuel → (0 < fuel)%nat →
  safe (λ _, True) (range_loop fuel n body s).
Proof.
  intros Hb. revert n s. induction fuel as [|fuel IH]; intros n s Hf Hp; [lia|]. cbn [range_loop].
  destruct (n =? 0); [done|]. eapply safe_bind; [apply Hb|]. intros s' (Hl & Hi & Hi').
  apply IH; lia.
Qed.

Lemma while_safe body fuel s : eats body → rd_len s.1 - rd_i s.1 < Z.of_nat fuel → (0 < fuel)%nat →
  safe (λ _, True) (while_loop fuel fst body s).
Proof.
  intros Hb. revert s. induction fuel as [|fuel IH]; intros s Hf Hp; [lia|]. cbn [while_loop].
  destruct (_ <=? _); [done|]. eapply safe_bind; [apply Hb|]. intros s' (Hl & Hi & Hi').
  apply IH; lia.
Qed.

#[local] Hint Resolve range_safe while_safe type_eats import_eats func_eats symbol_eats : safe.
Ltac fuel_ok := unfold rd_fuel, consumes, advances in *; simpl in *; lia.

Lemma link_eats : eats link_entry.
Proof.
  intros [r st]. unfold link_entry. do 3 safe_step. destruct (negb _); [safe_end|]. safe_step.
  eapply safe_bind; [apply range_safe; [apply symbol_eats|fuel_ok|unfold rd_fuel; lia]|].
  intros [ss' st'] _. safe_end.
Qed.

Lemma section_safe id sec st : rd_i sec = 0 → safe (λ _, True) (read_section id sec st).
Proof.
  intros Hi. unfold read_section.
  do 3 (destruct (_ =? _); [safe_step; eapply safe_bind; [apply range_safe; [auto with safe|fuel_ok|unfold rd_fuel; lia]|by intros []]|]).
  destruct (_ =? _); [|done]. safe_step. destruct (negb _); [done|]. safe_step.
  eapply safe_bind; [apply while_safe; [apply link_eats|fuel_ok|unfold rd_fuel; lia]|by intros []].
Qed.

Lemma section_eats : eats section_entry.
Proof.
  intros [r st]. unfold section_entry. do 3 safe_step.
  eapply safe_bind; [apply section_safe; apply H1|]. intros st' _. safe_end.
Qed.

(** * Properties *)

(** C39. Reading an object always ends, on any bytes whatsoever: with the symbol
    table, an error or a panic.  The number of entries a section claims to
    have, up to 2^64, does not matter, since every entry takes a byte. *)
Theorem symbols_total (data spare : bytes) : Symbols data spare ≠ NoFuel.
Proof.
  unfold Symbols. destruct (_ || _ || _); [done|].
  pose proof (while_safe section_entry (S (length data))
    (Reader (data ++ spare) (zlen data) 8 0, mkSt [] 0 [] [] false) section_eats) as Hw.
  destruct (while_loop _ _ _ _) as [[r st]|e| |]; simpl; try done.
  - by destruct (st_found st).
  - destruct Hw; [|lia]. simpl. unfold zlen. lia.
Qed.
