(* ===== verification/ObjLaws.v ===== *)
(** What [Symbols] and [wasmlocalize] do to an object file: the grammar of the
    files with its meaning, and that reading a file gives its meaning and
    patching it the file with the symbols made local.

    [object] is the abstract syntax of the files, with [enc_object] their bytes
    (as toolchains write them: LEB128 numbers in their shortest form) and
    [sem_object] what they say. *)
From S2P Require Import Prelude Bytes WasmObj.
From Stdlib Require Import Ascii.

(** ** Unsigned LEB128 *)
Fixpoint uleb_bytes (fuel : nat) (v : Z) : bytes :=
  match fuel with
  | O => []
  | S fuel => if v <? 128 then [v] else (v mod 128 + 128) :: uleb_bytes fuel (v / 128)
  end.
(** Ten bytes hold 64 bits. *)
Definition uleb (v : Z) : bytes := uleb_bytes 10 v.

Lemma byte_cases (P : Z → bool) : forallb P (Z.of_nat <$> seq 0 256) = true → ∀ c, is_byte c → P c = true.
Proof.
  intros H c [Hc1 Hc2]. rewrite forallb_forall in H. apply H. apply list_elem_of_In, list_elem_of_fmap.
  exists (Z.to_nat c). split; [lia|]. apply elem_of_seq. lia.
Qed.

Lemma low_bits c : is_byte c → Z.land c 127 = c mod 128 ∧ (Z.land c 128 =? 0) = (c <? 128) ∧
  Z.lor c 2 = Z.lor (c mod 128) 2 + (if c <? 128 then 0 else 128) ∧ (Z.lor c 2 <? 128) = (c <? 128).
Proof.
  intros Hc.
  set (P := λ c, (Z.land c 127 =? c mod 128) && Bool.eqb (Z.land c 128 =? 0) (c <? 128) &&
    (Z.lor c 2 =? Z.lor (c mod 128) 2 + (if c <? 128 then 0 else 128)) && Bool.eqb (Z.lor c 2 <? 128) (c <? 128)).
  assert (P c = true) as H by (apply byte_cases; [vm_compute; reflexivity|done]).
  apply andb_prop in H as [[[H1 H2]%andb_prop H3]%andb_prop H4].
  apply Z.eqb_eq in H1, H3. apply eqb_prop in H2, H4. done.
Qed.

Lemma lor_shiftl_add a b n : 0 ≤ n → 0 ≤ a < 2 ^ n → Z.lor a (Z.shiftl b n) = a + b * 2 ^ n.
Proof.
  intros Hn Ha. rewrite <- Z.add_nocarry_lor; [by rewrite Z.shiftl_mul_pow2|].
  apply Z.bits_inj'. intros k Hk. rewrite Z.land_spec, Z.bits_0, Z.shiftl_spec by done.
  destruct (decide (k < n)).
  - rewrite (Z.testbit_neg_r b) by lia. apply andb_false_r.
  - assert (Z.testbit a k = false) as ->; [|done].
    destruct (decide (a = 0)) as [->|]; [apply Z.testbit_0_l|].
    apply Z.bits_above_log2; [lia|]. enough (Z.log2 a < n) by lia. apply Z.log2_lt_pow2; lia.
Qed.

Lemma lor_u64 a b n : 0 ≤ n → 0 ≤ a < 2 ^ n → 0 ≤ b → b * 2 ^ n < 2 ^ 64 →
  Z.lor a (u64 (Z.shiftl b n)) = a + b * 2 ^ n.
Proof.
  intros Hn Ha Hb Hlt. pose proof (Z.pow_pos_nonneg 2 n ltac:(lia) Hn).
  rewrite wrapU_small; [by apply lor_shiftl_add|]. rewrite Z.shiftl_mul_pow2 by done. nia.
Qed.

Lemma uleb_go_bytes fuel v acc sh l :
  (0 < fuel)%nat → 0 ≤ v < 2 ^ (7 * Z.of_nat fuel) → 0 ≤ sh → 0 ≤ acc < 2 ^ sh → v * 2 ^ sh < 2 ^ 64 →
  uleb_go (uleb_bytes fuel v ++ l) acc sh = Some (acc + v * 2 ^ sh, zlen (uleb_bytes fuel v)).
Proof.
  revert v acc sh. induction fuel as [|fuel IH]; intros v acc sh Hf Hv Hsh Hacc Hlt; [lia|].
  assert (0 < 2 ^ sh) as Hpos by (apply Z.pow_pos_nonneg; lia).
  cbn [uleb_bytes]. destruct (Z.ltb_spec v 128) as [Hs|Hb]; cbn [app uleb_go]; cbv zeta.
  - destruct (low_bits v) as (-> & -> & _); [unfold is_byte; lia|].
    rewrite Z.mod_small, lor_u64 by lia. destruct (Z.ltb_spec v 128); [done|lia].
  - pose proof (Z.mod_pos_bound v 128 ltac:(lia)) as Hm. pose proof (Z.div_mod v 128 ltac:(lia)) as Hdm.
    set (q := v / 128) in *. set (r := v mod 128) in *.
    destruct (low_bits (r + 128)) as (-> & -> & _); [unfold is_byte; lia|].
    replace ((r + 128) mod 128) with r
      by (symmetry; rewrite <- (Z.mul_1_l 128) at 1; rewrite Z.mod_add by lia; apply Z.mod_small; lia).
    rewrite lor_u64 by nia.
    destruct (Z.ltb_spec (r + 128) 128); [lia|].
    assert (2 ^ (sh + 7) = 128 * 2 ^ sh) as Hp by (rewrite Z.pow_add_r by lia; change (2 ^ 7) with 128; lia).
    assert (2 ^ (7 * Z.of_nat (S fuel)) = 128 * 2 ^ (7 * Z.of_nat fuel)) as Hp2.
    { replace (7 * Z.of_nat (S fuel)) with (7 * Z.of_nat fuel + 7) by lia.
      rewrite Z.pow_add_r by lia. change (2 ^ 7) with 128. lia. }
    assert (fuel ≠ O) by (intros ->; change (2 ^ (7 * Z.of_nat 1)) with 128 in *; lia).
    rewrite (IH q); [|lia|lia|lia|rewrite Hp; nia|rewrite Hp; nia].
    rewrite zlen_cons, Hp. f_equal. f_equal; [nia|lia].
Qed.

Lemma uleb_go_uleb v l : 0 ≤ v < 2 ^ 64 → uleb_go (uleb v ++ l) 0 0 = Some (v, zlen (uleb v)).
Proof.
  intros Hv. unfold uleb. rewrite uleb_go_bytes; [f_equal; f_equal; lia|lia| |lia|lia|lia].
  change (7 * Z.of_nat 10) with 70. assert (2 ^ 64 < 2 ^ 70) by done. lia.
Qed.

(** Setting bit 1 of a number is setting it in its first byte. *)
Lemma lor2_mod v : (Z.lor v 2) mod 128 = Z.lor (v mod 128) 2.
Proof.
  apply Z.bits_inj'. intros k Hk. change 128 with (2 ^ 7). rewrite Z.lor_spec.
  destruct (decide (k < 7)).
  - by rewrite !Z.mod_pow2_bits_low, Z.lor_spec by lia.
  - rewrite !Z.mod_pow2_bits_high by lia. symmetry. apply (Z.bits_above_log2 2 k); [lia|].
    change (Z.log2 2) with 1. lia.
Qed.

Lemma lor2_div v : (Z.lor v 2) / 128 = v / 128.
Proof.
  change 128 with (2 ^ 7). rewrite <- !Z.shiftr_div_pow2, Z.shiftr_lor by lia. apply Z.lor_0_r.
Qed.

Lemma lor2_range v n : 2 ≤ n → 0 ≤ v < 2 ^ n → 0 ≤ Z.lor v 2 < 2 ^ n.
Proof.
  intros Hn Hv. split; [apply Z.lor_nonneg; lia|].
  destruct (decide (v = 0)) as [->|Hne].
  - change (2 ^ 1 < 2 ^ n). apply Z.pow_lt_mono_r; lia.
  - apply Z.log2_lt_pow2.
    { assert (Z.lor v 2 ≠ 0) by (rewrite Z.lor_eq_0_iff; lia). pose proof (proj2 (Z.lor_nonneg v 2)). lia. }
    rewrite Z.log2_lor by lia. apply Z.max_lub_lt; [apply Z.log2_lt_pow2; lia|]. change (Z.log2 2) with 1. lia.
Qed.

Lemma uleb_lor2 v : 0 ≤ v < 2 ^ 64 → ∃ c l, uleb v = c :: l ∧ uleb (Z.lor v 2) = Z.lor c 2 :: l.
Proof.
  intros Hv. unfold uleb. cbn [uleb_bytes]. pose proof (lor2_mod v) as Hm. pose proof (lor2_div v) as Hd.
  destruct (lor2_range v 64 ltac:(lia) Hv) as [H0 _].
  destruct (Z.ltb_spec v 128).
  - assert (Z.lor v 2 < 128) by (apply (lor2_range v 7); lia).
    destruct (Z.ltb_spec (Z.lor v 2) 128); [|lia]. by exists v, [].
  - destruct (Z.ltb_spec (Z.lor v 2) 128) as [Hlt|_].
    { pose proof (Z.div_small (Z.lor v 2) 128 ltac:(lia)). pose proof (Z.div_str_pos v 128 ltac:(lia)). lia. }
    rewrite Hd, Hm. exists (v mod 128 + 128), (uleb_bytes 9 (v / 128)). split; [done|]. f_equal.
    pose proof (Z.mod_pos_bound v 128 ltac:(lia)).
    destruct (low_bits (v mod 128 + 128)) as (_ & _ & -> & _); [unfold is_byte; lia|].
    destruct (Z.ltb_spec (v mod 128 + 128) 128); [lia|]. f_equal. f_equal.
    replace (v mod 128 + 128) with (v mod 128 + 1 * 128) by lia. by rewrite Z.mod_add, Z.mod_mod by lia.
Qed.

Lemma uleb_pos v : 0 < zlen (uleb v).
Proof. unfold uleb. cbn [uleb_bytes]. destruct (v <? 128); rewrite zlen_cons; zlia. Qed.

(** ** The grammar *)
Definition enc_bytes (b : bytes) : bytes := uleb (zlen b) ++ b.
(** A vector: the number of elements and the elements. *)
Definition enc_all {A} (enc : A → bytes) (l : list A) : bytes := concat (enc <$> l).
Definition enc_vec {A} (enc : A → bytes) (l : list A) : bytes := uleb (zlen l) ++ enc_all enc l.

Record limits := Lim { lim_flags : Z; lim_min : Z; lim_max : Z }.
Inductive import_desc :=
| ImFunc (t : Z) | ImTable (elem : Z) (l : limits) | ImMemory (l : limits)
| ImGlobal (t mut : Z) | ImTag (attr t : Z).
Record import := Import_ { im_module : bytes; im_name : bytes; im_desc : import_desc }.
Record sym_desc := SymDesc {
  d_kind : Z; d_flags : Z; d_index : Z; d_name : bytes; d_data : Z * Z * Z }.
#[export] Instance eta_sym_desc : Eta sym_desc := λ r,
  {| d_kind := d_kind r; d_flags := d_flags r; d_index := d_index r; d_name := d_name r; d_data := d_data r |}.
Inductive subsection := SymTable (l : list sym_desc) | SubOther (id : Z) (payload : bytes).
Inductive section :=
| SecTypes (l : list FuncSig) | SecImports (l : list import) | SecFuncs (l : list Z)
| SecLinking (version : Z) (l : list subsection)
| SecCustom (name payload : bytes) | SecOther (id : Z) (payload : bytes).
Definition object := list section.

Definition enc_limits (l : limits) : bytes :=
  lim_flags l :: uleb (lim_min l) ++ (if Z.land (lim_flags l) 1 =? 0 then [] else uleb (lim_max l)).
Definition enc_type (f : FuncSig) : bytes := 96 :: enc_bytes (fs_params f) ++ enc_bytes (fs_results f).
Definition enc_import (i : import) : bytes :=
  enc_bytes (im_module i) ++ enc_bytes (im_name i) ++
  match im_desc i with
  | ImFunc t => 0 :: uleb t
  | ImTable elem l => 1 :: elem :: enc_limits l
  | ImMemory l => 2 :: enc_limits l
  | ImGlobal t mut => [3; t; mut]
  | ImTag attr t => 4 :: attr :: uleb t
  end.

Definition is_indexed (kind : Z) : bool := (kind =? KindGlobal) || (kind =? KindTag) || (kind =? KindTable).
Definition enc_opt_name (d : sym_desc) : bytes := if flags_named (d_flags d) then enc_bytes (d_name d) else [].
Definition enc_sym_body (d : sym_desc) : bytes :=
  if d_kind d =? KindFunction then uleb (d_index d) ++ enc_opt_name d
  else if d_kind d =? KindData then
    enc_bytes (d_name d) ++
    (if flags_defined (d_flags d)
     then let '(a, b, c) := d_data d in uleb a ++ uleb b ++ uleb c else [])
  else if is_indexed (d_kind d) then uleb (d_index d) ++ enc_opt_name d
  else if d_kind d =? KindSection then uleb (d_index d)
  else [].
Definition enc_sym (d : sym_desc) : bytes := d_kind d :: uleb (d_flags d) ++ enc_sym_body d.
Definition enc_sub (s : subsection) : bytes :=
  match s with
  | SymTable l => linkingSymTable :: enc_bytes (enc_vec enc_sym l)
  | SubOther id payload => id :: enc_bytes payload
  end.
Definition section_id (s : section) : Z :=
  match s with
  | SecTypes _ => sectionType | SecImports _ => sectionImport | SecFuncs _ => sectionFunction
  | SecLinking _ _ | SecCustom _ _ => sectionCustom | SecOther id _ => id
  end.
Definition linking_name : bytes := bytes_of_string "linking".
Definition section_payload (s : section) : bytes :=
  match s with
  | SecTypes l => enc_vec enc_type l
  | SecImports l => enc_vec enc_import l
  | SecFuncs l => enc_vec uleb l
  | SecLinking version l => enc_bytes linking_name ++ uleb version ++ enc_all enc_sub l
  | SecCustom name payload => enc_bytes name ++ payload
  | SecOther _ payload => payload
  end.
Definition enc_section (s : section) : bytes := section_id s :: enc_bytes (section_payload s).
Definition wasm_header : bytes := wasm_magic ++ [1; 0; 0; 0].
Definition enc_object (o : object) : bytes := wasm_header ++ enc_all enc_section o.

(** Numbers fit 64 bits; other sections and subsections are other ones. *)
Definition is_u64 (v : Z) : Prop := 0 ≤ v < 2 ^ 64.
Definition sym_ok (d : sym_desc) : Prop :=
  is_u64 (d_flags d) ∧ is_u64 (d_index d) ∧
  is_u64 (d_data d).1.1 ∧ is_u64 (d_data d).1.2 ∧ is_u64 (d_data d).2.
Definition sub_ok (s : subsection) : Prop :=
  match s with SymTable l => Forall sym_ok l | SubOther id _ => id ≠ linkingSymTable end.
Definition limits_ok (l : limits) : Prop := is_u64 (lim_min l) ∧ is_u64 (lim_max l).
Definition import_ok (i : import) : Prop :=
  match im_desc i with
  | ImFunc t => is_u64 t | ImTable _ l | ImMemory l => limits_ok l
  | ImGlobal _ _ => True | ImTag _ t => is_u64 t
  end.
Definition section_ok (s : section) : Prop :=
  match s with
  | SecTypes _ => True
  | SecImports l => Forall import_ok l
  | SecFuncs l => Forall is_u64 l
  | SecLinking version l => is_u64 version ∧ Forall sub_ok l
  | SecCustom name _ => string_of_bytes name ≠ "linking"
  | SecOther id _ => id ≠ sectionCustom ∧ id ≠ sectionType ∧ id ≠ sectionImport ∧ id ≠ sectionFunction
  end.
Definition object_ok (o : object) : Prop := Forall section_ok o.

(** ** Its meaning: what each part adds to the table *)
Definition sem_name (d : sym_desc) : string :=
  if d_kind d =? KindData then string_of_bytes (d_name d)
  else if d_kind d =? KindSection then ""
  else if flags_named (d_flags d) then string_of_bytes (d_name d) else "".

Definition sem_sym (off : Z) (st : symstate) (d : sym_desc) : res symstate :=
  let sym f := Done (st <| st_syms ::= λ l, l ++ [mkSymbol (d_kind d) (d_flags d) (off + 1) (sem_name d) f] |>) in
  if d_kind d =? KindFunction then
    if flags_defined (d_flags d) then f ← sym_func st (sem_name d) (d_index d); sym (Some f) else sym None
  else if (d_kind d =? KindData) || is_indexed (d_kind d) || (d_kind d =? KindSection) then sym None
  else Fail (BadKind (d_kind d)).

(** Elements one after the other, at file offset [off]. *)
Fixpoint sem_all {A} (enc : A → bytes) (sem : Z → symstate → A → res symstate) (off : Z) (st : symstate) (l : list A)
    : res symstate :=
  match l with
  | [] => Done st
  | x :: l => st ← sem off st x; sem_all enc sem (off + zlen (enc x)) st l
  end.

Definition sem_type (_ : Z) (st : symstate) (f : FuncSig) : res symstate := Done (st <| st_types ::= λ l, l ++ [f] |>).
Definition sem_import (_ : Z) (st : symstate) (i : import) : res symstate :=
  Done (match im_desc i with ImFunc _ => st <| st_imports ::= λ n, n + 1 |> | _ => st end).
Definition sem_func (_ : Z) (st : symstate) (t : Z) : res symstate := Done (st <| st_funcTypes ::= λ l, l ++ [u32 t] |>).
Definition sem_sub (off : Z) (st : symstate) (s : subsection) : res symstate :=
  match s with
  | SymTable l =>
      sem_all enc_sym sem_sym (off + 1 + zlen (uleb (zlen (enc_vec enc_sym l))) + zlen (uleb (zlen l))) st l
  | SubOther _ _ => Done st
  end.
Definition sem_section (off : Z) (st : symstate) (s : section) : res symstate :=
  match s with
  | SecTypes l => sem_all enc_type sem_type off st l
  | SecImports l => sem_all enc_import sem_import off st l
  | SecFuncs l => sem_all uleb sem_func off st l
  | SecLinking version l =>
      sem_all enc_sub sem_sub
        (off + 1 + zlen (uleb (zlen (section_payload s))) + zlen (enc_bytes linking_name) + zlen (uleb version))
        (st <| st_found := true |>) l
  | SecCustom _ _ | SecOther _ _ => Done st
  end.
Definition sem_object (o : object) : res (list Symbol) :=
  st ← sem_all enc_section sem_section 8 (mkSt [] 0 [] [] false) o;
  if st_found st then Done (st_syms st) else Fail NoLinking.

(** * Reading what was written *)

(** The reader is at file offset [off], with [l] left to read. *)
Record at_ (r : reader) (off : Z) (l : bytes) : Prop := {
  at_rest : rd_rest r = l;
  at_off : rd_base r + rd_i r = off;
  at_range : 0 ≤ rd_i r ≤ rd_len r;
  at_cap : rd_len r ≤ zlen (rd_arr r) < 2 ^ 63;
}.

Lemma at_len r off l : at_ r off l → zlen l = rd_len r - rd_i r.
Proof. intros [<- _ H1 H2]. unfold rd_rest. rewrite zlen_drop, zlen_take. lia. Qed.

Lemma zdrop_zdrop {A} n m (l : list A) : 0 ≤ n → 0 ≤ m → zdrop n (zdrop m l) = zdrop (m + n) l.
Proof. intros. unfold zdrop. rewrite drop_drop. f_equal. lia. Qed.

(** Moving on by [k] bytes of what is left. *)
Lemma at_skip r off b l : at_ r off (b ++ l) → at_ (r <| rd_i := rd_i r + zlen b |>) (off + zlen b) l.
Proof.
  intros Hat. pose proof (at_len _ _ _ Hat) as Hlen. destruct Hat as [Hr Ho H1 H2].
  rewrite zlen_app in Hlen. pose proof (zlen_nonneg b). pose proof (zlen_nonneg l). split; simpl; try lia.
  unfold rd_rest in *. simpl. rewrite <- zdrop_zdrop by lia. rewrite Hr.
  rewrite zdrop_app_ge by lia. replace (zlen b - zlen b) with 0 by lia. apply zdrop_0.
Qed.

Lemma znth_drop {A} (l : list A) i x k : 0 ≤ i → zdrop i l = x :: k → znth l i = Some x.
Proof.
  intros Hi Hd. unfold znth. destruct (Z.ltb_spec i 0); [lia|].
  unfold zdrop in Hd. apply (f_equal (λ l, l !! 0%nat)) in Hd. rewrite lookup_drop, Nat.add_0_r in Hd. done.
Qed.

Lemma at_byte r off c l : at_ r off (c :: l) → ∃ r', reader_byte r = Done (c, r') ∧ at_ r' (off + 1) l.
Proof.
  intros Hat. pose proof Hat as [Hr _ H1 _]. unfold reader_byte. rewrite (znth_drop _ _ c l); [|lia|done].
  eexists. split; [done|]. apply (at_skip r off [c] l Hat).
Qed.

Lemma at_uleb r off v l : is_u64 v → at_ r off (uleb v ++ l) →
  ∃ r', reader_uleb r = Done (v, r') ∧ at_ r' (off + zlen (uleb v)) l.
Proof.
  intros Hv Hat. unfold reader_uleb. rewrite (at_rest _ _ _ Hat), uleb_go_uleb by done.
  eexists. split; [done|]. apply (at_skip r off _ l Hat).
Qed.

(** Slices of what is left. *)
Lemma at_slice r off b l : at_ r off (b ++ l) →
  slice_ok r (zlen b) = true ∧ i64 (rd_i r + zlen b) = rd_i r + zlen b ∧ ztake (zlen b) (zdrop (rd_i r) (rd_arr r)) = b.
Proof.
  intros Hat. pose proof (at_len _ _ _ Hat) as Hlen. destruct Hat as [Hr Ho H1 H2].
  rewrite zlen_app in Hlen. pose proof (zlen_nonneg b). pose proof (zlen_nonneg l).
  unfold slice_ok. rewrite wrapS_small by lia. split_and!; [|done|].
  - apply andb_true_intro. split; apply Z.leb_le; lia.
  - unfold rd_rest in Hr. replace (rd_len r) with (rd_i r + zlen (b ++ l)) in Hr by (rewrite zlen_app; lia).
    rewrite <- ztake_zdrop in Hr by lia. apply (f_equal (ztake (zlen b))) in Hr.
    rewrite ztake_ztake, ztake_app_le, Z.min_l in Hr by zlia. by rewrite (ztake_all _ b) in Hr by lia.
Qed.

Lemma at_bytes r off b l : at_ r off (b ++ l) →
  ∃ r', reader_bytes r (zlen b) = Done (b, r') ∧ at_ r' (off + zlen b) l.
Proof.
  intros Hat. destruct (at_slice _ _ _ _ Hat) as (Hs & Hi & Hb). unfold reader_bytes. rewrite Hs, Hb.
  eexists. split; [done|]. pose proof (at_skip _ _ _ _ Hat) as Hk. simpl in *. by rewrite Hi.
Qed.

Lemma at_sub r off b l : at_ r off (b ++ l) →
  ∃ s r', reader_sub r (zlen b) = Done (s, r') ∧ at_ s off b ∧ at_ r' (off + zlen b) l ∧ rd_i s = 0.
Proof.
  intros Hat. destruct (at_slice _ _ _ _ Hat) as (Hs & Hi & Hb). pose proof (at_len _ _ _ Hat) as Hlen.
  unfold reader_sub. rewrite Hs. eexists _, _. split; [done|]. pose proof (at_skip _ _ _ _ Hat) as Hk.
  destruct Hat as [Hr Ho H1 H2]. rewrite zlen_app in Hlen. pose proof (zlen_nonneg b). pose proof (zlen_nonneg l).
  split_and!; [|simpl in *; by rewrite Hi|done]. split; simpl; try lia.
  - unfold rd_rest. simpl. by rewrite Hb.
  - rewrite zlen_drop. lia.
Qed.

Lemma zlen_u64 r off b l : at_ r off (b ++ l) → is_u64 (zlen b) ∧ i64 (zlen b) = zlen b.
Proof.
  intros Hat. pose proof (at_len _ _ _ Hat) as Hlen. destruct Hat as [_ _ H1 H2]. rewrite zlen_app in Hlen.
  pose proof (zlen_nonneg b). pose proof (zlen_nonneg l). unfold is_u64. split; [lia|]. apply wrapS_small; lia.
Qed.

Lemma at_sized r off b l : at_ r off (enc_bytes b ++ l) →
  ∃ r', reader_uleb r = Done (zlen b, r') ∧ at_ r' (off + zlen (uleb (zlen b))) (b ++ l) ∧ i64 (zlen b) = zlen b.
Proof.
  intros Hat. unfold enc_bytes in Hat. pose proof Hat as Hat2.
  assert (is_u64 (zlen b) ∧ i64 (zlen b) = zlen b) as [Hu Hi].
  { pose proof (at_len _ _ _ Hat) as Hlen. destruct Hat as [_ _ H1 H2]. rewrite !zlen_app in Hlen.
    pose proof (zlen_nonneg b). pose proof (zlen_nonneg l). pose proof (uleb_pos (zlen b)).
    unfold is_u64. split; [lia|]. apply wrapS_small; lia. }
  rewrite <- app_assoc in Hat2. destruct (at_uleb _ _ _ _ Hu Hat2) as (r' & -> & Hat'). by exists r'.
Qed.

Lemma at_name r off b l : at_ r off (enc_bytes b ++ l) →
  ∃ r', reader_name r = Done (string_of_bytes b, r') ∧ at_ r' (off + zlen (enc_bytes b)) l.
Proof.
  intros Hat. destruct (at_sized _ _ _ _ Hat) as (r1 & E1 & Hat1 & Hi). unfold reader_name. rewrite E1.
  cbn [mbind res_bind]. rewrite Hi. destruct (at_bytes _ _ _ _ Hat1) as (r2 & E2 & Hat2). rewrite E2.
  cbn [mbind res_bind]. exists r2. split; [done|]. unfold enc_bytes. rewrite zlen_app.
  by replace (off + (zlen (uleb (zlen b)) + zlen b)) with (off + zlen (uleb (zlen b)) + zlen b) by lia.
Qed.

Lemma at_opt_name r off d l : at_ r off (enc_opt_name d ++ l) →
  ∃ r', opt_name (flags_named (d_flags d)) r =
      Done (if flags_named (d_flags d) then string_of_bytes (d_name d) else "", r') ∧
    at_ r' (off + zlen (enc_opt_name d)) l.
Proof.
  unfold enc_opt_name, opt_name. destruct (flags_named _); [apply at_name|].
  intros Hat. exists r. split; [done|]. rewrite zlen_nil, Z.add_0_r. exact Hat.
Qed.

(** One step of a parser that is where [Hat] says: [at_run] uses the lemmas for
    the readers as far as they go. *)
Ltac at_with L :=
  let r' := fresh "r" in let E := fresh "E" in let H := fresh "Hat" in
  destruct L as (r' & E & H); rewrite E; cbn [mbind res_bind].
Ltac at_run :=
  repeat (match goal with
  | H : at_ ?r _ _ |- context [reader_byte ?r] =>
      rewrite ?app_nil_l, <- ?app_assoc, <- ?app_comm_cons in H; at_with (at_byte _ _ _ _ H)
  | H : at_ ?r _ _ |- context [reader_name ?r] =>
      rewrite ?app_nil_l, <- ?app_assoc in H; at_with (at_name _ _ _ _ H)
  | H : at_ ?r _ _, Hu : is_u64 ?v |- context [reader_uleb ?r] =>
      rewrite ?app_nil_l, <- ?app_assoc in H; at_with (at_uleb _ _ _ _ Hu H)
  | H : at_ ?r _ _ |- context [opt_name _ ?r] =>
      rewrite ?app_nil_l, <- ?app_assoc in H; at_with (at_opt_name _ _ _ _ H)
  end; cbn [Z.eqb Pos.eqb]; cbv beta iota).
(** The end: where the reader has got to. *)
Ltac at_end :=
  match goal with H : at_ ?r ?o _ |- at_ ?r ?o' ?l =>
    rewrite ?app_nil_l in H; replace o' with o; [exact H|];
    repeat (rewrite ?zlen_app, ?zlen_cons, ?zlen_nil); lia end.

Lemma at_limits r off li l : limits_ok li → at_ r off (enc_limits li ++ l) →
  ∃ r', reader_limits r = Done r' ∧ at_ r' (off + zlen (enc_limits li)) l.
Proof.
  intros [H1 H2] Hat. unfold enc_limits in *. unfold reader_limits.
  at_run. destruct (Z.land (lim_flags li) 1 =? 0); at_run; eexists; (split; [done|]); at_end.
Qed.

(** [body] reads what [enc] writes, and does what [sem] says. *)
Definition reads {A} (body : reader * symstate → res (reader * symstate)) (enc : A → bytes)
    (sem : Z → symstate → A → res symstate) (x : A) : Prop :=
  ∀ l r off st, at_ r off (enc x ++ l) →
    match sem off st x with
    | Done st' => ∃ r', body (r, st) = Done (r', st') ∧ at_ r' (off + zlen (enc x)) l
    | Fail e => body (r, st) = Fail e
    | Crash => body (r, st) = Crash
    | NoFuel => False
    end.

Lemma type_reads f : reads type_entry enc_type sem_type f.
Proof.
  intros l r off st Hat. unfold enc_type, sem_type, type_entry in *. cbn [fst snd]. at_run. cbn [negb Z.eqb Pos.eqb].
  rewrite <- app_assoc in Hat0. destruct (at_sized _ _ _ _ Hat0) as (r1 & -> & Hat1 & Hi). cbn [mbind res_bind]. rewrite Hi.
  at_with (at_bytes _ _ _ _ Hat1).
  destruct (at_sized _ _ _ _ Hat2) as (r3 & -> & Hat3 & Hi3). cbn [mbind res_bind]. rewrite Hi3.
  at_with (at_bytes _ _ _ _ Hat3).
  eexists. split; [by destruct f|]. unfold enc_bytes. at_end.
Qed.

Lemma func_reads v : is_u64 v → reads func_entry uleb sem_func v.
Proof. intros Hv l r off st Hat. unfold func_entry, sem_func. cbn [fst snd]. at_run. by eexists. Qed.

Lemma import_reads i : import_ok i → reads import_entry enc_import sem_import i.
Proof.
  intros Hi l r off st Hat. unfold enc_import, sem_import, import_entry, import_ok in *. cbn [fst snd].
  destruct (im_desc i) as [t|elem li|li|t mut|attr t]; at_run; cbn [Z.eqb Pos.eqb].
  - eexists. split; [done|]. at_end.
  - at_with (at_limits _ _ _ _ Hi Hat3). eexists. split; [done|]. at_end.
  - at_with (at_limits _ _ _ _ Hi Hat2). eexists. split; [done|]. at_end.
  - eexists. split; [done|]. at_end.
  - eexists. split; [done|]. at_end.
Qed.

Lemma symbol_reads d : sym_ok d → reads symbol_entry enc_sym sem_sym d.
Proof.
  intros (Hf & Hi & Ha & Hb & Hc) l r off st Hat. unfold enc_sym, sem_sym, symbol_entry, read_symbol in *. cbn [fst snd].
  cbv zeta. at_run. rewrite (at_off _ _ _ Hat0). at_run. unfold enc_sym_body in *. unfold sem_name.
  destruct (Z.eqb_spec (d_kind d) KindFunction) as [Ek|Ek].
  { rewrite Ek. at_run. cbn [Z.eqb KindFunction KindData KindSection Pos.eqb].
    destruct (flags_defined (d_flags d)).
    - unfold sym_func. destruct (znth (st_funcTypes st) _) as [t|]; [|done].
      destruct (znth (st_types st) t); [|done]. cbn [mbind res_bind]. eexists. split; [done|]. at_end.
    - eexists. split; [done|]. at_end. }
  destruct (Z.eqb_spec (d_kind d) KindData) as [Ed|Ed].
  { destruct (flags_defined (d_flags d)).
    - destruct (d_data d) as [[a b] c]. cbn [fst snd] in *. at_run. eexists. split; [done|]. at_end.
    - at_run. eexists. split; [done|]. at_end. }
  fold (is_indexed (d_kind d)). cbn [orb]. destruct (is_indexed (d_kind d)) eqn:Ei.
  { assert ((d_kind d =? KindSection) = false) as ->.
    { apply Z.eqb_neq. intros Es. by rewrite Es in Ei. }
    cbn [orb]. at_run. eexists. split; [done|]. at_end. }
  cbn [orb]. destruct (d_kind d =? KindSection); [|done].
  at_run. eexists. split; [done|]. at_end.
Qed.

(** ** Sequences *)
Lemma enc_all_cons {A} (enc : A → bytes) x l : enc_all enc (x :: l) = enc x ++ enc_all enc l.
Proof. done. Qed.

Lemma enc_all_length {A} (enc : A → bytes) l : (∀ x, 0 < zlen (enc x)) → zlen l ≤ zlen (enc_all enc l).
Proof.
  intros Hp. induction l as [|x l IH]; [done|]. rewrite enc_all_cons, zlen_cons, zlen_app.
  specialize (Hp x). lia.
Qed.

Section loops.
Context {A : Type} (body : reader * symstate → res (reader * symstate)) (enc : A → bytes)
  (sem : Z → symstate → A → res symstate) (Hpos : ∀ x, 0 < zlen (enc x)).

(** What a loop over [xs] does. *)
Definition loop_reads (run : res (reader * symstate)) (off : Z) (st : symstate) (xs : list A) (l : bytes) : Prop :=
  match sem_all enc sem off st xs with
  | Done st' => ∃ r', run = Done (r', st') ∧ at_ r' (off + zlen (enc_all enc xs)) l
  | Fail e => run = Fail e
  | Crash => run = Crash
  | NoFuel => False
  end.

Lemma range_reads xs l r off st fuel : Forall (reads body enc sem) xs →
  at_ r off (enc_all enc xs ++ l) → (length xs < fuel)%nat →
  loop_reads (range_loop fuel (zlen xs) body (r, st)) off st xs l.
Proof.
  unfold loop_reads. intros Hr. revert r off st fuel. induction Hr as [|x xs Hx _ IH]; intros r off st fuel Hat Hf;
    (destruct fuel as [|fuel]; [simpl in Hf; lia|]); cbn [range_loop sem_all].
  { exists r. split; [done|]. change (zlen (enc_all enc [])) with 0. rewrite Z.add_0_r. exact Hat. }
  rewrite zlen_cons. pose proof (zlen_nonneg xs). destruct (Z.eqb_spec (1 + zlen xs) 0); [lia|].
  rewrite enc_all_cons, <- app_assoc in Hat. specialize (Hx _ r off st Hat).
  destruct (sem off st x) as [st1|e| |]; cbn [mbind res_bind]; [|by rewrite Hx..|done].
  destruct Hx as (r1 & -> & Hat1). cbn [mbind res_bind]. replace (1 + zlen xs - 1) with (zlen xs) by lia.
  specialize (IH r1 (off + zlen (enc x)) st1 fuel Hat1). simpl in Hf.
  destruct (sem_all _ _ _ _ _); try (apply IH; lia).
  destruct IH as (r' & ? & Hat'); [lia|]. exists r'. split; [done|].
  rewrite enc_all_cons, zlen_app, Z.add_assoc. exact Hat'.
Qed.

Lemma while_reads xs r off st fuel : Forall (reads body enc sem) xs →
  at_ r off (enc_all enc xs) → (length xs < fuel)%nat →
  loop_reads (while_loop fuel fst body (r, st)) off st xs [].
Proof.
  unfold loop_reads. intros Hr. revert r off st fuel. induction Hr as [|x xs Hx _ IH]; intros r off st fuel Hat Hf;
    (destruct fuel as [|fuel]; [simpl in Hf; lia|]); cbn [while_loop sem_all fst]; pose proof (at_len _ _ _ Hat) as Hlen.
  { change (zlen (enc_all enc [])) with 0 in *. destruct (Z.leb_spec (rd_len r) (rd_i r)); [|lia].
    exists r. split; [done|]. rewrite Z.add_0_r. exact Hat. }
  rewrite enc_all_cons, zlen_app in Hlen. pose proof (Hpos x). pose proof (zlen_nonneg (enc_all enc xs)).
  destruct (Z.leb_spec (rd_len r) (rd_i r)); [lia|].
  rewrite enc_all_cons in Hat. specialize (Hx _ r off st Hat).
  destruct (sem off st x) as [st1|e| |]; cbn [mbind res_bind]; [|by rewrite Hx..|done].
  destruct Hx as (r1 & -> & Hat1). cbn [mbind res_bind].
  specialize (IH r1 (off + zlen (enc x)) st1 fuel Hat1). simpl in Hf.
  destruct (sem_all _ _ _ _ _); try (apply IH; lia).
  destruct IH as (r' & ? & Hat'); [lia|]. exists r'. split; [done|].
  rewrite enc_all_cons, zlen_app, Z.add_assoc. exact Hat'.
Qed.

(** A vector in a section of its own, which ends with it. *)
Lemma vec_reads xs r off st : Forall (reads body enc sem) xs → at_ r off (enc_vec enc xs) → rd_i r = 0 →
  ∃ r1, reader_uleb r = Done (zlen xs, r1) ∧
    loop_reads (range_loop (rd_fuel r1) (zlen xs) body (r1, st)) (off + zlen (uleb (zlen xs))) st xs [].
Proof.
  intros Hr Hat Hi. unfold enc_vec in Hat. pose proof (enc_all_length enc xs Hpos) as Hle.
  pose proof (at_len _ _ _ Hat) as Hlen. rewrite zlen_app in Hlen. pose proof (uleb_pos (zlen xs)).
  pose proof (at_range _ _ _ Hat) as Hrange. pose proof (at_cap _ _ _ Hat) as Hcap.
  assert (is_u64 (zlen xs)) as Hu by (unfold is_u64; pose proof (zlen_nonneg xs); lia).
  destruct (at_uleb _ _ _ _ Hu Hat) as (r1 & E & Hat1). exists r1. split; [done|].
  pose proof (at_len _ _ _ Hat1) as Hlen1. pose proof (at_range _ _ _ Hat1) as Hrange1.
  apply range_reads; [done|by rewrite app_nil_r|]. unfold rd_fuel. unfold zlen at 1 in Hle. lia.
Qed.
End loops.

Lemma enc_sym_pos d : 0 < zlen (enc_sym d).
Proof. unfold enc_sym. rewrite zlen_cons. zlia. Qed.
Lemma enc_type_pos d : 0 < zlen (enc_type d).
Proof. unfold enc_type. rewrite zlen_cons. zlia. Qed.
Lemma enc_import_pos d : 0 < zlen (enc_import d).
Proof.
  unfold enc_import. match goal with |- context [_ ++ _ ++ ?x] => generalize x end. intros b.
  unfold enc_bytes. rewrite !zlen_app. pose proof (uleb_pos (zlen (im_module d))). zlen_facts. lia.
Qed.
Lemma enc_sub_pos d : 0 < zlen (enc_sub d).
Proof. destruct d; simpl; rewrite zlen_cons; zlia. Qed.
Lemma enc_section_pos d : 0 < zlen (enc_section d).
Proof. unfold enc_section. rewrite zlen_cons. zlia. Qed.

Lemma Forall_reads {A} (P : A → Prop) body enc sem l :
  (∀ x, P x → reads body enc sem x) → Forall P l → Forall (reads body enc sem) l.
Proof. intros H Hl. exact (Forall_impl _ _ _ Hl H). Qed.

Lemma sub_reads s : sub_ok s → reads link_entry enc_sub sem_sub s.
Proof.
  intros Hs l r off st Hat. unfold link_entry. cbn [fst snd].
  destruct s as [syms|id payload]; unfold enc_sub in Hat; cbn [sem_sub]; at_run.
  - destruct (at_sized _ _ _ _ Hat0) as (r1 & -> & Hat1 & Hi). cbn [mbind res_bind]. rewrite Hi.
    destruct (at_sub _ _ _ _ Hat1) as (ss & r2 & -> & Hss & Hat2 & Hi0). cbn [mbind res_bind].
    cbn [negb linkingSymTable Z.eqb Pos.eqb].
    destruct (vec_reads symbol_entry enc_sym sem_sym enc_sym_pos syms ss _ st
      (Forall_reads _ _ _ _ _ symbol_reads Hs) Hss Hi0) as (r3 & -> & Hl). cbn [mbind res_bind]. unfold loop_reads in Hl.
    destruct (sem_all _ _ _ _ _) as [st'|e| |]; [|by rewrite Hl..|done].
    destruct Hl as (r4 & -> & _). cbn [mbind res_bind]. exists r2. split; [done|].
    unfold enc_sub, enc_bytes. rewrite zlen_cons, zlen_app.
    match goal with H : at_ r2 ?o _ |- at_ r2 ?o' _ => replace o' with o by lia; exact H end.
  - destruct (at_sized _ _ _ _ Hat0) as (r1 & -> & Hat1 & Hi). cbn [mbind res_bind]. rewrite Hi.
    destruct (at_sub _ _ _ _ Hat1) as (ss & r2 & -> & Hss & Hat2 & Hi0). cbn [mbind res_bind].
    cbn [sub_ok] in Hs. rewrite (proj2 (Z.eqb_neq _ _) Hs). cbn [negb].
    exists r2. split; [done|]. unfold enc_sub, enc_bytes. rewrite zlen_cons, zlen_app.
    match goal with H : at_ r2 ?o _ |- at_ r2 ?o' _ => replace o' with o by lia; exact H end.
Qed.

(** The sections that are vectors. *)
Lemma vec_section_reads {A} body enc sem (Hpos : ∀ x : A, 0 < zlen (enc x)) xs sec off st :
  (∀ o o' st x, sem o st x = sem o' st x) →
  Forall (reads body enc sem) xs → at_ sec off (enc_vec enc xs) → rd_i sec = 0 → ∀ o,
  ('(n, sec) ← reader_uleb sec; '(_, st) ← range_loop (rd_fuel sec) n body (sec, st); Done st) =
  sem_all enc sem o st xs.
Proof.
  intros Hoff Hr Hat Hi o. destruct (vec_reads body enc sem Hpos xs sec off st Hr Hat Hi) as (r1 & -> & Hl).
  cbn [mbind res_bind]. unfold loop_reads in Hl.
  assert (∀ o', sem_all enc sem o' st xs = sem_all enc sem o st xs) as Heq.
  { clear -Hoff. intros o'. revert st o o'. induction xs as [|x xs IH]; intros st o o'; [done|]. cbn [sem_all].
    rewrite (Hoff o' o). destruct (sem o st x); cbn [mbind res_bind]; [apply IH|done..]. }
  rewrite (Heq (off + zlen (uleb (zlen xs)))) in Hl. destruct (sem_all _ _ o _ _); [|by rewrite Hl..|done].
  by destruct Hl as (r' & -> & _).
Qed.

Lemma section_payload_reads s sec off st :
  section_ok s → at_ sec (off + 1 + zlen (uleb (zlen (section_payload s)))) (section_payload s) → rd_i sec = 0 →
  read_section (section_id s) sec st = sem_section off st s.
Proof.
  intros Hok Hat Hi. unfold read_section.
  destruct s as [l|l|l|version l|name payload|id payload]; cbn [section_id section_payload sem_section section_ok] in *.
  - cbn [Z.eqb Pos.eqb sectionType].
    by apply (vec_section_reads type_entry enc_type sem_type enc_type_pos l sec _ st (λ _ _ _ _, eq_refl)
      (Forall_reads (λ _, True) _ _ _ l (λ f _, type_reads f) ltac:(by apply Forall_true)) Hat Hi).
  - cbn [Z.eqb Pos.eqb sectionType sectionImport].
    by apply (vec_section_reads import_entry enc_import sem_import enc_import_pos l sec _ st (λ _ _ _ _, eq_refl)
      (Forall_reads _ _ _ _ l import_reads Hok) Hat Hi).
  - cbn [Z.eqb Pos.eqb sectionType sectionImport sectionFunction].
    by apply (vec_section_reads func_entry uleb sem_func uleb_pos l sec _ st (λ _ _ _ _, eq_refl)
      (Forall_reads _ _ _ _ l func_reads Hok) Hat Hi).
  - cbn [Z.eqb Pos.eqb sectionType sectionImport sectionFunction sectionCustom].
    destruct Hok as [Hv Hok]. at_run. change (string_of_bytes linking_name) with "linking".
    rewrite bool_decide_eq_true_2 by done. cbn [negb]. at_run.
    pose proof (at_len _ _ _ Hat1) as Hlen. pose proof (at_range _ _ _ Hat1) as Hrange.
    pose proof (enc_all_length enc_sub l enc_sub_pos) as Hle.
    pose proof (while_reads link_entry enc_sub sem_sub enc_sub_pos l r0 _ (st <| st_found := true |>) (rd_fuel r0)
      (Forall_reads _ _ _ _ l sub_reads Hok) Hat1) as Hw. unfold loop_reads in Hw.
    destruct (sem_all _ _ _ _ _) as [st'|e| |]; try (rewrite Hw; [done|unfold rd_fuel; unfold zlen at 1 in Hle; lia]).
    + destruct Hw as (r' & -> & _); [unfold rd_fuel; unfold zlen at 1 in Hle; lia|done].
    + destruct Hw. unfold rd_fuel. unfold zlen at 1 in Hle. lia.
  - cbn [Z.eqb Pos.eqb sectionType sectionImport sectionFunction sectionCustom]. at_run.
    by rewrite bool_decide_eq_false_2.
  - destruct Hok as (H1 & H2 & H3 & H4).
    by rewrite (proj2 (Z.eqb_neq id _) H1), (proj2 (Z.eqb_neq id _) H2), (proj2 (Z.eqb_neq id _) H3), (proj2 (Z.eqb_neq id _) H4).
Qed.

Lemma sem_all_fuel {A} enc sem (l : list A) off st :
  (∀ off st x, sem off st x ≠ NoFuel) → sem_all enc sem off st l ≠ NoFuel.
Proof.
  intros Hs. revert off st. induction l as [|x l IH]; intros off st; [done|]. cbn [sem_all].
  specialize (Hs off st x). by destruct (sem off st x); [apply IH|..].
Qed.

Lemma sem_sym_fuel off st d : sem_sym off st d ≠ NoFuel.
Proof.
  unfold sem_sym. cbv zeta. destruct (_ =? KindFunction).
  - destruct (flags_defined _); [|done]. unfold sym_func. destruct (znth _ _); [|done]. by destruct (znth _ _).
  - by destruct (_ || _).
Qed.
Lemma sem_section_fuel off st s : sem_section off st s ≠ NoFuel.
Proof.
  destruct s; cbn [sem_section]; try done; apply sem_all_fuel; try done.
  intros off' st' [l0|]; [|done]. cbn [sem_sub]. apply sem_all_fuel, sem_sym_fuel.
Qed.

Lemma section_reads s : section_ok s → reads section_entry enc_section sem_section s.
Proof.
  intros Hs l r off st Hat. unfold section_entry. cbn [fst snd]. unfold enc_section in Hat. at_run.
  destruct (at_sized _ _ _ _ Hat0) as (r1 & -> & Hat1 & Hi). cbn [mbind res_bind]. rewrite Hi.
  destruct (at_sub _ _ _ _ Hat1) as (sec & r2 & -> & Hsec & Hat2 & Hi0). cbn [mbind res_bind].
  rewrite (section_payload_reads s sec off st Hs Hsec Hi0). pose proof (sem_section_fuel off st s) as Hf.
  destruct (sem_section off st s); cbn [mbind res_bind]; [|done..].
  exists r2. split; [done|]. unfold enc_section, enc_bytes. rewrite zlen_cons, zlen_app.
  match goal with H : at_ r2 ?o _ |- at_ r2 ?o' _ => replace o' with o by lia; exact H end.
Qed.

Lemma Symbols_enc o spare : object_ok o → zlen (enc_object o) + zlen spare < 2 ^ 63 →
  Symbols (enc_object o) spare = sem_object o.
Proof.
  intros Ho Hlen. unfold Symbols, sem_object.
  assert (zlen (enc_object o) = 8 + zlen (enc_all enc_section o)) as Hl.
  { unfold enc_object. rewrite zlen_app. done. }
  pose proof (zlen_nonneg (enc_all enc_section o)). pose proof (zlen_nonneg spare).
  destruct (Z.ltb_spec (zlen (enc_object o)) 8); [lia|].
  rewrite bool_decide_eq_true_2 by done. cbn [negb orb].
  change (le_val (ztake 4 (zdrop 4 (enc_object o)))) with 1. cbn [Z.eqb Pos.eqb negb].
  set (r := Reader _ _ _ _).
  assert (at_ r 8 (enc_all enc_section o)) as Hat.
  { unfold r. split; cbn [rd_i rd_len rd_arr rd_base]; [|lia|lia|rewrite zlen_app; lia].
    unfold rd_rest. cbn [rd_i rd_len rd_arr]. rewrite ztake_app_le by lia. rewrite ztake_all by lia. done. }
  pose proof (enc_all_length enc_section o enc_section_pos) as Hle.
  pose proof (while_reads section_entry enc_section sem_section enc_section_pos o r 8 (mkSt [] 0 [] [] false)
    (S (length (enc_object o))) (Forall_reads _ _ _ _ o section_reads Ho) Hat) as Hw.
  assert (length o < S (length (enc_object o)))%nat as Hf by (unfold zlen in *; lia).
  specialize (Hw Hf). unfold loop_reads in Hw.
  destruct (sem_all _ _ _ _ _) as [st'|e| |]; [|by rewrite Hw..|done].
  by destruct Hw as (r' & -> & _).
Qed.

(** * Making symbols local *)
Section localize.
Context (keep : string → bool).

Definition desc_localizes (d : sym_desc) : bool :=
  flags_defined (d_flags d) && negb (flags_local (d_flags d)) && negb (bool_decide (sem_name d = "")) &&
  ((d_kind d =? KindFunction) || (d_kind d =? KindData)) && negb (keep (sem_name d)).
Definition loc_sym (d : sym_desc) : sym_desc :=
  if desc_localizes d then d <| d_flags ::= λ v, Z.lor v FlagBindingLocal |> else d.
Definition loc_sub (s : subsection) : subsection :=
  match s with SymTable l => SymTable (loc_sym <$> l) | SubOther _ _ => s end.
Definition loc_section (s : section) : section :=
  match s with SecLinking version l => SecLinking version (loc_sub <$> l) | _ => s end.
Definition loc_object (o : object) : object := loc_section <$> o.

(** The same on the table. *)
Definition mark (s : Symbol) : Symbol :=
  if localizes keep s then s <| s_flags ::= λ v, Z.lor v FlagBindingLocal |> else s.

Lemma flags_lor2 v : flags_defined (Z.lor v 2) = flags_defined v ∧ flags_named (Z.lor v 2) = flags_named v.
Proof.
  assert (∀ m, Z.land 2 m = 0 → Z.land (Z.lor v 2) m = Z.land v m) as H.
  { intros m Hm. by rewrite Z.land_lor_distr_l, Hm, Z.lor_0_r. }
  unfold flags_named, flags_defined. by rewrite !H.
Qed.

Lemma sem_name_lor2 d : sem_name (d <| d_flags ::= λ v, Z.lor v 2 |>) = sem_name d.
Proof. unfold sem_name. simpl. by rewrite (proj2 (flags_lor2 _)). Qed.

Lemma enc_sym_lor2 d : is_u64 (d_flags d) → ∃ c l,
  enc_sym d = d_kind d :: c :: l ∧ enc_sym (d <| d_flags ::= λ v, Z.lor v 2 |>) = d_kind d :: Z.lor c 2 :: l.
Proof.
  intros Hf. destruct (uleb_lor2 _ Hf) as (c & l & E1 & E2). exists c, (l ++ enc_sym_body d).
  unfold enc_sym. rewrite E1. split; [done|]. cbn [d_flags d_kind]. simpl (d_flags _). rewrite E2. cbn [app]. do 3 f_equal.
  unfold enc_sym_body, enc_opt_name. simpl. destruct (flags_lor2 (d_flags d)) as [-> ->]. done.
Qed.

Lemma set_local_at P k c l : set_local (zlen P + 1) (P ++ k :: c :: l) = Some (P ++ k :: Z.lor c FlagBindingLocal :: l).
Proof.
  unfold set_local. pose proof (zlen_nonneg P).
  assert (P ++ k :: c :: l = (P ++ [k]) ++ c :: l) as -> by (by rewrite <- app_assoc).
  assert (zlen P + 1 = zlen (P ++ [k])) as -> by (rewrite zlen_app; done).
  assert (znth ((P ++ [k]) ++ c :: l) (zlen (P ++ [k])) = Some c) as ->.
  { apply (znth_drop _ _ c l); [apply zlen_nonneg|]. rewrite zdrop_app_ge by lia. rewrite Z.sub_diag. done. }
  rewrite ztake_app_le, ztake_all by lia. rewrite zdrop_app_ge by lia.
  replace (zlen (P ++ [k]) + 1 - zlen (P ++ [k])) with 1 by lia.
  change (zdrop 1 (c :: l)) with l. f_equal. by rewrite <- app_assoc.
Qed.

Lemma patch_app s1 s2 data : patch keep (s1 ++ s2) data = patch keep s1 data ≫= patch keep s2.
Proof.
  revert data. induction s1 as [|s s1 IH]; intros data; [done|]. cbn [app patch].
  destruct (localizes keep s); [|apply IH]. destruct (set_local _ _); [apply IH|done].
Qed.

(** The flags of [s] are where it says. *)
Definition located (data : bytes) (s : Symbol) : Prop :=
  ∃ n, uleb_go (zdrop (s_flagsOffset s) data) 0 0 = Some (s_flags s, n).

(** The symbols [x] adds are located in its bytes, and patching them makes [x]
    into [loc x]. *)
Definition patches {A} (enc : A → bytes) (sem : Z → symstate → A → res symstate) (loc : A → A) (x : A) : Prop :=
  zlen (enc (loc x)) = zlen (enc x) ∧
  ∀ off st st' P Q, sem off st x = Done st' → zlen P = off →
    ∃ new, st_syms st' = st_syms st ++ new ∧ Forall (located (P ++ enc x ++ Q)) new ∧
      patch keep new (P ++ enc x ++ Q) = Some (P ++ enc (loc x) ++ Q).

(** Nothing is added and nothing changes. *)
Lemma patches_none {A} enc sem (loc : A → A) x :
  enc (loc x) = enc x → (∀ off st st', sem off st x = Done st' → st_syms st' = st_syms st) → patches enc sem loc x.
Proof.
  intros He Hs. split; [by rewrite He|]. intros off st st' P Q Hsem _. exists []. rewrite He, (Hs off st st' Hsem).
  split_and!; [by rewrite app_nil_r|constructor|done].
Qed.

Lemma enc_loc_len {A} (enc : A → bytes) (loc : A → A) l :
  Forall (λ x, zlen (enc (loc x)) = zlen (enc x)) l → zlen (enc_all enc (loc <$> l)) = zlen (enc_all enc l).
Proof.
  induction 1 as [|x l Hx _ IH]; [done|]. rewrite fmap_cons, !enc_all_cons, !zlen_app. lia.
Qed.

Lemma patches_all {A} enc sem (loc : A → A) l : Forall (patches enc sem loc) l →
  patches (enc_all enc) (λ off st l, sem_all enc sem off st l) (fmap loc) l.
Proof.
  intros Hl. split; [apply enc_loc_len; eapply Forall_impl; [exact Hl|by intros x []]|].
  induction Hl as [|x l [Hlen Hx] _ IH]; intros off st st' P Q Hsem HP; cbn [sem_all] in Hsem.
  { injection Hsem as <-. exists []. split_and!; [by rewrite app_nil_r|constructor|done]. }
  destruct (sem off st x) as [st1| | |] eqn:E; cbn [mbind res_bind] in Hsem; try done.
  destruct (Hx off st st1 P (enc_all enc l ++ Q) E HP) as (new1 & Hn1 & Hl1 & Hp1).
  destruct (IH (off + zlen (enc x)) st1 st' (P ++ enc x) Q Hsem) as (new2 & Hn2 & Hl2 & _);
    [rewrite zlen_app; lia|].
  destruct (IH (off + zlen (enc x)) st1 st' (P ++ enc (loc x)) Q Hsem) as (new2' & Hn2' & _ & Hp2);
    [rewrite zlen_app; lia|].
  assert (new2' = new2) as -> by (apply (app_inv_head (st_syms st1)); congruence).
  exists (new1 ++ new2). rewrite Hn2, Hn1, app_assoc. rewrite fmap_cons, !enc_all_cons.
  rewrite <- !app_assoc in *. split_and!; [done|by apply Forall_app|].
  rewrite patch_app, Hp1. exact Hp2.
Qed.

Lemma sym_patches d : sym_ok d → patches enc_sym sem_sym loc_sym d.
Proof.
  intros (Hf & _). destruct (enc_sym_lor2 d Hf) as (c & l & E1 & E2). unfold loc_sym. split.
  { destruct (desc_localizes d); [|done]. change FlagBindingLocal with 2. by rewrite E1, E2, !zlen_cons. }
  intros off st st' P Q Hsem HP.
  assert (∃ f, st_syms st' = st_syms st ++ [mkSymbol (d_kind d) (d_flags d) (off + 1) (sem_name d) f]) as [f Hst].
  { unfold sem_sym in Hsem. cbv zeta in Hsem. destruct (_ =? KindFunction).
    - destruct (flags_defined _); [destruct (sym_func _ _ _) as [f| | |]; cbn [mbind res_bind] in Hsem; try done|];
        injection Hsem as <-; by eexists.
    - destruct (_ || _); [|done]. injection Hsem as <-. by eexists. }
  eexists. split; [exact Hst|]. split.
  { apply Forall_singleton. exists (zlen (uleb (d_flags d))). cbn [s_flagsOffset s_flags].
    assert (P ++ enc_sym d ++ Q = (P ++ [d_kind d]) ++ uleb (d_flags d) ++ enc_sym_body d ++ Q) as ->.
    { rewrite <- app_assoc. f_equal. unfold enc_sym. cbn [app]. by rewrite <- app_assoc. }
    assert (off + 1 = zlen (P ++ [d_kind d])) as -> by (rewrite zlen_app, HP; done).
    rewrite zdrop_app_ge, Z.sub_diag, zdrop_0 by lia. by apply uleb_go_uleb. }
  cbn [patch].
  change (localizes keep _) with (desc_localizes d). destruct (desc_localizes d); [|done].
  cbn [s_flagsOffset]. rewrite <- HP, E1. change FlagBindingLocal with 2. rewrite E2. cbn [app].
  by rewrite set_local_at.
Qed.

(** Parts that are a head, a payload and nothing more. *)
Lemma patches_head {A B} (enc : A → bytes) sem (loc : A → A) (encB : B → bytes) semB (locB : B → B) head x y :
  patches encB semB locB y → enc x = head ++ encB y → enc (loc x) = head ++ encB (locB y) →
  (∀ off st st', sem off st x = Done st' → ∃ st1, st_syms st1 = st_syms st ∧ semB (off + zlen head) st1 y = Done st') →
  patches enc sem loc x.
Proof.
  intros [Hlen Hp] E1 E2 Hs. split; [by rewrite E1, E2, !zlen_app, Hlen|].
  intros off st st' P Q Hsem HP. destruct (Hs off st st' Hsem) as (st1 & Hst1 & HsB).
  destruct (Hp _ st1 st' (P ++ head) Q HsB) as (new & Hn & Hl & Hpa); [rewrite zlen_app; lia|].
  exists new. rewrite E1, E2, Hn, Hst1. rewrite <- !app_assoc in *. done.
Qed.

Lemma sub_patches s : sub_ok s → patches enc_sub sem_sub loc_sub s.
Proof.
  intros Hs. destruct s as [l|id payload]; [|apply patches_none; [done|by intros ??? [= <-]]].
  pose proof (patches_all enc_sym sem_sym loc_sym l (Forall_impl _ _ _ Hs sym_patches)) as Hl.
  eapply (patches_head enc_sub sem_sub loc_sub _ _ _
    (linkingSymTable :: uleb (zlen (enc_vec enc_sym l)) ++ uleb (zlen l)) (SymTable l) l Hl).
  - unfold enc_sub, enc_bytes, enc_vec. cbn [app]. by rewrite <- app_assoc.
  - cbn [loc_sub enc_sub]. unfold enc_bytes. unfold enc_vec at 2. rewrite zlen_fmap.
    assert (zlen (enc_vec enc_sym (loc_sym <$> l)) = zlen (enc_vec enc_sym l)) as ->.
    { unfold enc_vec. rewrite !zlen_app, zlen_fmap. by rewrite (proj1 Hl). }
    cbn [app]. by rewrite <- app_assoc.
  - intros off st st' Hsem. exists st. split; [done|]. cbn [sem_sub] in Hsem. rewrite <- Hsem. f_equal.
    rewrite zlen_cons, zlen_app. lia.
Qed.

Lemma sem_all_syms {A} enc sem (l : list A) off st st' :
  (∀ off st st' x, sem off st x = Done st' → st_syms st' = st_syms st) → sem_all enc sem off st l = Done st' →
  st_syms st' = st_syms st.
Proof.
  intros Hs. revert off st. induction l as [|x l IH]; intros off st; cbn [sem_all]; [by intros [= <-]|].
  destruct (sem off st x) as [st1| | |] eqn:E; cbn [mbind res_bind]; try done.
  intros H. rewrite (IH _ _ H). by eapply Hs.
Qed.

Lemma section_patches s : section_ok s → patches enc_section sem_section loc_section s.
Proof.
  intros Hs. destruct s as [l|l|l|version l|name payload|id payload].
  4: {
    destruct Hs as [Hv Hs].
    pose proof (patches_all enc_sub sem_sub loc_sub l (Forall_impl _ _ _ Hs sub_patches)) as Hl.
    eapply (patches_head enc_section sem_section loc_section _ _ _
      (sectionCustom :: uleb (zlen (section_payload (SecLinking version l))) ++ enc_bytes linking_name ++ uleb version) _ l Hl).
    - unfold enc_section, enc_bytes at 1. cbn [section_id section_payload app]. by rewrite <- !app_assoc.
    - unfold enc_section. cbn [loc_section section_id]. unfold enc_bytes at 1.
      assert (zlen (section_payload (SecLinking version (loc_sub <$> l))) = zlen (section_payload (SecLinking version l))) as ->.
      { cbn [section_payload]. rewrite !zlen_app. by rewrite (proj1 Hl). }
      cbn [section_payload app]. by rewrite <- !app_assoc.
    - intros off st st' Hsem. exists (st <| st_found := true |>). split; [done|].
      cbn [sem_section] in Hsem. rewrite <- Hsem. f_equal. rewrite zlen_cons, !zlen_app. lia. }
  all: apply patches_none; [done|]; intros off st st'; cbn [sem_section].
  4-5: by intros [= <-].
  all: apply sem_all_syms; intros ???? [= <-]; try done; by destruct (im_desc _).
Qed.

(** ** Reading the patched file *)
Definition mark_all (st : symstate) : symstate := st <| st_syms ::= fmap mark |>.
Definition res_map {A B} (f : A → B) (r : res A) : res B := a ← r; Done (f a).

Definition marks {A} (enc : A → bytes) (sem : Z → symstate → A → res symstate) (loc : A → A) (x : A) : Prop :=
  zlen (enc (loc x)) = zlen (enc x) ∧ ∀ off st, sem off (mark_all st) (loc x) = res_map mark_all (sem off st x).

Lemma marks_all {A} enc sem (loc : A → A) l off st : Forall (marks enc sem loc) l →
  sem_all enc sem off (mark_all st) (loc <$> l) = res_map mark_all (sem_all enc sem off st l).
Proof.
  intros Hl. revert off st. induction Hl as [|x l [Hlen Hx] _ IH]; intros off st; [done|].
  rewrite fmap_cons. cbn [sem_all]. rewrite Hx, Hlen.
  destruct (sem off st x); cbn [mbind res_bind res_map]; [apply IH|done..].
Qed.

Lemma sym_marks d : sym_ok d → marks enc_sym sem_sym loc_sym d.
Proof.
  intros Hd. split; [apply (sym_patches d Hd)|]. intros off st.
  assert (∀ f, mark (mkSymbol (d_kind d) (d_flags d) (off + 1) (sem_name d) f) =
    mkSymbol (d_kind d) (d_flags (loc_sym d)) (off + 1) (sem_name d) f) as Hm.
  { intros f. unfold mark, loc_sym. change (localizes keep _) with (desc_localizes d). by destruct (desc_localizes d). }
  assert (sem_name (loc_sym d) = sem_name d ∧ flags_defined (d_flags (loc_sym d)) = flags_defined (d_flags d) ∧
    d_kind (loc_sym d) = d_kind d ∧ d_index (loc_sym d) = d_index d) as (E1 & E2 & E3 & E4).
  { unfold loc_sym. destruct (desc_localizes d); [|done]. split_and!; [apply sem_name_lor2|apply flags_lor2|done..]. }
  unfold sem_sym. cbv zeta. rewrite E1, E2, E3, E4.
  change (sym_func (mark_all st)) with (sym_func st).
  assert (∀ f, (mark_all st) <| st_syms ::= λ l, l ++ [mkSymbol (d_kind d) (d_flags (loc_sym d)) (off + 1) (sem_name d) f] |> =
    mark_all (st <| st_syms ::= λ l, l ++ [mkSymbol (d_kind d) (d_flags d) (off + 1) (sem_name d) f] |>)) as Hs.
  { intros f. rewrite <- Hm. set (x := mkSymbol _ _ _ _ f).
    change (st <| st_syms := (mark <$> st_syms st) ++ (mark <$> [x]) |> = st <| st_syms := mark <$> (st_syms st ++ [x]) |>).
    by rewrite fmap_app. }
  destruct (_ =? KindFunction).
  - destruct (flags_defined (d_flags d)); [|cbn [res_map mbind res_bind]; by rewrite Hs].
    destruct (sym_func _ _ _); cbn [res_map mbind res_bind]; [by rewrite Hs|done..].
  - destruct (_ || _); cbn [res_map mbind res_bind]; [by rewrite Hs|done].
Qed.

Lemma sub_marks s : sub_ok s → marks enc_sub sem_sub loc_sub s.
Proof.
  intros Hs. pose proof (sub_patches s Hs) as [Hlen _]. split; [done|]. intros off st.
  destruct s as [l|id payload]; [|done]. cbn [loc_sub sem_sub].
  pose proof (patches_all enc_sym sem_sym loc_sym l (Forall_impl _ _ _ Hs sym_patches)) as [Hl _].
  assert (zlen (enc_vec enc_sym (loc_sym <$> l)) = zlen (enc_vec enc_sym l)) as ->
    by (unfold enc_vec; rewrite !zlen_app, zlen_fmap; by rewrite Hl).
  rewrite zlen_fmap. apply marks_all. exact (Forall_impl _ _ _ Hs sym_marks).
Qed.

Lemma sem_all_mark {A} enc sem (l : list A) off st :
  (∀ off st x, sem off (mark_all st) x = res_map mark_all (sem off st x)) →
  sem_all enc sem off (mark_all st) l = res_map mark_all (sem_all enc sem off st l).
Proof.
  intros H. rewrite <- (list_fmap_id l) at 1. apply (marks_all enc sem id). apply Forall_true. by intros x.
Qed.

Lemma section_marks s : section_ok s → marks enc_section sem_section loc_section s.
Proof.
  intros Hs. pose proof (section_patches s Hs) as [Hlen _]. split; [done|]. intros off st.
  destruct s as [l|l|l|version l|name payload|id payload]; cbn [loc_section sem_section]; [..|done|done].
  1-3: apply sem_all_mark; intros; try done; unfold sem_import; by destruct (im_desc _).
  destruct Hs as [_ Hs].
  pose proof (patches_all enc_sub sem_sub loc_sub l (Forall_impl _ _ _ Hs sub_patches)) as [Hl _].
  assert (zlen (section_payload (SecLinking version (loc_sub <$> l))) = zlen (section_payload (SecLinking version l))) as ->
    by (cbn [section_payload]; rewrite !zlen_app; by rewrite Hl).
  change ((mark_all st) <| st_found := true |>) with (mark_all (st <| st_found := true |>)).
  apply marks_all. exact (Forall_impl _ _ _ Hs sub_marks).
Qed.

Lemma loc_object_ok o : object_ok o → object_ok (loc_object o).
Proof.
  intros Ho. apply Forall_fmap. eapply Forall_impl; [exact Ho|]. intros s Hs.
  destruct s as [l|l|l|version l|name payload|id payload]; try done. destruct Hs as [Hv Hs]. split; [done|].
  apply Forall_fmap. eapply Forall_impl; [exact Hs|]. intros [syms|id payload] Hsub; [|done].
  apply Forall_fmap. eapply Forall_impl; [exact Hsub|]. intros d Hd. cbn. unfold loc_sym.
  destruct (desc_localizes d); [|done]. destruct Hd as (Hf & Hd). split; [|exact Hd].
  by apply (lor2_range _ 64).
Qed.
End localize.

(** * Properties *)


Definition demo_sig : FuncSig := mkSig [127; 126] [127].
(** A defined and an imported function, and data that is already local. *)
Definition demo_object : object :=
  [ SecTypes [demo_sig];
    SecImports [Import_ (bytes_of_string "env") (bytes_of_string "malloc") (ImFunc 0)];
    SecFuncs [0];
    SecOther 10 [1;2;3];
    SecLinking 2 [SubOther 5 [9];
      SymTable [ SymDesc KindFunction 16 0 [] (0, 0, 0);
                 SymDesc KindFunction 0 1 (bytes_of_string "PQconnectdb") (0, 0, 0);
                 SymDesc KindFunction 384 1 (bytes_of_string "pqsignal") (0, 0, 0);
                 SymDesc KindData 2 0 (bytes_of_string "table") (0, 200, 4) ]] ].

Lemma demo_object_ok : object_ok demo_object.
Proof. repeat (constructor || done). Qed.


Lemma localize_enc (keep : string → bool) (o : object) (spare spare' : bytes) (syms : list Symbol) :
  object_ok o → zlen (enc_object o) + zlen spare < 2 ^ 63 → zlen (enc_object o) + zlen spare' < 2 ^ 63 →
  Symbols (enc_object o) spare = Done syms →
  localize keep (enc_object o) spare = Done (enc_object (loc_object keep o)) ∧
  zlen (enc_object (loc_object keep o)) = zlen (enc_object o) ∧
  Symbols (enc_object (loc_object keep o)) spare' = Done (mark keep <$> syms).
Proof.
  intros Ho Hlen Hlen' Hsyms.
  pose proof (patches_all keep enc_section sem_section (loc_section keep) o (Forall_impl _ _ _ Ho (section_patches keep))) as [Hl Hp].
  assert (zlen (enc_object (loc_object keep o)) = zlen (enc_object o)) as Hsize.
  { unfold enc_object. rewrite !zlen_app. unfold loc_object. by rewrite Hl. }
  unfold localize. rewrite Hsyms. cbn [mbind res_bind].
  pose proof Hsyms as Hsem. rewrite Symbols_enc in Hsem by done. unfold sem_object in Hsem.
  destruct (sem_all enc_section sem_section 8 _ o) as [st| | |] eqn:E; cbn [mbind res_bind] in Hsem; try done.
  destruct (st_found st) eqn:Hf; [|done]. injection Hsem as <-.
  destruct (Hp 8 _ st wasm_header [] E eq_refl) as (new & Hn & _ & Hpa). cbn [st_syms app] in Hn. subst new.
  rewrite !app_nil_r in Hpa.
  change (enc_object o) with (wasm_header ++ enc_all enc_section o). rewrite Hpa.
  split_and!; [done|exact Hsize|].
  rewrite Symbols_enc; [|by apply loc_object_ok|by rewrite Hsize]. unfold sem_object, loc_object.
  change (mkSt [] 0 [] [] false) with (mark_all keep (mkSt [] 0 [] [] false)) at 1.
  rewrite (marks_all keep enc_section sem_section (loc_section keep)); [|exact (Forall_impl _ _ _ Ho (section_marks keep))].
  rewrite E. cbn [res_map mbind res_bind]. change (st_found (mark_all keep st)) with (st_found st). by rewrite Hf.
Qed.

(** C26. [wasmlocalize] makes local exactly the symbols it says: on an object file
    it can read it writes the file of the same object in which the defined,
    named, global functions and data that are not to be kept have local
    binding, of the same size, and reading that file gives the old table with
    the binding of these symbols changed and nothing else. *)
Theorem localize_exact (keep : string → bool) (o : object) (spare spare' : bytes) (syms : list Symbol) :
  object_ok o → zlen (enc_object o) + zlen spare < 2 ^ 63 → zlen (enc_object o) + zlen spare' < 2 ^ 63 →
  Symbols (enc_object o) spare = Done syms →
  localize keep (enc_object o) spare = Done (enc_object (loc_object keep o)) ∧
  zlen (enc_object (loc_object keep o)) = zlen (enc_object o) ∧
  Symbols (enc_object (loc_object keep o)) spare' = Done (mark keep <$> syms).
Proof. apply localize_enc. Qed.

Definition keep_signal (s : string) : bool := bool_decide (s = "pqsignal").

Lemma localize_exact_witness :
  localize keep_signal (enc_object demo_object) [] = Done (enc_object (loc_object keep_signal demo_object)) ∧
  match Symbols (enc_object (loc_object keep_signal demo_object)) [] with
  | Done syms => (Local_ <$> syms) = [false; true; false; true]
  | _ => False
  end.
Proof.
  split; [|vm_compute; reflexivity].
  destruct (Symbols (enc_object demo_object) []) as [syms| | |] eqn:E; try (vm_compute in E; discriminate).
  apply (localize_exact keep_signal demo_object [] [] syms demo_object_ok); [reflexivity|reflexivity|exact E].
Defined.
