(* ===== verification/Server.v ===== *)
(** The server of [src/pgzero.go]: its connection strings, the tail of its log,
    the probe of its readiness, and how it is set up, started, initialised and
    closed.

    What the operating system, the kernel and the network answer is an argument;
    what the code asks of them is in the result, as a list of actions, the first
    one first. *)
From stdpp Require Import pretty.
From Stdlib Require Import Ascii.
From S2P Require Import Prelude Bytes Paths Abi.
Open Scope Z_scope.

Definition guestPrefix : string := "/usr/local/pgsql".
Definition guestData : string := "/data".
Definition socketDir : string := "/tmp".
Definition defaultPort : Z := 5432.
Definition superuser : string := "postgres".

(** [%d] and [strconv.Itoa] *)
Definition Itoa (z : Z) : string := pretty z.

(** ** Connection strings *)
Definition quote : ascii := "'"%char.
Definition backslash : ascii := "\"%char.
Definition space : ascii := " "%char.

(** [strings.ContainsAny(v, " '\\")] *)
Fixpoint needs_quotes (v : string) : bool :=
  match v with
  | EmptyString => false
  | String c v => bool_decide (c = space ∨ c = quote ∨ c = backslash) || needs_quotes v
  end.

(** The [Replacer]: a backslash before every backslash and quote. *)
Fixpoint escape (v : string) : string :=
  match v with
  | EmptyString => EmptyString
  | String c v =>
      if decide (c = quote ∨ c = backslash) then String backslash (String c (escape v)) else String c (escape v)
  end.

Definition quoteConnValue (v : string) : string :=
  if negb (bool_decide (v = "")) && negb (needs_quotes v) then v
  else String quote (escape v +:+ String quote "").

Definition ConnString (port : Z) (database : string) : string :=
  "host=" +:+ socketDir +:+ " port=" +:+ Itoa port +:+ " user=" +:+ superuser +:+
  " dbname=" +:+ quoteConnValue database +:+ " sslmode=disable".

Definition TCPAddr (tcp : bool) (port : Z) : string :=
  if negb tcp then "" else "127.0.0.1:" +:+ Itoa port.

(** What [Dial] connects to. *)
Definition socketPath (port : Z) : string := socketDir +:+ "/.s.PGSQL." +:+ Itoa port.

(** ** The log *)
Definition logTailSize : Z := 8 * 1024.

(** [l.buf] after [Write(p)], which passes [p] on to the writer, if there is one. *)
Definition logTail_Write (buf p : bytes) : bytes :=
  let buf := buf ++ p in
  if 2 * logTailSize <? zlen buf then zdrop (zlen buf - logTailSize) buf else buf.
Definition logTail_tail (buf : bytes) : bytes :=
  if logTailSize <? zlen buf then zdrop (zlen buf - logTailSize) buf else buf.
Definition logTail_run (ps : list bytes) : bytes := foldl logTail_Write [] ps.

(** ** Readiness *)
Definition probe_params : bytes :=
  bytes_of_string "user" ++ 0 :: bytes_of_string superuser ++ 0 :: bytes_of_string "database" ++
  0 :: bytes_of_string "postgres" ++ [0; 0].
Definition probe_msg : bytes :=
  be_bytes 4 (u32 (8 + zlen probe_params)) ++ be_bytes 4 (Z.shiftl 3 16) ++ probe_params.
Definition terminate_msg : bytes := [88; 0; 0; 0; 4].

(** [bytes.Split(body, []byte{0})] *)
Fixpoint split_nul (l : bytes) : list bytes :=
  match l with
  | [] => [[]]
  | b :: l => if b =? 0 then [] :: split_nul l
              else match split_nul l with h :: t => (b :: h) :: t | [] => [[b]] end
  end.

(** The map of the fields: a later one replaces an earlier one. *)
Definition error_fields (body : bytes) : gmap Z bytes :=
  foldl (λ m f, match f with c :: ((_ :: _) as v) => <[c := v]> m | _ => m end) ∅ (split_nul body).

Inductive probe_err := Refused (message : bytes) | Unexpected (c : Z).

(** [io.ReadFull] of [n] bytes of what the server sends before it is done or the
    deadline passes. *)
Definition read_full (n : Z) (stream : bytes) : option (bytes * bytes) :=
  if zlen stream <? n then None else Some (ztake n stream, zdrop n stream).

Definition cannot_connect_now : bytes := bytes_of_string "57P03".

(** [probe], given whether the connection and the write succeed and what comes
    back: whether the server is ready, the error, and what was written. *)
Definition probe (dialed wrote : bool) (stream : bytes) : bool * option probe_err * list bytes :=
  if negb dialed then (false, None, [])
  else if negb wrote then (false, None, [probe_msg])
  else
    match read_full 5 stream with
    | Some (t :: len, stream) =>
        match read_full (Z.max (be_val len - 4) 0) stream with
        | None => (false, None, [probe_msg])
        | Some (body, _) =>
            if t =? 82 then (true, None, [probe_msg; terminate_msg])
            else if t =? 69 then
              let fields := error_fields body in
              if decide (fields !! 67 = Some cannot_connect_now) then (false, None, [probe_msg])
              else (false, Some (Refused (default [] (fields !! 77))), [probe_msg])
            else (false, Some (Unexpected t), [probe_msg])
        end
    | _ => (false, None, [probe_msg])
    end.

(** What ends the wait between two probes. *)
Inductive wake := ProcessDone | CtxDone | Timer.
Inductive wait_err := ExitedDuringStartup (tail : bytes) | CtxErr | ProbeErr (e : probe_err).
Inductive ready_result := Ready | WaitErr (e : wait_err) | StillWaiting.

(** [waitReady]; each round is what the probe finds and what comes next. *)
Fixpoint waitReady (log : bytes) (rounds : list (bool * option probe_err * wake)) : ready_result :=
  match rounds with
  | [] => StillWaiting
  | (ready, err, w) :: rounds =>
      if ready : bool then Ready
      else match err with
           | Some e => WaitErr (ProbeErr e)
           | None =>
               match w with
               | ProcessDone => WaitErr (ExitedDuringStartup (logTail_tail log))
               | CtxDone => WaitErr CtxErr
               | Timer => waitReady log rounds
               end
           end
  end.

(** ** Preparing a data directory *)

(** What [initDataDir] asks of the operating system.  An answer is [true] for
    success; [OsReadDir] answers how many entries there are. *)
Inductive os_op :=
| OsStat (path : string) | OsReadDir (path : string) | OsMkdirAll (path : string)
| OsOpen (path : string) | OsWrite (path : string) (b : bytes) | OsClose (path : string).

(** The answers may depend on everything that was done before. *)
Record OS := mkOS {
  os_ok : list os_op → os_op → bool;
  os_entries : list os_op → string → option nat;
}.

Inductive tar_kind := TarDir | TarReg (reads : list bytes) (read_ok : bool) | TarOther.
Inductive init_err := NotCluster | OsFailed (op : os_op) | BadGzip | BadPath (name : string) | BadTar.

(** Running operations: the log so far, and an error that ends everything. *)
Definition osM (A : Type) : Type := list os_op → list os_op * (A + init_err).
#[export] Instance osM_ret : MRet osM := λ A a log, (log, inl a).
#[export] Instance osM_bind : MBind osM := λ A B k m log,
  match m log with (log, inl a) => k a log | (log, inr e) => (log, inr e) end.

Section init.
Context (os : OS).

Definition os_try (op : os_op) : osM bool := λ log, (log ++ [op], inl (os_ok os log op)).
Definition os_do (op : os_op) : osM () := λ log,
  (log ++ [op], if os_ok os log op then inl () else inr (OsFailed op)).
Definition os_fail {A} (e : init_err) : osM A := λ log, (log, inr e).

(** [io.Copy]: a write per piece, until one fails. *)
Fixpoint os_copy (path : string) (reads : list bytes) (read_ok : bool) : osM (option init_err) :=
  match reads with
  | [] => mret (if read_ok then None else Some BadTar)
  | b :: reads =>
      if zlen b =? 0 then os_copy path reads read_ok
      else ok ← os_try (OsWrite path b);
           if ok : bool then os_copy path reads read_ok else mret (Some (OsFailed (OsWrite path b)))
  end.

Definition init_member (dir : string) (m : string * tar_kind) : osM () :=
  match init_target dir m.1 with
  | None => os_fail (BadPath m.1)
  | Some target =>
      match m.2 with
      | TarDir => os_do (OsMkdirAll target)
      | TarReg reads read_ok =>
          _ ← os_do (OsOpen target);
          err ← os_copy target reads read_ok;
          closed ← os_try (OsClose target);
          match err with
          | Some e => os_fail e
          | None => if closed : bool then mret () else os_fail (OsFailed (OsClose target))
          end
      | TarOther => mret ()
      end
  end.

Fixpoint init_members (dir : string) (ms : list (string * tar_kind)) (eof : bool) : osM () :=
  match ms with
  | [] => if eof then mret () else os_fail BadTar
  | m :: ms => _ ← init_member dir m; init_members dir ms eof
  end.

(** [initDataDir]; [gzip_ok], [ms] and [eof] are what the template reads as. *)
Definition initDataDir (gzip_ok : bool) (ms : list (string * tar_kind)) (eof : bool) (dir : string) : osM () :=
  cluster ← os_try (OsStat (Join [dir; "PG_VERSION"]));
  if cluster : bool then mret ()
  else λ log,
    let entries := os_entries os log dir in
    let log := log ++ [OsReadDir dir] in
    match entries with
    | Some (S _) => (log, inr NotCluster)
    | _ => (_ ← os_do (OsMkdirAll dir);
            if gzip_ok then init_members dir ms eof else os_fail BadGzip) log
    end.
End init.

(** ** Starting and closing *)
Record Config := mkConfig {
  DataDir : string;
  Settings : gmap string string;
  TCP : bool;
  Port : Z;
}.

Section start.
Context (order : gmap string string → list (string * string)) (sortStrings : list string → list string).

(** The arguments of the postmaster; the names of the settings are collected by
    ranging over the map. *)
Definition start_argv (cfg : Config) (port : Z) : list string :=
  let listen := if TCP cfg then "localhost" else "" in
  let names := sortStrings (order (Settings cfg)).*1 in
  ["postgres"; "-D"; guestData; "-p"; Itoa port; "-c"; "listen_addresses=" +:+ listen;
   "-c"; "unix_socket_directories=" +:+ socketDir] ++
  concat ((λ name, ["-c"; name +:+ "=" +:+ default "" (Settings cfg !! name)]) <$> names).

(** What happens to the kernel, in order. *)
Inductive kernel_event := KNew (mounts : list Mount) | KStart (argv : list string) | KSignal (sig : Z) | KClose.
Inductive start_err := ErrSetup | ErrInit (e : init_err) | ErrAbs | ErrPort | ErrExec | ErrWait (e : wait_err).
Record Server := mkServer { sv_port : Z; sv_tcp : bool }.

(** The answers [Start] depends on: [setup], [initDataDir], [filepath.Abs],
    [freePort], the kernel's [Start] and [waitReady]; and how the postmaster ends
    when it is told to. *)
Record start_env := mkEnv {
  env_setup : bool;
  env_init : init_err + ();
  env_abs : option string;
  env_freePort : option Z;
  env_exec : bool;
  env_wait : ready_result;
  env_exit : option Z;
}.

(** [Close], the first time: the events and the error, by how the postmaster
    ends: with a status, or not within a minute. *)
Inductive close_err := ExitStatus (status : Z) | DidNotShutDown.
Definition close_body (exit : option Z) : list kernel_event * option close_err :=
  ([KSignal SIGINT; KClose],
   match exit with
   | Some status => if status =? 0 then None else Some (ExitStatus status)
   | None => Some DidNotShutDown
   end).

(** The state of [closeOnce] and [closeErr]. *)
Definition close_state := option (option close_err).
Definition Server_Close (exit : option Z) (st : close_state) : close_state * list kernel_event * option close_err :=
  match st with
  | Some e => (st, [], e)
  | None => let '(ev, e) := close_body exit in (Some e, ev, e)
  end.

Definition start_mounts (data : Mount) : list Mount :=
  [mkMount guestPrefix "" true; data; mkMount socketDir "" true].

(** The port to use, and whether it could be found. *)
Definition start_port (env : start_env) (cfg : Config) : option Z :=
  if negb (Port cfg =? 0) then Some (Port cfg)
  else if TCP cfg then env_freePort env else Some defaultPort.

(** The data mount: the template's clone, or the prepared host directory. *)
Definition start_data (env : start_env) (cfg : Config) : Mount + start_err :=
  if decide (DataDir cfg = "") then inl (mkMount guestData "" true)
  else match env_init env with
       | inl e => inr (ErrInit e)
       | inr _ => match env_abs env with
                  | None => inr ErrAbs
                  | Some dir => inl (mkMount guestData dir false)
                  end
       end.

(** [None] while it still waits for the server. *)
Definition Start (env : start_env) (cfg : Config) : list kernel_event * option (Server + start_err) :=
  if negb (env_setup env) then ([], Some (inr ErrSetup))
  else
    match start_data env cfg with
    | inr e => ([], Some (inr e))
    | inl data =>
        match start_port env cfg with
        | None => ([], Some (inr ErrPort))
        | Some port =>
            let argv := start_argv cfg port in
            let log := [KNew (start_mounts data); KStart argv] in
            if negb (env_exec env) then (log ++ [KClose], Some (inr ErrExec))
            else
              match env_wait env with
              | Ready => (log, Some (inl (mkServer port (TCP cfg))))
              | WaitErr e =>
                  let '(_, ev, _) := Server_Close (env_exit env) None in
                  (log ++ ev, Some (inr (ErrWait e)))
              | StillWaiting => (log, None)
              end
        end
    end.
End start.

(** ** What all servers share *)
Inductive setup_step :=
| GunzipPostgres | GunzipInitdb | NewRuntime | Precompile | UnpackInstall | UnpackTemplate.
Definition setup_steps : list setup_step :=
  [GunzipPostgres; GunzipInitdb; NewRuntime; Precompile; UnpackInstall; UnpackTemplate].

(** The steps up to the first one that fails. *)
Fixpoint setup_run (ok : setup_step → bool) (steps : list setup_step) : list setup_step * option setup_step :=
  match steps with
  | [] => ([], None)
  | s :: steps =>
      if ok s then let '(done, e) := setup_run ok steps in (s :: done, e) else ([s], Some s)
  end.

(** [setup]: done once, whoever calls it; the state is its error. *)
Definition setup (ok : setup_step → bool) (st : option (option setup_step))
    : option (option setup_step) * list setup_step * option setup_step :=
  match st with
  | Some e => (st, [], e)
  | None => let '(done, e) := setup_run ok setup_steps in (Some e, done, e)
  end.
