(* ===== verification/ServerLaws.v ===== *)
(** What the server of [src/pgzero.go] promises: connection strings say what they
    mean in the format libpq documents, the log keeps its last bytes, the probe
    understands what a server answers, settings reach the postmaster whatever
    order their map is ranged over, kernels are closed, and a data directory is
    prepared inside itself. *)
From stdpp Require Import pretty.
From Stdlib Require Import Ascii.
From S2P Require Import Prelude Bytes Paths Abi Server.
Open Scope Z_scope.

(** * Connection strings

    [conninfo] is the keyword/value format as the manual of libpq gives it:
    pairs [keyword = value] separated by white space, a value in single quotes
    if it is empty or contains white space, a backslash before a quote or a
    backslash in it; space around the equal sign is optional. *)
Definition is_space (c : ascii) : bool :=
  bool_decide (c = space) || ((9 <=? Z.of_N (N_of_ascii c)) && (Z.of_N (N_of_ascii c) <=? 13)).

Inductive conn_st :=
| CKey (k : string) | CVal (k : string) | CBare (k v : string) | CBareEsc (k v : string)
| CQuoted (k v : string) | CQuotedEsc (k v : string) | CKeyEnd (k : string).

Definition snoc (s : string) (c : ascii) : string := s +:+ String c "".

Fixpoint conn_go (st : conn_st) (s : string) : option (list (string * string)) :=
  match s with
  | EmptyString =>
      match st with
      | CKey k => if decide (k = "") then Some [] else None
      | CVal k => Some [(k, "")]
      | CBare k v | CBareEsc k v => Some [(k, v)]
      | CQuoted _ _ | CQuotedEsc _ _ | CKeyEnd _ => None
      end
  | String c s =>
      match st with
      | CKey k =>
          if decide (c = "="%char) then conn_go (CVal k) s
          else if is_space c then conn_go (if decide (k = "") then CKey "" else CKeyEnd k) s
          else conn_go (CKey (snoc k c)) s
      | CKeyEnd k =>
          if decide (c = "="%char) then conn_go (CVal k) s
          else if is_space c then conn_go (CKeyEnd k) s else None
      | CVal k =>
          if is_space c then conn_go (CVal k) s
          else if decide (c = quote) then conn_go (CQuoted k "") s
          else if decide (c = backslash) then conn_go (CBareEsc k "") s
          else conn_go (CBare k (String c "")) s
      | CBare k v =>
          if is_space c then cons (k, v) <$> conn_go (CKey "") s
          else if decide (c = backslash) then conn_go (CBareEsc k v) s
          else conn_go (CBare k (snoc v c)) s
      | CBareEsc k v => conn_go (CBare k (snoc v c)) s
      | CQuoted k v =>
          if decide (c = quote) then cons (k, v) <$> conn_go (CKey "") s
          else if decide (c = backslash) then conn_go (CQuotedEsc k v) s
          else conn_go (CQuoted k (snoc v c)) s
      | CQuotedEsc k v => conn_go (CQuoted k (snoc v c)) s
      end
  end.
Definition conninfo (s : string) : option (list (string * string)) := conn_go (CKey "") s.

(** A value that needs no quotes in that format, and one [quoteConnValue] thinks
    needs none. *)
Fixpoint bare (v : string) : Prop :=
  match v with
  | EmptyString => True
  | String c v => is_space c = false ∧ c ≠ quote ∧ c ≠ backslash ∧ bare v
  end.
Fixpoint is_key (k : string) : Prop :=
  match k with EmptyString => True | String c k => is_space c = false ∧ c ≠ "="%char ∧ is_key k end.

Lemma snoc_app v c w : snoc v c +:+ w = v +:+ String c w.
Proof. unfold snoc. by rewrite <- append_assoc. Qed.

Lemma conn_key k k' rest : is_key k →
  conn_go (CKey k') (k +:+ String "="%char rest) = conn_go (CVal (k' +:+ k)) rest.
Proof.
  revert k'. induction k as [|c k IH]; intros k'.
  - intros _. rewrite append_nil_r. done.
  - intros (H1 & H2 & Hk). change (String c k +:+ String "="%char rest) with (String c (k +:+ String "="%char rest)).
    cbn [conn_go]. rewrite decide_False, H1 by done. by rewrite IH, snoc_app.
Qed.

(** White space ends a bare value. *)
Lemma conn_bare k v v' c rest : bare v → is_space c = true →
  conn_go (CBare k v') (v +:+ String c rest) = cons (k, v' +:+ v) <$> conn_go (CKey "") rest.
Proof.
  intros Hv Hc. revert v' Hv. induction v as [|x v IH]; intros v'.
  - intros _. rewrite append_nil_r. change ("" +:+ String c rest) with (String c rest). cbn [conn_go]. by rewrite Hc.
  - intros (H1 & H2 & H3 & Hv). change (String x v +:+ String c rest) with (String x (v +:+ String c rest)).
    cbn [conn_go]. rewrite H1, decide_False by done. by rewrite IH, snoc_app.
Qed.

Lemma conn_val_bare k v c rest : bare v → v ≠ "" → is_space c = true →
  conn_go (CVal k) (v +:+ String c rest) = cons (k, v) <$> conn_go (CKey "") rest.
Proof.
  destruct v as [|x v]; [done|]. intros (H1 & H2 & H3 & Hv) _ Hc.
  change (String x v +:+ String c rest) with (String x (v +:+ String c rest)).
  cbn [conn_go]. rewrite H1, !decide_False by done. by rewrite conn_bare.
Qed.

Lemma conn_quoted k v v' rest :
  conn_go (CQuoted k v') (escape v +:+ String quote rest) = cons (k, v' +:+ v) <$> conn_go (CKey "") rest.
Proof.
  revert v'. induction v as [|c v IH]; intros v'; cbn [escape].
  - by rewrite append_nil_r.
  - destruct (decide (c = quote ∨ c = backslash)) as [Hc|Hc].
    + change (String backslash (String c (escape v)) +:+ String quote rest)
        with (String backslash (String c (escape v +:+ String quote rest))).
      cbn [conn_go]. rewrite decide_False, decide_True by done. by rewrite IH, snoc_app.
    + change (String c (escape v) +:+ String quote rest) with (String c (escape v +:+ String quote rest)).
      cbn [conn_go]. rewrite !decide_False by naive_solver. by rewrite IH, snoc_app.
Qed.

(** ** Numbers *)
Lemma bare_digit n : bare (String (pretty_N_char n) "").
Proof. unfold pretty_N_char. repeat case_match; by split_and!. Qed.

Lemma bare_app v w : bare v → bare w → bare (v +:+ w).
Proof.
  induction v as [|c v IH]; [done|]. intros (? & ? & ? & ?) Hw.
  change (String c v +:+ w) with (String c (v +:+ w)). split_and!; [done..|by apply IH].
Qed.

Lemma bare_cons c v : bare (String c "") → bare v → bare (String c v).
Proof. intros (? & ? & ? & _) Hv. by split_and!. Qed.

Lemma bare_pretty_N n s : bare s → bare (pretty_N_go n s).
Proof.
  revert s. induction (N.lt_wf_0 n) as [n _ IH]; intros s Hs.
  destruct (decide (n = 0)%N) as [->|]; [by rewrite pretty_N_go_0|].
  rewrite pretty_N_go_step by lia. apply IH; [apply N.div_lt; lia|].
  apply bare_cons; [apply bare_digit|done].
Qed.

Lemma pretty_N_nonempty n s : s ≠ "" → pretty_N_go n s ≠ "".
Proof.
  revert s. induction (N.lt_wf_0 n) as [n _ IH]; intros s Hs.
  destruct (decide (n = 0)%N) as [->|]; [by rewrite pretty_N_go_0|].
  rewrite pretty_N_go_step by lia. apply IH; [apply N.div_lt; lia|done].
Qed.

Lemma bare_N (n : N) : bare (pretty n) ∧ pretty n ≠ "".
Proof.
  unfold pretty, pretty_N. case_decide; [split; [apply (bare_digit 0)|done]|]. split; [by apply bare_pretty_N|].
  rewrite pretty_N_go_step by lia. by apply pretty_N_nonempty.
Qed.

Lemma bare_Itoa z : bare (Itoa z) ∧ Itoa z ≠ "".
Proof.
  unfold Itoa. destruct z as [|p|p].
  - apply (bare_N 0).
  - apply (bare_N (Npos p)).
  - split; [|done]. change (bare (String "-"%char (pretty (Npos p)))). apply bare_cons; [apply (bool_decide_unpack (_ = false ∧ _ ≠ _ ∧ _ ≠ _ ∧ True)); exact I|apply bare_N].
Qed.

(** ** The value *)
Lemma bare_needs v : bare v → needs_quotes v = false.
Proof.
  induction v as [|c v IH]; [done|]. intros (H1 & H2 & H3 & Hv). simpl. rewrite IH by done.
  rewrite orb_false_r. apply bool_decide_eq_false. intros [->|[->| ->]]; done.
Qed.

(** [needs_quotes] is wrong about the other white space. *)
Lemma quote_value k v rest : bare v ∨ needs_quotes v = true ∨ v = "" →
  conn_go (CVal k) (quoteConnValue v +:+ String space rest) = cons (k, v) <$> conn_go (CKey "") rest.
Proof.
  intros Hv. unfold quoteConnValue. assert (is_space space = true) as Hsp by done.
  destruct (negb (bool_decide (v = "")) && negb (needs_quotes v)) eqn:E.
  - apply andb_prop in E as [E1 E2]. apply negb_true_iff in E1, E2. apply bool_decide_eq_false in E1.
    apply conn_val_bare; [|done..]. naive_solver congruence.
  - change (String quote (escape v +:+ String quote "") +:+ String space rest)
      with (String quote ((escape v +:+ String quote "") +:+ String space rest)).
    cbn [conn_go]. change (is_space quote) with false. cbv iota. rewrite decide_True by done.
    rewrite <- append_assoc.
    change (String quote "" +:+ String space rest) with (String quote (String space rest)).
    rewrite conn_quoted. by cbn [conn_go].
Qed.

(** One field of the string whose value is [v]. *)
Lemma conn_field k v rest : is_key k → bare v → v ≠ "" →
  conn_go (CKey "") (k +:+ String "="%char (v +:+ String space rest)) = cons (k, v) <$> conn_go (CKey "") rest.
Proof. intros Hk Hv Hne. rewrite conn_key by done. by apply conn_val_bare. Qed.

(** The string up to the database. *)
Lemma ConnString_head port db : conninfo (ConnString port db) =
  (λ l, ("host", socketDir) :: ("port", Itoa port) :: ("user", superuser) :: l) <$>
  conn_go (CVal "dbname") (quoteConnValue db +:+ String space "sslmode=disable").
Proof.
  unfold conninfo, ConnString. destruct (bare_Itoa port) as [Hp Hne].
  change (conn_go (CKey "") ("host" +:+ String "="%char (socketDir +:+ String space
    ("port" +:+ String "="%char (Itoa port +:+ String space ("user" +:+ String "="%char (superuser +:+ String space
    ("dbname" +:+ String "="%char (quoteConnValue db +:+ String space "sslmode=disable")))))))) =
    (λ l, ("host", socketDir) :: ("port", Itoa port) :: ("user", superuser) :: l) <$>
    conn_go (CVal "dbname") (quoteConnValue db +:+ String space "sslmode=disable")).
  rewrite conn_field by (done || (by repeat split)).
  rewrite conn_field by (done || (by repeat split)).
  rewrite conn_field by (done || (by repeat split)).
  rewrite conn_key by (by repeat split).
  change ("" +:+ "dbname") with "dbname". by destruct (conn_go _ _).
Qed.



(** * The log *)
Definition last_bytes (n : Z) (l : bytes) : bytes := zdrop (zlen l - n) l.

Lemma zdrop_neg {A} n (l : list A) : n ≤ 0 → zdrop n l = l.
Proof. intros. unfold zdrop. by rewrite Z2Nat.nonpos. Qed.

Lemma last_last n m l : 0 ≤ n ≤ m → last_bytes n (last_bytes m l) = last_bytes n l.
Proof.
  intros Hn. unfold last_bytes. pose proof (zlen_nonneg l). rewrite zlen_drop.
  destruct (decide (zlen l ≤ m)).
  - rewrite (zdrop_neg (zlen l - m)) by lia. f_equal. lia.
  - unfold zdrop. rewrite drop_drop. f_equal. lia.
Qed.

Lemma last_app n l k : last_bytes n (last_bytes n l ++ k) = last_bytes n (l ++ k).
Proof.
  unfold last_bytes. rewrite !zlen_app, zlen_drop. pose proof (zlen_nonneg l). pose proof (zlen_nonneg k).
  destruct (decide (zlen l ≤ n)) as [|Hl]; [rewrite (zdrop_neg (zlen l - n)) by lia; f_equal; lia|].
  destruct (decide (n ≤ 0)) as [Hn|Hn].
  - rewrite (zdrop_all (zlen l - n) l) by lia. cbn [app].
    rewrite zdrop_app_ge by lia. f_equal. lia.
  - destruct (decide (zlen k ≤ n)).
    + rewrite (zdrop_app_le (zlen l + zlen k - n)) by lia. rewrite zdrop_app_le by (rewrite zlen_drop; lia).
      f_equal. unfold zdrop. rewrite drop_drop. f_equal. lia.
    + rewrite !zdrop_app_ge by (rewrite ?zlen_drop; lia). f_equal. rewrite zlen_drop. lia.
Qed.

Lemma logTail_Write_spec buf p : zlen buf ≤ 2 * logTailSize →
  zlen (logTail_Write buf p) ≤ 2 * logTailSize ∧
  last_bytes logTailSize (logTail_Write buf p) = last_bytes logTailSize (buf ++ p).
Proof.
  intros Hb. unfold logTail_Write. destruct (Z.ltb_spec (2 * logTailSize) (zlen (buf ++ p))) as [H|H]; [|done].
  split; [rewrite zlen_drop; unfold logTailSize in *; lia|].
  apply (last_last logTailSize logTailSize). unfold logTailSize. lia.
Qed.

(** The log keeps exactly its tail: after any writes, whatever their sizes, the
    buffer holds at most 16 KiB and [tail] gives the last 8 KiB of everything
    that was written, or all of it when it is less. *)
Theorem log_tail_exact (ps : list bytes) :
  zlen (logTail_run ps) ≤ 2 * logTailSize ∧
  logTail_tail (logTail_run ps) = last_bytes logTailSize (concat ps).
Proof.
  assert (zlen (logTail_run ps) ≤ 2 * logTailSize ∧
    last_bytes logTailSize (logTail_run ps) = last_bytes logTailSize (concat ps)) as [Hb Hl].
  { unfold logTail_run. induction ps as [|p ps [IHb IHl]] using rev_ind; [split; [done|reflexivity]|].
    rewrite foldl_app. cbn [foldl]. destruct (logTail_Write_spec _ p IHb) as [H1 H2]. split; [done|].
    rewrite H2, <- last_app, IHl, last_app. f_equal. rewrite concat_app. cbn [concat]. by rewrite app_nil_r. }
  split; [done|]. rewrite <- Hl. unfold logTail_tail, last_bytes.
  destruct (Z.ltb_spec logTailSize (zlen (logTail_run ps))); [done|]. by rewrite zdrop_neg by lia.
Qed.

(** * The probe *)

(** A message of the server, and an error's fields. *)
Definition message (t : Z) (body : bytes) : bytes := t :: be_bytes 4 (4 + zlen body) ++ body.
Definition enc_field (f : Z * bytes) : bytes := f.1 :: f.2 ++ [0].
Definition enc_fields (fs : list (Z * bytes)) : bytes := concat (enc_field <$> fs) ++ [0].
Definition field_ok (f : Z * bytes) : Prop := f.1 ≠ 0 ∧ f.2 ≠ [] ∧ Forall (λ b, b ≠ 0) f.2.

Lemma split_nul_app l k : Forall (λ b, b ≠ 0) l → split_nul (l ++ 0 :: k) = l :: split_nul k.
Proof.
  induction 1 as [|b l Hb _ IH]; [done|]. cbn [app split_nul]. rewrite (proj2 (Z.eqb_neq b 0) Hb). by rewrite IH.
Qed.

Lemma error_fields_enc fs : Forall field_ok fs → NoDup fs.*1 → error_fields (enc_fields fs) = list_to_map fs.
Proof.
  intros Hf Hn. unfold error_fields, enc_fields.
  assert (split_nul (concat (enc_field <$> fs) ++ [0]) = ((λ f, f.1 :: f.2) <$> fs) ++ [[]; []]) as ->.
  { clear Hn. induction Hf as [|[c v] fs (H1 & H2 & H3) _ IH]; [done|]. rewrite !fmap_cons. cbn [concat enc_field fst snd app].
    rewrite <- !app_assoc. cbn [app]. rewrite app_comm_cons, split_nul_app by (by constructor). by rewrite IH. }
  rewrite foldl_app. cbn [foldl].
  induction fs as [|[c v] fs IH] using rev_ind; [done|].
  apply Forall_app in Hf as [Hf Hcv]. apply Forall_inv in Hcv as (_ & Hv & _). cbn [fst snd] in Hv.
  rewrite fmap_app in Hn. apply NoDup_app in Hn as (Hn & Hnot & _).
  rewrite fmap_app, foldl_app. cbn [fmap list_fmap foldl]. rewrite IH by done. cbn [fst snd].
  destruct v as [|x v]; [done|]. rewrite list_to_map_snoc; [done|].
  intros Hin. apply (Hnot c Hin). constructor.
Qed.

Lemma read_message t body rest : 0 ≤ 4 + zlen body < 2 ^ 32 →
  read_full 5 (message t body ++ rest) = Some (t :: be_bytes 4 (4 + zlen body), body ++ rest) ∧
  Z.max (be_val (be_bytes 4 (4 + zlen body)) - 4) 0 = zlen body ∧
  read_full (zlen body) (body ++ rest) = Some (body, rest).
Proof.
  intros Hb. pose proof (zlen_nonneg body). pose proof (zlen_nonneg rest).
  assert (zlen (be_bytes 4 (4 + zlen body)) = 4) as H4 by (unfold zlen; by rewrite length_be_bytes).
  split_and!.
  - unfold read_full, message. rewrite <- app_comm_cons, <- app_assoc.
    destruct (Z.ltb_spec (zlen (t :: be_bytes 4 (4 + zlen body) ++ body ++ rest)) 5) as [H5|H5];
      [rewrite zlen_cons, !zlen_app in H5; lia|].
    rewrite app_comm_cons. assert (zlen (t :: be_bytes 4 (4 + zlen body)) = 5) as H6 by (rewrite zlen_cons; lia).
    rewrite ztake_app_le, ztake_all by lia. rewrite zdrop_app_ge by lia. rewrite H6. done.
  - rewrite be_val_bytes. change (2 ^ (8 * Z.of_nat 4)) with (2 ^ 32). rewrite Z.mod_small by lia. lia.
  - unfold read_full. rewrite zlen_app. destruct (Z.ltb_spec (zlen body + zlen rest) (zlen body)); [lia|].
    rewrite ztake_app_le, ztake_all by lia. rewrite zdrop_app_ge by lia. by rewrite Z.sub_diag, zdrop_0.
Qed.

(** C37. The probe speaks the protocol: it sends a startup packet whose length field
    is its length, for version 3.0 and with the two parameters, and takes a
    server for ready exactly when it asks for or grants authentication; an error
    means not yet when its code is 57P03 and is reported with its message
    otherwise, whatever other fields it has, and any other message is an error.
    A connection or a message that ends early means not yet. *)
Theorem probe_exact (t : Z) (fs : list (Z * bytes)) (body rest : bytes) :
  0 ≤ 4 + zlen body < 2 ^ 32 → (t = 69 → body = enc_fields fs) → Forall field_ok fs → NoDup fs.*1 →
  let m : gmap Z bytes := list_to_map fs in
  probe true true (message t body ++ rest) =
    (if decide (t = 82) then (true, None, [probe_msg; terminate_msg])
     else if decide (t = 69) then
       if decide (m !! 67 = Some cannot_connect_now) then (false, None, [probe_msg])
       else (false, Some (Refused (default [] (m !! 77))), [probe_msg])
     else (false, Some (Unexpected t), [probe_msg])) ∧
  (∀ cut stream, message t body = stream ++ cut → cut ≠ [] → probe true true stream = (false, None, [probe_msg])) ∧
  be_val (ztake 4 probe_msg) = zlen probe_msg ∧ be_val (ztake 4 (zdrop 4 probe_msg)) = 196608 ∧
  split_nul (zdrop 8 probe_msg) = bytes_of_string <$> ["user"; "postgres"; "database"; "postgres"; ""; ""].
Proof.
  intros Hb Hbody Hf Hn m. split_and!; [..|vm_compute; reflexivity|vm_compute; reflexivity|vm_compute; reflexivity].
  - destruct (read_message t body rest Hb) as (E1 & E2 & E3). unfold probe. cbn [negb]. rewrite E1, E2, E3.
    destruct (Z.eqb_spec t 82) as [->|H82]; [done|]. rewrite (decide_False (P := t = 82)) by done.
    destruct (Z.eqb_spec t 69) as [->|H69]; [|by rewrite (decide_False (P := t = 69))].
    rewrite (decide_True (P := 69 = 69)) by done. rewrite Hbody by done. by rewrite error_fields_enc by done.
  - intros cut stream Hm Hcut. unfold probe. cbn [negb].
    assert (zlen stream < zlen (message t body)) as Hlt.
    { rewrite Hm, zlen_app. pose proof (proj2 (zlen_pos cut) Hcut). lia. }
    destruct (read_message t body [] Hb) as (E1 & E2 & _). rewrite app_nil_r in E1.
    unfold read_full at 1. destruct (Z.ltb_spec (zlen stream) 5) as [|H5]; [done|].
    unfold read_full in E1. destruct (Z.ltb_spec (zlen (message t body)) 5); [done|].
    apply (f_equal (default ([], []))) in E1. cbn [default option_rect from_option id] in E1. apply pair_equal_spec in E1 as [E1 E1'].
    rewrite app_nil_r in E1'. rewrite Hm, ztake_app_le in E1 by lia. rewrite E1, E2.
    unfold read_full. pose proof (f_equal zlen E1') as Hl. rewrite zlen_drop in Hl. rewrite zlen_drop.
    destruct (Z.ltb_spec (Z.max 0 (zlen stream - Z.max 0 5)) (zlen body)); [done|lia].
Qed.

Lemma probe_exact_witness :
  probe true true (message 69 (enc_fields [(83, [70]); (67, cannot_connect_now)]) ++ [1; 2]) = (false, None, [probe_msg]).
Proof.
  destruct (probe_exact 69 [(83, [70]); (67, cannot_connect_now)]
    (enc_fields [(83, [70]); (67, cannot_connect_now)]) [1; 2]) as [H _]; [decided|done|..].
  - apply (bool_decide_unpack (Forall (λ f, f.1 ≠ 0 ∧ f.2 ≠ [] ∧ Forall (λ b, b ≠ 0) f.2) [(83, [70]); (67, cannot_connect_now)])).
    vm_compute. exact I.
  - decided.
  - exact H.
Defined.

(** * Settings *)

(** A list of strings has one sorted arrangement. *)
Lemma sorted_unique (l1 l2 : list string) : StronglySorted String.le l1 → StronglySorted String.le l2 → l1 ≡ₚ l2 → l1 = l2.
Proof. intros H1 H2 Hp. by apply (StronglySorted_unique String.le). Qed.

(** The arguments of the postmaster do not depend on the order in which Go
    ranges over the settings: each setting is passed once, in the order of the
    names, after the fixed ones, with the value it has in the map. *)
Theorem argv_settings order sortStrings (cfg : Config) (port : Z) (l : list (string * string)) :
  (∀ m, order m ≡ₚ map_to_list m) →
  (∀ names, sortStrings names ≡ₚ names ∧ StronglySorted String.le (sortStrings names)) →
  l ≡ₚ map_to_list (Settings cfg) → StronglySorted String.le l.*1 →
  start_argv order sortStrings cfg port =
    ["postgres"; "-D"; guestData; "-p"; Itoa port;
     "-c"; "listen_addresses=" +:+ (if TCP cfg then "localhost" else "");
     "-c"; "unix_socket_directories=" +:+ socketDir] ++
    concat ((λ kv, ["-c"; kv.1 +:+ "=" +:+ kv.2]) <$> l).
Proof.
  intros Hord Hsort Hl Hsl. unfold start_argv. f_equal. f_equal.
  destruct (Hsort (order (Settings cfg)).*1) as [Hp Hs].
  assert (sortStrings (order (Settings cfg)).*1 = l.*1) as ->.
  { apply sorted_unique; [done..|]. by rewrite Hp, Hord, Hl. }
  rewrite <- list_fmap_compose. apply list_fmap_ext. intros i [k v] Hkv%list_elem_of_lookup_2. simpl.
  assert (Settings cfg !! k = Some v) as ->; [|done].
  apply elem_of_map_to_list. by rewrite <- Hl.
Qed.

Definition demo_config : Config := mkConfig "" (list_to_map [("work_mem", "64MB"); ("fsync", "off")]) false 0.

Lemma merge_sort_ok (names : list string) :
  merge_sort String.le names ≡ₚ names ∧ StronglySorted String.le (merge_sort String.le names).
Proof. split; [apply merge_sort_Permutation|apply StronglySorted_merge_sort; apply _]. Qed.

Lemma argv_settings_witness :
  start_argv map_to_list (merge_sort String.le) demo_config 5432 =
    ["postgres"; "-D"; "/data"; "-p"; "5432"; "-c"; "listen_addresses="; "-c"; "unix_socket_directories=/tmp";
     "-c"; "fsync=off"; "-c"; "work_mem=64MB"].
Proof.
  rewrite (argv_settings map_to_list (merge_sort String.le) demo_config 5432 [("fsync", "off"); ("work_mem", "64MB")]).
  - vm_compute. reflexivity.
  - done.
  - apply merge_sort_ok.
  - apply (bool_decide_unpack ([("fsync", "off"); ("work_mem", "64MB")] ≡ₚ map_to_list (Settings demo_config))).
    vm_compute. exact I.
  - repeat constructor; vm_compute; exact I.
Defined.

(** * Starting and closing *)

(** The life of the server's kernel: made once, then used, then closed once.
    [None] is an event at the wrong time. *)
Inductive kernel_life := NoKernel | Running | Closed.
#[export] Instance kernel_life_eq_dec : EqDecision kernel_life.
Proof. solve_decision. Defined.

Definition life_step (st : option kernel_life) (e : kernel_event) : option kernel_life :=
  match st, e with
  | Some NoKernel, KNew _ => Some Running
  | Some Running, KStart _ | Some Running, KSignal _ => Some Running
  | Some Running, KClose => Some Closed
  | _, _ => None
  end.
Definition life (ev : list kernel_event) : option kernel_life := foldl life_step (Some NoKernel) ev.


(** * Preparing a data directory *)

(** What the members of the template ask for, when everything succeeds. *)
Definition member_ops (dir : string) (m : string * tar_kind) : list os_op :=
  let target := Join [dir; m.1] in
  match m.2 with
  | TarDir => [OsMkdirAll target]
  | TarReg reads _ =>
      OsOpen target :: (OsWrite target <$> filter (λ b, b ≠ []) reads) ++ [OsClose target]
  | TarOther => []
  end.

(** An operation on a member of the directory. *)
Definition inside (dir : string) (op : os_op) : Prop :=
  ∃ target, HasPrefix target (Clean dir +:+ "/") = true ∧
    match op with
    | OsMkdirAll p | OsOpen p | OsWrite p _ | OsClose p => p = target
    | OsStat _ | OsReadDir _ => False
    end.

Section init_laws.
Context (os : OS) (dir : string).

(** What running [m] adds to the log: operations inside the directory, which
    are as [P] says when there is no error. *)
Definition all_ok (log ops : list os_op) : Prop :=
  ∀ i op, ops !! i = Some op → os_ok os (log ++ take i ops) op = true.
Definition does {A} (m : osM A) (P : list os_op → A → list os_op → Prop) : Prop :=
  ∀ log, ∃ add, (m log).1 = log ++ add ∧ Forall (inside dir) add ∧
    match (m log).2 with inl a => P log a add | inr _ => True end.
(** It asked for [ops] and all of it was done. *)
Definition exactly {A} (ops : list os_op) (log : list os_op) (_ : A) (add : list os_op) : Prop :=
  add = ops ∧ all_ok log ops.

Lemma all_ok_nil log : all_ok log [].
Proof. by intros i op. Qed.
Lemma all_ok_one log op : os_ok os log op = true → all_ok log [op].
Proof. intros E [|[]] op'; [|done..]. intros [= <-]. by rewrite app_nil_r. Qed.
Lemma all_ok_app log a b : all_ok log a → all_ok (log ++ a) b → all_ok log (a ++ b).
Proof.
  intros Ha Hb i op Hi. destruct (decide (i < length a)%nat) as [Hlt|Hge].
  - rewrite take_app_le by lia. apply Ha. by rewrite lookup_app_l in Hi.
  - rewrite take_app_ge by lia. rewrite app_assoc. apply Hb. by rewrite lookup_app_r in Hi by lia.
Qed.

Lemma does_ret {A} (a : A) (P : list os_op → A → list os_op → Prop) : (∀ log, P log a []) → does (mret a) P.
Proof. intros HP log. exists []. cbn. rewrite app_nil_r. by split_and!. Qed.

Lemma does_fail {A} e P : does (os_fail e : osM A) P.
Proof. intros log. exists []. cbn. rewrite app_nil_r. by split_and!. Qed.

Lemma does_do op : inside dir op → does (os_do os op) (exactly [op]).
Proof.
  intros Hin log. exists [op]. unfold os_do. cbn [fst snd]. split_and!; [done|by constructor|].
  destruct (os_ok os log op) eqn:E; [|done]. split; [done|by apply all_ok_one].
Qed.

Lemma does_try op : inside dir op →
  does (os_try os op) (λ log ok add, add = [op] ∧ (ok = true → all_ok log [op])).
Proof.
  intros Hin log. exists [op]. unfold os_try. cbn [fst snd]. split_and!; [done|by constructor|done|].
  apply all_ok_one.
Qed.

Lemma does_bind {A B} (m : osM A) (k : A → osM B) P (Q : A → list os_op → B → list os_op → Prop) R :
  does m P → (∀ a, does (k a) (Q a)) →
  (∀ log a o1 b o2, P log a o1 → Q a (log ++ o1) b o2 → R log b (o1 ++ o2)) → does (m ≫= k) R.
Proof.
  intros Hm Hk HR log. destruct (Hm log) as (add & E & Hin & Hr). unfold mbind, osM_bind.
  destruct (m log) as [log1 [a|e]]; cbn [fst snd] in *; [|by exists add]. subst log1.
  destruct (Hk a (log ++ add)) as (add2 & E2 & Hin2 & Hr2). exists (add ++ add2).
  rewrite app_assoc. split_and!; [done|by apply Forall_app|].
  destruct ((k a (log ++ add)).2); [|done]. by eapply HR.
Qed.

Lemma copy_does target reads read_ok : HasPrefix target (Clean dir +:+ "/") = true →
  does (os_copy os target reads read_ok)
    (λ log e add, e = None → exactly (OsWrite target <$> filter (λ b, b ≠ []) reads) log tt add).
Proof.
  intros Ht. induction reads as [|b reads IH]; cbn [os_copy].
  { apply does_ret. intros log _. split; [done|apply all_ok_nil]. }
  destruct (Z.eqb_spec (zlen b) 0) as [Hb|Hb].
  { apply zlen_zero in Hb as ->. rewrite filter_cons_False by naive_solver. exact IH. }
  rewrite filter_cons_True by (intros ->; done). rewrite fmap_cons.
  eapply (does_bind _ _ _ (λ ok log e add, e = None → ok = true ∧
    exactly (OsWrite target <$> filter (λ b, b ≠ []) reads) log tt add));
    [apply does_try; by exists target| |].
  - intros []; [|by apply does_ret]. intros log. destruct (IH log) as (add & E & Hin & Hr).
    exists add. split_and!; [done..|]. by destruct ((os_copy _ _ _ _ _).2); [intros; split; [|apply Hr]|].
  - intros log ok o1 e o2 [-> Hok] HQ He. destruct (HQ He) as (-> & -> & Hall).
    split; [done|]. change (?x :: ?l) with ([x] ++ l). apply all_ok_app; [by apply Hok|done].
Qed.

Lemma member_does m : init_target dir m.1 ≠ None → does (init_member os dir m) (exactly (member_ops dir m)).
Proof.
  unfold init_member, member_ops, init_target. cbv zeta.
  destruct (HasPrefix (Join [dir; m.1]) (Clean dir +:+ "/")) eqn:Ht; [|done]. intros _.
  destruct (m.2) as [|reads read_ok|]; [by apply does_do; exists (Join [dir; m.1])| |by apply does_ret; split; [|apply all_ok_nil]].
  set (target := Join [dir; m.1]) in *. change (?x :: ?l) with ([x] ++ l).
  eapply (does_bind _ _ _ (λ _, exactly ((OsWrite target <$> filter (λ b, b ≠ []) reads) ++ [OsClose target])));
    [by apply does_do; exists target| |].
  2: { intros log a o1 [] o2 [-> H1] [-> H2]. split; [done|by apply all_ok_app]. }
  intros _. eapply (does_bind _ _ _ (λ e log _ add, e = None ∧ exactly [OsClose target] log tt add)); [by apply copy_does| |].
  2: { intros log a o1 [] o2 H1 (-> & -> & H2). destruct (H1 eq_refl) as [-> H3]. split; [done|by apply all_ok_app]. }
  intros e. eapply (does_bind _ _ _ (λ closed log _ add, add = [] ∧ e = None ∧ closed = true));
    [by apply does_try; exists target| |].
  - intros closed. destruct e as [e|]; [apply does_fail|]. destruct closed; [by apply does_ret|apply does_fail].
  - intros log closed o1 [] o2 [-> H1] (-> & -> & ->). split; [done|]. split; [done|by apply H1].
Qed.

Lemma members_do ms eof : does (init_members os dir ms eof) (exactly (concat (member_ops dir <$> ms))).
Proof.
  induction ms as [|m ms IH]; cbn [init_members].
  { destruct eof; [|apply does_fail]. apply does_ret. split; [done|apply all_ok_nil]. }
  rewrite fmap_cons. cbn [concat].
  destruct (init_target dir m.1) as [t|] eqn:Ht.
  - eapply (does_bind _ _ _ (λ _, exactly (concat (member_ops dir <$> ms)))); [apply member_does; by rewrite Ht|intros _; exact IH|].
    intros log a o1 [] o2 [-> H1] [-> H2]. split; [done|by apply all_ok_app].
  - intros log. exists []. unfold mbind, osM_bind, init_member. rewrite Ht. cbn [os_fail fst snd].
    by rewrite app_nil_r.
Qed.
End init_laws.


(** An empty directory and a small template; every operation but the first one
    succeeds. *)
Definition demo_os : OS := mkOS (λ log _, negb (bool_decide (log = []))) (λ _ _, Some 0%nat).
Definition demo_template : list (string * tar_kind) :=
  [("base/", TarDir); ("base/PG_VERSION", TarReg [[49]; [56]] true)].

