(* ===== verification/Osfs.v ===== *)
(** Host directories as the guest's filesystem ([src/internal/osfs/osfs.go]).

    What an operation asks of the operating system is a list of calls; the
    answers are a parameter, which may depend on all calls so far.  [osfs_resolve]
    ([Paths]) is the check of the names. *)
From S2P Require Import Prelude Bytes Paths MemFS Clone.
From Stdlib Require Import Ascii.

(** The calls of Go's [os] package, on host paths. *)
Inductive call :=
| OpenFile (path : string) (flag perm : Z)
| Lstat (path : string)
| Readlink (path : string)
| Mkdir (path : string) (perm : Z)
| Remove (path : string)
| Symlink (target path : string)
| OsChtimes (path : string) (atime mtime : Z).

(** An answer: an error, success, what [Lstat] says, or what a link says. *)
Inductive answer := AErr (e : Z) | AOk | AInfo (is_dir : bool) | AText (s : string).

(** What an operation returns. *)
Inductive osfs_err := ErrInvalid | ErrPermission | ErrNotDir | ErrIsDir | ErrOS (e : Z) | ErrOther.
Inductive osfs_ret := RFile (path : string) | RInfo (is_dir : bool) | RText (s : string) | RUnit.
Definition outcome : Type := list call * (osfs_ret + osfs_err).

Section osfs.
Context (sys : list call → call → answer).

(** One call, and what to do with its answer. *)
Definition ask (calls : list call) (c : call) (k : list call → answer → outcome) : outcome :=
  match sys calls c with
  | AErr e => (calls ++ [c], inr (ErrOS e))
  | a => k (calls ++ [c]) a
  end.
Definition finish (r : osfs_ret) (calls : list call) (_ : answer) : outcome := (calls, inl r).

Definition osfs_openFile (p : string) (flag perm : Z) : outcome :=
  ask [] (OpenFile p flag perm) (finish (RFile p)).

(** [Dir.Open] *)
Definition Dir_Open (d name : string) : outcome :=
  if negb (ValidPath name) then ([], inr ErrInvalid) else osfs_openFile (Join [d; name]) 0 0.

(** A name relative to the open directory [fpath]. *)
Definition with_path (fpath name : string) (k : string → outcome) : outcome :=
  match osfs_resolve fpath name with None => ([], inr ErrPermission) | Some p => k p end.

Definition osfs_OpenAt (fpath name : string) (flag perm : Z) : outcome :=
  with_path fpath name (λ p, osfs_openFile p flag perm).
Definition osfs_StatAt (fpath name : string) : outcome :=
  with_path fpath name (λ p, ask [] (Lstat p) (λ calls a,
    match a with AInfo d => (calls, inl (RInfo d)) | _ => (calls, inr ErrOther) end)).
Definition osfs_ReadlinkAt (fpath name : string) : outcome :=
  with_path fpath name (λ p, ask [] (Readlink p) (λ calls a,
    match a with AText s => (calls, inl (RText s)) | _ => (calls, inr ErrOther) end)).
Definition osfs_MkdirAt (fpath name : string) (perm : Z) : outcome :=
  with_path fpath name (λ p, ask [] (Mkdir p perm) (finish RUnit)).
Definition osfs_RmdirAt (fpath name : string) : outcome :=
  with_path fpath name (λ p, ask [] (Lstat p) (λ calls a,
    match a with
    | AInfo true => ask calls (Remove p) (finish RUnit)
    | AInfo false => (calls, inr ErrNotDir)
    | _ => (calls, inr ErrOther)
    end)).
Definition osfs_UnlinkAt (fpath name : string) : outcome :=
  with_path fpath name (λ p, ask [] (Lstat p) (λ calls a,
    match a with
    | AInfo true => (calls, inr ErrIsDir)
    | AInfo false => ask calls (Remove p) (finish RUnit)
    | _ => (calls, inr ErrOther)
    end)).
Definition osfs_SymlinkAt (fpath target linkName : string) : outcome :=
  with_path fpath linkName (λ p, ask [] (Symlink target p) (finish RUnit)).
Definition osfs_Chtimes (fpath : string) (atime mtime : Z) : outcome :=
  ask [] (OsChtimes fpath atime mtime) (finish RUnit).
Definition osfs_ChtimesAt (fpath name : string) (atime mtime : Z) : outcome :=
  with_path fpath name (λ p, ask [] (OsChtimes p atime mtime) (finish RUnit)).

(** ** Everything a guest can do with an open directory *)
Inductive dir_op :=
| OpOpenAt (name : string) (flag perm : Z) | OpStatAt (name : string) | OpReadlinkAt (name : string)
| OpMkdirAt (name : string) (perm : Z) | OpRmdirAt (name : string) | OpUnlinkAt (name : string)
| OpSymlinkAt (target linkName : string) | OpChtimes (atime mtime : Z)
| OpChtimesAt (name : string) (atime mtime : Z).

Definition dir_run (fpath : string) (o : dir_op) : outcome :=
  match o with
  | OpOpenAt name flag perm => osfs_OpenAt fpath name flag perm
  | OpStatAt name => osfs_StatAt fpath name
  | OpReadlinkAt name => osfs_ReadlinkAt fpath name
  | OpMkdirAt name perm => osfs_MkdirAt fpath name perm
  | OpRmdirAt name => osfs_RmdirAt fpath name
  | OpUnlinkAt name => osfs_UnlinkAt fpath name
  | OpSymlinkAt target linkName => osfs_SymlinkAt fpath target linkName
  | OpChtimes atime mtime => osfs_Chtimes fpath atime mtime
  | OpChtimesAt name atime mtime => osfs_ChtimesAt fpath name atime mtime
  end.

(** The files a guest can have, from the directory [d] on. *)
Inductive opened (d : string) : string → Prop :=
| opened_dir name p calls : Dir_Open d name = (calls, inl (RFile p)) → opened d p
| opened_at q o p calls : opened d q → dir_run q o = (calls, inl (RFile p)) → opened d p.
End osfs.

(** * Confinement *)

(** The path a call acts on, and the name an operation resolves. *)
Definition call_path (c : call) : string :=
  match c with
  | OpenFile p _ _ | Lstat p | Readlink p | Mkdir p _ | Remove p | Symlink _ p | OsChtimes p _ _ => p
  end.
Definition op_name (o : dir_op) : option string :=
  match o with
  | OpOpenAt name _ _ | OpStatAt name | OpReadlinkAt name | OpMkdirAt name _ | OpRmdirAt name
  | OpUnlinkAt name | OpSymlinkAt _ name | OpChtimesAt name _ _ => Some name
  | OpChtimes _ _ => None
  end.

(** [p] is [d] or below it. *)
Definition under (d p : string) : Prop :=
  p ≠ "" ∧ IsAbs p = IsAbs d ∧ ∃ rel, Forall normal rel ∧ clean_parts p = clean_parts d ++ rel.

Lemma under_refl d : d ≠ "" → under d d.
Proof. intros. split_and!; [done..|]. exists []. rewrite app_nil_r. by split. Qed.

Lemma under_trans d p q : under d p → under p q → under d q.
Proof.
  intros (_ & Ha & rel & Hr & Hp) (Hne & Ha' & rel' & Hr' & Hq). split_and!; [done|congruence|].
  exists (rel ++ rel'). rewrite Hq, Hp, app_assoc. by split; [apply Forall_app|].
Qed.

Lemma Clean_nonempty s : Clean s ≠ "".
Proof.
  intros H. pose proof (split_Clean s) as Hs. rewrite H in Hs. change (split_slash "") with [""] in Hs.
  unfold Clean in H. destruct (IsAbs s); [done|]. cbn [app] in Hs.
  destruct (clean_parts_spec s) as (k & ns & Hc & Hns & _).
  destruct (clean_parts s) as [|x l]; [done|]. injection Hs as <- <-.
  assert ("" ∈ replicate k ".." ++ ns) as Hin by (rewrite <- Hc; constructor).
  apply elem_of_app in Hin as [[? _]%elem_of_replicate|Hin]; [done|].
  rewrite Forall_forall in Hns. by destruct (Hns _ Hin) as [? _].
Qed.

Lemma Join_nonempty d s : d ≠ "" → Join [d; s] ≠ "".
Proof.
  intros Hd. unfold Join. rewrite filter_cons_True by done.
  destruct (filter _ [s]); apply Clean_nonempty.
Qed.

Lemma resolve_under d name p : d ≠ "" → osfs_resolve d name = Some p → under d p.
Proof.
  intros Hd Hr. pose proof (osfs_resolve_confined d name Hd) as H. rewrite Hr in H.
  destruct H as (rel & Hn & Hp & _ & Ha). split_and!; [|done|by exists rel].
  unfold osfs_resolve in Hr. destruct (_ || _); [done|]. injection Hr as <-. by apply Join_nonempty.
Qed.

Lemma valid_under d name : d ≠ "" → ValidPath name = true → under d (Join [d; name]).
Proof.
  intros Hd Hv. unfold ValidPath in Hv. apply andb_prop in Hv as [_ [->%bool_decide_eq_true|Hv]%orb_prop].
  - apply (resolve_under d "."); [done|reflexivity].
  - assert (Forall normal (split_slash name)) as Hn.
    { rewrite forallb_forall in Hv. pose proof (split_no_slash name) as Hs. rewrite Forall_forall in Hs.
      apply Forall_forall. intros q Hq. specialize (Hv q (proj1 (list_elem_of_In _ _) Hq)).
      apply negb_true_iff, bool_decide_eq_false in Hv. unfold normal. specialize (Hs q Hq). naive_solver. }
    rewrite <- (join_split name). destruct (Join_normals d (split_slash name)) as [Hp Ha]; [done..|].
    split_and!; [by apply Join_nonempty|done|by exists (split_slash name)].
Qed.

Section confined.
Context (sys : list call → call → answer).

(** The calls of [o] are on [fpath] or what the name resolves to, and a file it
    opens is there. *)
Lemma dir_run_paths fpath o : fpath ≠ "" →
  let '(calls, r) := dir_run sys fpath o in
  Forall (λ c, under fpath (call_path c)) calls ∧
  (∀ p, r = inl (RFile p) → under fpath p) ∧
  (∀ name, op_name o = Some name → osfs_resolve fpath name = None → calls = [] ∧ r = inr ErrPermission).
Proof.
  intros Hne.
  destruct o; cbn [dir_run op_name]; unfold osfs_OpenAt, osfs_StatAt, osfs_ReadlinkAt, osfs_MkdirAt, osfs_RmdirAt, osfs_UnlinkAt, osfs_SymlinkAt, osfs_ChtimesAt, with_path;
    try (match goal with |- context [osfs_resolve ?f ?n] => destruct (osfs_resolve f n) as [p|] eqn:E end;
      [pose proof (resolve_under _ _ _ Hne E) as Hp|by split_and!]).
  all: unfold osfs_Chtimes, osfs_openFile, ask, finish; pose proof (under_refl fpath Hne).
  all: repeat (case_match; simplify_eq).
  all: split; [repeat (apply Forall_cons; split; [done|]); by apply Forall_nil_2|].
  all: split; [by intros ? [= <-] || by intros ? [=]|(intros ? [= <-] ?; congruence) || by intros ? [=]].
Qed.
End confined.

(** * Properties *)

(** C31. A host directory confines its guest: whatever files it opens, one relative
    to the other, and whatever it asks of them, every call to the operating
    system is on a path in or below the directory; and a name that is absolute
    or climbs above the file it is relative to is refused without any call. *)
Theorem osfs_confined (sys : list call → call → answer) (d fpath : string) (o : dir_op) :
  d ≠ "" → opened sys d fpath →
  under d fpath ∧ Forall (λ c, under d (call_path c)) (dir_run sys fpath o).1 ∧
  ∀ name, op_name o = Some name → (IsAbs name = true ∨ ∃ l, clean_parts name = ".." :: l) →
    dir_run sys fpath o = ([], inr ErrPermission).
Proof.
  intros Hd Hop.
  assert (under d fpath) as Hu.
  { induction Hop as [name p calls Ho|q o' p calls _ IH Ho].
    - unfold Dir_Open in Ho. destruct (ValidPath name) eqn:Hv; [|done]. cbn [negb] in Ho.
      unfold osfs_openFile, ask, finish in Ho. assert (p = Join [d; name]) as -> by (repeat case_match; by simplify_eq).
      by apply valid_under.
    - pose proof (dir_run_paths sys q o' (proj1 IH)) as H. rewrite Ho in H.
      destruct H as (_ & Hp & _). eapply under_trans; [exact IH|by apply Hp]. }
  pose proof (dir_run_paths sys fpath o (proj1 Hu)) as H. destruct (dir_run sys fpath o) as [calls r].
  destruct H as (Hc & _ & Hn). cbn [fst]. split_and!; [done| |].
  - eapply Forall_impl; [exact Hc|]. intros c Hcu. by eapply under_trans.
  - intros name Hname Hesc. destruct (Hn name Hname) as [-> ->]; [|done]. destruct Hesc as [Ha|[l Hl]].
    { unfold osfs_resolve. by rewrite (proj2 (clean_parts_Clean name)), Ha. }
    pose proof (osfs_resolve_confined fpath name (proj1 Hu)) as Hr.
    destruct (osfs_resolve fpath name) as [p|]; [|done]. destruct Hr as (rel & Hnorm & _ & Hcl & _). exfalso.
    rewrite Hl in Hcl. subst rel. apply Forall_inv in Hnorm. by destruct Hnorm as (_ & _ & ? & _).
Qed.

(** A system where everything is a directory. *)
Definition demo_sys (_ : list call) (c : call) : answer := match c with Lstat _ => AInfo true | _ => AOk end.

Lemma osfs_confined_witness :
  Forall (λ c, under "/srv/pg" (call_path c)) (dir_run demo_sys "/srv/pg/base" (OpRmdirAt "1/../2")).1 ∧
  dir_run demo_sys "/srv/pg/base" (OpRmdirAt "1/../2") = ([Lstat "/srv/pg/base/2"; Remove "/srv/pg/base/2"], inl RUnit) ∧
  dir_run demo_sys "/srv/pg/base" (OpRmdirAt "../global") = ([], inr ErrPermission).
Proof.
  assert (opened demo_sys "/srv/pg" "/srv/pg/base") as Hop.
  { apply (opened_dir _ _ "base" _ [OpenFile "/srv/pg/base" 0 0]). vm_compute. reflexivity. }
  destruct (osfs_confined demo_sys "/srv/pg" "/srv/pg/base" (OpRmdirAt "1/../2") ltac:(done) Hop) as (_ & Hc & _).
  destruct (osfs_confined demo_sys "/srv/pg" "/srv/pg/base" (OpRmdirAt "../global") ltac:(done) Hop) as (_ & _ & Hn).
  split; [exact Hc|]. split; [vm_compute; reflexivity|].
  apply (Hn "../global"); [reflexivity|]. right. exists ["global"]. vm_compute. reflexivity.
Defined.
