(* ===== verification/Modules.v ===== *)
(** The table of loadable modules ([src/wasm/cmd/genmodules/main.go]): which
    symbols of which objects it lists, under which names, and the C source it is
    written as.

    A module is given by its directory and what its object files read as; the
    files' names are those [filepath.Glob] finds.  [sort.Slice] is a parameter, as
    it does not say how it orders equal elements. *)
From S2P Require Import Prelude Bytes Paths WasmObj.
From Stdlib Require Import Ascii.

Record symbol := mkSym { y_name : string; y_link : string; y_fn : option FuncSig }.
#[export] Instance eta_symbol : Eta symbol := λ r, {| y_name := y_name r; y_link := y_link r; y_fn := y_fn r |}.
Record module := mkModule { m_name : string; m_ident : string; m_syms : list symbol }.

(** ** [ident]: a byte per rune, which keeps only letters, digits and [_]

    [rune_width]: how many bytes Go's decoder takes for the first rune, one when
    it is not valid UTF-8. *)
Definition between (lo hi b : Z) : bool := (lo <=? b) && (b <=? hi).
Definition rune_width (l : bytes) : nat :=
  match l with
  | b :: c :: l =>
      if between 194 223 b && between 128 191 c then 2%nat
      else
        match l with
        | d :: l =>
            if between 224 239 b && between (if b =? 224 then 160 else 128) (if b =? 237 then 159 else 191) c &&
               between 128 191 d then 3%nat
            else
              match l with
              | e :: _ =>
                  if between 240 244 b && between (if b =? 240 then 144 else 128) (if b =? 244 then 143 else 191) c &&
                     between 128 191 d && between 128 191 e then 4%nat
                  else 1%nat
              | [] => 1%nat
              end
        | [] => 1%nat
        end
  | _ => 1%nat
  end.
Definition ident_char (b : Z) : bool := between 97 122 b || between 65 90 b || between 48 57 b || (b =? 95).
(** [skip]: the bytes that are left of a rune that was already replaced. *)
Fixpoint ident_go (skip : nat) (l : bytes) : bytes :=
  match l with
  | [] => []
  | b :: l' =>
      match skip with
      | S skip => ident_go skip l'
      | O => if ident_char b then b :: ident_go 0 l' else 95 :: ident_go (Nat.pred (rune_width l)) l'
      end
  end.
Definition ident (s : string) : string := string_of_bytes (ident_go 0 (bytes_of_string s)).

(** ** The symbols of an object *)
Definition global_sym (s : Symbol) : option symbol :=
  if negb (Defined s) || Local_ s then None
  else if s_kind s =? KindFunction then Some (mkSym "" (s_name s) (s_func s))
  else if s_kind s =? KindData then Some (mkSym "" (s_name s) None)
  else None.

(** [objectSymbols]; [None] is a file that cannot be read. *)
Inductive mod_err := NotDirectory | GlobFailed | ReadFailed (file : string) | ObjFailed (file : string) (e : obj_err).
Inductive mres (A : Type) := MOk (a : A) | MErr (e : mod_err) | MPanic.
Arguments MOk {A}. Arguments MErr {A}. Arguments MPanic {A}.

Definition objectSymbols (file : string) (data : option (bytes * bytes)) : mres (list symbol) :=
  match data with
  | None => MErr (ReadFailed file)
  | Some (data, spare) =>
      match Symbols data spare with
      | Done all => MOk (omap global_sym all)
      | Fail e => MErr (ObjFailed file e)
      | Crash | NoFuel => MPanic
      end
  end.

(** ** A module *)

(** [strings.HasSuffix] and [TrimSuffix]. *)
Fixpoint strip_suffix (suf s : string) : option string :=
  if decide (s = suf) then Some ""
  else match s with
       | EmptyString => None
       | String c s => String c <$> strip_suffix suf s
       end.

Section modules.
Context (sortSlice : list symbol → list symbol) (sortModules : list module → list module).

(** The loop over one object's symbols, with the links already seen. *)
Fixpoint add_syms (prefix : string) (syms : list symbol) (seen : gset string) (out : list symbol)
    : gset string * list symbol :=
  match syms with
  | [] => (seen, out)
  | s :: syms =>
      if decide (y_link s ∈ seen) then add_syms prefix syms seen out
      else add_syms prefix syms ({[y_link s]} ∪ seen) (out ++ [s <| y_name := TrimPrefix (y_link s) prefix |>])
  end.

Fixpoint add_objects (prefix : string) (objs : list (string * option (bytes * bytes))) (seen : gset string)
    (out : list symbol) : mres (list symbol) :=
  match objs with
  | [] => MOk out
  | (file, data) :: objs =>
      match objectSymbols file data with
      | MOk syms => let '(seen, out) := add_syms prefix syms seen out in add_objects prefix objs seen out
      | MErr e => MErr e
      | MPanic => MPanic
      end
  end.

(** [readModule]; [objs] is what [Glob] finds, [None] when it fails. *)
Definition module_prefix (name : string) : string := "pgzero_mod__" +:+ ident name +:+ "__".
Definition readModule (dir : string) (objs : option (list (string * option (bytes * bytes)))) : mres module :=
  match strip_suffix ".so.p" (Base (TrimSlash dir)) with
  | None => MErr NotDirectory
  | Some name =>
      match objs with
      | None => MErr GlobFailed
      | Some objs =>
          match add_objects (module_prefix name) objs ∅ [] with
          | MOk syms => MOk (mkModule name (ident name) (sortSlice syms))
          | MErr e => MErr e
          | MPanic => MPanic
          end
      end
  end.

(** ** The C source *)
Definition ctype (t : Z) : string :=
  if t =? 127 then "int32_t" else if t =? 126 then "int64_t" else if t =? 125 then "float"
  else if t =? 124 then "double" else "int32_t".
Definition cResult (f : FuncSig) : string :=
  match fs_results f with [] => "void" | [t] => ctype t | _ => "void" end.
Fixpoint join_comma (l : list string) : string :=
  match l with [] => "" | [x] => x | x :: l => x +:+ ", " +:+ join_comma l end.
Definition cParams (f : FuncSig) : string :=
  match fs_params f with [] => "void" | ps => join_comma (ctype <$> ps) end.

Definition nl : string := String (ascii_of_N 10) "".
Definition tab : string := String (ascii_of_N 9) "".
Definition dq : string := String (ascii_of_N 34) "".
Definition concat_str (l : list string) : string := foldr String.append "" l.

Definition decl_of (s : symbol) : string :=
  match y_fn s with
  | Some f => concat_str ["extern "; cResult f; " "; y_link s; "("; cParams f; ");"; nl]
  | None => concat_str ["extern char "; y_link s; "[];"; nl]
  end.
Definition entry_of (s : symbol) : string :=
  concat_str [tab; "{"; dq; y_name s; dq; ", (void *) "; y_link s; "},"; nl].
Definition module_source (m : module) : string :=
  concat_str (["/* "; m_name m; " */"; nl] ++ (decl_of <$> m_syms m) ++
    ["static const pgzero_module_symbol syms_"; m_ident m; "[] = {"; nl] ++ (entry_of <$> m_syms m) ++
    [tab; "{0, 0}"; nl; "};"; nl; nl]).
Definition modules_source (mods : list module) : string :=
  let mods := sortModules mods in
  concat_str (["/* Code generated by wasm/cmd/genmodules. DO NOT EDIT. */"; nl; nl;
    "#include <stdint.h>"; nl; nl; "#include "; dq; "pgzero.h"; dq; nl; nl] ++
    (module_source <$> mods) ++
    ["const pgzero_module pgzero_modules[] = {"; nl] ++
    ((λ m, concat_str [tab; "{"; dq; m_name m; dq; ", syms_"; m_ident m; "},"; nl]) <$> mods) ++
    [tab; "{0, 0}"; nl; "};"; nl]).
End modules.

(** * What a module lists *)

(** The global functions and data an object file defines, with its table. *)
Definition defines (objs : list (string * option (bytes * bytes))) (link : string) (fn : option FuncSig) : Prop :=
  ∃ file data spare all s, (file, Some (data, spare)) ∈ objs ∧ Symbols data spare = Done all ∧ s ∈ all ∧
    Defined s = true ∧ Local_ s = false ∧ s_name s = link ∧
    (s_kind s = KindFunction ∧ fn = s_func s ∨ s_kind s = KindData ∧ fn = None).

Lemma global_sym_spec s y : global_sym s = Some y ↔
  Defined s = true ∧ Local_ s = false ∧ y_name y = "" ∧ y_link y = s_name s ∧
  (s_kind s = KindFunction ∧ y_fn y = s_func s ∨ s_kind s = KindData ∧ y_fn y = None).
Proof.
  unfold global_sym. destruct y as [n l fn]. cbn [y_name y_link y_fn].
  destruct (Defined s), (Local_ s); cbn [negb orb]; try naive_solver.
  destruct (Z.eqb_spec (s_kind s) KindFunction) as [E|E]; [|destruct (Z.eqb_spec (s_kind s) KindData) as [E'|E']].
  - split; [intros [= <- <- <-]; split_and!; auto|].
    intros (_ & _ & -> & -> & [[_ ->]|[E' _]]); [done|]. rewrite E in E'. done.
  - split; [intros [= <- <- <-]; split_and!; auto|].
    intros (_ & _ & -> & -> & [[? _]|[_ ->]]); [congruence|done].
  - naive_solver.
Qed.

(** The links of a list of symbols, as a set. *)
Definition links (l : list symbol) : gset string := list_to_set (y_link <$> l).

Lemma elem_of_links x l : x ∈ links l ↔ ∃ s, s ∈ l ∧ y_link s = x.
Proof. unfold links. rewrite elem_of_list_to_set, list_elem_of_fmap. naive_solver. Qed.

Record listed (prefix : string) (from : symbol → Prop) (seen : gset string) (out : list symbol) : Prop := {
  li_seen : seen = links out;
  li_nodup : NoDup (y_link <$> out);
  li_from y : y ∈ out → y_name y = TrimPrefix (y_link y) prefix ∧ from (y <| y_name := "" |>);
}.

Lemma add_syms_spec prefix from syms seen out :
  listed prefix from seen out → (∀ s, s ∈ syms → y_name s = "" ∧ from s) →
  let '(seen', out') := add_syms prefix syms seen out in
  listed prefix from seen' out' ∧ ∀ x, x ∈ seen' ↔ x ∈ seen ∨ ∃ s, s ∈ syms ∧ y_link s = x.
Proof.
  revert seen out. induction syms as [|s syms IH]; intros seen out Hl Hf; cbn [add_syms].
  { split; [done|]. intros x. set_solver. }
  case_decide as Hs.
  - specialize (IH seen out Hl (λ y Hy, Hf y (list_elem_of_further _ _ _ Hy))).
    destruct (add_syms _ _ _ _) as [seen' out']. destruct IH as [H1 H2]. split; [done|].
    intros x. rewrite H2. set_solver.
  - destruct (Hf s) as [Hname Hfs]; [constructor|].
    assert (listed prefix from ({[y_link s]} ∪ seen) (out ++ [s <| y_name := TrimPrefix (y_link s) prefix |>])) as Hl'.
    { destruct Hl as [-> Hn Hfr]. split.
      - apply set_eq. intros x. rewrite elem_of_union, elem_of_singleton, !elem_of_links. set_solver.
      - rewrite fmap_app. apply NoDup_app. split_and!; [done| |apply NoDup_singleton].
        intros x Hx ->%list_elem_of_singleton. apply Hs, elem_of_links.
        apply list_elem_of_fmap in Hx as (y & Hy & Hyo). by exists y.
      - intros y [Hy| ->%list_elem_of_singleton]%elem_of_app; [by apply Hfr|]. split; [done|].
        simpl. destruct s as [n l fn]. simpl in *. by subst n. }
    specialize (IH _ _ Hl' (λ y Hy, Hf y (list_elem_of_further _ _ _ Hy))).
    destruct (add_syms _ _ _ _) as [seen' out']. destruct IH as [H1 H2]. split; [done|].
    intros x. rewrite H2. set_solver.
Qed.

Lemma add_objects_spec prefix all objs seen out out' :
  (∀ o, o ∈ objs → o ∈ all) →
  listed prefix (λ s, defines all (y_link s) (y_fn s)) seen out → add_objects prefix objs seen out = MOk out' →
  listed prefix (λ s, defines all (y_link s) (y_fn s)) (links out') out' ∧
  (∀ x, x ∈ seen → x ∈ links out') ∧ ∀ link fn, defines objs link fn → link ∈ links out'.
Proof.
  revert seen out. induction objs as [|[file data] objs IH]; intros seen out Hsub Hl; cbn [add_objects].
  { intros [= <-]. split_and!; [by destruct Hl as [-> ? ?]; split|by destruct Hl as [-> ? ?]|].
    intros link fn (? & ? & ? & ? & ? & ?%not_elem_of_nil & _). done. }
  destruct (objectSymbols file data) as [syms|e|] eqn:Eo; try done.
  assert (∃ d spare allsyms, data = Some (d, spare) ∧ Symbols d spare = Done allsyms ∧ syms = omap global_sym allsyms)
    as (d & spare & allsyms & -> & Hsyms & ->).
  { unfold objectSymbols in Eo. destruct data as [[d spare]|]; [|done].
    destruct (Symbols d spare) as [l| | |] eqn:E; try done. injection Eo as <-. by exists d, spare, l. }
  assert (∀ s, s ∈ omap global_sym allsyms → y_name s = "" ∧ defines all (y_link s) (y_fn s)) as Hf.
  { intros y (s & Hs & Hy)%list_elem_of_omap. apply global_sym_spec in Hy as (H1 & H2 & H3 & H4 & H5).
    split; [done|]. exists file, d, spare, allsyms, s. split_and!; try done. apply Hsub. constructor. }
  pose proof (add_syms_spec prefix _ _ seen out Hl Hf) as Ha.
  destruct (add_syms prefix (omap global_sym allsyms) seen out) as [seen1 out1]. destruct Ha as [Hl1 Hs1].
  intros Ho. destruct (IH seen1 out1) as (Hl' & Hs' & Hd'); [intros; apply Hsub; by constructor|done..|].
  split_and!; [done|intros; apply Hs', Hs1; by left|].
  intros link fn (file' & d' & spare' & all' & s & Hin & Hsy & Hs & H1 & H2 & H3 & H4).
  apply elem_of_cons in Hin as [[= -> -> ->]|Hin]; [|apply (Hd' link fn); by exists file', d', spare', all', s].
  rewrite Hsyms in Hsy. injection Hsy as ->. apply Hs', Hs1. right.
  exists (mkSym "" link fn). split; [|done]. apply list_elem_of_omap. exists s. split; [done|].
  apply global_sym_spec. split_and!; try done.
Qed.

Lemma ident_chars skip l : bytes_ok l → Forall (λ b, ident_char b = true ∧ is_byte b) (ident_go skip l).
Proof.
  intros Hl. revert skip. induction Hl as [|b l Hb _ IH]; intros skip; cbn [ident_go]; [constructor|].
  destruct skip as [|skip]; [|apply IH]. destruct (ident_char b) eqn:E; constructor; [done|apply IH| |apply IH].
  split; [done|]. unfold is_byte. lia.
Qed.

Lemma ident_valid s : Forall (λ b, ident_char b = true) (bytes_of_string (ident s)).
Proof.
  unfold ident. pose proof (ident_chars 0 _ (bytes_of_string_ok s)) as H.
  rewrite bytes_string_bytes.
  - eapply Forall_impl; [exact H|]. by intros b [].
  - unfold bytes_ok. eapply Forall_impl; [exact H|]. by intros b [].
Qed.

Lemma strip_suffix_Some suf s r : strip_suffix suf s = Some r → s = r +:+ suf.
Proof.
  revert r. induction s as [|c s IH]; intros r; cbn [strip_suffix]; case_decide as E.
  - intros [= <-]. by subst.
  - done.
  - intros [= <-]. by subst.
  - intros (r' & Hr & ->)%fmap_Some. by rewrite (IH r' Hr).
Qed.

(** * Properties *)


(** Sorting by link, as an instance of [sort.Slice]. *)
Definition le_link (a b : symbol) : Prop := String.le (y_link a) (y_link b).
#[export] Instance le_link_dec : RelDecision le_link := λ a b, decide (String.le (y_link a) (y_link b)).
#[export] Instance le_link_trans : Transitive le_link.
Proof. intros a b c. unfold le_link. apply transitivity. Qed.
#[export] Instance le_link_total : Total le_link.
Proof. intros a b. unfold le_link. apply total, _. Qed.
Definition sort_links : list symbol → list symbol := merge_sort le_link.

Lemma sort_links_ok l : sort_links l ≡ₚ l ∧ StronglySorted String.le (y_link <$> sort_links l).
Proof.
  split; [apply merge_sort_Permutation|].
  assert (StronglySorted le_link (sort_links l)) as Hs by (apply StronglySorted_merge_sort; apply _).
  induction Hs as [|y ys _ IH Hall]; [constructor|]. rewrite fmap_cons. constructor; [done|].
  apply Forall_fmap. exact Hall.
Qed.

(** Two objects; both define [_PG_init], renamed, and the second one data. *)
Definition demo_obj (syms : list (Z * Z * string)) : bytes :=
  wasm_magic ++ [1; 0; 0; 0] ++
  let body := concat ((λ '(kind, flags, name), [kind; flags; zlen (bytes_of_string name)] ++ bytes_of_string name ++
                (if flags_defined flags then [0; 0; 4] else [])) <$> syms) in
  let sub := zlen syms :: body in
  let sec := 7 :: bytes_of_string "linking" ++ [2; 8; zlen sub] ++ sub in
  [0; zlen sec] ++ sec.
Definition demo_objs : list (string * option (bytes * bytes)) :=
  [("plpgsql.so.p/a.o", Some (demo_obj [(1, 0, "pgzero_mod__pl_x__magic"); (1, 2, "local"); (1, 16, "elsewhere")], []));
   ("plpgsql.so.p/b.o", Some (demo_obj [(1, 0, "aux"); (1, 1, "pgzero_mod__pl_x__magic")], []))].

