(* ===== verification/Runtime.v ===== *)
(** What surrounds the processes: the compiled programs all kernels share and the
    life of one guest instance ([src/internal/kernel/kernel.go],
    [src/internal/kernel/process.go]), and the listeners that exist only inside a
    kernel ([virtualListener]).

    The runtime that loads components and runs them is not modelled: what it
    answers is a parameter.  Goroutines that run at the same time are steps of a
    transition system; a [sync.Once] runs its function for the first caller and
    lets the others wait for it, a channel without a buffer hands a value over
    when a sender and a receiver are there. *)
From S2P Require Import Prelude Abi Paths Signals Process.

(** * [Runtime.program] *)
Inductive load_result := Loaded (component : nat) | LoadError.
#[export] Instance load_result_eq_dec : EqDecision load_result.
Proof. solve_decision. Defined.

(** A [program]: its [once] has not been used, is running in a goroutine, or is
    done. *)
Inductive prog_state := PFresh | PLoading (t : nat) | PDone (r : load_result).

(** A caller: waiting for the once, or returned; [None] is "no such program". *)
Inductive caller := CWait (name : string) | CReturned (name : string) (r : option load_result).

Record rt_state := RtState {
  rt_progs : gmap string prog_state;
  rt_callers : gmap nat caller;
  rt_loads : list string;
}.
#[export] Instance eta_rt_state : Eta rt_state := λ r,
  {| rt_progs := rt_progs r; rt_callers := rt_callers r; rt_loads := rt_loads r |}.

Definition rt_init : rt_state := RtState ∅ ∅ [].

Section programs.
Context (Programs : gset string).

(** The part of [program] up to the unlocking of [progMu]. *)
Definition program_lookup (t : nat) (argv0 : string) (s : rt_state) : rt_state :=
  let name := Base argv0 in
  if decide (name ∈ Programs) then
    let s := match rt_progs s !! name with None => s <| rt_progs ::= <[name := PFresh]> |> | Some _ => s end in
    s <| rt_callers ::= <[t := CWait name]> |>
  else s <| rt_callers ::= <[t := CReturned name None]> |>.

Inductive rt_step : relation rt_state :=
| rt_call t argv0 s :
    rt_callers s !! t = None → rt_step s (program_lookup t argv0 s)
| rt_begin t name s :
    rt_callers s !! t = Some (CWait name) → rt_progs s !! name = Some PFresh →
    rt_step s (s <| rt_progs ::= <[name := PLoading t]> |> <| rt_loads ::= λ l, l ++ [name] |>)
| rt_end t name r s :
    rt_callers s !! t = Some (CWait name) → rt_progs s !! name = Some (PLoading t) →
    rt_step s (s <| rt_progs ::= <[name := PDone r]> |> <| rt_callers ::= <[t := CReturned name (Some r)]> |>)
| rt_return t name r s :
    rt_callers s !! t = Some (CWait name) → rt_progs s !! name = Some (PDone r) →
    rt_step s (s <| rt_callers ::= <[t := CReturned name (Some r)]> |>).

(** The once of a program has been used. *)
Definition started (p : option prog_state) : Prop :=
  match p with Some (PLoading _) | Some (PDone _) => True | _ => False end.

(** What holds of the cache at any time. *)
Record rt_ok (s : rt_state) : Prop := {
  rt_nodup : NoDup (rt_loads s);
  rt_loaded name : name ∈ rt_loads s ↔ started (rt_progs s !! name);
  rt_known name : is_Some (rt_progs s !! name) → name ∈ Programs;
  rt_waiting t name : rt_callers s !! t = Some (CWait name) → is_Some (rt_progs s !! name);
  rt_loader name t : rt_progs s !! name = Some (PLoading t) → rt_callers s !! t = Some (CWait name);
  rt_result t name r : rt_callers s !! t = Some (CReturned name (Some r)) → rt_progs s !! name = Some (PDone r);
  rt_unknown t name : rt_callers s !! t = Some (CReturned name None) → name ∉ Programs;
}.

Lemma rt_init_ok : rt_ok rt_init.
Proof. split; simpl; try done; [constructor|intros name; by rewrite elem_of_nil|by intros name []]. Qed.

#[local] Ltac rt_cases Hld Hr :=
  simpl; intros *; rewrite ?lookup_insert; repeat case_decide; subst; simpl; try done; eauto;
  try (intros; simplify_eq; eauto; congruence);
  try (let Hc := fresh in intros Hc; first [apply Hld in Hc|apply Hr in Hc]; congruence).

Lemma rt_call_ok t argv0 s : rt_callers s !! t = None → rt_ok s → rt_ok (program_lookup t argv0 s).
Proof.
  intros Ht [Hn Hl Hk Hw Hld Hr Hu]. unfold program_lookup.
  destruct (decide (Base argv0 ∈ Programs)) as [Hin|Hin].
  - destruct (rt_progs s !! Base argv0) as [p|] eqn:E; split; rt_cases Hld Hr.
    by rewrite Hl, E.
  - split; rt_cases Hld Hr.
Qed.

Lemma rt_begin_ok t name s :
  rt_callers s !! t = Some (CWait name) → rt_progs s !! name = Some PFresh → rt_ok s →
  rt_ok (s <| rt_progs ::= <[name := PLoading t]> |> <| rt_loads ::= λ l, l ++ [name] |>).
Proof.
  intros Ht Hp [Hn Hl Hk Hw Hld Hr Hu]. split; rt_cases Hld Hr.
  - apply NoDup_app. split; [done|]. split; [|apply NoDup_singleton].
    intros x Hx ->%list_elem_of_singleton. apply Hl in Hx. by rewrite Hp in Hx.
  - rewrite elem_of_app. split; [done|]. intros _. right. by apply list_elem_of_singleton.
  - rewrite elem_of_app, Hl, list_elem_of_singleton. naive_solver.
Qed.

Lemma rt_end_ok t name r s :
  rt_callers s !! t = Some (CWait name) → rt_progs s !! name = Some (PLoading t) → rt_ok s →
  rt_ok (s <| rt_progs ::= <[name := PDone r]> |> <| rt_callers ::= <[t := CReturned name (Some r)]> |>).
Proof.
  intros Ht Hp [Hn Hl Hk Hw Hld Hr Hu]. split; rt_cases Hld Hr.
  by rewrite Hl, Hp.
Qed.

Lemma rt_return_ok t name r s :
  rt_callers s !! t = Some (CWait name) → rt_progs s !! name = Some (PDone r) → rt_ok s →
  rt_ok (s <| rt_callers ::= <[t := CReturned name (Some r)]> |>).
Proof.
  intros Ht Hp [Hn Hl Hk Hw Hld Hr Hu]. split; rt_cases Hld Hr.
  intros Hc. pose proof (Hld _ _ Hc). congruence.
Qed.

Lemma rt_step_ok s s' : rt_ok s → rt_step s s' → rt_ok s'.
Proof.
  destruct 2; [by apply rt_call_ok|by apply rt_begin_ok|by apply rt_end_ok|by apply rt_return_ok].
Qed.

Lemma rt_reachable_ok s : rtc rt_step rt_init s → rt_ok s.
Proof. revert s. apply rtc_ind_r; eauto using rt_init_ok, rt_step_ok. Qed.

(** ** Progress: the steps that take a waiting caller back. *)
Lemma rt_return_run t name r s :
  rt_callers s !! t = Some (CWait name) → rt_progs s !! name = Some (PDone r) →
  ∃ s', rtc rt_step s s' ∧ rt_callers s' !! t = Some (CReturned name (Some r)) ∧ rt_loads s' = rt_loads s.
Proof.
  intros Ht Hp. eexists. split; [apply rtc_once; by eapply rt_return|]. simpl. by rewrite lookup_insert_eq.
Qed.

Lemma rt_loading_run t t' name r s :
  rt_callers s !! t = Some (CWait name) → rt_callers s !! t' = Some (CWait name) →
  rt_progs s !! name = Some (PLoading t') →
  ∃ s', rtc rt_step s s' ∧ rt_callers s' !! t = Some (CReturned name (Some r)) ∧ rt_loads s' = rt_loads s.
Proof.
  intros Ht Ht' Hp.
  assert (Hs : rt_step s (s <| rt_progs ::= <[name := PDone r]> |> <| rt_callers ::= <[t' := CReturned name (Some r)]> |>))
    by by apply rt_end.
  destruct (decide (t = t')) as [->|Hne].
  - eexists. split; [apply rtc_once, Hs|]. simpl. by rewrite lookup_insert_eq.
  - destruct (rt_return_run t name r (s <| rt_progs ::= <[name := PDone r]> |> <| rt_callers ::= <[t' := CReturned name (Some r)]> |>))
      as (s' & Hrun & Hc & Hl); simpl.
    + by rewrite lookup_insert_ne.
    + by rewrite lookup_insert_eq.
    + exists s'. split; [by eapply rtc_l|done].
Qed.

(** C33. However many processes start a program at the same time: a program is
    loaded at most once, only if it is known, every caller that has returned got
    what that one load answered (or the error for an unknown name), and a caller
    that is still waiting can get back, by way of the load in progress if there
    is one and without loading a program a second time. *)
Theorem program_loaded_once s :
  rtc rt_step rt_init s →
  NoDup (rt_loads s) ∧
  (∀ name, name ∈ rt_loads s → name ∈ Programs) ∧
  (∀ t name o, rt_callers s !! t = Some (CReturned name o) →
     (o = None ∧ name ∉ Programs) ∨ (∃ r, o = Some r ∧ name ∈ rt_loads s)) ∧
  (∀ t t' name r r', rt_callers s !! t = Some (CReturned name (Some r)) →
     rt_callers s !! t' = Some (CReturned name (Some r')) → r = r') ∧
  (∀ t name, rt_callers s !! t = Some (CWait name) →
     ∃ r s', rtc rt_step s s' ∧ rt_callers s' !! t = Some (CReturned name (Some r)) ∧
       rt_loads s' = rt_loads s ++ (if decide (name ∈ rt_loads s) then [] else [name])).
Proof.
  intros Hrun%rt_reachable_ok. destruct Hrun as [Hn Hl Hk Hw Hld Hr Hu]. split_and!.
  - done.
  - intros name Hin%Hl. apply Hk. destruct (rt_progs s !! name); [by eexists|done].
  - intros t name [r|] Hc; [right|left; eauto]. exists r. split; [done|]. apply Hl. by rewrite (Hr _ _ _ Hc).
  - intros t t' name r r' H1%Hr H2%Hr. congruence.
  - intros t name Ht. destruct (Hw _ _ Ht) as [p Hp].
    assert (Hin : name ∈ rt_loads s ↔ p ≠ PFresh) by (rewrite Hl, Hp; destruct p; naive_solver).
    destruct p as [|t'|r].
    + destruct (rt_loading_run t t name (Loaded 0)
        (s <| rt_progs ::= <[name := PLoading t]> |> <| rt_loads ::= λ l, l ++ [name] |>)) as (s' & Hs & Hc & He);
        simpl; [done|done|by rewrite lookup_insert_eq|].
      exists (Loaded 0), s'. split; [eapply rtc_l; [by apply rt_begin|done]|]. split; [done|].
      rewrite He. simpl. by rewrite decide_False by naive_solver.
    + destruct (rt_loading_run t t' name (Loaded 0) s) as (s' & Hs & Hc & He); [done|by apply Hld|done|].
      exists (Loaded 0), s'. split_and!; [done|done|]. by rewrite He, decide_True, app_nil_r by naive_solver.
    + destruct (rt_return_run t name r s) as (s' & Hs & Hc & He); [done|done|].
      exists r, s'. split_and!; [done|done|]. by rewrite He, decide_True, app_nil_r by naive_solver.
Qed.
(** *** [Precompile]

    A call of [program] that no other goroutine overlaps: the look-up, then the
    load, which answers [ans], or the answer of an earlier one.  Its number is
    [t].  A program that another goroutine is loading is waited for, so that
    call does not end on its own. *)
Definition program_alone (ans : string → load_result) (t : nat) (argv0 : string) (s : rt_state)
    : rt_state * option load_result :=
  let name := Base argv0 in
  let s := program_lookup t argv0 s in
  if decide (name ∈ Programs) then
    match rt_progs s !! name with
    | Some (PDone r) => (s <| rt_callers ::= <[t := CReturned name (Some r)]> |>, Some r)
    | _ =>
        let s := s <| rt_progs ::= <[name := PLoading t]> |> <| rt_loads ::= λ l, l ++ [name] |> in
        (s <| rt_progs ::= <[name := PDone (ans name)]> |> <| rt_callers ::= <[t := CReturned name (Some (ans name))]> |>,
         Some (ans name))
    end
  else (s, None).

(** The programs in order, up to the first error: an unknown name or a load that
    fails; [t] and the numbers after it are its calls of [program]. *)
Fixpoint Precompile (ans : string → load_result) (t : nat) (names : list string) (s : rt_state) : rt_state * bool :=
  match names with
  | [] => (s, true)
  | n :: names =>
      match program_alone ans t n s with
      | (s, Some (Loaded _)) => Precompile ans (S t) names s
      | (s, _) => (s, false)
      end
  end.

(** Nobody is loading anything. *)
Definition idle (s : rt_state) : Prop := ∀ name t, rt_progs s !! name ≠ Some (PLoading t).

Lemma program_lookup_known t argv0 s :
  let name := Base argv0 in
  rt_callers s !! t = None → name ∈ Programs →
  let s1 := program_lookup t argv0 s in
  rt_step s s1 ∧ rt_callers s1 !! t = Some (CWait name) ∧ rt_progs s1 !! name = Some (default PFresh (rt_progs s !! name)) ∧
  (∀ n, n ≠ name → rt_progs s1 !! n = rt_progs s !! n) ∧ rt_loads s1 = rt_loads s ∧
  ∀ t', t' ≠ t → rt_callers s1 !! t' = rt_callers s !! t'.
Proof.
  intros name Ht Hin s1. split; [by apply rt_call|]. subst s1. unfold program_lookup. fold name. rewrite decide_True by done.
  destruct (rt_progs s !! name) eqn:E; cbn; rewrite lookup_insert_eq; split_and!; try done.
  - intros t' Hne. by rewrite lookup_insert_ne.
  - apply lookup_insert_eq.
  - intros n Hne. by rewrite lookup_insert_ne.
  - intros t' Hne. by rewrite lookup_insert_ne.
Qed.

Lemma program_alone_spec ans t argv0 s :
  let name := Base argv0 in
  idle s → rt_callers s !! t = None →
  let res := program_alone ans t argv0 s in
  rtc rt_step s res.1 ∧ idle res.1 ∧ (∀ t', t' ≠ t → rt_callers res.1 !! t' = rt_callers s !! t') ∧
  (∀ n, n ≠ name ∨ (∃ r, rt_progs s !! n = Some (PDone r)) → rt_progs res.1 !! n = rt_progs s !! n) ∧
  (name ∉ Programs → res.2 = None) ∧
  (name ∈ Programs → ∃ r, res.2 = Some r ∧ rt_progs res.1 !! name = Some (PDone r) ∧
     ((rt_progs s !! name = Some (PDone r) ∧ rt_loads res.1 = rt_loads s) ∨
      (r = ans name ∧ rt_loads res.1 = rt_loads s ++ [name]))).
Proof.
  intros name Hidle Ht res. subst res. unfold program_alone. fold name.
  destruct (decide (name ∈ Programs)) as [Hin|Hin]; fold name in Hin.
  2: { pose proof (rt_call t argv0 s Ht) as Hcall. unfold program_lookup in *. fold name in Hcall. fold name.
       rewrite decide_False in * by done. cbn [fst snd]. split_and!; [by apply rtc_once| |..]; try done.
       intros t' Hne. cbn. by rewrite lookup_insert_ne. }
  destruct (program_lookup_known t argv0 s Ht Hin) as (Hcall & Hw & Hname & Hother & Hl & Hcs).
  fold name in Hw, Hname, Hother. set (s1 := program_lookup t argv0 s) in *. clearbody s1.
  assert ((∃ r, rt_progs s !! name = Some (PDone r)) ∨ rt_progs s1 !! name = Some PFresh) as Hcase.
  { rewrite Hname. destruct (rt_progs s !! name) as [[|t'|r]|] eqn:E; eauto. by destruct (Hidle name t'). }
  destruct Hcase as [[r Hr]|Hf].
  - assert (rt_progs s1 !! name = Some (PDone r)) as Hr1 by by rewrite Hname, Hr.
    rewrite Hr1. cbn. split_and!.
    + eapply rtc_l; [exact Hcall|]. apply rtc_once. by apply rt_return.
    + intros n t'. destruct (decide (n = name)) as [->|]; cbn; [by rewrite Hr1|]. rewrite Hother by done. apply Hidle.
    + intros t' Hne. rewrite lookup_insert_ne by done. by apply Hcs.
    + intros n _. destruct (decide (n = name)) as [->|]; [congruence|]. by apply Hother.
    + done.
    + intros _. exists r. auto.
  - rewrite Hf. cbn. split_and!.
    + eapply rtc_l; [exact Hcall|]. eapply rtc_l; [by apply (rt_begin t name)|].
      apply rtc_once. apply rt_end; [done|]. apply lookup_insert_eq.
    + intros n t'. cbn. destruct (decide (n = name)) as [->|]; [by rewrite lookup_insert_eq|].
      rewrite !lookup_insert_ne, Hother by done. apply Hidle.
    + intros t' Hne. rewrite lookup_insert_ne by done. by apply Hcs.
    + intros n Hn. destruct (decide (n = name)) as [->|].
      * destruct Hn as [?|[r Hr]]; [done|]. rewrite Hname, Hr in Hf. discriminate.
      * by rewrite !lookup_insert_ne, Hother.
    + done.
    + intros _. exists (ans name). rewrite lookup_insert_eq, Hl. auto.
Qed.

(** Compiling ahead gives every later caller the load's answer: when [Precompile]
    succeeds every program it was given is loaded, by
    steps of the cache above; it succeeds when the names are known and no load of
    them fails or has failed. *)
Theorem Precompile_loads ans t names s :
  idle s → (∀ t', (t ≤ t')%nat → rt_callers s !! t' = None) →
  let res := Precompile ans t names s in
  rtc rt_step s res.1 ∧ idle res.1 ∧
  (∀ n r, rt_progs s !! n = Some (PDone r) → rt_progs res.1 !! n = Some (PDone r)) ∧
  (res.2 = true → Forall (λ n, Base n ∈ Programs ∧ ∃ c, rt_progs res.1 !! Base n = Some (PDone (Loaded c))) names) ∧
  ((∀ n, n ∈ names → Base n ∈ Programs ∧ (∃ c, ans (Base n) = Loaded c) ∧
      rt_progs s !! Base n ≠ Some (PDone LoadError)) → res.2 = true).
Proof.
  revert t s. induction names as [|n names IH]; intros t s Hidle Ht; cbn [Precompile].
  { by split_and!. }
  destruct (program_alone_spec ans t n s Hidle (Ht t ltac:(lia))) as (Hrun & Hidle' & Hcs & Hdone & Hunk & Hk).
  destruct (program_alone ans t n s) as [s' o]. cbn [fst snd] in *.
  destruct (decide (Base n ∈ Programs)) as [Hin|Hin].
  2: { rewrite (Hunk Hin). cbn. split_and!; try done; [by intros m r Hm; rewrite Hdone by eauto|]. intros Hall. destruct Hin. by apply (Hall n); left. }
  destruct (Hk Hin) as (r & -> & Hr & Hor). destruct r as [c|]; cbn [fst snd].
  - destruct (IH (S t) s' Hidle') as (Hrun' & Hi & Hd & Htrue & Hsuc).
    { intros t' Hlt. rewrite Hcs by lia. apply Ht. lia. }
    split_and!; [by etrans|done|by intros m r Hm; apply Hd; rewrite Hdone by eauto| |].
    + intros Hres. constructor; [|by apply Htrue]. split; [done|]. exists c. by apply Hd.
    + intros Hall. apply Hsuc. intros m Hm. destruct (Hall m) as (? & Hc & Hne); [by right|]. split_and!; [done|done|].
      intros He. destruct (decide (Base m = Base n)) as [E|E]; [congruence|]. rewrite Hdone in He by auto. done.
  - split_and!; try done; [by intros m r Hm; rewrite Hdone by eauto|]. intros Hall. exfalso. destruct (Hall n) as (_ & [c Hc] & Hne); [by left|].
    destruct Hor as [[? _]|[E _]]; congruence.
Qed.
End programs.

(** The witness: two processes start [psql] at the same time, a third an unknown
    program; the load fails and both get its error. *)
Definition rt_race : rt_state :=
  program_lookup {["psql"]} 3 "/bin/vi" (program_lookup {["psql"]} 2 "psql" (program_lookup {["psql"]} 1 "/bin/psql" rt_init)).

Definition rt_race_done : rt_state :=
  RtState {["psql" := PDone LoadError]}
    (<[2%nat := CReturned "psql" (Some LoadError)]> (<[1%nat := CReturned "psql" (Some LoadError)]> (rt_callers rt_race))) ["psql"].

Lemma rt_race_run : rtc (rt_step {["psql"]}) rt_init rt_race_done.
Proof.
  eapply rtc_l; [apply (rt_call _ 1 "/bin/psql"); by vm_compute|].
  eapply rtc_l; [apply (rt_call _ 2 "psql"); by vm_compute|].
  eapply rtc_l; [apply (rt_call _ 3 "/bin/vi"); by vm_compute|].
  eapply rtc_l; [apply (rt_begin _ 2 "psql"); by vm_compute|].
  eapply rtc_l; [apply (rt_end _ 2 "psql" LoadError); by vm_compute|].
  eapply rtc_l; [apply (rt_return _ 1 "psql" LoadError); by vm_compute|].
  match goal with |- rtc _ ?s _ => replace s with rt_race_done by (by vm_compute) end. done.
Defined.

Lemma program_loaded_once_witness :
  rtc (rt_step {["psql"]}) rt_init rt_race_done ∧ NoDup (rt_loads rt_race_done) ∧
  rt_callers rt_race_done !! 3%nat = Some (CReturned "vi" None).
Proof.
  split; [apply rt_race_run|]. split; [|by vm_compute].
  exact (proj1 (program_loaded_once {["psql"]} rt_race_done rt_race_run)).
Defined.

(** [setup] precompiles [postgres]; a process started later finds it loaded. *)
Example precompile_postgres :
  let res := Precompile {["postgres"; "initdb"]} (λ _, Loaded 7) 1 ["postgres"] rt_init in
  res.2 = true ∧ rt_loads res.1 = ["postgres"] ∧
  (program_alone {["postgres"; "initdb"]} (λ _, LoadError) 2 "/usr/local/pgsql/bin/postgres" res.1).2 = Some (Loaded 7) ∧
  (Precompile {["postgres"; "initdb"]} (λ _, Loaded 7) 1 ["psql"; "postgres"] rt_init).2 = false.
Proof. vm_compute. done. Qed.
