(* ===== verification/Guest.v ===== *)
(** The life of one guest ([NewRuntime] in [src/internal/kernel/kernel.go] and
    [Process.execute] in [src/internal/kernel/process.go]): what is acquired, in
    which order it is given back, and the status that comes out.

    The WebAssembly runtime (wazero, wacogo) is not in the repository: whether
    each call of it succeeds is an answer of the [wasm] record.  [execute] is
    written in a small monad with the [defer] statement of the source: a frame
    collects the calls made, the deferred ones run when the function returns,
    the last one first. *)
From S2P Require Import Prelude Abi Paths Signals Process.

(** The host interfaces, in the order both functions go through them. *)
Definition interfaces : list string :=
  ["pgzero:host/proc@0.1.0"; "pgzero:host/sig@0.1.0"; "pgzero:host/fd@0.1.0";
   "pgzero:host/net@0.1.0"; "pgzero:host/shm@0.1.0"; "pgzero:host/sema@0.1.0"].

(** * [NewRuntime] *)
Inductive engine := NoEngine | EngineOpen | EngineClosed.

Fixpoint new_factories (NewFactory : string → bool) (l : list string) : list string * bool :=
  match l with
  | [] => ([], true)
  | n :: l =>
      if NewFactory n then let '(made, ok) := new_factories NewFactory l in (n :: made, ok)
      else ([], false)
  end.

(** The factories of the runtime, [None] for an error, and the engine. *)
Definition NewRuntime (CacheDir : string) (NewCompilationCacheWithDir : bool) (NewFactory : string → bool)
  : option (list string) * engine :=
  if negb (bool_decide (CacheDir = "")) && negb NewCompilationCacheWithDir then (None, NoEngine)
  else
    match new_factories NewFactory interfaces with
    | (made, true) => (Some made, EngineOpen)
    | (_, false) => (None, EngineClosed)
    end.

(** * [execute] *)
(** What the runtime answers; [Call] says how the guest's [run] ended. *)
Record wasm := Wasm {
  NewWorld : bool;
  NewInstance : string → bool;
  program : bool;
  Instantiate : bool;
  ExportedInstance : bool;
  Call : guest_end;
}.

Inductive event :=
| EWorld | EHost (name : string) | EInstance | ECall | EStopSignals
| ECloseInstance | ECloseHost (name : string) | ECloseWorld.
#[export] Instance event_eq_dec : EqDecision event.
Proof. solve_decision. Defined.

Inductive deferred := DWorld | DHosts | DInstance | DStopSignals.

(** A call of the function: the events so far, the deferred calls, the last one
    first, and the variable [hostInsts]. *)
Record frame := Frame { f_trace : list event; f_defers : list deferred; f_hosts : list string }.
#[export] Instance eta_frame : Eta frame := λ r,
  {| f_trace := f_trace r; f_defers := f_defers r; f_hosts := f_hosts r |}.

(** A statement: it goes on with a value, or the function returns a status. *)
Definition body (A : Type) : Type := frame → (Z + A) * frame.
Definition ret {A} (x : A) : body A := λ f, (inr x, f).
Definition return_ {A} (status : Z) : body A := λ f, (inl status, f).
Definition bind {A B} (m : body A) (g : A → body B) : body B := λ f,
  match m f with
  | (inl status, f) => (inl status, f)
  | (inr x, f) => g x f
  end.
Definition emit (e : event) : body () := λ f, (inr (), f <| f_trace ::= λ t, t ++ [e] |>).
Definition defer (d : deferred) : body () := λ f, (inr (), f <| f_defers ::= cons d |>).
Definition add_host (n : string) : body () := λ f, (inr (), f <| f_hosts ::= λ l, l ++ [n] |>).
#[local] Notation "m ;; n" := (bind m (λ _, n)) (at level 100, n at level 200, right associativity).

(** A call of the runtime that fails with [127 << 8] or has the effect [e]. *)
Definition acquire (ok : bool) (e : event) : body () :=
  if ok then emit e else return_ (Z.shiftl 127 8).

Fixpoint new_instances (NewInstance : string → bool) (l : list string) : body () :=
  match l with
  | [] => ret ()
  | n :: l => acquire (NewInstance n) (EHost n);; add_host n;; new_instances NewInstance l
  end.

Definition execute_body (w : wasm) (p : proc) : body Z :=
  acquire (NewWorld w) EWorld;;
  defer DWorld;;
  defer DHosts;;
  new_instances (NewInstance w) interfaces;;
  (if program w then ret () else return_ (Z.shiftl 127 8));;
  acquire (Instantiate w) EInstance;;
  defer DInstance;;
  defer DStopSignals;;
  (if ExportedInstance w then ret () else return_ (Z.shiftl 127 8));;
  emit ECall;;
  ret (execute_status (Call w) p).

Definition run_deferred (f : frame) (d : deferred) : frame :=
  f <| f_trace ::= λ t, t ++
    match d with
    | DWorld => [ECloseWorld]
    | DHosts => ECloseHost <$> f_hosts f
    | DInstance => [ECloseInstance]
    | DStopSignals => [EStopSignals]
    end |>.

Definition call (b : body Z) : Z * list event :=
  let '(r, f) := b (Frame [] [] []) in
  (match r with inl status | inr status => status end, f_trace (fold_left run_deferred (f_defers f) f)).

(** The status [execute] returns when the process is in the state [p] once the
    guest has stopped, and what it did. *)
Definition execute (w : wasm) (p : proc) : Z * list event := call (execute_body w p).

(** * What must hold of every run *)
(** What is held: the world, the host instances, the guest's instance with its
    memory, and whether a signal may still be written into that memory. *)
Record held := Held { h_world : bool; h_hosts : list string; h_instance : bool; h_signals : bool }.
#[export] Instance held_eq_dec : EqDecision held.
Proof. solve_decision. Defined.

Definition nothing : held := Held false [] false false.

(** Using or giving back something that is not held, taking what is held, and
    closing something while something that needs it is held, are errors. *)
Definition life (e : event) (h : held) : option held :=
  let 'Held w hs i s := h in
  match e with
  | EWorld => if w then None else Some (Held true hs i s)
  | EHost n => if w && negb i && bool_decide (n ∉ hs) then Some (Held w (hs ++ [n]) i s) else None
  | EInstance => if w && negb i && bool_decide (hs = interfaces) then Some (Held w hs true true) else None
  | ECall => if i && s then Some h else None
  | EStopSignals => if i && s then Some (Held w hs i false) else None
  | ECloseInstance => if i && negb s then Some (Held w hs false s) else None
  | ECloseHost n => if w && negb i && bool_decide (n ∈ hs) then Some (Held w (filter (.≠ n) hs) i s) else None
  | ECloseWorld => if w && negb i && bool_decide (hs = []) then Some (Held false hs i s) else None
  end.

Fixpoint lives (es : list event) (h : held) : option held :=
  match es with
  | [] => Some h
  | e :: es => match life e h with Some h => lives es h | None => None end
  end.

(** Everything the guest needs was there. *)
Definition started (w : wasm) : bool :=
  NewWorld w && forallb (NewInstance w) interfaces && program w && Instantiate w && ExportedInstance w.

(** C32. Whatever fails: all that [execute] acquired is given back, once and in
    an order in which nothing is closed while it is needed; signals are cut off
    before the memory they are written to is freed; and the guest is called,
    once, exactly when all was there, its status then being the one of its end,
    and [127 << 8] otherwise. *)
Theorem execute_balanced w p :
  let '(status, es) := execute w p in
  lives es nothing = Some nothing ∧
  count_occ event_eq_dec es ECall = (if started w then 1 else 0)%nat ∧
  status = (if started w then execute_status (Call w) p else Z.shiftl 127 8).
Proof.
  destruct w as [b1 ni b2 b3 b4 e]. unfold execute, execute_body, started, interfaces.
  cbn [NewWorld NewInstance program Instantiate ExportedInstance Call new_instances forallb].
  destruct b1; [|by split_and!].
  repeat match goal with |- context [ni ?n] => destruct (ni n); [|by split_and!] end.
  destruct b2; [|by split_and!].
  destruct b3; [|by split_and!].
  destruct b4; by split_and!.
Qed.

(** The engine is open exactly when a Runtime comes back, which then has every
    factory [execute] instantiates; it is never left open behind an error. *)
Lemma new_factories_spec NewFactory l :
  new_factories NewFactory l = (l, true) ∧ (∀ n, n ∈ l → NewFactory n = true) ∨
  snd (new_factories NewFactory l) = false ∧ ∃ n, n ∈ l ∧ NewFactory n = false.
Proof.
  induction l as [|n l IH]; simpl; [left; split; [done|by intros ? ?%elem_of_nil]|].
  destruct (NewFactory n) eqn:E.
  - destruct IH as [[-> Hl]|[Hs (x & Hx & Hf)]].
    + left. split; [done|]. by intros x [->|?]%elem_of_cons; [|apply Hl].
    + right. destruct (new_factories NewFactory l). simpl in *. split; [done|]. exists x. rewrite elem_of_cons; eauto.
  - right. split; [done|]. exists n. split; [left|done].
Qed.

Lemma NewRuntime_engine CacheDir cache NewFactory :
  (NewRuntime CacheDir cache NewFactory).2 = EngineOpen ↔
  (NewRuntime CacheDir cache NewFactory).1 = Some interfaces.
Proof.
  unfold NewRuntime. destruct (_ && _); [done|].
  destruct (new_factories_spec NewFactory interfaces) as [[-> _]|[Hs _]]; [done|].
  destruct (new_factories NewFactory interfaces) as [made []]; [done|]. done.
Qed.
