(* ===== verification/Listener.v ===== *)
(** Listeners that exist only inside a kernel ([virtualListener] and
    [Kernel.DialUnix] in [src/internal/kernel/kernel.go]).

    The channel [conns] has no buffer, so a connection changes hands in one step
    of a dialer and an accepter; each of them may instead see that the listener
    is closed, and a dialer that its context is done.  Any number of goroutines
    dial, accept and close at the same time: they are steps of a transition
    system.  The table of listeners is in Socket.v; here only whether this
    listener is in it matters. *)
From S2P Require Import Prelude.

(** A call of [DialUnix]: in [dial], with the pipe it made, or returned.
    [DNoListener] is the refusal of [DialUnix] itself. *)
Inductive dial_call := DWait | DConnected | DRefused | DCancelled | DNoListener.
(** A call of [Accept]: blocked, or returned a connection, named by the dial
    that made it, or [net.ErrClosed]. *)
Inductive accept_call := AWait | AConn (t : nat) | AClosed.

(** [vl_closing] is the goroutine inside the once of [Close]; [vl_dropped] are
    the dials that have closed both ends of their pipe. *)
Record virtualListener := VirtualListener {
  vl_dials : gmap nat dial_call;
  vl_accepts : gmap nat accept_call;
  vl_closed : bool;
  vl_listed : bool;
  vl_dropped : gset nat;
}.
#[export] Instance eta_virtualListener : Eta virtualListener := λ r,
  {| vl_dials := vl_dials r; vl_accepts := vl_accepts r; vl_closed := vl_closed r;
     vl_listed := vl_listed r; vl_dropped := vl_dropped r |}.

(** As [listenUnix] makes it. *)
Definition newListener : virtualListener := VirtualListener ∅ ∅ false true ∅.

(** [DialUnix] up to the select of [dial]. *)
Definition DialUnix (t : nat) (l : virtualListener) : virtualListener :=
  l <| vl_dials ::= <[t := if vl_listed l then DWait else DNoListener]> |>.

(** A dial that fails: [client.Close(); server.Close()], and its error. *)
Definition dial_fail (t : nat) (err : dial_call) (l : virtualListener) : virtualListener :=
  l <| vl_dials ::= <[t := err]> |> <| vl_dropped ::= ({[t]} ∪.) |>.

Inductive vl_step : relation virtualListener :=
| vs_dial t l : vl_dials l !! t = None → vl_step l (DialUnix t l)
| vs_accept a l : vl_accepts l !! a = None → vl_step l (l <| vl_accepts ::= <[a := AWait]> |>)
(** [l.conns <- server] meets [c := <-l.conns] *)
| vs_rendezvous t a l :
    vl_dials l !! t = Some DWait → vl_accepts l !! a = Some AWait →
    vl_step l (l <| vl_dials ::= <[t := DConnected]> |> <| vl_accepts ::= <[a := AConn t]> |>)
(** [case <-l.closed] *)
| vs_refused t l :
    vl_dials l !! t = Some DWait → vl_closed l = true → vl_step l (dial_fail t DRefused l)
| vs_accept_closed a l :
    vl_accepts l !! a = Some AWait → vl_closed l = true →
    vl_step l (l <| vl_accepts ::= <[a := AClosed]> |>)
(** [case <-ctx.Done()] *)
| vs_cancelled t l : vl_dials l !! t = Some DWait → vl_step l (dial_fail t DCancelled l)
(** [Close]: the channel is closed, then the listener leaves the table; later
    calls do neither. *)
| vs_close l : vl_closed l = false → vl_step l (l <| vl_closed := true |>)
| vs_unlist l : vl_closed l = true → vl_listed l = true → vl_step l (l <| vl_listed := false |>).

Definition dial_failed (d : option dial_call) : Prop := d = Some DRefused ∨ d = Some DCancelled.
#[export] Instance dial_failed_dec d : Decision (dial_failed d).
Proof. destruct d as [[]|]; unfold dial_failed; (left; by eauto) || (right; intros [?|?]; done). Defined.

Record vl_ok (l : virtualListener) : Prop := {
  ok_accepted a t : vl_accepts l !! a = Some (AConn t) → vl_dials l !! t = Some DConnected;
  ok_connected t : vl_dials l !! t = Some DConnected → ∃ a, vl_accepts l !! a = Some (AConn t);
  ok_unique a a' t : vl_accepts l !! a = Some (AConn t) → vl_accepts l !! a' = Some (AConn t) → a = a';
  ok_dropped t : t ∈ vl_dropped l ↔ dial_failed (vl_dials l !! t);
  ok_refused t : vl_dials l !! t = Some DRefused → vl_closed l = true;
  ok_accept_closed a : vl_accepts l !! a = Some AClosed → vl_closed l = true;
  ok_unlisted : vl_listed l = false → vl_closed l = true;
  ok_no_listener t : vl_dials l !! t = Some DNoListener → vl_listed l = false;
}.

Lemma newListener_ok : vl_ok newListener.
Proof. split; simpl; try done; try set_solver. intros t. unfold dial_failed. rewrite lookup_empty. set_solver. Qed.

#[local] Ltac vl_cases :=
  split; simpl; intros *; rewrite ?lookup_insert; repeat case_decide; subst; simpl; try done; eauto;
  try (intros; simplify_eq; eauto; congruence).

Lemma DialUnix_ok t l : vl_dials l !! t = None → vl_ok l → vl_ok (DialUnix t l).
Proof.
  intros H [Ha Hc Hu Hd Hr Hac Hl Hn]. unfold DialUnix. destruct (vl_listed l) eqn:E; vl_cases.
  all: try (intros Hx; apply Ha in Hx; congruence).
  all: rewrite Hd, H; unfold dial_failed; naive_solver.
Qed.

Lemma accept_ok a l : vl_accepts l !! a = None → vl_ok l → vl_ok (l <| vl_accepts ::= <[a := AWait]> |>).
Proof.
  intros H [Ha Hc Hu Hd Hr Hac Hl Hn]. vl_cases.
  intros (a' & Ha')%Hc. exists a'. rewrite lookup_insert_ne; congruence.
Qed.

Lemma rendezvous_ok t a l :
  vl_dials l !! t = Some DWait → vl_accepts l !! a = Some AWait → vl_ok l →
  vl_ok (l <| vl_dials ::= <[t := DConnected]> |> <| vl_accepts ::= <[a := AConn t]> |>).
Proof.
  intros H H' [Ha Hc Hu Hd Hr Hac Hl Hn].
  assert (Hno : ∀ a, vl_accepts l !! a ≠ Some (AConn t)) by (intros x Hx%Ha; congruence).
  vl_cases.
  - intros _. exists a. by rewrite lookup_insert_eq.
  - intros (x & Hx)%Hc. exists x. rewrite lookup_insert_ne; congruence.
  - rewrite Hd, H. unfold dial_failed. naive_solver.
Qed.

Lemma dial_fail_ok t err l :
  vl_dials l !! t = Some DWait → (err = DRefused ∧ vl_closed l = true ∨ err = DCancelled) → vl_ok l →
  vl_ok (dial_fail t err l).
Proof.
  intros H Herr [Ha Hc Hu Hd Hr Hac Hl Hn].
  assert (Hno : ∀ a, vl_accepts l !! a ≠ Some (AConn t)) by (intros x Hx%Ha; congruence).
  unfold dial_fail. destruct Herr as [[-> Hcl]| ->]; vl_cases.
  all: rewrite elem_of_union, elem_of_singleton, ?Hd; unfold dial_failed; intuition congruence.
Qed.

Lemma accept_closed_ok a l :
  vl_accepts l !! a = Some AWait → vl_closed l = true → vl_ok l →
  vl_ok (l <| vl_accepts ::= <[a := AClosed]> |>).
Proof.
  intros H H' [Ha Hc Hu Hd Hr Hac Hl Hn]. vl_cases.
  intros (x & Hx)%Hc. exists x. rewrite lookup_insert_ne; congruence.
Qed.

Lemma vl_step_ok l l' : vl_ok l → vl_step l l' → vl_ok l'.
Proof.
  destruct 2; [by apply DialUnix_ok|by apply accept_ok|by apply rendezvous_ok|apply dial_fail_ok; by auto
    |by apply accept_closed_ok|apply dial_fail_ok; by auto| |].
  all: destruct H as [Ha Hc Hu Hd Hr Hac Hl Hn]; split; simpl; by auto.
Qed.

Lemma vl_reachable_ok l : rtc vl_step newListener l → vl_ok l.
Proof. revert l. apply rtc_ind_r; eauto using newListener_ok, vl_step_ok. Qed.

(** C34. However dials, accepts and a close of the listener interleave: the dials
    that connected and the accepts that got a connection pair off, the dials
    that failed are exactly those that closed their pipe, nothing is refused or
    told the listener is closed while it is open, and once it is closed no dial
    and no accept can stay blocked. *)
Theorem listener_rendezvous l :
  rtc vl_step newListener l →
  (∀ t, vl_dials l !! t = Some DConnected ↔ ∃ a, vl_accepts l !! a = Some (AConn t)) ∧
  (∀ a a' t, vl_accepts l !! a = Some (AConn t) → vl_accepts l !! a' = Some (AConn t) → a = a') ∧
  (∀ t, t ∈ vl_dropped l ↔ dial_failed (vl_dials l !! t)) ∧
  (vl_closed l = false → ∀ t,
     vl_dials l !! t ≠ Some DRefused ∧ vl_dials l !! t ≠ Some DNoListener ∧ vl_accepts l !! t ≠ Some AClosed) ∧
  (vl_closed l = true →
     (∀ t, vl_dials l !! t = Some DWait → ∃ l', vl_step l l' ∧ vl_dials l' !! t = Some DRefused ∧ t ∈ vl_dropped l') ∧
     (∀ a, vl_accepts l !! a = Some AWait → ∃ l', vl_step l l' ∧ vl_accepts l' !! a = Some AClosed)).
Proof.
  intros [Ha Hc Hu Hd Hr Hac Hl Hn]%vl_reachable_ok. split_and!; [|done|done|..].
  - intros t. split; [apply Hc|]. intros [a Hx]. by eapply Ha.
  - intros Ho t. split_and!; [intros ?%Hr|intros ?%Hn%Hl|intros ?%Hac]; congruence.
  - intros Hcl. split.
    + intros t Ht. eexists. split; [by apply vs_refused|]. simpl. rewrite lookup_insert_eq. set_solver.
    + intros a Hx. eexists. split; [by apply vs_accept_closed|]. simpl. by rewrite lookup_insert_eq.
Qed.

(** The witness: a dial meets an accept, another is cut off by the close. *)
Definition l_done : virtualListener :=
  VirtualListener {[1%nat := DConnected; 2%nat := DRefused]} {[7%nat := AConn 1; 8%nat := AWait]} true true {[2%nat]}.

Lemma l_done_run : rtc vl_step newListener l_done.
Proof.
  eapply rtc_l; [apply (vs_accept 7); by vm_compute|].
  eapply rtc_l; [apply (vs_dial 1); by vm_compute|].
  eapply rtc_l; [apply (vs_rendezvous 1 7); by vm_compute|].
  eapply rtc_l; [apply (vs_dial 2); by vm_compute|].
  eapply rtc_l; [apply vs_close; by vm_compute|].
  eapply rtc_l; [apply (vs_accept 8); by vm_compute|].
  eapply rtc_l; [apply (vs_refused 2); by vm_compute|].
  match goal with |- rtc _ ?s _ => replace s with l_done by (by vm_compute) end. done.
Defined.

Lemma listener_rendezvous_witness :
  rtc vl_step newListener l_done ∧ ∃ l', vl_step l_done l' ∧ vl_accepts l' !! 8%nat = Some AClosed.
Proof.
  split; [apply l_done_run|].
  destruct (listener_rendezvous l_done l_done_run) as (_ & _ & _ & _ & Hc).
  by apply (proj2 (Hc eq_refl)).
Defined.
