(* ===== verification/Bindings.v ===== *)
(** How a guest's calls reach the host and come back: the bindings of the six
    host interfaces ([src/internal/gen/pgzero/host]).

    A call passes its arguments and its result through a stack of 64-bit words.
    On the host's side ([X.bind.go]) [NewFactory] gives every function its type
    and a [wrapF] that reads the arguments from the stack, calls the method of
    the Go implementation and stores the result; on a caller's side
    ([X.wrap.go]) the methods of [WrapInstance] store the arguments, call the
    function by its name and read the result.  Here a definition per function
    and per method, in the order of the files; what builds a component of the
    functions and calls it is the runtime's, the parameter [instance]. *)
From S2P Require Import Prelude Signals Host.

(** * Values and words *)
Inductive ty := S32 | U32 | U64 | S64.
#[export] Instance ty_eq_dec : EqDecision ty.
Proof. solve_decision. Defined.

(** [int32(int64(w))], [uint32(w)], [w] and [int64(w)] of a word. *)
Definition lift (t : ty) (w : Z) : Z :=
  match t with S32 => i32 (i64 w) | U32 => u32 w | U64 => w | S64 => i64 w end.
(** [uint64(uint32(v))], [uint64(v)], [v] and [uint64(v)] of a value. *)
Definition lower (t : ty) (v : Z) : Z :=
  match t with S32 => u64 (u32 v) | U32 => u64 v | U64 => v | S64 => u64 v end.

(** [host.FuncType] *)
Record FuncType := FT { Params : list (string * ty); Results : list ty }.

Section bindings.
Context {S : Type}.

(** A method of an implementation: it changes the state and returns a value or
    the error that unwinds the guest. *)
Definition method : Type := S → outcome S.

(** What a [host.Func] leaves: the stack, or the error of the method. *)
Inductive bound := BRet (stack : list Z) (s : S) | BErr (u : unwind) (s : S) | BBlocked | BPanic.
Definition host_func : Type := list Z → S → bound.

(** ** The host's side *)
(** [stack[i]], at type [t]; an index out of range panics. *)
Definition arg (t : ty) (stack : list Z) (i : nat) (k : Z → bound) : bound :=
  match stack !! i with Some w => k (lift t w) | None => BPanic end.
Definition put (t : ty) (i : nat) (v : Z) (stack : list Z) : option (list Z) :=
  match stack !! i with Some _ => Some (<[i := lower t v]> stack) | None => None end.
#[local] Notation "x ← 'arg' t stack i ; k" := (arg t stack i (λ x, k))
  (at level 20, t at level 0, stack at level 0, i at level 0, k at level 200).

(** The end of a function that stores its result, and of one that has none. *)
Definition store_result (t : ty) (stack : list Z) (r : outcome S) : bound :=
  match r with
  | Ret (_, Some u) s => BErr u s
  | Ret (v, None) s => match put t 0 v stack with Some stack => BRet stack s | None => BPanic end
  | Blocked => BBlocked
  | Panic => BPanic
  end.
Definition no_result (stack : list Z) (r : outcome S) : bound :=
  match r with
  | Ret (_, Some u) s => BErr u s
  | Ret (_, None) s => BRet stack s
  | Blocked => BBlocked
  | Panic => BPanic
  end.

(** ** The caller's side *)
(** A component instance: [CallRaw] of the function it exports under a name,
    given what stores the arguments; the stack is the one the results are read
    from. *)
Definition instance : Type := string → (list Z → option (list Z)) → S → bound.

Definition value (t : ty) (stack : list Z) : option Z := lift t <$> stack !! 0%nat.
Definition no_value (_ : list Z) : option Z := Some 0.

Definition call_raw (callee : instance) (name : string) (prep : list Z → option (list Z)) (done : list Z → option Z)
  : method := λ s,
  match callee name prep s with
  | BRet stack s => match done stack with Some v => Ret (v, None) s | None => Panic end
  | BErr u s => Ret (0, Some u) s
  | BBlocked => Blocked
  | BPanic => Panic
  end.

(** Methods on lists of arguments. *)
Definition args0 (m : method) (args : list Z) : method :=
  match args with [] => m | _ => λ _, Panic end.
Definition args1 (m : Z → method) (args : list Z) : method :=
  match args with x :: args => args0 (m x) args | _ => λ _, Panic end.
Definition args2 (m : Z → Z → method) (args : list Z) : method :=
  match args with x :: args => args1 (m x) args | _ => λ _, Panic end.
Definition args3 (m : Z → Z → Z → method) (args : list Z) : method :=
  match args with x :: args => args2 (m x) args | _ => λ _, Panic end.
Definition args4 (m : Z → Z → Z → Z → method) (args : list Z) : method :=
  match args with x :: args => args3 (m x) args | _ => λ _, Panic end.
Definition args5 (m : Z → Z → Z → Z → Z → method) (args : list Z) : method :=
  match args with x :: args => args4 (m x) args | _ => λ _, Panic end.

(** ** The interface [proc] ([internal/gen/pgzero/host/proc]) *)
Record Proc := MkProc {
  Proc_Exit : Z → method;
  Proc_Getpid : method;
  Proc_Getppid : method;
  Proc_Kill : Z → Z → method;
  Proc_Spawn : Z → Z → Z → method;
  Proc_Waitpid : Z → Z → Z → method;
}.

Definition proc_wrapExit (impl : Proc) : host_func := λ stack s,
  status ← arg S32 stack 0;
  no_result stack (Proc_Exit impl status s).
Definition proc_wrapGetpid (impl : Proc) : host_func := λ stack s,
  store_result S32 stack (Proc_Getpid impl s).
Definition proc_wrapGetppid (impl : Proc) : host_func := λ stack s,
  store_result S32 stack (Proc_Getppid impl s).
Definition proc_wrapKill (impl : Proc) : host_func := λ stack s,
  pid ← arg S32 stack 0;
  sig ← arg S32 stack 1;
  store_result S32 stack (Proc_Kill impl pid sig s).
Definition proc_wrapSpawn (impl : Proc) : host_func := λ stack s,
  argvAddr ← arg U32 stack 0;
  envpAddr ← arg U32 stack 1;
  cwdAddr ← arg U32 stack 2;
  store_result S32 stack (Proc_Spawn impl argvAddr envpAddr cwdAddr s).
Definition proc_wrapWaitpid (impl : Proc) : host_func := λ stack s,
  pid ← arg S32 stack 0;
  statusAddr ← arg U32 stack 1;
  options ← arg S32 stack 2;
  store_result S32 stack (Proc_Waitpid impl pid statusAddr options s).

Definition proc_functions (impl : Proc) : list (string * FuncType * host_func) := [
  ("exit", FT [("status", S32)] [], proc_wrapExit impl);
  ("getpid", FT [] [S32], proc_wrapGetpid impl);
  ("getppid", FT [] [S32], proc_wrapGetppid impl);
  ("kill", FT [("pid", S32); ("sig", S32)] [S32], proc_wrapKill impl);
  ("spawn", FT [("argvAddr", U32); ("envpAddr", U32); ("cwdAddr", U32)] [S32], proc_wrapSpawn impl);
  ("waitpid", FT [("pid", S32); ("statusAddr", U32); ("options", S32)] [S32], proc_wrapWaitpid impl)].

Definition procWrapper_Exit (callee : instance) (status : Z) : method :=
  call_raw callee "exit" (λ stack, stack ← put S32 0 status stack; Some stack) no_value.
Definition procWrapper_Getpid (callee : instance) : method :=
  call_raw callee "getpid" Some (value S32).
Definition procWrapper_Getppid (callee : instance) : method :=
  call_raw callee "getppid" Some (value S32).
Definition procWrapper_Kill (callee : instance) (pid sig : Z) : method :=
  call_raw callee "kill" (λ stack, stack ← put S32 0 pid stack; stack ← put S32 1 sig stack; Some stack) (value S32).
Definition procWrapper_Spawn (callee : instance) (argvAddr envpAddr cwdAddr : Z) : method :=
  call_raw callee "spawn" (λ stack, stack ← put U32 0 argvAddr stack; stack ← put U32 1 envpAddr stack; stack ← put U32 2 cwdAddr stack; Some stack) (value S32).
Definition procWrapper_Waitpid (callee : instance) (pid statusAddr options : Z) : method :=
  call_raw callee "waitpid" (λ stack, stack ← put S32 0 pid stack; stack ← put U32 1 statusAddr stack; stack ← put S32 2 options stack; Some stack) (value S32).

Definition proc_WrapInstance (callee : instance) : Proc := {|
  Proc_Exit := procWrapper_Exit callee;
  Proc_Getpid := procWrapper_Getpid callee;
  Proc_Getppid := procWrapper_Getppid callee;
  Proc_Kill := procWrapper_Kill callee;
  Proc_Spawn := procWrapper_Spawn callee;
  Proc_Waitpid := procWrapper_Waitpid callee |}.

(** The methods, on lists of arguments, in the order of the functions. *)
Definition proc_methods (impl : Proc) : list (string * (list Z → method)) := [
  ("exit", args1 (Proc_Exit impl));
  ("getpid", args0 (Proc_Getpid impl));
  ("getppid", args0 (Proc_Getppid impl));
  ("kill", args2 (Proc_Kill impl));
  ("spawn", args3 (Proc_Spawn impl));
  ("waitpid", args3 (Proc_Waitpid impl))].

(** ** The interface [sig] ([internal/gen/pgzero/host/sig]) *)
Record Sig := MkSig {
  Sig_Register : Z → method;
  Sig_SetAlarm : Z → Z → method;
  Sig_Sleep : Z → method;
}.

Definition sig_wrapRegister (impl : Sig) : host_func := λ stack s,
  blockAddr ← arg U32 stack 0;
  store_result S32 stack (Sig_Register impl blockAddr s).
Definition sig_wrapSetAlarm (impl : Sig) : host_func := λ stack s,
  valueUsec ← arg U64 stack 0;
  intervalUsec ← arg U64 stack 1;
  store_result S64 stack (Sig_SetAlarm impl valueUsec intervalUsec s).
Definition sig_wrapSleep (impl : Sig) : host_func := λ stack s,
  usec ← arg U64 stack 0;
  store_result S32 stack (Sig_Sleep impl usec s).

Definition sig_functions (impl : Sig) : list (string * FuncType * host_func) := [
  ("register", FT [("blockAddr", U32)] [S32], sig_wrapRegister impl);
  ("set-alarm", FT [("valueUsec", U64); ("intervalUsec", U64)] [S64], sig_wrapSetAlarm impl);
  ("sleep", FT [("usec", U64)] [S32], sig_wrapSleep impl)].

Definition sigWrapper_Register (callee : instance) (blockAddr : Z) : method :=
  call_raw callee "register" (λ stack, stack ← put U32 0 blockAddr stack; Some stack) (value S32).
Definition sigWrapper_SetAlarm (callee : instance) (valueUsec intervalUsec : Z) : method :=
  call_raw callee "set-alarm" (λ stack, stack ← put U64 0 valueUsec stack; stack ← put U64 1 intervalUsec stack; Some stack) (value S64).
Definition sigWrapper_Sleep (callee : instance) (usec : Z) : method :=
  call_raw callee "sleep" (λ stack, stack ← put U64 0 usec stack; Some stack) (value S32).

Definition sig_WrapInstance (callee : instance) : Sig := {|
  Sig_Register := sigWrapper_Register callee;
  Sig_SetAlarm := sigWrapper_SetAlarm callee;
  Sig_Sleep := sigWrapper_Sleep callee |}.

(** The methods, on lists of arguments, in the order of the functions. *)
Definition sig_methods (impl : Sig) : list (string * (list Z → method)) := [
  ("register", args1 (Sig_Register impl));
  ("set-alarm", args2 (Sig_SetAlarm impl));
  ("sleep", args1 (Sig_Sleep impl))].

(** ** The interface [fd] ([internal/gen/pgzero/host/fd]) *)
Record Fd := MkFd {
  Fd_Close : Z → method;
  Fd_Devnull : method;
  Fd_Dup : Z → Z → method;
  Fd_Fcntl : Z → Z → Z → method;
  Fd_Pipe : Z → Z → method;
  Fd_Poll : Z → Z → Z → method;
  Fd_Read : Z → Z → Z → method;
  Fd_Write : Z → Z → Z → method;
}.

Definition fd_wrapClose (impl : Fd) : host_func := λ stack s,
  fd ← arg S32 stack 0;
  store_result S32 stack (Fd_Close impl fd s).
Definition fd_wrapDevnull (impl : Fd) : host_func := λ stack s,
  store_result S32 stack (Fd_Devnull impl s).
Definition fd_wrapDup (impl : Fd) : host_func := λ stack s,
  fd ← arg S32 stack 0;
  newFd ← arg S32 stack 1;
  store_result S32 stack (Fd_Dup impl fd newFd s).
Definition fd_wrapFcntl (impl : Fd) : host_func := λ stack s,
  fd ← arg S32 stack 0;
  cmd ← arg S32 stack 1;
  arg ← arg S32 stack 2;
  store_result S32 stack (Fd_Fcntl impl fd cmd arg s).
Definition fd_wrapPipe (impl : Fd) : host_func := λ stack s,
  fdsAddr ← arg U32 stack 0;
  flags ← arg S32 stack 1;
  store_result S32 stack (Fd_Pipe impl fdsAddr flags s).
Definition fd_wrapPoll (impl : Fd) : host_func := λ stack s,
  fdsAddr ← arg U32 stack 0;
  nfds ← arg U32 stack 1;
  timeoutMs ← arg S32 stack 2;
  store_result S32 stack (Fd_Poll impl fdsAddr nfds timeoutMs s).
Definition fd_wrapRead (impl : Fd) : host_func := λ stack s,
  fd ← arg S32 stack 0;
  buf ← arg U32 stack 1;
  len_ ← arg U32 stack 2;
  store_result S32 stack (Fd_Read impl fd buf len_ s).
Definition fd_wrapWrite (impl : Fd) : host_func := λ stack s,
  fd ← arg S32 stack 0;
  buf ← arg U32 stack 1;
  len_ ← arg U32 stack 2;
  store_result S32 stack (Fd_Write impl fd buf len_ s).

Definition fd_functions (impl : Fd) : list (string * FuncType * host_func) := [
  ("close", FT [("fd", S32)] [S32], fd_wrapClose impl);
  ("devnull", FT [] [S32], fd_wrapDevnull impl);
  ("dup", FT [("fd", S32); ("newFd", S32)] [S32], fd_wrapDup impl);
  ("fcntl", FT [("fd", S32); ("cmd", S32); ("arg", S32)] [S32], fd_wrapFcntl impl);
  ("pipe", FT [("fdsAddr", U32); ("flags", S32)] [S32], fd_wrapPipe impl);
  ("poll", FT [("fdsAddr", U32); ("nfds", U32); ("timeoutMs", S32)] [S32], fd_wrapPoll impl);
  ("read", FT [("fd", S32); ("buf", U32); ("len", U32)] [S32], fd_wrapRead impl);
  ("write", FT [("fd", S32); ("buf", U32); ("len", U32)] [S32], fd_wrapWrite impl)].

Definition fdWrapper_Close (callee : instance) (fd : Z) : method :=
  call_raw callee "close" (λ stack, stack ← put S32 0 fd stack; Some stack) (value S32).
Definition fdWrapper_Devnull (callee : instance) : method :=
  call_raw callee "devnull" Some (value S32).
Definition fdWrapper_Dup (callee : instance) (fd newFd : Z) : method :=
  call_raw callee "dup" (λ stack, stack ← put S32 0 fd stack; stack ← put S32 1 newFd stack; Some stack) (value S32).
Definition fdWrapper_Fcntl (callee : instance) (fd cmd arg : Z) : method :=
  call_raw callee "fcntl" (λ stack, stack ← put S32 0 fd stack; stack ← put S32 1 cmd stack; stack ← put S32 2 arg stack; Some stack) (value S32).
Definition fdWrapper_Pipe (callee : instance) (fdsAddr flags : Z) : method :=
  call_raw callee "pipe" (λ stack, stack ← put U32 0 fdsAddr stack; stack ← put S32 1 flags stack; Some stack) (value S32).
Definition fdWrapper_Poll (callee : instance) (fdsAddr nfds timeoutMs : Z) : method :=
  call_raw callee "poll" (λ stack, stack ← put U32 0 fdsAddr stack; stack ← put U32 1 nfds stack; stack ← put S32 2 timeoutMs stack; Some stack) (value S32).
Definition fdWrapper_Read (callee : instance) (fd buf len_ : Z) : method :=
  call_raw callee "read" (λ stack, stack ← put S32 0 fd stack; stack ← put U32 1 buf stack; stack ← put U32 2 len_ stack; Some stack) (value S32).
Definition fdWrapper_Write (callee : instance) (fd buf len_ : Z) : method :=
  call_raw callee "write" (λ stack, stack ← put S32 0 fd stack; stack ← put U32 1 buf stack; stack ← put U32 2 len_ stack; Some stack) (value S32).

Definition fd_WrapInstance (callee : instance) : Fd := {|
  Fd_Close := fdWrapper_Close callee;
  Fd_Devnull := fdWrapper_Devnull callee;
  Fd_Dup := fdWrapper_Dup callee;
  Fd_Fcntl := fdWrapper_Fcntl callee;
  Fd_Pipe := fdWrapper_Pipe callee;
  Fd_Poll := fdWrapper_Poll callee;
  Fd_Read := fdWrapper_Read callee;
  Fd_Write := fdWrapper_Write callee |}.

(** The methods, on lists of arguments, in the order of the functions. *)
Definition fd_methods (impl : Fd) : list (string * (list Z → method)) := [
  ("close", args1 (Fd_Close impl));
  ("devnull", args0 (Fd_Devnull impl));
  ("dup", args2 (Fd_Dup impl));
  ("fcntl", args3 (Fd_Fcntl impl));
  ("pipe", args2 (Fd_Pipe impl));
  ("poll", args3 (Fd_Poll impl));
  ("read", args3 (Fd_Read impl));
  ("write", args3 (Fd_Write impl))].

(** ** The interface [net] ([internal/gen/pgzero/host/net]) *)
Record Net := MkNet {
  Net_Accept : Z → Z → Z → Z → method;
  Net_Bind : Z → Z → Z → method;
  Net_Connect : Z → Z → Z → method;
  Net_Getpeername : Z → Z → Z → method;
  Net_Getsockname : Z → Z → Z → method;
  Net_Getsockopt : Z → Z → Z → Z → Z → method;
  Net_Listen : Z → Z → method;
  Net_Recv : Z → Z → Z → Z → method;
  Net_Send : Z → Z → Z → Z → method;
  Net_Setsockopt : Z → Z → Z → Z → Z → method;
  Net_Shutdown : Z → Z → method;
  Net_Socket : Z → Z → Z → method;
}.

Definition net_wrapAccept (impl : Net) : host_func := λ stack s,
  fd ← arg S32 stack 0;
  addr ← arg U32 stack 1;
  addrlenAddr ← arg U32 stack 2;
  flags ← arg S32 stack 3;
  store_result S32 stack (Net_Accept impl fd addr addrlenAddr flags s).
Definition net_wrapBind (impl : Net) : host_func := λ stack s,
  fd ← arg S32 stack 0;
  addr ← arg U32 stack 1;
  addrlen ← arg U32 stack 2;
  store_result S32 stack (Net_Bind impl fd addr addrlen s).
Definition net_wrapConnect (impl : Net) : host_func := λ stack s,
  fd ← arg S32 stack 0;
  addr ← arg U32 stack 1;
  addrlen ← arg U32 stack 2;
  store_result S32 stack (Net_Connect impl fd addr addrlen s).
Definition net_wrapGetpeername (impl : Net) : host_func := λ stack s,
  fd ← arg S32 stack 0;
  addr ← arg U32 stack 1;
  addrlenAddr ← arg U32 stack 2;
  store_result S32 stack (Net_Getpeername impl fd addr addrlenAddr s).
Definition net_wrapGetsockname (impl : Net) : host_func := λ stack s,
  fd ← arg S32 stack 0;
  addr ← arg U32 stack 1;
  addrlenAddr ← arg U32 stack 2;
  store_result S32 stack (Net_Getsockname impl fd addr addrlenAddr s).
Definition net_wrapGetsockopt (impl : Net) : host_func := λ stack s,
  fd ← arg S32 stack 0;
  level ← arg S32 stack 1;
  name ← arg S32 stack 2;
  val ← arg U32 stack 3;
  lenAddr ← arg U32 stack 4;
  store_result S32 stack (Net_Getsockopt impl fd level name val lenAddr s).
Definition net_wrapListen (impl : Net) : host_func := λ stack s,
  fd ← arg S32 stack 0;
  backlog ← arg S32 stack 1;
  store_result S32 stack (Net_Listen impl fd backlog s).
Definition net_wrapRecv (impl : Net) : host_func := λ stack s,
  fd ← arg S32 stack 0;
  buf ← arg U32 stack 1;
  len_ ← arg U32 stack 2;
  flags ← arg S32 stack 3;
  store_result S32 stack (Net_Recv impl fd buf len_ flags s).
Definition net_wrapSend (impl : Net) : host_func := λ stack s,
  fd ← arg S32 stack 0;
  buf ← arg U32 stack 1;
  len_ ← arg U32 stack 2;
  flags ← arg S32 stack 3;
  store_result S32 stack (Net_Send impl fd buf len_ flags s).
Definition net_wrapSetsockopt (impl : Net) : host_func := λ stack s,
  fd ← arg S32 stack 0;
  level ← arg S32 stack 1;
  name ← arg S32 stack 2;
  val ← arg U32 stack 3;
  len_ ← arg U32 stack 4;
  store_result S32 stack (Net_Setsockopt impl fd level name val len_ s).
Definition net_wrapShutdown (impl : Net) : host_func := λ stack s,
  fd ← arg S32 stack 0;
  how ← arg S32 stack 1;
  store_result S32 stack (Net_Shutdown impl fd how s).
Definition net_wrapSocket (impl : Net) : host_func := λ stack s,
  domain ← arg S32 stack 0;
  socktype ← arg S32 stack 1;
  protocol ← arg S32 stack 2;
  store_result S32 stack (Net_Socket impl domain socktype protocol s).

Definition net_functions (impl : Net) : list (string * FuncType * host_func) := [
  ("accept", FT [("fd", S32); ("addr", U32); ("addrlenAddr", U32); ("flags", S32)] [S32], net_wrapAccept impl);
  ("bind", FT [("fd", S32); ("addr", U32); ("addrlen", U32)] [S32], net_wrapBind impl);
  ("connect", FT [("fd", S32); ("addr", U32); ("addrlen", U32)] [S32], net_wrapConnect impl);
  ("getpeername", FT [("fd", S32); ("addr", U32); ("addrlenAddr", U32)] [S32], net_wrapGetpeername impl);
  ("getsockname", FT [("fd", S32); ("addr", U32); ("addrlenAddr", U32)] [S32], net_wrapGetsockname impl);
  ("getsockopt", FT [("fd", S32); ("level", S32); ("name", S32); ("val", U32); ("lenAddr", U32)] [S32], net_wrapGetsockopt impl);
  ("listen", FT [("fd", S32); ("backlog", S32)] [S32], net_wrapListen impl);
  ("recv", FT [("fd", S32); ("buf", U32); ("len", U32); ("flags", S32)] [S32], net_wrapRecv impl);
  ("send", FT [("fd", S32); ("buf", U32); ("len", U32); ("flags", S32)] [S32], net_wrapSend impl);
  ("setsockopt", FT [("fd", S32); ("level", S32); ("name", S32); ("val", U32); ("len", U32)] [S32], net_wrapSetsockopt impl);
  ("shutdown", FT [("fd", S32); ("how", S32)] [S32], net_wrapShutdown impl);
  ("socket", FT [("domain", S32); ("socktype", S32); ("protocol", S32)] [S32], net_wrapSocket impl)].

Definition netWrapper_Accept (callee : instance) (fd addr addrlenAddr flags : Z) : method :=
  call_raw callee "accept" (λ stack, stack ← put S32 0 fd stack; stack ← put U32 1 addr stack; stack ← put U32 2 addrlenAddr stack; stack ← put S32 3 flags stack; Some stack) (value S32).
Definition netWrapper_Bind (callee : instance) (fd addr addrlen : Z) : method :=
  call_raw callee "bind" (λ stack, stack ← put S32 0 fd stack; stack ← put U32 1 addr stack; stack ← put U32 2 addrlen stack; Some stack) (value S32).
Definition netWrapper_Connect (callee : instance) (fd addr addrlen : Z) : method :=
  call_raw callee "connect" (λ stack, stack ← put S32 0 fd stack; stack ← put U32 1 addr stack; stack ← put U32 2 addrlen stack; Some stack) (value S32).
Definition netWrapper_Getpeername (callee : instance) (fd addr addrlenAddr : Z) : method :=
  call_raw callee "getpeername" (λ stack, stack ← put S32 0 fd stack; stack ← put U32 1 addr stack; stack ← put U32 2 addrlenAddr stack; Some stack) (value S32).
Definition netWrapper_Getsockname (callee : instance) (fd addr addrlenAddr : Z) : method :=
  call_raw callee "getsockname" (λ stack, stack ← put S32 0 fd stack; stack ← put U32 1 addr stack; stack ← put U32 2 addrlenAddr stack; Some stack) (value S32).
Definition netWrapper_Getsockopt (callee : instance) (fd level name val lenAddr : Z) : method :=
  call_raw callee "getsockopt" (λ stack, stack ← put S32 0 fd stack; stack ← put S32 1 level stack; stack ← put S32 2 name stack; stack ← put U32 3 val stack; stack ← put U32 4 lenAddr stack; Some stack) (value S32).
Definition netWrapper_Listen (callee : instance) (fd backlog : Z) : method :=
  call_raw callee "listen" (λ stack, stack ← put S32 0 fd stack; stack ← put S32 1 backlog stack; Some stack) (value S32).
Definition netWrapper_Recv (callee : instance) (fd buf len_ flags : Z) : method :=
  call_raw callee "recv" (λ stack, stack ← put S32 0 fd stack; stack ← put U32 1 buf stack; stack ← put U32 2 len_ stack; stack ← put S32 3 flags stack; Some stack) (value S32).
Definition netWrapper_Send (callee : instance) (fd buf len_ flags : Z) : method :=
  call_raw callee "send" (λ stack, stack ← put S32 0 fd stack; stack ← put U32 1 buf stack; stack ← put U32 2 len_ stack; stack ← put S32 3 flags stack; Some stack) (value S32).
Definition netWrapper_Setsockopt (callee : instance) (fd level name val len_ : Z) : method :=
  call_raw callee "setsockopt" (λ stack, stack ← put S32 0 fd stack; stack ← put S32 1 level stack; stack ← put S32 2 name stack; stack ← put U32 3 val stack; stack ← put U32 4 len_ stack; Some stack) (value S32).
Definition netWrapper_Shutdown (callee : instance) (fd how : Z) : method :=
  call_raw callee "shutdown" (λ stack, stack ← put S32 0 fd stack; stack ← put S32 1 how stack; Some stack) (value S32).
Definition netWrapper_Socket (callee : instance) (domain socktype protocol : Z) : method :=
  call_raw callee "socket" (λ stack, stack ← put S32 0 domain stack; stack ← put S32 1 socktype stack; stack ← put S32 2 protocol stack; Some stack) (value S32).

Definition net_WrapInstance (callee : instance) : Net := {|
  Net_Accept := netWrapper_Accept callee;
  Net_Bind := netWrapper_Bind callee;
  Net_Connect := netWrapper_Connect callee;
  Net_Getpeername := netWrapper_Getpeername callee;
  Net_Getsockname := netWrapper_Getsockname callee;
  Net_Getsockopt := netWrapper_Getsockopt callee;
  Net_Listen := netWrapper_Listen callee;
  Net_Recv := netWrapper_Recv callee;
  Net_Send := netWrapper_Send callee;
  Net_Setsockopt := netWrapper_Setsockopt callee;
  Net_Shutdown := netWrapper_Shutdown callee;
  Net_Socket := netWrapper_Socket callee |}.

(** The methods, on lists of arguments, in the order of the functions. *)
Definition net_methods (impl : Net) : list (string * (list Z → method)) := [
  ("accept", args4 (Net_Accept impl));
  ("bind", args3 (Net_Bind impl));
  ("connect", args3 (Net_Connect impl));
  ("getpeername", args3 (Net_Getpeername impl));
  ("getsockname", args3 (Net_Getsockname impl));
  ("getsockopt", args5 (Net_Getsockopt impl));
  ("listen", args2 (Net_Listen impl));
  ("recv", args4 (Net_Recv impl));
  ("send", args4 (Net_Send impl));
  ("setsockopt", args5 (Net_Setsockopt impl));
  ("shutdown", args2 (Net_Shutdown impl));
  ("socket", args3 (Net_Socket impl))].

(** ** The interface [shm] ([internal/gen/pgzero/host/shm]) *)
Record Shm := MkShm {
  Shm_Attach : Z → Z → method;
  Shm_Create : Z → method;
  Shm_FdSize : Z → method;
  Shm_MapFd : Z → Z → Z → method;
  Shm_Open : Z → Z → Z → method;
  Shm_Remove : Z → method;
  Shm_Size : Z → method;
  Shm_Truncate : Z → Z → method;
  Shm_Unlink : Z → Z → method;
  Shm_Unmap : Z → Z → method;
}.

Definition shm_wrapAttach (impl : Shm) : host_func := λ stack s,
  id ← arg S32 stack 0;
  addr ← arg U32 stack 1;
  store_result S32 stack (Shm_Attach impl id addr s).
Definition shm_wrapCreate (impl : Shm) : host_func := λ stack s,
  size ← arg U32 stack 0;
  store_result S32 stack (Shm_Create impl size s).
Definition shm_wrapFdSize (impl : Shm) : host_func := λ stack s,
  fd ← arg S32 stack 0;
  store_result S32 stack (Shm_FdSize impl fd s).
Definition shm_wrapMapFd (impl : Shm) : host_func := λ stack s,
  fd ← arg S32 stack 0;
  addr ← arg U32 stack 1;
  len_ ← arg U32 stack 2;
  store_result S32 stack (Shm_MapFd impl fd addr len_ s).
Definition shm_wrapOpen (impl : Shm) : host_func := λ stack s,
  nameAddr ← arg U32 stack 0;
  nameLen ← arg U32 stack 1;
  flags ← arg S32 stack 2;
  store_result S32 stack (Shm_Open impl nameAddr nameLen flags s).
Definition shm_wrapRemove (impl : Shm) : host_func := λ stack s,
  id ← arg S32 stack 0;
  store_result S32 stack (Shm_Remove impl id s).
Definition shm_wrapSize (impl : Shm) : host_func := λ stack s,
  id ← arg S32 stack 0;
  store_result S32 stack (Shm_Size impl id s).
Definition shm_wrapTruncate (impl : Shm) : host_func := λ stack s,
  fd ← arg S32 stack 0;
  size ← arg U32 stack 1;
  store_result S32 stack (Shm_Truncate impl fd size s).
Definition shm_wrapUnlink (impl : Shm) : host_func := λ stack s,
  nameAddr ← arg U32 stack 0;
  nameLen ← arg U32 stack 1;
  store_result S32 stack (Shm_Unlink impl nameAddr nameLen s).
Definition shm_wrapUnmap (impl : Shm) : host_func := λ stack s,
  addr ← arg U32 stack 0;
  len_ ← arg U32 stack 1;
  store_result S32 stack (Shm_Unmap impl addr len_ s).

Definition shm_functions (impl : Shm) : list (string * FuncType * host_func) := [
  ("attach", FT [("id", S32); ("addr", U32)] [S32], shm_wrapAttach impl);
  ("create", FT [("size", U32)] [S32], shm_wrapCreate impl);
  ("fd-size", FT [("fd", S32)] [S32], shm_wrapFdSize impl);
  ("map-fd", FT [("fd", S32); ("addr", U32); ("len", U32)] [S32], shm_wrapMapFd impl);
  ("open", FT [("nameAddr", U32); ("nameLen", U32); ("flags", S32)] [S32], shm_wrapOpen impl);
  ("remove", FT [("id", S32)] [S32], shm_wrapRemove impl);
  ("size", FT [("id", S32)] [S32], shm_wrapSize impl);
  ("truncate", FT [("fd", S32); ("size", U32)] [S32], shm_wrapTruncate impl);
  ("unlink", FT [("nameAddr", U32); ("nameLen", U32)] [S32], shm_wrapUnlink impl);
  ("unmap", FT [("addr", U32); ("len", U32)] [S32], shm_wrapUnmap impl)].

Definition shmWrapper_Attach (callee : instance) (id addr : Z) : method :=
  call_raw callee "attach" (λ stack, stack ← put S32 0 id stack; stack ← put U32 1 addr stack; Some stack) (value S32).
Definition shmWrapper_Create (callee : instance) (size : Z) : method :=
  call_raw callee "create" (λ stack, stack ← put U32 0 size stack; Some stack) (value S32).
Definition shmWrapper_FdSize (callee : instance) (fd : Z) : method :=
  call_raw callee "fd-size" (λ stack, stack ← put S32 0 fd stack; Some stack) (value S32).
Definition shmWrapper_MapFd (callee : instance) (fd addr len_ : Z) : method :=
  call_raw callee "map-fd" (λ stack, stack ← put S32 0 fd stack; stack ← put U32 1 addr stack; stack ← put U32 2 len_ stack; Some stack) (value S32).
Definition shmWrapper_Open (callee : instance) (nameAddr nameLen flags : Z) : method :=
  call_raw callee "open" (λ stack, stack ← put U32 0 nameAddr stack; stack ← put U32 1 nameLen stack; stack ← put S32 2 flags stack; Some stack) (value S32).
Definition shmWrapper_Remove (callee : instance) (id : Z) : method :=
  call_raw callee "remove" (λ stack, stack ← put S32 0 id stack; Some stack) (value S32).
Definition shmWrapper_Size (callee : instance) (id : Z) : method :=
  call_raw callee "size" (λ stack, stack ← put S32 0 id stack; Some stack) (value S32).
Definition shmWrapper_Truncate (callee : instance) (fd size : Z) : method :=
  call_raw callee "truncate" (λ stack, stack ← put S32 0 fd stack; stack ← put U32 1 size stack; Some stack) (value S32).
Definition shmWrapper_Unlink (callee : instance) (nameAddr nameLen : Z) : method :=
  call_raw callee "unlink" (λ stack, stack ← put U32 0 nameAddr stack; stack ← put U32 1 nameLen stack; Some stack) (value S32).
Definition shmWrapper_Unmap (callee : instance) (addr len_ : Z) : method :=
  call_raw callee "unmap" (λ stack, stack ← put U32 0 addr stack; stack ← put U32 1 len_ stack; Some stack) (value S32).

Definition shm_WrapInstance (callee : instance) : Shm := {|
  Shm_Attach := shmWrapper_Attach callee;
  Shm_Create := shmWrapper_Create callee;
  Shm_FdSize := shmWrapper_FdSize callee;
  Shm_MapFd := shmWrapper_MapFd callee;
  Shm_Open := shmWrapper_Open callee;
  Shm_Remove := shmWrapper_Remove callee;
  Shm_Size := shmWrapper_Size callee;
  Shm_Truncate := shmWrapper_Truncate callee;
  Shm_Unlink := shmWrapper_Unlink callee;
  Shm_Unmap := shmWrapper_Unmap callee |}.

(** The methods, on lists of arguments, in the order of the functions. *)
Definition shm_methods (impl : Shm) : list (string * (list Z → method)) := [
  ("attach", args2 (Shm_Attach impl));
  ("create", args1 (Shm_Create impl));
  ("fd-size", args1 (Shm_FdSize impl));
  ("map-fd", args3 (Shm_MapFd impl));
  ("open", args3 (Shm_Open impl));
  ("remove", args1 (Shm_Remove impl));
  ("size", args1 (Shm_Size impl));
  ("truncate", args2 (Shm_Truncate impl));
  ("unlink", args2 (Shm_Unlink impl));
  ("unmap", args2 (Shm_Unmap impl))].

(** ** The interface [sema] ([internal/gen/pgzero/host/sema]) *)
Record Sema := MkSema {
  Sema_Create : Z → method;
  Sema_Lock : Z → method;
  Sema_Reset : Z → method;
  Sema_TryLock : Z → method;
  Sema_Unlock : Z → method;
}.

Definition sema_wrapCreate (impl : Sema) : host_func := λ stack s,
  initial ← arg S32 stack 0;
  store_result S32 stack (Sema_Create impl initial s).
Definition sema_wrapLock (impl : Sema) : host_func := λ stack s,
  id ← arg S32 stack 0;
  store_result S32 stack (Sema_Lock impl id s).
Definition sema_wrapReset (impl : Sema) : host_func := λ stack s,
  id ← arg S32 stack 0;
  store_result S32 stack (Sema_Reset impl id s).
Definition sema_wrapTryLock (impl : Sema) : host_func := λ stack s,
  id ← arg S32 stack 0;
  store_result S32 stack (Sema_TryLock impl id s).
Definition sema_wrapUnlock (impl : Sema) : host_func := λ stack s,
  id ← arg S32 stack 0;
  store_result S32 stack (Sema_Unlock impl id s).

Definition sema_functions (impl : Sema) : list (string * FuncType * host_func) := [
  ("create", FT [("initial", S32)] [S32], sema_wrapCreate impl);
  ("lock", FT [("id", S32)] [S32], sema_wrapLock impl);
  ("reset", FT [("id", S32)] [S32], sema_wrapReset impl);
  ("try-lock", FT [("id", S32)] [S32], sema_wrapTryLock impl);
  ("unlock", FT [("id", S32)] [S32], sema_wrapUnlock impl)].

Definition semaWrapper_Create (callee : instance) (initial : Z) : method :=
  call_raw callee "create" (λ stack, stack ← put S32 0 initial stack; Some stack) (value S32).
Definition semaWrapper_Lock (callee : instance) (id : Z) : method :=
  call_raw callee "lock" (λ stack, stack ← put S32 0 id stack; Some stack) (value S32).
Definition semaWrapper_Reset (callee : instance) (id : Z) : method :=
  call_raw callee "reset" (λ stack, stack ← put S32 0 id stack; Some stack) (value S32).
Definition semaWrapper_TryLock (callee : instance) (id : Z) : method :=
  call_raw callee "try-lock" (λ stack, stack ← put S32 0 id stack; Some stack) (value S32).
Definition semaWrapper_Unlock (callee : instance) (id : Z) : method :=
  call_raw callee "unlock" (λ stack, stack ← put S32 0 id stack; Some stack) (value S32).

Definition sema_WrapInstance (callee : instance) : Sema := {|
  Sema_Create := semaWrapper_Create callee;
  Sema_Lock := semaWrapper_Lock callee;
  Sema_Reset := semaWrapper_Reset callee;
  Sema_TryLock := semaWrapper_TryLock callee;
  Sema_Unlock := semaWrapper_Unlock callee |}.

(** The methods, on lists of arguments, in the order of the functions. *)
Definition sema_methods (impl : Sema) : list (string * (list Z → method)) := [
  ("create", args1 (Sema_Create impl));
  ("lock", args1 (Sema_Lock impl));
  ("reset", args1 (Sema_Reset impl));
  ("try-lock", args1 (Sema_TryLock impl));
  ("unlock", args1 (Sema_Unlock impl))].

End bindings.
