(* ===== verification/BindLaws.v ===== *)
(** What the bindings promise: every function of every interface is the
    reference reading of its type, a call from one side to the other arrives
    unchanged, and whatever words a guest leaves on the stack, a call is one of
    the calls of [System] with arguments of their declared types. *)
From S2P Require Import Prelude Abi Notify Bytes Vmem GuestMem Signals Sema FdTable Pipe Stdio Shm Paths Pids Socket World Alarm Process Lifecycle Host Poll System Bindings.

(** * Values and words *)
Definition word (w : Z) : Prop := 0 ≤ w < 2 ^ 64.
Definition in_ty (t : ty) (v : Z) : Prop :=
  match t with
  | S32 => - 2 ^ 31 ≤ v < 2 ^ 31
  | U32 => 0 ≤ v < 2 ^ 32
  | U64 => 0 ≤ v < 2 ^ 64
  | S64 => - 2 ^ 63 ≤ v < 2 ^ 63
  end.

Lemma lift_in_ty t w : word w → in_ty t (lift t w).
Proof.
  unfold word. destruct t; simpl; intros Hw; [apply (wrapS_range 32)|apply (wrapU_range 32)| |apply (wrapS_range 64)]; lia.
Qed.

Lemma lower_word t v : in_ty t v → word (lower t v).
Proof. unfold word. destruct t; simpl; intros Hv; [apply (wrapU_range 64)|apply (wrapU_range 64)| |apply (wrapU_range 64)]; lia. Qed.

Lemma lift_lower t v : in_ty t v → lift t (lower t v) = v.
Proof.
  destruct t; simpl; intros Hv.
  - pose proof (wrapU_range 32 v ltac:(lia)). rewrite (wrapU_small 64), (wrapS_small 64), wrapS_wrapU by lia.
    apply wrapS_small; lia.
  - rewrite (wrapU_small 64) by lia. apply wrapU_small; lia.
  - done.
  - rewrite wrapS_wrapU by lia. apply wrapS_small; lia.
Qed.

Lemma lift_lower_words ps args :
  Forall2 in_ty ps args → zip_with lift ps (zip_with lower ps args) = args.
Proof. induction 1; simpl; [done|]. f_equal; [by apply lift_lower|done]. Qed.

(** * The reference reading of a function type *)
Section laws.
Context {S : Type}.
#[local] Abbreviation method := (@method S).
#[local] Abbreviation host_func := (@host_func S).
#[local] Abbreviation instance := (@instance S).

Definition types (ft : FuncType) : list ty := (Params ft).*2.

(** The arguments are the first words, at their types; the result, if there is
    one, goes to the first word and nothing else changes. *)
Definition reference (ft : FuncType) (m : list Z → method) : host_func := λ stack s,
  if decide (length (types ft) ≤ length stack)%nat then
    match m (zip_with lift (types ft) stack) s with
    | Ret (_, Some u) s => BErr u s
    | Ret (v, None) s =>
        match Results ft with
        | [] => BRet stack s
        | t :: _ => match stack with [] => BPanic | _ :: ws => BRet (lower t v :: ws) s end
        end
    | Blocked => BBlocked
    | Panic => BPanic
    end
  else BPanic.

Definition implements (fs : list (string * FuncType * host_func)) (ms : list (string * (list Z → method))) : Prop :=
  Forall2 (λ f m, f.1.1 = m.1 ∧ ∀ stack s, f.2 stack s = reference f.1.2 m.2 stack s) fs ms.

#[local] Ltac bound_case :=
  let stack := fresh "stack" in
  intros stack s; cbn -[lift lower];
  do 6 (destruct stack as [|? stack]; [reflexivity|]); reflexivity.
#[local] Ltac bound_cases :=
  repeat (apply Forall2_cons; split; [split; [reflexivity|bound_case]|]); by apply Forall2_nil.

Lemma proc_implements (impl : Proc) : implements (proc_functions impl) (proc_methods impl).
Proof. unfold implements, proc_functions, proc_methods. bound_cases. Qed.
Lemma sig_implements (impl : Sig) : implements (sig_functions impl) (sig_methods impl).
Proof. unfold implements, sig_functions, sig_methods. bound_cases. Qed.
Lemma fd_implements (impl : Fd) : implements (fd_functions impl) (fd_methods impl).
Proof. unfold implements, fd_functions, fd_methods. bound_cases. Qed.
Lemma net_implements (impl : Net) : implements (net_functions impl) (net_methods impl).
Proof. unfold implements, net_functions, net_methods. bound_cases. Qed.
Lemma shm_implements (impl : Shm) : implements (shm_functions impl) (shm_methods impl).
Proof. unfold implements, shm_functions, shm_methods. bound_cases. Qed.
Lemma sema_implements (impl : Sema) : implements (sema_functions impl) (sema_methods impl).
Proof. unfold implements, sema_functions, sema_methods. bound_cases. Qed.
(** The results of the interfaces are signed, so what is stored is a word
    whatever the method returns. *)
Definition result_ok (ft : FuncType) : Prop := Results ft = [] ∨ Results ft = [S32] ∨ Results ft = [S64].
(** The runtime's stack: room for the arguments and for the result. *)
Definition stack_ok (ft : FuncType) (stack : list Z) : Prop :=
  Forall word stack ∧ (max (length (Params ft)) (length (Results ft)) ≤ length stack)%nat.

Lemma length_types ft : length (types ft) = length (Params ft).
Proof. apply length_fmap. Qed.

Lemma lifts_in_ty ts stack :
  Forall word stack → (length ts ≤ length stack)%nat → Forall2 in_ty ts (zip_with lift ts stack).
Proof.
  intros Hw. revert stack Hw. induction ts as [|t ts IH]; intros stack Hw Hl; simpl; [constructor|].
  destruct stack as [|w stack]; simpl in *; [lia|]. apply Forall_cons in Hw as [Hw Hws].
  constructor; [by apply lift_in_ty|]. apply IH; [done|lia].
Qed.

Lemma reference_call ft m stack s :
  stack_ok ft stack → result_ok ft →
  let args := zip_with lift (types ft) stack in
  Forall2 in_ty (types ft) args ∧
  match reference ft m stack s with
  | BRet stack' s' => (∃ v, m args s = Ret (v, None) s') ∧
      Forall word stack' ∧ length stack' = length stack ∧ tail stack' = tail stack ∧ (Results ft = [] → stack' = stack)
  | BErr u s' => ∃ v, m args s = Ret (v, Some u) s'
  | BBlocked => m args s = Blocked
  | BPanic => m args s = Panic
  end.
Proof.
  intros [Hw Hl] Hr args. pose proof (length_types ft) as Ht. split; [apply lifts_in_ty; [done|lia]|].
  unfold reference. rewrite decide_True by lia. fold args.
  destruct (m args s) as [[v [u|]] s'| |]; [by exists v| |done..].
  destruct Hr as [E|[E|E]]; rewrite E in *; simpl in Hl; [split_and!; [by exists v|done..]| |].
  all: destruct stack as [|w ws]; simpl in Hl; [lia|]; apply Forall_cons in Hw as [_ Hw].
  all: split_and!; [by exists v|apply Forall_cons; split; [apply (wrapU_range 64); lia|done]|done..].
Qed.

(** * Calls from the other side *)
Fixpoint assoc (name : string) (fs : list (string * FuncType * host_func)) : option (FuncType * host_func) :=
  match fs with
  | [] => None
  | (n, ft, f) :: fs => if String.eqb name n then Some (ft, f) else assoc name fs
  end.

(** The instance the runtime builds of a list of functions: a call allocates a
    stack with room for the arguments and for the result, lets the caller store
    the arguments, runs the function, and lets the caller read the result. *)
Definition exports (callee : instance) (fs : list (string * FuncType * host_func)) : Prop :=
  ∀ name ft f, assoc name fs = Some (ft, f) → ∀ prep s,
    callee name prep s =
      match prep (replicate (max (length (Params ft)) (length (Results ft))) 0) with
      | Some stack => f stack s
      | None => BPanic
      end.

(** What of an outcome reaches the caller: the value at its type, or no value
    if there is an error or no result. *)
Definition returned (ft : FuncType) (r : outcome S) : outcome S :=
  match r with
  | Ret (v, None) s => Ret (match Results ft with [] => 0 | t :: _ => lift t (lower t v) end, None) s
  | Ret (_, Some u) s => Ret (0, Some u) s
  | Blocked => Blocked
  | Panic => Panic
  end.
Definition agree (ft : FuncType) (m m' : list Z → method) : Prop :=
  ∀ args s, Forall2 in_ty (types ft) args → m' args s = returned ft (m args s).
(** [ms'] are the methods of a caller of the functions [fs], which implement [ms]. *)
Definition transparent (fs : list (string * FuncType * host_func)) (ms ms' : list (string * (list Z → method))) : Prop :=
  Forall2 (λ f mm, f.1.1 = mm.1.1 ∧ f.1.1 = mm.2.1 ∧ agree f.1.2 mm.1.2 mm.2.2) fs (zip ms ms').

#[local] Ltac get_head t := lazymatch t with ?f _ => get_head f | _ => t end.
#[local] Ltac call_case Hex :=
  let args := fresh "args" in let H := fresh "H" in
  intros args s H; unfold types in H; cbn [Params fmap list_fmap fst snd] in H;
  repeat match type of H with
  | Forall2 _ (_ :: _) _ => let Hx := fresh "Hx" in apply Forall2_cons_inv_l in H as (? & ? & Hx & H & ->)
  | Forall2 _ [] _ => apply Forall2_nil_inv_l in H as ->
  end;
  cbn -[lift lower call_raw];
  lazymatch goal with |- ?l = _ => let h := get_head l in unfold h, call_raw end;
  erewrite Hex by reflexivity; cbn -[lift lower]; unfold proc_wrapGetpid, proc_wrapGetppid, fd_wrapDevnull;
  rewrite ?lift_lower by done;
  match goal with |- context [store_result _ _ ?r] => destruct r as [[? []] ?| |] | |- context [no_result _ ?r] => destruct r as [[? []] ?| |] end;
  reflexivity.
#[local] Ltac call_cases Hex :=
  repeat (apply Forall2_cons; split; [split; [reflexivity|split; [reflexivity|call_case Hex]]|]); by apply Forall2_nil.

Lemma proc_transparent (impl : Proc) callee :
  exports callee (proc_functions impl) →
  transparent (proc_functions impl) (proc_methods impl) (proc_methods (proc_WrapInstance callee)).
Proof. intros Hex. unfold transparent, proc_functions, proc_methods. cbn [zip zip_with]. call_cases Hex. Qed.
Lemma sig_transparent (impl : Sig) callee :
  exports callee (sig_functions impl) →
  transparent (sig_functions impl) (sig_methods impl) (sig_methods (sig_WrapInstance callee)).
Proof. intros Hex. unfold transparent, sig_functions, sig_methods. cbn [zip zip_with]. call_cases Hex. Qed.
Lemma fd_transparent (impl : Fd) callee :
  exports callee (fd_functions impl) →
  transparent (fd_functions impl) (fd_methods impl) (fd_methods (fd_WrapInstance callee)).
Proof. intros Hex. unfold transparent, fd_functions, fd_methods. cbn [zip zip_with]. call_cases Hex. Qed.
Lemma net_transparent (impl : Net) callee :
  exports callee (net_functions impl) →
  transparent (net_functions impl) (net_methods impl) (net_methods (net_WrapInstance callee)).
Proof. intros Hex. unfold transparent, net_functions, net_methods. cbn [zip zip_with]. call_cases Hex. Qed.
Lemma shm_transparent (impl : Shm) callee :
  exports callee (shm_functions impl) →
  transparent (shm_functions impl) (shm_methods impl) (shm_methods (shm_WrapInstance callee)).
Proof. intros Hex. unfold transparent, shm_functions, shm_methods. cbn [zip zip_with]. call_cases Hex. Qed.
Lemma sema_transparent (impl : Sema) callee :
  exports callee (sema_functions impl) →
  transparent (sema_functions impl) (sema_methods impl) (sema_methods (sema_WrapInstance callee)).
Proof. intros Hex. unfold transparent, sema_functions, sema_methods. cbn [zip zip_with]. call_cases Hex. Qed.
#[local] Ltac results_ok :=
  repeat (apply Forall_cons; split; [unfold result_ok; simpl; by auto|]); by apply Forall_nil.
Lemma proc_results (impl : @Proc S) : Forall (λ f, result_ok f.1.2) (proc_functions impl).
Proof. unfold proc_functions. results_ok. Qed.
Lemma sig_results (impl : @Sig S) : Forall (λ f, result_ok f.1.2) (sig_functions impl).
Proof. unfold sig_functions. results_ok. Qed.
Lemma fd_results (impl : @Fd S) : Forall (λ f, result_ok f.1.2) (fd_functions impl).
Proof. unfold fd_functions. results_ok. Qed.
Lemma net_results (impl : @Net S) : Forall (λ f, result_ok f.1.2) (net_functions impl).
Proof. unfold net_functions. results_ok. Qed.
Lemma shm_results (impl : @Shm S) : Forall (λ f, result_ok f.1.2) (shm_functions impl).
Proof. unfold shm_functions. results_ok. Qed.
Lemma sema_results (impl : @Sema S) : Forall (λ f, result_ok f.1.2) (sema_functions impl).
Proof. unfold sema_functions. results_ok. Qed.

(** The host's side of all interfaces. *)
Definition all_functions (ip : @Proc S) (isig : @Sig S) (ifd : @Fd S) (inet : @Net S) (ish : @Shm S) (ise : @Sema S)
  : list (string * FuncType * host_func) :=
  proc_functions ip ++ sig_functions isig ++ fd_functions ifd ++ net_functions inet ++ shm_functions ish ++ sema_functions ise.
Definition all_methods (ip : @Proc S) (isig : @Sig S) (ifd : @Fd S) (inet : @Net S) (ish : @Shm S) (ise : @Sema S)
  : list (string * (list Z → method)) :=
  proc_methods ip ++ sig_methods isig ++ fd_methods ifd ++ net_methods inet ++ shm_methods ish ++ sema_methods ise.

(** C19. The bindings neither lose nor invent anything: whatever 64-bit words are
    on the stack a function is called with, its method gets one argument per
    parameter, each in the range of its declared type; a result goes to the
    first word, is a word again, and no other word changes; an error of the
    method leaves through the call; and nothing panics or blocks that does not
    in the method. *)
Theorem bindings_bounds ip isig ifd inet ish ise i name ft f name' m stack s :
  all_functions ip isig ifd inet ish ise !! i = Some (name, ft, f) →
  all_methods ip isig ifd inet ish ise !! i = Some (name', m) → stack_ok ft stack →
  let args := zip_with lift (types ft) stack in
  name' = name ∧ Forall2 in_ty (types ft) args ∧
  match f stack s with
  | BRet stack' s' => (∃ v, m args s = Ret (v, None) s') ∧
      Forall word stack' ∧ length stack' = length stack ∧ tail stack' = tail stack ∧ (Results ft = [] → stack' = stack)
  | BErr u s' => ∃ v, m args s = Ret (v, Some u) s'
  | BBlocked => m args s = Blocked
  | BPanic => m args s = Panic
  end.
Proof.
  intros Hf Hm Hs args.
  assert (implements (all_functions ip isig ifd inet ish ise) (all_methods ip isig ifd inet ish ise)) as Hi.
  { repeat apply Forall2_app; [apply proc_implements|apply sig_implements|apply fd_implements|apply net_implements
      |apply shm_implements|apply sema_implements]. }
  assert (Forall (λ f, result_ok f.1.2) (all_functions ip isig ifd inet ish ise)) as Hr.
  { repeat apply Forall_app_2; [apply proc_results|apply sig_results|apply fd_results|apply net_results
      |apply shm_results|apply sema_results]. }
  destruct (Forall2_lookup_lr _ _ _ _ _ _ Hi Hf Hm) as [Hn Hb]. simpl in Hn, Hb.
  pose proof (proj1 (Forall_lookup _ _) Hr i _ Hf) as Ho. simpl in Ho.
  split; [done|]. rewrite Hb. by apply reference_call.
Qed.
(** C18. The two sides of the bindings fit: a method of [WrapInstance], on
    arguments of its types, called on the component that the runtime builds of
    the functions of an implementation, does what the method of the
    implementation does and returns what it returns, at the type of the result;
    errors come out as errors. *)
Theorem bindings_transparent ip isig ifd inet ish ise cp csig cfd cnet csh cse :
  exports cp (proc_functions ip) → exports csig (sig_functions isig) → exports cfd (fd_functions ifd) →
  exports cnet (net_functions inet) → exports csh (shm_functions ish) → exports cse (sema_functions ise) →
  transparent (proc_functions ip) (proc_methods ip) (proc_methods (proc_WrapInstance cp)) ∧
  transparent (sig_functions isig) (sig_methods isig) (sig_methods (sig_WrapInstance csig)) ∧
  transparent (fd_functions ifd) (fd_methods ifd) (fd_methods (fd_WrapInstance cfd)) ∧
  transparent (net_functions inet) (net_methods inet) (net_methods (net_WrapInstance cnet)) ∧
  transparent (shm_functions ish) (shm_methods ish) (shm_methods (shm_WrapInstance csh)) ∧
  transparent (sema_functions ise) (sema_methods ise) (sema_methods (sema_WrapInstance cse)).
Proof.
  intros. split_and!; [by apply proc_transparent|by apply sig_transparent|by apply fd_transparent
    |by apply net_transparent|by apply shm_transparent|by apply sema_transparent].
Qed.

(** A concrete runtime. *)
Definition instance_of (fs : list (string * FuncType * host_func)) : instance := λ name prep s,
  match assoc name fs with
  | Some (ft, f) =>
      match prep (replicate (max (length (Params ft)) (length (Results ft))) 0) with
      | Some stack => f stack s
      | None => BPanic
      end
  | None => BPanic
  end.
Lemma instance_of_exports fs : exports (instance_of fs) fs.
Proof. intros name ft f Ha prep s. unfold instance_of. by rewrite Ha. Qed.
End laws.

(** ** Witnesses: an implementation that returns the sum of its arguments and
    counts its calls. *)
Definition sum0 : @method Z := λ s, Ret (7, None) (s + 1).
Definition sum1 (a : Z) : @method Z := λ s, Ret (a, None) (s + 1).
Definition sum2 (a b : Z) : @method Z := sum1 (a + b).
Definition sum3 (a b c : Z) : @method Z := sum2 (a + b) c.
Definition sum4 (a b c d : Z) : @method Z := sum3 (a + b) c d.
Definition sum5 (a b c d f : Z) : @method Z := sum4 (a + b) c d f.
Definition sum_proc : Proc := MkProc (λ _ s, Ret (0, Some errExit) s) sum0 sum0 sum2 sum3 sum3.
Definition sum_sig : Sig := MkSig sum1 sum2 sum1.
Definition sum_fd : Fd := MkFd sum1 sum0 sum2 sum3 sum2 sum3 sum3 sum3.
Definition sum_net : Net := MkNet sum4 sum3 sum3 sum3 sum3 sum5 sum2 sum4 sum4 sum5 sum2 sum3.
Definition sum_shm : Shm := MkShm sum2 sum1 sum1 sum3 sum3 sum1 sum1 sum2 sum2 sum2.
Definition sum_sema : Sema := MkSema sum1 sum1 sum1 sum1 sum1.

Lemma bindings_bounds_witness :
  stack_ok (FT [("pid"%string, S32); ("sig"%string, S32)] [S32]) [2 ^ 64 - 1; 2 ^ 31] ∧
  Forall2 in_ty [S32; S32] [-1; - 2 ^ 31].
Proof.
  assert (stack_ok (FT [("pid"%string, S32); ("sig"%string, S32)] [S32]) [2 ^ 64 - 1; 2 ^ 31]) as Hs.
  { split; [|simpl; lia]. unfold word. repeat constructor; lia. }
  split; [exact Hs|].
  exact (proj1 (proj2 (bindings_bounds sum_proc sum_sig sum_fd sum_net sum_shm sum_sema 3 _ _ _ _ _ _ 0 eq_refl eq_refl Hs))).
Defined.

Lemma bindings_transparent_witness :
  Proc_Kill (proc_WrapInstance (instance_of (proc_functions sum_proc))) (-5) 15 0 = Ret (10, None) 1.
Proof.
  pose proof (proj1 (bindings_transparent sum_proc sum_sig sum_fd sum_net sum_shm sum_sema _ _ _ _ _ _
    (instance_of_exports _) (instance_of_exports _) (instance_of_exports _) (instance_of_exports _)
    (instance_of_exports _) (instance_of_exports _))) as H.
  destruct (Forall2_lookup_lr _ _ _ 3 _ _ H eq_refl eq_refl) as (_ & _ & Ha).
  apply (Ha [-5; 15] 0). simpl. repeat constructor; lia.
Defined.

(** * The imports of a guest *)
(** What a call does not take from the stack: the time, and what happens while
    it is blocked. *)
Record call_env (OS HS : Type) := CallEnv {
  ce_now : Z;
  ce_sched : list ((hstate OS HS → hstate OS HS) * wakeReason);
  ce_sleep : list ((sigstate → OS → sigstate * OS) * Z);
  ce_vdial : nat → HS → option (nat * netaddr) * HS;
  ce_order : gmap Z nat → list (Z * nat);
  ce_wait : list ((kernel OS HS → kernel OS HS) * wakeReason);
  ce_fuel : nat;
}.
Arguments ce_now {OS HS}. Arguments ce_sched {OS HS}. Arguments ce_sleep {OS HS}. Arguments ce_vdial {OS HS}.
Arguments ce_order {OS HS}. Arguments ce_wait {OS HS}. Arguments ce_fuel {OS HS}.

Section guest.
Context {OS HS : Type} `{HostMMU OS} `{HostIO HS}.
Context (mounts : list Mount) (create : Mount → string → HS → HS) (programs : list string).
Context (getpid : Z) (kid : nat) (syscall_Kill : Z → Z → Z) (host_EPERM : Z).
#[local] Abbreviation kern := (kernel OS HS).
#[local] Abbreviation sys := (sys_step mounts create programs getpid kid syscall_Kill host_EPERM).
Implicit Types (k : kern).
Context (e : call_env OS HS) (q : nat).
#[local] Abbreviation call c := (run_call mounts create q c).

(** A call that only looks at the kernel. *)
Definition reads (f : hstate OS HS → Z) k : outcome kern :=
  match kr_heap k !! q with Some p => returns (f (HState p (kr_files k))) k | None => Blocked end.

(** [sigHost{p}], [fdHost{p}], [netHost{p}], [shmHost{p}] and [procHost{p}], for
    the process [q]. *)
Definition sigHost : Sig := {|
  Sig_Register blockAddr := call (HRegister blockAddr);
  Sig_SetAlarm valueUsec intervalUsec := call (HSetAlarm valueUsec intervalUsec (ce_now e));
  Sig_Sleep usec := call (HSleep usec (ce_now e) (ce_sleep e)) |}.
Definition fdHost : Fd := {|
  Fd_Close fd := call (HClose fd);
  Fd_Devnull := call HDevnull;
  Fd_Dup fd newFd := call (HDup fd newFd);
  Fd_Fcntl fd cmd a := call (HFcntl fd cmd a);
  Fd_Pipe fdsAddr flags := call (HPipe fdsAddr flags);
  Fd_Poll fdsAddr nfds timeoutMs := call (HPoll fdsAddr nfds timeoutMs (ce_sched e));
  Fd_Read fd buf n := call (HRead fd buf n (ce_sched e));
  Fd_Write fd buf n := call (HWrite fd buf n (ce_sched e)) |}.
Definition netHost : Net := {|
  Net_Accept fd addr lenAddr flags := call (HAccept fd addr lenAddr flags (ce_sched e));
  Net_Bind fd addr n := call (HBind fd addr n);
  Net_Connect fd addr n := call (HConnect fd addr n (ce_vdial e));
  Net_Getpeername fd addr lenAddr := call (HGetpeername fd addr lenAddr);
  Net_Getsockname fd addr lenAddr := call (HGetsockname fd addr lenAddr);
  Net_Getsockopt fd level name val lenAddr := call (HGetsockopt fd level name val lenAddr);
  Net_Listen fd backlog := call (HListen fd backlog);
  Net_Recv fd buf n flags := call (HRecv fd buf n flags (ce_sched e));
  Net_Send fd buf n flags := call (HSend fd buf n flags (ce_sched e));
  Net_Setsockopt fd level name val n := call (HSetsockopt fd level name val n);
  Net_Shutdown fd how := call (HShutdown fd how);
  Net_Socket domain socktype protocol := call (HSocket domain socktype protocol) |}.
Definition shmHost : Shm := {|
  Shm_Attach id addr := call (HShmAttach id addr);
  Shm_Create size := call (HShmCreate size);
  Shm_FdSize fd := reads (shmHost_FdSize fd);
  Shm_MapFd fd addr n := call (HShmMapFd fd addr n);
  Shm_Open nameAddr nameLen flags := call (HShmOpen nameAddr nameLen flags);
  Shm_Remove id := call (HShmRemove id);
  Shm_Size id := reads (shmHost_Size id);
  Shm_Truncate fd size := call (HShmTruncate fd size);
  Shm_Unlink nameAddr nameLen := call (HShmUnlink nameAddr nameLen);
  Shm_Unmap addr n := call (HShmUnmap addr n) |}.
Definition procHost : Proc := {|
  Proc_Exit status k := let '(u, k) := procHost_Exit q status k in Ret (0, Some u) k;
  Proc_Getpid k := returns (procHost_Getpid q k) k;
  Proc_Getppid k := returns (procHost_Getppid q k) k;
  Proc_Kill pid sig k := let '(r, k) := procHost_Kill getpid syscall_Kill host_EPERM q pid sig k in returns r k;
  Proc_Spawn argvAddr envpAddr cwdAddr := procHost_Spawn getpid kid programs (ce_fuel e) q argvAddr envpAddr cwdAddr;
  Proc_Waitpid pid statusAddr options := procHost_Waitpid (ce_order e) q pid statusAddr options (ce_wait e) |}.

(** The functions a guest is given, but for waitpid, which is many steps. *)
Definition imports : list (string * FuncType * (@host_func kern)) :=
  sig_functions sigHost ++ fd_functions fdHost ++ net_functions netHost ++ shm_functions shmHost ++
  take 5 (proc_functions procHost).
Definition import_methods : list (string * (list Z → @method kern)) :=
  sig_methods sigHost ++ fd_methods fdHost ++ net_methods netHost ++ shm_methods shmHost ++
  take 5 (proc_methods procHost).

Lemma imports_implement : implements imports import_methods.
Proof.
  unfold implements, imports, import_methods. repeat apply Forall2_app.
  - apply sig_implements.
  - apply fd_implements.
  - apply net_implements.
  - apply shm_implements.
  - apply Forall2_take, proc_implements.
Qed.

(** A method is some steps of the kernel. *)
Definition stepping (m : list Z → @method kern) : Prop := ∀ args k p r k',
  (∀ f, f ∈ (ce_sched e).*1 → env_ok f) → kr_heap k !! q = Some p → pr_pc p = PRunning →
  m args k = Ret r k' → rtc sys k k'.

Lemma stepping_call c k p r k' :
  (∀ f, f ∈ call_envs c → f ∈ (ce_sched e).*1) →
  (∀ f, f ∈ (ce_sched e).*1 → env_ok f) → kr_heap k !! q = Some p → pr_pc p = PRunning →
  call c k = Ret r k' → rtc sys k k'.
Proof. intros Hc He Hq Hpc Hr. apply rtc_once. apply (sy_call _ _ _ _ _ _ _ q p c r); auto. Qed.

#[local] Ltac step_case :=
  intros args k p r k' He Hq Hpc;
  do 6 (try (destruct args as [|? args]; [cbn -[run_call call_envs]; try done|])); try done; cbn -[run_call call_envs];
  first [ intros Hr; eapply stepping_call; [|exact He|exact Hq|exact Hpc|exact Hr]; intros f; simpl; by rewrite ?elem_of_nil
        | unfold reads; rewrite Hq; intros [= _ <-]; constructor ].
#[local] Ltac step_cases := repeat (apply Forall_cons; split; [step_case|]); by apply Forall_nil.

Lemma sig_stepping : Forall (λ m, stepping m.2) (sig_methods sigHost).
Proof. unfold sig_methods. step_cases. Qed.
Lemma fd_stepping : Forall (λ m, stepping m.2) (fd_methods fdHost).
Proof. unfold fd_methods. step_cases. Qed.
Lemma net_stepping : Forall (λ m, stepping m.2) (net_methods netHost).
Proof. unfold net_methods. step_cases. Qed.
Lemma shm_stepping : Forall (λ m, stepping m.2) (shm_methods shmHost).
Proof. unfold shm_methods. step_cases. Qed.
Lemma proc_stepping : Forall (λ m, stepping m.2) (take 5 (proc_methods procHost)).
Proof.
  unfold proc_methods. cbn [take]. repeat (apply Forall_cons; split); try by apply Forall_nil.
  all: intros args k p r k' He Hq Hpc; do 4 (try (destruct args as [|? args]; [try done|])); try done; cbn.
  - destruct (procHost_Exit q z k) as [u k2] eqn:E. intros [= _ <-]. apply rtc_once.
    rewrite <-(f_equal snd E : _ = k2). apply sy_exit.
  - intros [= _ <-]. constructor.
  - intros [= _ <-]. constructor.
  - destruct (procHost_Kill _ _ _ _ _ _ _) as [n k2] eqn:E. intros [= _ <-]. apply rtc_once.
    rewrite <-(f_equal snd E : _ = k2). apply sy_kill.
  - intros Hr. apply rtc_once. by eapply sy_spawn.
Qed.

Lemma imports_stepping : Forall (λ m, stepping m.2) import_methods.
Proof.
  unfold import_methods. repeat apply Forall_app_2; [apply sig_stepping|apply fd_stepping|apply net_stepping|apply shm_stepping|apply proc_stepping].
Qed.

Lemma imports_results : Forall (λ f, result_ok f.1.2) imports.
Proof.
  unfold imports. repeat apply Forall_app_2; [apply sig_results|apply fd_results|apply net_results|apply shm_results|].
  apply Forall_take, proc_results.
Qed.

End guest.

(** The postmaster asks for [/dev/null], with all bits of the word set. *)
Definition demo_env : call_env Sim.sim unit :=
  CallEnv _ _ 0 [] [] (λ _ w, (None, w)) map_to_list [] 0.
