(* ===== verification/Text.v ===== *)
(** Text as bytes: what the commands of [src/wasm/cmd] use of Go's [strings] and
    [bufio], on ASCII. *)
From S2P Require Import Prelude Bytes.

(** [strings.TrimSpace], and trimming by a predicate. *)
Definition is_space (c : Z) : bool := (c =? 32) || ((9 <=? c) && (c <=? 13)).
Fixpoint trim_left (f : Z → bool) (s : bytes) : bytes :=
  match s with c :: t => if f c then trim_left f t else s | [] => [] end.
Definition trim_right (f : Z → bool) (s : bytes) : bytes := reverse (trim_left f (reverse s)).
Definition TrimSpace (s : bytes) : bytes := trim_right is_space (trim_left is_space s).

(** [strings.Split(s, sep)] and [before, after, _ := strings.Cut(s, sep)], for one
    byte. *)
Fixpoint split_on (sep : Z) (s : bytes) : list bytes :=
  match s with
  | [] => [[]]
  | c :: s => if c =? sep then [] :: split_on sep s
              else match split_on sep s with h :: t => (c :: h) :: t | [] => [[c]] end
  end.
Fixpoint cut_byte (sep : Z) (s : bytes) : bytes * bytes :=
  match s with
  | [] => ([], [])
  | c :: s => if c =? sep then ([], s) else let '(l, r) := cut_byte sep s in (c :: l, r)
  end.

(** [strings.Fields(s)]; [cur] is the field being read. *)
Fixpoint fields_go (cur s : bytes) : list bytes :=
  match s with
  | [] => if decide (cur = []) then [] else [cur]
  | c :: s =>
      if is_space c then if decide (cur = []) then fields_go [] s else cur :: fields_go [] s
      else fields_go (cur ++ [c]) s
  end.
Definition Fields (s : bytes) : list bytes := fields_go [] s.

(** The tokens of a [bufio.Scanner] over lines: it gives up at a line that does
    not fit its buffer. *)
Definition MaxScanTokenSize : Z := 65536.
Fixpoint scan_pieces (pieces : list bytes) : list bytes :=
  match pieces with
  | [] | [[]] => []
  | l :: pieces => if MaxScanTokenSize <=? zlen l then [] else l :: scan_pieces pieces
  end.
Definition scan_lines (s : bytes) : list bytes := scan_pieces (split_on 10 s).

(** * Trimming *)
Lemma trim_left_length f s : (length (trim_left f s) ≤ length s)%nat.
Proof. induction s as [|c s IH]; simpl; [done|]. destruct (f c); simpl; lia. Qed.
Lemma trim_right_length f s : (length (trim_right f s) ≤ length s)%nat.
Proof. unfold trim_right. rewrite length_reverse. etrans; [apply trim_left_length|by rewrite length_reverse]. Qed.
Lemma TrimSpace_length s : (length (TrimSpace s) ≤ length s)%nat.
Proof. unfold TrimSpace. etrans; [apply trim_right_length|apply trim_left_length]. Qed.

Lemma trim_left_app f w s : Forall (λ c, f c = true) w → (∀ c, head s = Some c → f c = false) → trim_left f (w ++ s) = s.
Proof.
  intros Hw Hs. induction Hw as [|c w Hc _ IH]; simpl; [|by rewrite Hc].
  destruct s as [|c s]; [done|]. simpl. by rewrite (Hs c).
Qed.
Lemma trim_right_app f w s : Forall (λ c, f c = true) w → (∀ c, last s = Some c → f c = false) → trim_right f (s ++ w) = s.
Proof.
  intros Hw Hs. unfold trim_right. rewrite reverse_app, trim_left_app; [apply reverse_involutive|by apply Forall_reverse|].
  intros c Hc. apply Hs. by rewrite <-(reverse_involutive s), last_reverse.
Qed.
