(* ===== verification/GenAbi.v ===== *)
(** The generator of the ABI constants ([src/wasm/cmd/genabi/main.go]): [eval],
    with [balanced] and [splitTop], evaluates the constant expressions of C
    headers; [main] makes a table of them.

    Text is bytes; [strings.TrimSpace] is modelled on ASCII.  [strconv.ParseInt]
    is written out as far as [eval] reaches it, values included, as [eval] goes
    on with the value of an operand in spite of its error.  [eval] calls itself
    on shorter text; it takes fuel, which [eval_total] shows to be enough.  The
    preprocessor that [main] runs is not modelled: its output is an argument. *)
From S2P Require Import Prelude Bytes Text.
From Stdlib Require Import Ascii.

(** * [strconv] *)
Inductive num_err := ErrSyntax | ErrRange.
(** A value and perhaps an error, or a panic. *)
Inductive evaluated := Value (v : Z) (err : option num_err) | Panics.

(** [c | ('x' - 'X')] *)
Definition lower_case (c : Z) : Z := Z.lor c 32.
Definition digit_value (c : Z) : option Z :=
  if (48 <=? c) && (c <=? 57) then Some (c - 48)
  else if (97 <=? lower_case c) && (lower_case c <=? 122) then Some (lower_case c - 97 + 10)
  else None.

(** The loop of [ParseUint] over the digits, from the number [n] on; the flag
    says that an underscore was seen. *)
Fixpoint uint_go (base : Z) (base0 : bool) (n : Z) (under : bool) (s : bytes) : Z * option num_err * bool :=
  match s with
  | [] => (n, None, under)
  | c :: s =>
      if (c =? 95) && base0 then uint_go base base0 n true s
      else match digit_value c with
      | None => (0, Some ErrSyntax, under)
      | Some d =>
          if base <=? d then (0, Some ErrSyntax, under)
          else if (2 ^ 64 - 1) / base + 1 <=? n then (2 ^ 64 - 1, Some ErrRange, under)
          else
            let n1 := u64 (u64 (n * base) + d) in
            if (n1 <? u64 (n * base)) then (2 ^ 64 - 1, Some ErrRange, under)
            else uint_go base base0 n1 under s
      end
  end.

(** [underscoreOK]: the loop, given what was seen last and whether the number is
    hexadecimal. *)
Inductive saw := SawStart | SawDigit | SawUnderscore | SawOther.
Fixpoint underscore_go (last : saw) (hex : bool) (s : bytes) : bool :=
  match s with
  | [] => match last with SawUnderscore => false | _ => true end
  | c :: s =>
      if ((48 <=? c) && (c <=? 57)) || (hex && (97 <=? lower_case c) && (lower_case c <=? 102))
      then underscore_go SawDigit hex s
      else if c =? 95 then match last with SawDigit => underscore_go SawUnderscore hex s | _ => false end
      else match last with SawUnderscore => false | _ => underscore_go SawOther hex s end
  end.
Definition prefix_base (s : bytes) : option Z :=
  match s with
  | z :: c :: _ =>
      if negb (z =? 48) then None
      else if lower_case c =? 98 then Some 2 else if lower_case c =? 111 then Some 8
      else if lower_case c =? 120 then Some 16 else None
  | _ => None
  end.
Definition underscoreOK (s : bytes) : bool :=
  let s := match s with c :: t => if (c =? 45) || (c =? 43) then t else s | [] => s end in
  match prefix_base s with
  | Some b => underscore_go SawDigit (b =? 16) (drop 2 s)
  | None => underscore_go SawStart false s
  end.

(** [ParseUint(s, base, 64)] *)
Definition ParseUint (s : bytes) (base : Z) : Z * option num_err :=
  match s with
  | [] => (0, Some ErrSyntax)
  | c :: t =>
      let '(b, digits) :=
        if negb (base =? 0) then (base, s)
        else if c =? 48 then
          match prefix_base s with
          | Some b => if (3 <=? zlen s) then (b, drop 2 s) else (8, t)
          | None => (8, t)
          end
        else (10, s) in
      let '(n, err, under) := uint_go b (base =? 0) 0 false digits in
      match err with
      | Some e => (n, Some e)
      | None => if under && negb (underscoreOK s) then (0, Some ErrSyntax) else (n, None)
      end
  end.

(** [ParseInt(s, base, 64)] *)
Definition ParseInt (s : bytes) (base : Z) : Z * option num_err :=
  match s with
  | [] => (0, Some ErrSyntax)
  | c :: t =>
      let neg := c =? 45 in
      let '(un, err) := ParseUint (if (c =? 43) || neg then t else s) base in
      match err with
      | Some ErrSyntax => (0, Some ErrSyntax)
      | _ =>
          if negb neg && (2 ^ 63 <=? un) then (2 ^ 63 - 1, Some ErrRange)
          else if neg && (2 ^ 63 <? un) then (- 2 ^ 63, Some ErrRange)
          else (if neg then i64 (- i64 un) else i64 un, None)
      end
  end.

(** * [strings.Cut(s, "<<")] *)
Fixpoint cut_shl (s : bytes) : option (bytes * bytes) :=
  match s with
  | [] => None
  | c :: t =>
      if (c =? 60) && match t with d :: _ => d =? 60 | [] => false end then Some ([], drop 1 t)
      else '(l, r) ← cut_shl t; Some (c :: l, r)
  end.

(** * [balanced], [splitTop], [eval] *)
Fixpoint balanced_go (depth : Z) (s : bytes) : bool :=
  match s with
  | [] => depth =? 0
  | c :: s =>
      if c =? 40 then balanced_go (depth + 1) s
      else if c =? 41 then if depth - 1 <? 0 then false else balanced_go (depth - 1) s
      else balanced_go depth s
  end.
Definition balanced (s : bytes) : bool := balanced_go 0 s.

(** [cur] is [s[start:i]]. *)
Fixpoint split_go (sep depth : Z) (cur s : bytes) : list bytes :=
  match s with
  | [] => [cur]
  | c :: s =>
      if c =? 40 then split_go sep (depth + 1) (cur ++ [c]) s
      else if c =? 41 then split_go sep (depth - 1) (cur ++ [c]) s
      else if (c =? sep) && (depth =? 0) then cur :: split_go sep depth [] s
      else split_go sep depth (cur ++ [c]) s
  end.
Definition splitTop (s : bytes) (sep : Z) : list bytes := split_go sep 0 [] s.

(** [expr[1 : len(expr)-1]] when the first byte is an opening and the last a
    closing parenthesis, and what is between them is balanced. *)
Definition inner (expr : bytes) : option bytes :=
  match expr with
  | c :: t =>
      if (c =? 40) && bool_decide (last t = Some 41) && balanced (removelast t) then Some (removelast t) else None
  | [] => None
  end.
Fixpoint strip (fuel : nat) (expr : bytes) : option bytes :=
  match inner expr with
  | None => Some expr
  | Some e => match fuel with O => None | S fuel => strip fuel (TrimSpace e) end
  end.

(** [lv << rv] on int64; a negative count panics. *)
Definition shl (lv rv : Z) (err : option num_err) : evaluated :=
  if rv <? 0 then Panics else Value (if 64 <=? rv then 0 else i64 (Z.shiftl lv rv)) err.

Definition suffix (c : Z) : bool := (c =? 117) || (c =? 85) || (c =? 108) || (c =? 76).
Definition eval_literal (expr : bytes) : evaluated :=
  let expr := trim_right suffix expr in
  let '(v, err) :=
    match expr with
    | z :: c :: t =>
        if (z =? 48) && negb (c =? 120) && negb (c =? 88) then ParseInt (c :: t) 8 else ParseInt expr 0
    | _ => ParseInt expr 0
    end in
  Value v err.

(** The loop over the parts of a disjunction. *)
Fixpoint eval_or (ev : bytes → option evaluated) (v : Z) (parts : list bytes) : option evaluated :=
  match parts with
  | [] => Some (Value v None)
  | p :: parts =>
      match ev p with
      | Some (Value pv None) => eval_or ev (Z.lor v pv) parts
      | Some (Value _ err) => Some (Value 0 err)
      | r => r
      end
  end.

Fixpoint eval (fuel : nat) (expr : bytes) : option evaluated :=
  match fuel with
  | O => None
  | S fuel =>
      expr ← strip (length expr) (TrimSpace expr);
      let parts := splitTop expr 124 in
      let rest :=
        match expr with
        | c :: t =>
            if c =? 45 then
              r ← eval fuel t;
              Some (match r with Value v err => Value (i64 (- v)) err | Panics => Panics end)
            else Some (eval_literal expr)
        | [] => Some (eval_literal expr)
        end in
      if (1 <? length parts)%nat then eval_or (eval fuel) 0 parts
      else match cut_shl expr with
      | Some (l, r) =>
          if balanced l then
            lr ← eval fuel l;
            match lr with
            | Value lv None =>
                rr ← eval fuel r;
                Some (match rr with Value rv err => shl lv rv err | Panics => Panics end)
            | Value _ err => Some (Value 0 err)
            | Panics => Some Panics
            end
          else rest
      | None => rest
      end
  end.

Definition ev (s : string) : option evaluated := eval (S (String.length s)) (bytes_of_string s).
Example ev1 : ev "( (1 << 4)|0x20UL | -010 )" = Some (Value (Z.lor (Z.lor 16 32) (-8)) None).
Proof. vm_compute. reflexivity. Qed.
Example ev2 : ev "1<<2<<3" = Some (Value 65536 None).
Proof. vm_compute. reflexivity. Qed.
Example ev3 : ev "(1<<2)<<3" = Some (Value 0 (Some ErrSyntax)).
Proof. vm_compute. reflexivity. Qed.
Example ev4 : ev "1<<-99999999999999999999" = Some Panics.
Proof. vm_compute. reflexivity. Qed.

(** * The fuel is enough *)
Lemma removelast_length {A} (l : list A) : length (removelast l) = pred (length l).
Proof. induction l as [|x [|y l] IH]; [done..|]. simpl in *. by rewrite IH. Qed.

Lemma inner_length s m : inner s = Some m → (length m < length s)%nat.
Proof.
  unfold inner. destruct s as [|c t]; [done|]. destruct (_ && _); [|done]. intros [= <-].
  rewrite removelast_length. simpl. lia.
Qed.

Lemma strip_total fuel s :
  (length s ≤ fuel)%nat → ∃ e, strip fuel s = Some e ∧ (length e ≤ length s)%nat ∧ inner e = None.
Proof.
  revert s. induction fuel as [|fuel IH]; intros s Hl; simpl; destruct (inner s) as [m|] eqn:E; try by exists s.
  - apply inner_length in E. lia.
  - apply inner_length in E. pose proof (TrimSpace_length m).
    destruct (IH (TrimSpace m)) as (e & He & Hle & Hi); [lia|]. exists e. split_and!; [done|lia|done].
Qed.

Lemma cut_shl_app s l r : cut_shl s = Some (l, r) → s = l ++ 60 :: 60 :: r.
Proof.
  revert l r. induction s as [|c s IH]; intros l r; simpl; [done|].
  destruct ((c =? 60) && _) eqn:E.
  - intros [= <- <-]. apply andb_true_iff in E as [?%Z.eqb_eq E]. destruct s as [|d s]; [done|].
    apply Z.eqb_eq in E. simpl. rewrite drop_0. congruence.
  - destruct (cut_shl s) as [[l' r']|]; simpl; [|done]. intros [= <- <-]. simpl. f_equal. by apply IH.
Qed.

Lemma split_go_parts sep depth cur s :
  (1 < length (split_go sep depth cur s))%nat →
  Forall (λ p, (length p < length cur + length s)%nat) (split_go sep depth cur s).
Proof.
  assert (Hb : ∀ s depth cur, Forall (λ p, (length p ≤ length cur + length s)%nat) (split_go sep depth cur s)).
  { clear. induction s as [|c s IH]; intros depth cur; simpl; [repeat constructor; lia|].
    repeat case_match; try (eapply Forall_impl; [apply IH|]; intros p; rewrite length_app; simpl; lia).
    constructor; [lia|]. eapply Forall_impl; [apply IH|]. simpl. lia. }
  revert depth cur. induction s as [|c s IH]; intros depth cur; simpl; [lia|].
  repeat case_match; intros Hl; try (eapply Forall_impl; [by apply IH|]; intros p; rewrite length_app; simpl; lia).
  constructor; [lia|]. eapply Forall_impl; [apply Hb|]. simpl. lia.
Qed.

Lemma eval_or_total evl v parts :
  Forall (λ p, is_Some (evl p)) parts → is_Some (eval_or evl v parts).
Proof.
  intros H. revert v. induction H as [|p parts [r Hp] _ IH]; intros v; simpl; [by eexists|].
  rewrite Hp. destruct r as [pv [err|]|]; [by eexists|apply IH|by eexists].
Qed.

Lemma eval_fuel fuel s : (length s < fuel)%nat → is_Some (eval fuel s).
Proof.
  revert s. induction fuel as [|fuel IH]; intros s Hl; [lia|]. cbn [eval].
  pose proof (TrimSpace_length s) as Ht.
  destruct (strip_total (length s) (TrimSpace s) Ht) as (e & -> & He & _). simpl.
  assert (Hrest : is_Some (match e with
      | c :: t =>
          if c =? 45 then r ← eval fuel t; Some (match r with Value v err => Value (i64 (- v)) err | Panics => Panics end)
          else Some (eval_literal e)
      | [] => Some (eval_literal e) end)).
  { destruct e as [|c t]; [by eexists|]. simpl in He. destruct (IH t) as [r Hr]; [lia|].
    destruct (c =? 45); [|by eexists]. rewrite Hr. by eexists. }
  destruct (1 <? _)%nat eqn:E.
  - apply Nat.ltb_lt in E. apply eval_or_total. eapply Forall_impl; [apply (split_go_parts 124 0 [] e E)|].
    simpl. intros p Hp. apply IH. lia.
  - destruct (cut_shl e) as [[l r]|] eqn:Ec; [|done]. destruct (balanced l); [|done].
    apply cut_shl_app in Ec as ->. rewrite length_app in He. simpl in He.
    destruct (IH l) as [lr ->]; [lia|]. destruct (IH r) as [rr ->]; [lia|]. simpl.
    destruct lr as [lv [err|]|]; by eexists.
Qed.

(** * What the expressions mean in C

    The text of an expression: [text 2] is a literal, a negation or anything in
    parentheses, [text 1] may be a shift, [text 0] a disjunction, as in C's
    grammar, except that a shift has no [<<] in its left operand. *)
Inductive cexpr := CLit (v : Z) | CNeg (e : cexpr) | CShl (a b : cexpr) | COr (a b : cexpr).

Fixpoint cvalue (e : cexpr) : Z :=
  match e with
  | CLit v => v
  | CNeg e => - cvalue e
  | CShl a b => Z.shiftl (cvalue a) (cvalue b)
  | COr a b => Z.lor (cvalue a) (cvalue b)
  end.

Definition int64 (z : Z) : Prop := - 2 ^ 63 ≤ z < 2 ^ 63.
(** No overflow, as C requires. *)
Fixpoint fits (e : cexpr) : Prop :=
  int64 (cvalue e) ∧
  match e with
  | CLit _ => True
  | CNeg e => fits e
  | CShl a b => fits a ∧ fits b ∧ 0 ≤ cvalue b < 64
  | COr a b => fits a ∧ fits b
  end.

Definition spaces : bytes → Prop := Forall (λ c, is_space c = true).
Definition digit_of (base c : Z) : Prop := 48 ≤ c ∧ ∃ d, digit_value c = Some d ∧ 0 ≤ d < base.
Definition horner (base n : Z) (s : bytes) : Z := foldl (λ n c, n * base + default 0 (digit_value c)) n s.

(** A literal: decimal, octal or hexadecimal, and a suffix. *)
Inductive literal : Z → bytes → Prop :=
| lit_zero : literal 0 [48]
| lit_dec c s : c ≠ 48 → Forall (digit_of 10) (c :: s) → literal (horner 10 0 (c :: s)) (c :: s)
| lit_oct s : s ≠ [] → Forall (digit_of 8) s → literal (horner 8 0 s) (48 :: s)
| lit_hex x s : x = 120 ∨ x = 88 → s ≠ [] → Forall (digit_of 16) s → literal (horner 16 0 s) (48 :: x :: s).

Inductive text : nat → cexpr → bytes → Prop :=
| t_lit v s sf : literal v s → Forall (λ c, suffix c = true) sf → text 2 (CLit v) (s ++ sf)
| t_paren e s w1 w2 : text 0 e s → spaces w1 → spaces w2 → text 2 e (40 :: (w1 ++ s ++ w2) ++ [41])
| t_neg e s w : text 2 e s → spaces w → text 2 (CNeg e) (45 :: w ++ s)
| t_shl a b s1 w1 w2 s2 : text 2 a s1 → text 2 b s2 → spaces w1 → spaces w2 → cut_shl s1 = None →
    text 1 (CShl a b) (s1 ++ w1 ++ 60 :: 60 :: w2 ++ s2)
| t_shift e s : text 2 e s → text 1 e s
| t_or a b s1 w1 w2 s2 : text 0 a s1 → text 1 b s2 → spaces w1 → spaces w2 →
    text 0 (COr a b) (s1 ++ w1 ++ 124 :: w2 ++ s2)
| t_disj e s : text 1 e s → text 0 e s.

Definition padded (l : nat) (e : cexpr) (x : bytes) : Prop :=
  ∃ w1 s w2, x = w1 ++ s ++ w2 ∧ spaces w1 ∧ spaces w2 ∧ text l e s.

(** ** Numbers *)
Lemma digit_of_value base c : digit_of base c → base ≤ 36 →
  ∃ d, digit_value c = Some d ∧ 0 ≤ d < base ∧ c ≠ 95 ∧ 48 ≤ c.
Proof.
  intros (Hc & d & Hd & Hr) Hb. exists d. split_and!; [done|lia|lia| |done].
  intros ->. vm_compute in Hd. discriminate.
Qed.

Lemma horner_ge base n s : 2 ≤ base ≤ 36 → 0 ≤ n → Forall (digit_of base) s → n ≤ horner base n s.
Proof.
  intros Hb Hn Hs. revert n Hn. induction Hs as [|c s Hc Hs IH]; intros n Hn; simpl; [lia|].
  destruct (digit_of_value _ _ Hc ltac:(lia)) as (d & -> & Hd & _). simpl.
  etrans; [|apply IH; nia]. nia.
Qed.

Lemma uint_go_ok base base0 n s :
  2 ≤ base ≤ 36 → 0 ≤ n → Forall (digit_of base) s → horner base n s < 2 ^ 64 →
  uint_go base base0 n false s = (horner base n s, None, false).
Proof.
  intros Hb Hn Hs. revert n Hn. induction Hs as [|c s Hc Hs IH]; intros n Hn Hlt; simpl; [done|].
  destruct (digit_of_value _ _ Hc ltac:(lia)) as (d & Hd & Hr & Hne & _).
  rewrite (proj2 (Z.eqb_neq c 95) Hne). cbn [andb]. simpl in Hlt. rewrite Hd in *. simpl in *.
  assert (Hge : n * base + d ≤ horner base (n * base + d) s) by (apply horner_ge; [lia|nia|done]).
  change (horner base (n * base + d) s < 2 ^ 64) in Hlt.
  assert (0 ≤ n * base) by nia.
  rewrite (proj2 (Z.leb_gt base d)) by lia.
  assert (n ≤ (2 ^ 64 - 1) / base) by (apply Z.div_le_lower_bound; lia).
  rewrite (proj2 (Z.leb_gt _ n)) by lia.
  rewrite !(wrapU_small 64) by (rewrite ?(wrapU_small 64); lia).
  rewrite (proj2 (Z.ltb_ge _ _)) by lia. apply IH; [nia|done].
Qed.

Lemma last_Forall (P : Z → Prop) s c : Forall P s → last s = Some c → P c.
Proof. intros Hs Hl. apply last_Some in Hl as [l ->]. apply Forall_app in Hs as [_ Hs]. by apply Forall_inv in Hs. Qed.

Lemma digit_not_suffix base c : base ≤ 16 → digit_of base c → suffix c = false.
Proof.
  intros Hb (_ & d & Hd & Hr). unfold suffix.
  assert (c ≠ 117 ∧ c ≠ 85 ∧ c ≠ 108 ∧ c ≠ 76); [|zcases; lia].
  split_and!; intros ->; vm_compute in Hd; injection Hd as <-; lia.
Qed.

Lemma ParseInt_digits base b c s digits :
  c ≠ 43 → c ≠ 45 → 2 ≤ b ≤ 36 → Forall (digit_of b) digits → horner b 0 digits < 2 ^ 63 →
  (if negb (base =? 0) then (base, c :: s)
   else if c =? 48 then
     match prefix_base (c :: s) with Some b => if 3 <=? zlen (c :: s) then (b, drop 2 (c :: s)) else (8, s) | None => (8, s) end
   else (10, c :: s)) = (b, digits) →
  ParseInt (c :: s) base = (horner b 0 digits, None).
Proof.
  intros H1 H2 Hb Hd Hlt He. unfold ParseInt.
  rewrite (proj2 (Z.eqb_neq c 43)), (proj2 (Z.eqb_neq c 45)) by done. cbn [orb]. unfold ParseUint.
  rewrite He, uint_go_ok by (done || lia). cbn [andb negb].
  pose proof (horner_ge b 0 digits Hb ltac:(lia) Hd).
  rewrite (proj2 (Z.leb_gt _ _)) by lia. by rewrite (wrapS_small 64) by lia.
Qed.

Lemma eval_literal_ok v s sf :
  literal v s → Forall (λ c, suffix c = true) sf → v < 2 ^ 63 → eval_literal (s ++ sf) = Value v None.
Proof.
  intros Hl Hsf Hv. unfold eval_literal.
  rewrite trim_right_app; [|done|].
  2: { intros c Hc. destruct Hl as [|c' s Hne Hd|s Hne Hd|x s Hx Hne Hd].
    - by injection Hc as <-.
    - eapply digit_not_suffix; [|by eapply (last_Forall (digit_of 10))]; lia.
    - destruct s as [|y s]; [done|]. rewrite last_cons_cons in Hc. eapply digit_not_suffix; [|by eapply (last_Forall (digit_of 8))]; lia.
    - destruct s as [|y s]; [done|]. rewrite !last_cons_cons in Hc. eapply digit_not_suffix; [|by eapply (last_Forall (digit_of 16))]; lia. }
  destruct Hl as [|c s Hne Hd|s Hne Hd|x s Hx Hne Hd].
  - reflexivity.
  - pose proof (Forall_inv Hd) as (Hc & _).
    assert (c ≠ 43 ∧ c ≠ 45) as [? ?] by lia.
    assert (ParseInt (c :: s) 0 = (horner 10 0 (c :: s), None)) as Hp.
    { apply ParseInt_digits; [done|done|lia|done|done|]. by rewrite (proj2 (Z.eqb_neq c 48)). }
    destruct s as [|c' s]; [by rewrite Hp|]. rewrite (proj2 (Z.eqb_neq c 48)) by done. cbn [andb]. by rewrite Hp.
  - destruct s as [|c s]; [done|]. pose proof (Forall_inv Hd) as (Hc & d & Hdv & Hr).
    assert (c ≠ 43 ∧ c ≠ 45) as [? ?] by lia.
    assert (c ≠ 120 ∧ c ≠ 88) as [? ?].
    { split; intros ->; vm_compute in Hdv; injection Hdv as <-; lia. }
    rewrite (proj2 (Z.eqb_neq c 120)), (proj2 (Z.eqb_neq c 88)) by done. cbn [andb negb Z.eqb Pos.eqb].
    by rewrite (ParseInt_digits 8 8 c s (c :: s)).
  - assert (ParseInt (48 :: x :: s) 0 = (horner 16 0 s, None)) as Hp.
    { apply ParseInt_digits; [done|done|lia|done|done|]. cbn [negb Z.eqb Pos.eqb].
      assert (prefix_base (48 :: x :: s) = Some 16) as -> by by destruct Hx as [->| ->].
      destruct s as [|y s]; [done|]. rewrite (proj2 (Z.leb_le _ _)); [done|]. unfold zlen. simpl. lia. }
    destruct Hx as [->| ->]; cbn [andb negb Z.eqb Pos.eqb]; by rewrite Hp.
Qed.

(** ** Parentheses *)
(** The depth after [s], [None] once a parenthesis closes nothing. *)
Fixpoint scan (d : Z) (s : bytes) : option Z :=
  match s with
  | [] => Some d
  | c :: s =>
      if c =? 40 then scan (d + 1) s
      else if c =? 41 then if d - 1 <? 0 then None else scan (d - 1) s
      else scan d s
  end.

Lemma balanced_scan d s : balanced_go d s = bool_decide (scan d s = Some 0).
Proof.
  revert d. induction s as [|c s IH]; intros d; simpl.
  - destruct (Z.eqb_spec d 0) as [->|Hd]; symmetry; [by apply bool_decide_eq_true|apply bool_decide_eq_false; congruence].
  - repeat case_match; try apply IH. symmetry. by apply bool_decide_eq_false.
Qed.

Lemma scan_app d s t : scan d (s ++ t) = scan d s ≫= λ k, scan k t.
Proof. revert d. induction s as [|c s IH]; intros d; simpl; [done|]. repeat case_match; by try apply IH. Qed.

Lemma scan_nonneg d s k : 0 ≤ d → scan d s = Some k → 0 ≤ k.
Proof.
  revert d. induction s as [|c s IH]; intros d Hd; simpl; [intros [= <-]; lia|].
  repeat case_match; intros H'; try done; (eapply IH; [|exact H']); lia.
Qed.

Lemma scan_shift j d s k : 0 ≤ j → scan d s = Some k → scan (d + j) s = Some (k + j).
Proof.
  intros Hj. revert d. induction s as [|c s IH]; intros d; simpl; [by intros [= <-]|].
  destruct (c =? 40); [intros Hs; apply IH in Hs; by replace (d + j + 1) with (d + 1 + j) by lia|].
  destruct (c =? 41); [|apply IH]. destruct (Z.ltb_spec (d - 1) 0); [done|].
  rewrite (proj2 (Z.ltb_ge _ _)) by lia. intros Hs. apply IH in Hs. by replace (d + j - 1) with (d - 1 + j) by lia.
Qed.

Definition plain_char (c : Z) : Prop := c ≠ 40 ∧ c ≠ 41 ∧ c ≠ 60 ∧ c ≠ 124 ∧ c ≠ 45.
Lemma scan_plain d s : Forall plain_char s → scan d s = Some d.
Proof.
  induction 1 as [|c s (H1 & H2 & _) _ IH]; simpl; [done|].
  by rewrite (proj2 (Z.eqb_neq c 40)), (proj2 (Z.eqb_neq c 41)).
Qed.

Lemma spaces_plain w : spaces w → Forall plain_char w.
Proof. intros Hw. eapply Forall_impl; [exact Hw|]. intros c Hc. unfold is_space in Hc. unfold plain_char. zcases; simpl in *; try done; lia. Qed.

Lemma suffix_plain c : suffix c = true → plain_char c ∧ is_space c = false.
Proof. unfold suffix, plain_char, is_space. intros Hc. zcases; simpl in *; try done; lia. Qed.

Lemma digit_plain base c : base ≤ 16 → digit_of base c → plain_char c ∧ is_space c = false.
Proof.
  intros Hb (Hc & d & Hd & Hr). split.
  - split_and!; intros ->; try lia; vm_compute in Hd; try done; injection Hd as <-; lia.
  - unfold is_space. zcases; simpl; done || lia.
Qed.

Lemma literal_plain v s : literal v s → s ≠ [] ∧ Forall (λ c, plain_char c ∧ is_space c = false) s.
Proof.
  assert (H48 : plain_char 48 ∧ is_space 48 = false) by (split; [by split_and!|done]).
  destruct 1 as [|c s Hne Hd|s Hne Hd|x s Hx Hne Hd]; (split; [done|]).
  - by repeat constructor.
  - eapply Forall_impl; [exact Hd|]. intros y. by apply digit_plain.
  - constructor; [done|]. eapply Forall_impl; [exact Hd|]. intros y. by apply digit_plain.
  - constructor; [done|]. constructor; [by destruct Hx as [->| ->]|].
    eapply Forall_impl; [exact Hd|]. intros y. by apply digit_plain.
Qed.

(** ** The shape of a text *)
(** Nothing before or after it is white space, and it does not end in [<]. *)
Lemma text_ends l e s : text l e s →
  ∃ c d, head s = Some c ∧ last s = Some d ∧ is_space c = false ∧ is_space d = false ∧ d ≠ 60.
Proof.
  induction 1 as [v s sf Hl Hsf|e s w1 w2 _ _ _ _|e s w _ (c & d & Hc & Hd & _ & H1 & H2) _
    |a b s1 w1 w2 s2 _ IH1 _ IH2 _ _ _|e s _ IH|a b s1 w1 w2 s2 _ IH1 _ IH2 _ _|e s _ IH]; [..|done| |done].
  - apply literal_plain in Hl as [Hne Hp].
    assert (Hall : Forall (λ c, plain_char c ∧ is_space c = false) (s ++ sf)).
    { apply Forall_app. split; [done|]. eapply Forall_impl; [exact Hsf|]. intros c. apply suffix_plain. }
    destruct s as [|c s]; [done|]. destruct (last ((c :: s) ++ sf)) as [d|] eqn:E; [|by apply last_None in E].
    exists c, d. pose proof (last_Forall _ _ _ Hall E) as [(_ & _ & ? & _) ?].
    pose proof (Forall_inv Hall) as [_ ?]. done.
  - exists 40, 41. split_and!; try done. rewrite app_comm_cons, last_app. done.
  - exists 45, d. split_and!; try done. rewrite app_comm_cons, last_app, Hd. done.
  - destruct IH1 as (c & _ & Hc & _ & Hs & _), IH2 as (_ & d & _ & Hd & _ & He). exists c, d.
    destruct s1; [done|]. split_and!; try done; [|by destruct He..]. by rewrite !last_app, !last_cons, last_app, Hd.
  - destruct IH1 as (c & _ & Hc & _ & Hs & _), IH2 as (_ & d & _ & Hd & _ & He). exists c, d.
    destruct s1; [done|]. split_and!; try done; [|by destruct He..]. by rewrite !last_app, last_cons, last_app, Hd.
Qed.

Lemma padded_trim l e x : padded l e x → text l e (TrimSpace x).
Proof.
  intros (w1 & s & w2 & -> & H1 & H2 & Ht). destruct (text_ends _ _ _ Ht) as (c & d & Hc & Hd & Hcs & Hds & _).
  unfold TrimSpace. rewrite trim_left_app; [|done|].
  - rewrite trim_right_app; [done|done|]. intros y Hy. congruence.
  - intros y. destruct s; [done|]. simpl in *. congruence.
Qed.

Lemma text_scan l e s : text l e s → scan 0 s = Some 0.
Proof.
  assert (Hmid : ∀ s1 w1 x w2 s2, scan 0 s1 = Some 0 → Forall plain_char w1 → (∀ d, scan d x = Some d) → Forall plain_char w2 →
    scan 0 s2 = Some 0 → scan 0 (s1 ++ w1 ++ x ++ w2 ++ s2) = Some 0).
  { intros s1 w1 x w2 s2 H1 Hw1 Hx Hw2 H2. rewrite scan_app, H1. simpl. rewrite scan_app, scan_plain by done. simpl.
    rewrite scan_app, Hx. simpl. rewrite scan_app, scan_plain by done. done. }
  induction 1 as [v s sf Hl Hsf|e s w1 w2 _ IH Hw1 Hw2|e s w _ IH Hw|a b s1 w1 w2 s2 _ IH1 _ IH2 Hw1 Hw2 _|e s _ IH
    |a b s1 w1 w2 s2 _ IH1 _ IH2 Hw1 Hw2|e s _ IH]; [..|done| |done].
  - apply scan_plain, Forall_app. apply literal_plain in Hl as [_ Hp]. split.
    + eapply Forall_impl; [exact Hp|]. by intros c [].
    + eapply Forall_impl; [exact Hsf|]. intros c Hc. apply suffix_plain in Hc. by destruct Hc.
  - simpl. rewrite scan_app, scan_app, scan_plain by by apply spaces_plain. simpl.
    rewrite scan_app, (scan_shift 1 0 s 0) by done. simpl. rewrite scan_plain by by apply spaces_plain. done.
  - simpl. rewrite scan_app, scan_plain by by apply spaces_plain. done.
  - apply (Hmid s1 w1 [60; 60] w2 s2); try done; by apply spaces_plain.
  - apply (Hmid s1 w1 [124] w2 s2); try done; by apply spaces_plain.
Qed.

Lemma padded_scan l e x : padded l e x → scan 0 x = Some 0.
Proof.
  intros (w1 & s & w2 & -> & H1 & H2 & Ht). rewrite scan_app, scan_plain by by apply spaces_plain. simpl.
  rewrite scan_app, (text_scan _ _ _ Ht). simpl. apply scan_plain. by apply spaces_plain.
Qed.

Lemma inner_Some s m : inner s = Some m ↔ s = 40 :: m ++ [41] ∧ scan 0 m = Some 0.
Proof.
  unfold inner, balanced. destruct s as [|c t]; [naive_solver|]. rewrite balanced_scan. split.
  - destruct (Z.eqb_spec c 40) as [->|]; [|done]. cbn [andb].
    destruct (bool_decide (last t = Some 41)) eqn:E; [|done]. apply bool_decide_eq_true, last_Some in E as [t' ->].
    rewrite removelast_last. cbn [andb]. destruct (bool_decide _) eqn:E; [|done]. intros [= ->].
    by apply bool_decide_eq_true in E.
  - intros [[= -> ->] Hs]. rewrite last_snoc, removelast_last, !bool_decide_true by done. done.
Qed.

(** What starts with a balanced text and goes on is not one pair of parentheses. *)
Lemma not_inner s t m : s ≠ [] → t ≠ [] → scan 0 s = Some 0 → s ++ t = 40 :: m ++ [41] → scan 0 m = Some 0 → False.
Proof.
  intros Hs Ht Hsc He Hm. destruct s as [|c s]; [done|]. injection He as -> He. simpl in Hsc.
  destruct t as [|d t _] using rev_ind; [done|]. rewrite app_assoc in He. apply app_inj_tail in He as [<- _].
  rewrite scan_app in Hm. destruct (scan 0 s) as [k|] eqn:E; [|done].
  pose proof (scan_nonneg 0 s k ltac:(lia) E). pose proof (scan_shift 1 0 s k ltac:(lia) E) as Hsh. simpl in Hsh.
  assert (Some (k + 1) = Some 0) as [= ?] by congruence. lia.
Qed.

Lemma text_inner l e s m : text l e s → inner s = Some m → padded 0 e m.
Proof.
  intros Ht. revert m. induction Ht as [v s sf Hl Hsf|e s w1 w2 Ht _ Hw1 Hw2|e s w _ _ _|a b s1 w1 w2 s2 H1 _ _ _ _ _ _|e s _ IH
    |a b s1 w1 w2 s2 H1 _ _ _ _ _|e s _ IH]; intros m Hi; [..|by apply IH| |by apply IH].
  - apply inner_Some in Hi as [He _]. apply literal_plain in Hl as [Hne Hp]. destruct s as [|c s]; [done|].
    injection He as -> _. by destruct (Forall_inv Hp) as [[? _] _].
  - apply inner_Some in Hi as [[= He] _]. apply app_inj_tail in He as [<- _]. by exists w1, s, w2.
  - by apply inner_Some in Hi as [[=] _].
  - apply inner_Some in Hi as [He Hm]. exfalso. destruct (text_ends _ _ _ H1) as (c & _ & Hc & _).
    eapply (not_inner s1); [by intros ->|..|exact He|done]; [by destruct w1|by eapply text_scan].
  - apply inner_Some in Hi as [He Hm]. exfalso. destruct (text_ends _ _ _ H1) as (c & _ & Hc & _).
    eapply (not_inner s1); [by intros ->|..|exact He|done]; [by destruct w1|by eapply text_scan].
Qed.

Lemma strip_text fuel e s :
  (length s ≤ fuel)%nat → text 0 e s → ∃ s', strip fuel s = Some s' ∧ text 0 e s' ∧ inner s' = None.
Proof.
  revert s. induction fuel as [|fuel IH]; intros s Hl Ht; simpl; destruct (inner s) as [m|] eqn:E; try by exists s.
  - apply inner_length in E. lia.
  - pose proof (inner_length _ _ E). pose proof (TrimSpace_length m).
    apply IH; [lia|]. eapply padded_trim. by eapply text_inner.
Qed.

(** ** Splitting *)
Fixpoint notop (sep d : Z) (s : bytes) : Prop :=
  match s with
  | [] => True
  | c :: s =>
      if c =? 40 then notop sep (d + 1) s
      else if c =? 41 then notop sep (d - 1) s
      else ((c =? sep) && (d =? 0) = false) ∧ notop sep d s
  end.

Lemma split_go_app sep d cur s t k :
  scan d s = Some k → notop sep d s → split_go sep d cur (s ++ t) = split_go sep k (cur ++ s) t.
Proof.
  revert d cur. induction s as [|c s IH]; intros d cur; simpl; [intros [= <-] _; by rewrite app_nil_r|].
  replace (cur ++ c :: s) with ((cur ++ [c]) ++ s) by by rewrite <-app_assoc.
  destruct (c =? 40); [apply IH|]. destruct (c =? 41).
  - destruct (d - 1 <? 0); [done|]. apply IH.
  - intros Hs [-> Hn]. by apply IH.
Qed.

Lemma notop_app sep d s t k : scan d s = Some k → notop sep d s → notop sep k t → notop sep d (s ++ t).
Proof.
  revert d. induction s as [|c s IH]; intros d; simpl; [by intros [= <-]|].
  destruct (c =? 40); [apply IH|]. destruct (c =? 41); [destruct (d - 1 <? 0); [done|]; apply IH|].
  intros Hs [Hc Hn] Ht. split; [done|]. by eapply IH.
Qed.

Lemma notop_deep sep d s k : 0 ≤ d → scan d s = Some k → notop sep (d + 1) s.
Proof.
  revert d. induction s as [|c s IH]; intros d Hd; simpl; [done|].
  destruct (c =? 40); [apply (IH (d + 1)); lia|]. destruct (c =? 41).
  - destruct (Z.ltb_spec (d - 1) 0); [done|]. replace (d + 1 - 1) with (d - 1 + 1) by lia. by apply IH.
  - intros Hs. split; [|by apply IH]. rewrite (proj2 (Z.eqb_neq (d + 1) 0)) by lia. apply andb_false_r.
Qed.

Lemma notop_plain d s : Forall plain_char s → notop 124 d s.
Proof.
  induction 1 as [|c s (H1 & H2 & _ & H3 & _) _ IH]; simpl; [done|].
  rewrite (proj2 (Z.eqb_neq c 40)), (proj2 (Z.eqb_neq c 41)), (proj2 (Z.eqb_neq c 124)) by done. done.
Qed.

Lemma text_notop l e s : text l e s → (1 ≤ l)%nat → notop 124 0 s.
Proof.
  induction 1 as [v s sf Hl Hsf|e s w1 w2 Ht _ Hw1 Hw2|e s w _ IH Hw|a b s1 w1 w2 s2 H1 IH1 H2 IH2 Hw1 Hw2 _|e s _ IH
    |a b s1 w1 w2 s2 _ _ _ _ _ _|e s _ _]; intros Hlt; [..|by apply IH; lia|lia|lia].
  - apply notop_plain, Forall_app. apply literal_plain in Hl as [_ Hp]. split.
    + eapply Forall_impl; [exact Hp|]. by intros c [].
    + eapply Forall_impl; [exact Hsf|]. intros c Hc. apply suffix_plain in Hc. by destruct Hc.
  - simpl. assert (Hs : scan 0 (w1 ++ s ++ w2) = Some 0) by (apply (padded_scan 0 e); by exists w1, s, w2).
    eapply notop_app; [by apply (scan_shift 1 0 _ 0)|by apply (notop_deep 124 0 _ 0)|done].
  - simpl. split; [done|]. apply spaces_plain in Hw. eapply notop_app; [by apply scan_plain|by apply notop_plain|]. apply IH. lia.
  - apply spaces_plain in Hw1, Hw2.
    eapply notop_app; [by eapply text_scan|apply IH1; lia|]. eapply notop_app; [by apply scan_plain|by apply notop_plain|].
    simpl. split; [done|]. split; [done|]. eapply notop_app; [by apply scan_plain|by apply notop_plain|apply IH2; lia].
Qed.

(** The parts of a disjunction are its operands. *)
Lemma text_split e s : text 0 e s → ∃ es ps e1 p,
  (∀ t, split_go 124 0 [] (s ++ t) = ps ++ split_go 124 0 p t) ∧
  Forall2 (padded 1) es ps ∧ (∃ w s', p = w ++ s' ∧ spaces w ∧ text 1 e1 s') ∧
  cvalue e = foldl (λ v e, Z.lor v (cvalue e)) 0 (es ++ [e1]) ∧ (fits e → Forall fits (es ++ [e1])) ∧
  (ps = [] → text 1 e s).
Proof.
  remember 0%nat as l eqn:El. induction 1 as [| | | | |a b s1 w1 w2 s2 H1 IH1 H2 _ Hw1 Hw2|e s Ht _]; try done.
  - destruct (IH1 eq_refl) as (es & ps & e1 & p & Hsp & Hps & (w & s' & -> & Hw & Hs') & Hv & Hf & _).
    exists (es ++ [e1]), (ps ++ [(w ++ s') ++ w1]), b, (w2 ++ s2). split_and!.
    + intros t. rewrite <-!app_assoc, Hsp. simpl. f_equal.
      rewrite (split_go_app 124 0 _ w1 _ 0) by (apply scan_plain || apply notop_plain; by apply spaces_plain).
      simpl. rewrite <-!app_assoc. f_equal. rewrite app_assoc.
      rewrite (split_go_app 124 0 [] (w2 ++ s2) _ 0); [done| |].
      * rewrite scan_app, scan_plain by by apply spaces_plain. simpl. by eapply text_scan.
      * eapply notop_app; [by apply scan_plain, spaces_plain|by apply notop_plain, spaces_plain|]. by eapply text_notop; [|done].
    + apply Forall2_app; [done|]. constructor; [|done]. exists w, s', w1. by rewrite <-app_assoc.
    + by exists w2, s2.
    + rewrite foldl_app. simpl. by rewrite Hv.
    + intros [_ [Fa Fb]]. apply Forall_app. auto.
    + by destruct ps.
  - exists [], [], e, s. split_and!; [|done|exists [], s; split_and!; [done|by constructor|done]|done|intros Hf; by apply Forall_singleton|done].
    intros t. rewrite (split_go_app 124 0 [] s t 0); [done|by eapply text_scan|by eapply text_notop; [|done]].
Qed.

(** ** Shifts *)
Lemma cut_none_app s t : cut_shl s = None → last s ≠ Some 60 → cut_shl (s ++ t) = '(l, r) ← cut_shl t; Some (s ++ l, r).
Proof.
  induction s as [|c s IH]; simpl; [by destruct (cut_shl t) as [[l r]|]|].
  intros Hc Hl. assert (Hc' : (c =? 60) && match s ++ t with d :: _ => d =? 60 | [] => false end = false ∧ cut_shl s = None).
  { destruct ((c =? 60) && match s with d :: _ => d =? 60 | [] => false end) eqn:E; [done|].
    destruct (cut_shl s) as [[]|]; [done|]. split; [|done]. destruct s; [|done]. simpl.
    destruct (Z.eqb_spec c 60) as [->|]; done. }
  destruct Hc' as [-> Hn]. rewrite IH; [by destruct (cut_shl t) as [[l r]|]|done|]. by destruct s.
Qed.

Lemma cut_plain s : Forall (λ c, c ≠ 60) s → cut_shl s = None ∧ last s ≠ Some 60.
Proof.
  intros Hs. split; [|intros Hl; by apply (last_Forall _ _ _ Hs Hl)].
  induction Hs as [|c s Hc _ IH]; simpl; [done|]. by rewrite (proj2 (Z.eqb_neq c 60)), IH.
Qed.
Lemma plain_not_lt s : Forall plain_char s → Forall (λ c, c ≠ 60) s.
Proof. intros Hs. eapply Forall_impl; [exact Hs|]. by intros c (_ & _ & ? & _). Qed.

(** In what may be an operand of a shift, [<<] only occurs in parentheses. *)
Lemma text_cut e s l r : text 2 e s → cut_shl s = Some (l, r) → balanced l = false.
Proof.
  intros Ht Hc. unfold balanced. rewrite balanced_scan. apply bool_decide_eq_false.
  assert (∃ k, scan 0 l = Some k ∧ 1 ≤ k) as (k & -> & Hk); [|intros [= ->]; lia].
  remember 2%nat as lv eqn:El. revert l r Hc.
  induction Ht as [v s sf Hl Hsf|e s w1 w2 Ht _ Hw1 Hw2|e s w _ IH Hw|a b s1 w1 w2 s2 _ _ _ _ _ _|e s _ _
    |a b s1 w1 w2 s2 _ _ _ _ _ _|e s _ _]; intros l r Hc; try done.
  - exfalso. assert (cut_shl (s ++ sf) = None) as Hn; [|congruence]. apply cut_plain, plain_not_lt, Forall_app.
    apply literal_plain in Hl as [_ Hp]. split.
    + eapply Forall_impl; [exact Hp|]. by intros c [].
    + eapply Forall_impl; [exact Hsf|]. intros c Hs'. apply suffix_plain in Hs'. by destruct Hs'.
  - apply cut_shl_app in Hc. destruct l as [|c l]; [done|]. injection Hc as <- Hc.
    assert (Hs : scan 0 (w1 ++ s ++ w2) = Some 0) by (apply (padded_scan 0 e); by exists w1, s, w2).
    destruct r as [|d r _] using rev_ind; [by apply (f_equal last) in Hc; rewrite !last_app in Hc|].
    change (60 :: 60 :: r ++ [d]) with ((60 :: 60 :: r) ++ [d]) in Hc. rewrite (app_assoc l) in Hc.
    apply app_inj_tail in Hc as [Hc _]. rewrite Hc, scan_app in Hs. destruct (scan 0 l) as [k|] eqn:E; [|done].
    exists (k + 1). simpl. pose proof (scan_nonneg 0 l k ltac:(lia) E).
    rewrite (scan_shift 1 0 l k ltac:(lia) E). split; [done|lia].
  - specialize (IH eq_refl). change (45 :: w ++ s) with ((45 :: w) ++ s) in Hc.
    assert (Hp : Forall (λ c, c ≠ 60) (45 :: w)) by (constructor; [done|by apply plain_not_lt, spaces_plain]).
    destruct (cut_plain _ Hp) as [Hn Hl]. rewrite cut_none_app in Hc by done.
    destruct (cut_shl s) as [[l' r']|]; [|done]. injection Hc as <- <-.
    destruct (IH _ _ eq_refl) as (k & Hk & ?). exists k. split; [|done]. simpl.
    rewrite scan_app, scan_plain by by apply spaces_plain. done.
Qed.

(** ** The value *)
Lemma eval_or_ok evl v es ps :
  Forall2 (λ e p, evl p = Some (Value (cvalue e) None)) es ps →
  eval_or evl v ps = Some (Value (foldl (λ v e, Z.lor v (cvalue e)) v es) None).
Proof. intros H. revert v. induction H as [|e p es ps Hp _ IH]; intros v; simpl; [done|]. by rewrite Hp, IH. Qed.

Lemma text_weaken l e s : text l e s → text 0 e s.
Proof. induction 1; eauto using text. Qed.

Lemma fits_int64 e : fits e → int64 (cvalue e).
Proof. by destruct e; intros []. Qed.

(** The literals, negations and shifts that are left when there is no
    disjunction and no parentheses around everything. *)
Definition eval_one (ev : bytes → option evaluated) (s : bytes) : option evaluated :=
  let rest :=
    match s with
    | c :: t => if c =? 45 then r ← ev t; Some (match r with Value v err => Value (i64 (- v)) err | Panics => Panics end)
                else Some (eval_literal s)
    | [] => Some (eval_literal s)
    end in
  match cut_shl s with
  | Some (l, r) =>
      if balanced l then
        lr ← ev l;
        match lr with
        | Value lv None => rr ← ev r; Some (match rr with Value rv err => shl lv rv err | Panics => Panics end)
        | Value _ err => Some (Value 0 err)
        | Panics => Some Panics
        end
      else rest
  | None => rest
  end.

Lemma eval_one_ok evl e s :
  (∀ e x, (length x < length s)%nat → padded 0 e x → fits e → evl x = Some (Value (cvalue e) None)) →
  text 1 e s → inner s = None → fits e → eval_one evl s = Some (Value (cvalue e) None).
Proof.
  intros IH Ht Hi Hf. unfold eval_one.
  inversion Ht as [| | |a b s1 w1 w2 s2 H1 H2 Hw1 Hw2 Hc|e' s' H2| |]; subst.
  - destruct (text_ends _ _ _ H1) as (_ & d & _ & Hd & _ & _ & H60).
    destruct (cut_plain w1 (plain_not_lt _ (spaces_plain _ Hw1))) as [Hn1 Hl1].
    rewrite (cut_none_app s1) by congruence. rewrite (cut_none_app w1) by done. cbn [cut_shl Z.eqb Pos.eqb andb].
    cbn [mbind option_bind]. rewrite app_nil_r.
    assert (Hp1 : padded 0 a (s1 ++ w1)) by (exists [], s1, w1; split_and!; [done|by constructor|done|by eapply text_weaken]).
    assert (Hp2 : padded 0 b (w2 ++ s2)).
    { exists w2, s2, []. rewrite app_nil_r. split_and!; [done|done|by constructor|by eapply text_weaken]. }
    destruct Hf as (Hv & Fa & Fb & Hr). unfold balanced. rewrite balanced_scan, (padded_scan _ _ _ Hp1), bool_decide_true by done.
    rewrite (IH a (s1 ++ w1)) by (done || (rewrite !length_app; simpl; rewrite ?length_app; lia)). cbn [mbind option_bind].
    change (drop 1 (60 :: w2 ++ s2)) with (w2 ++ s2). rewrite (IH b (w2 ++ s2)) by (done || (rewrite !length_app; simpl; rewrite ?length_app; lia)). cbn [mbind option_bind].
    unfold shl. rewrite (proj2 (Z.ltb_ge _ _)), (proj2 (Z.leb_gt _ _)) by lia.
    simpl in Hv. unfold int64 in Hv. by rewrite (wrapS_small 64) by lia.
  - assert (Hcut : match cut_shl s with Some (l, r) => balanced l = false | None => True end).
    { destruct (cut_shl s) as [[l r]|] eqn:E; [|done]. by eapply text_cut. }
    assert (Hrest : match s with
      | c :: t => if c =? 45 then r ← evl t; Some (match r with Value v err => Value (i64 (- v)) err | Panics => Panics end)
                  else Some (eval_literal s)
      | [] => Some (eval_literal s)
      end = Some (Value (cvalue e) None)).
    { inversion H2 as [v s' sf Hl Hsf|e' s' w1 w2 Ht' Hw1 Hw2|e' s' w Ht' Hw| | | |]; subst.
      - assert (Hne : s' ≠ []) by by apply literal_plain in Hl as [].
        assert (Hlit : eval_literal (s' ++ sf) = Value v None).
        { apply eval_literal_ok; [done|done|]. destruct Hf as [[_ ?] _]. done. }
        destruct s' as [|c s']; [done|]. simpl in *. apply literal_plain in Hl as [_ Hp].
        pose proof (Forall_inv Hp) as [(_ & _ & _ & _ & Hc) _]. by rewrite (proj2 (Z.eqb_neq c 45)), Hlit.
      - exfalso. assert (inner (40 :: (w1 ++ s' ++ w2) ++ [41]) = Some (w1 ++ s' ++ w2)) as Hs; [|congruence].
        apply inner_Some. split; [done|]. apply (padded_scan 0 e). by exists w1, s', w2.
      - cbn [Z.eqb Pos.eqb]. destruct Hf as [Hv Hf]. rewrite (IH e'); [|simpl; lia| |done].
        + simpl in *. unfold int64 in Hv. by rewrite (wrapS_small 64) by lia.
        + exists w, s', []. rewrite app_nil_r. split_and!; [done|done|by constructor|by eapply text_weaken]. }
    rewrite Hrest. destruct (cut_shl s) as [[l r]|]; [by rewrite Hcut|done].
Qed.

Lemma eval_exact fuel e x : (length x < fuel)%nat → padded 0 e x → fits e → eval fuel x = Some (Value (cvalue e) None).
Proof.
  revert e x. induction fuel as [|fuel IH]; intros e x Hlen Hx Hf; [lia|]. cbn [eval].
  pose proof (TrimSpace_length x). apply padded_trim in Hx.
  destruct (strip_text (length x) e (TrimSpace x)) as (s & Hst & Ht & Hi); [done|done|].
  destruct (strip_total (length x) (TrimSpace x)) as (s' & Hst' & Hls & _); [done|].
  assert (s' = s) as -> by congruence. rewrite Hst. cbn [mbind option_bind]. clear Hst Hst' Hx.
  destruct (text_split e s Ht) as (es & ps & e1 & p & Hsp & Hps & (w & s1 & -> & Hw & Hs1) & Hv & Hfs & Hone).
  specialize (Hsp []). rewrite app_nil_r in Hsp. unfold splitTop. rewrite Hsp. cbn [split_go].
  destruct ps as [|p ps].
  - cbn [app length Nat.ltb Nat.leb]. apply (eval_one_ok (eval fuel) e s); [|by apply Hone|done|done].
    intros e' x' Hx'. apply IH. lia.
  - rewrite (proj2 (Nat.ltb_lt _ _)) by (rewrite length_app; simpl; lia).
    assert (Hlong : (1 < length (split_go 124 0 [] s))%nat) by (rewrite Hsp, length_app; simpl; lia).
    pose proof (split_go_parts 124 0 [] s Hlong) as Hshort. rewrite Hsp in Hshort. cbn [split_go length] in Hshort.
    rewrite Hv. apply eval_or_ok. specialize (Hfs Hf).
    assert (Hpad : Forall2 (padded 1) (es ++ [e1]) ((p :: ps) ++ [w ++ s1])).
    { apply Forall2_app; [done|]. constructor; [|done]. exists w, s1, []. rewrite app_nil_r. split_and!; [done|done|by constructor|done]. }
    apply Forall2_same_length_lookup. split; [by eapply Forall2_length|]. intros i e' x' He' Hx'.
    apply IH.
    + pose proof (proj1 (Forall_lookup _ _) Hshort i x' Hx'). simpl in *. lia.
    + destruct (Forall2_lookup_lr _ _ _ _ _ _ Hpad He' Hx') as (v1 & y & v2 & -> & ? & ? & ?).
      exists v1, y, v2. split_and!; [done..|]. by eapply text_weaken.
    + by apply (proj1 (Forall_lookup _ _) Hfs i).
Qed.

(** ** More fuel changes nothing *)
Definition leq (e1 e2 : bytes → option evaluated) : Prop := ∀ s r, e1 s = Some r → e2 s = Some r.

Lemma eval_or_mono e1 e2 v ps r : leq e1 e2 → eval_or e1 v ps = Some r → eval_or e2 v ps = Some r.
Proof.
  intros Hle. revert v. induction ps as [|p ps IH]; intros v; simpl; [done|].
  destruct (e1 p) as [x|] eqn:E; [|done]. rewrite (Hle _ _ E). destruct x as [pv []|]; [done|apply IH|done].
Qed.

Lemma eval_one_mono e1 e2 s r : leq e1 e2 → eval_one e1 s = Some r → eval_one e2 s = Some r.
Proof.
  intros Hle. unfold eval_one.
  assert (Hrest : ∀ r, match s with
    | c :: t => if c =? 45 then r ← e1 t; Some (match r with Value v err => Value (i64 (- v)) err | Panics => Panics end)
                else Some (eval_literal s)
    | [] => Some (eval_literal s) end = Some r →
    match s with
    | c :: t => if c =? 45 then r ← e2 t; Some (match r with Value v err => Value (i64 (- v)) err | Panics => Panics end)
                else Some (eval_literal s)
    | [] => Some (eval_literal s) end = Some r).
  { intros r'. destruct s as [|c t]; [done|]. destruct (c =? 45); [|done].
    destruct (e1 t) as [x|] eqn:E; [|done]. by rewrite (Hle _ _ E). }
  destruct (cut_shl s) as [[l r']|]; [|apply Hrest]. destruct (balanced l); [|apply Hrest].
  destruct (e1 l) as [x|] eqn:E; [|done]. rewrite (Hle _ _ E). cbn [mbind option_bind].
  destruct x as [lv []|]; [done| |done]. destruct (e1 r') as [y|] eqn:E'; [|done]. by rewrite (Hle _ _ E').
Qed.

Lemma eval_mono n m s r : (n ≤ m)%nat → eval n s = Some r → eval m s = Some r.
Proof.
  revert m s r. induction n as [|n IH]; intros [|m] s r Hle; [done|done|lia|].
  assert (Hl : leq (eval n) (eval m)) by (intros x y; apply IH; lia).
  cbn [eval]. destruct (strip _ _) as [e|]; [|done]. cbn [mbind option_bind].
  destruct (1 <? _)%nat; [by apply eval_or_mono|]. by apply (eval_one_mono (eval n) (eval m)).
Qed.

(** * Properties *)


(** The text [ (1 << 4) | -010U]. *)
Definition demo_expr : cexpr := COr (CShl (CLit 1) (CLit 4)) (CNeg (CLit 8)).
Definition demo_text : bytes := bytes_of_string " (1 << 4) | -010U".

Lemma lit1 : literal 1 [49].
Proof. apply (lit_dec 49 []); [done|]. constructor; [|constructor]. split; [lia|]. by exists 1. Qed.
Lemma lit4 : literal 4 [52].
Proof. apply (lit_dec 52 []); [done|]. constructor; [|constructor]. split; [lia|]. by exists 4. Qed.
Lemma lit010 : literal 8 [48; 49; 48].
Proof.
  apply (lit_oct [49; 48]); [done|].
  constructor; [split; [lia|by exists 1]|constructor; [split; [lia|by exists 0]|constructor]].
Qed.
Lemma demo_padded : padded 0 demo_expr demo_text.
Proof.
  assert (Hsp : spaces [32]) by (constructor; [done|constructor]).
  exists [32], (([40] ++ ([49] ++ [32] ++ 60 :: 60 :: [32] ++ [52]) ++ [41]) ++ [32] ++ 124 :: [32] ++ 45 :: [48; 49; 48; 85]), [].
  split; [reflexivity|]. split; [exact Hsp|]. split; [constructor|].
  apply t_or; [|apply t_shift|exact Hsp|exact Hsp].
  - apply t_disj, t_shift. apply (t_paren _ ([49] ++ [32] ++ 60 :: 60 :: [32] ++ [52]) [] []); [|constructor..].
    apply t_disj. apply t_shl; [..|exact Hsp|exact Hsp|reflexivity].
    + apply (t_lit 1 [49] []); [apply lit1|constructor].
    + apply (t_lit 4 [52] []); [apply lit4|constructor].
  - apply (t_neg _ [48; 49; 48; 85] []); [|constructor]. apply (t_lit 8 [48; 49; 48] [85]); [apply lit010|].
    constructor; [done|constructor].
Qed.
Lemma demo_fits : fits demo_expr.
Proof. repeat split; vm_compute; first [reflexivity|discriminate]. Qed.


(** [eval] always ends: on any text whatever it answers once it may call
    itself as deep as the text is long, and the answer does not depend on how
    much deeper it may go. *)
Theorem eval_total (fuel : nat) (x : bytes) :
  (length x < fuel)%nat → is_Some (eval fuel x) ∧ eval fuel x = eval (S (length x)) x.
Proof.
  intros Hl. destruct (eval_fuel (S (length x)) x) as [r Hr]; [lia|].
  rewrite Hr, (eval_mono (S (length x)) fuel x r) by (done || lia). split; [by eexists|done].
Qed.

Lemma eval_total_witness : is_Some (eval 5 (bytes_of_string "((-")).
Proof. exact (proj1 (eval_total 5 (bytes_of_string "((-") ltac:(vm_compute; lia))). Defined.

(** A shift of a shift is not what it is in C: [a << b << c] is evaluated
    from the right, and with parentheses around the left shift it is refused. *)
Theorem eval_shift_shift :
  ev "1<<2<<3" = Some (Value 65536 None) ∧ cvalue (CShl (CShl (CLit 1) (CLit 2)) (CLit 3)) = 32 ∧
  ev "(1<<2)<<3" = Some (Value 0 (Some ErrSyntax)).
Proof. by vm_compute. Qed.

(** * [main]: from the preprocessor's output to the constants

    The groups of names are those of the source, given as an argument; [clang]'s
    output is text, [format.Source] and the file are not modelled. *)
(** The macro a line of the output is about and what it expands to, when it is
    a probe's line and the macro is defined. *)
Definition probe_line (line : bytes) : option (bytes * bytes) :=
  match line with
  | a :: b :: line =>
      if (a =? 64) && (b =? 64) then
        let '(name, expr) := cut_byte 32 line in
        let name := trim_right (Z.eqb 34) (trim_left (Z.eqb 34) name) in
        if decide (expr = name) then None else Some (name, expr)
      else None
  | _ => None
  end.

(** The map of values, the error the program ends with, or a panic. *)
Inductive gen_result := Values (m : gmap bytes Z) | CannotEvaluate (name expr : bytes) (e : num_err) | GenPanics.

Fixpoint read_values (lines : list bytes) (m : gmap bytes Z) : gen_result :=
  match lines with
  | [] => Values m
  | line :: lines =>
      match probe_line line with
      | None => read_values lines m
      | Some (name, expr) =>
          match eval (S (length expr)) expr with
          | Some (Value v None) => read_values lines (<[name := v]> m)
          | Some (Value _ (Some e)) => CannotEvaluate name expr e
          | Some Panics | None => GenPanics
          end
      end
  end.

(** The constants of a group, in its order, and the names that are missing. *)
Fixpoint group_consts (m : gmap bytes Z) (names : list bytes) : list (bytes * Z) * list bytes :=
  match names with
  | [] => ([], [])
  | n :: names =>
      let '(printed, missing) := group_consts m names in
      match m !! n with Some v => ((n, v) :: printed, missing) | None => (printed, n :: missing) end
  end.

Definition genabi (out : bytes) (groups : list (list bytes)) : gen_result * list (list (bytes * Z) * list bytes) :=
  match read_values (split_on 10 out) ∅ with
  | Values m => (Values m, group_consts m <$> groups)
  | r => (r, [])
  end.

(** The line that decides a macro's value: its last one. *)
Definition last_probe (name : bytes) (lines : list bytes) : option bytes :=
  snd <$> last (filter (λ p, p.1 = name) (omap probe_line lines)).

Lemma last_cons {A} (x : A) l : last (x :: l) = Some (default x (last l)).
Proof. revert x. induction l as [|y l IH]; intros x; [done|]. change (last (x :: y :: l)) with (last (y :: l)). by rewrite IH. Qed.

Lemma read_values_spec lines m0 m name : read_values lines m0 = Values m →
  match last_probe name lines with
  | Some expr => ∃ v, eval (S (length expr)) expr = Some (Value v None) ∧ m !! name = Some v
  | None => m !! name = m0 !! name
  end.
Proof.
  revert m0. induction lines as [|line lines IH]; intros m0; cbn [read_values]; [by intros [= ->]|].
  unfold last_probe in *. cbn [omap list_omap]. destruct (probe_line line) as [[n expr]|]; [|apply IH].
  destruct (eval _ expr) as [[v [e|]|]|] eqn:E; try done. intros Hr. specialize (IH _ Hr).
  rewrite filter_cons. case_decide as En; cbn [fst] in En.
  - subst n. rewrite last_cons. destruct (last _) as [[n' expr']|]; simpl in *; [done|].
    rewrite lookup_insert_eq in IH. by exists v.
  - destruct (last _) as [[n' expr']|]; simpl in *; [done|]. by rewrite lookup_insert_ne in IH.
Qed.

Lemma group_consts_spec m names :
  let '(printed, missing) := group_consts m names in
  (∀ n v, (n, v) ∈ printed ↔ n ∈ names ∧ m !! n = Some v) ∧ (∀ n, n ∈ missing ↔ n ∈ names ∧ m !! n = None).
Proof.
  induction names as [|n names IH]; cbn [group_consts].
  { split; intros; rewrite !elem_of_nil; naive_solver. }
  destruct (group_consts m names) as [printed missing]. destruct IH as [IH1 IH2].
  destruct (m !! n) as [v|] eqn:E; split; intros; rewrite ?elem_of_cons, ?IH1, ?IH2; naive_solver.
Qed.

(** The constants file agrees with the headers: when [genabi] gets through the
    preprocessor's output, a name of a group is printed with the value [eval]
    gives to what the last line about it says, and is reported as missing
    exactly when no line gives it an expansion. *)
Theorem genabi_exact (out : bytes) (groups : list (list bytes)) (m : gmap bytes Z) res :
  genabi out groups = (Values m, res) →
  length res = length groups ∧
  ∀ i names printed missing name, groups !! i = Some names → res !! i = Some (printed, missing) → name ∈ names →
    match last_probe name (split_on 10 out) with
    | Some expr => ∃ v, eval (S (length expr)) expr = Some (Value v None) ∧
        (∀ v', (name, v') ∈ printed ↔ v' = v) ∧ name ∉ missing
    | None => name ∈ missing ∧ ∀ v, (name, v) ∉ printed
    end.
Proof.
  unfold genabi. destruct (read_values _ _) as [m'| |] eqn:E; try done. intros [= -> <-].
  split; [by rewrite length_fmap|]. intros i names printed missing name Hi Hr Hn.
  rewrite list_lookup_fmap, Hi in Hr. injection Hr as Hg. pose proof (group_consts_spec m names) as Hs.
  rewrite Hg in Hs. destruct Hs as [Hp Hm]. pose proof (read_values_spec _ _ _ name E) as Hv.
  destruct (last_probe _ _) as [expr|].
  - destruct Hv as (v & He & Hv). exists v. split; [done|]. split.
    + intros v'. rewrite Hp, Hv. naive_solver.
    + rewrite Hm, Hv. naive_solver.
  - rewrite lookup_empty in Hv. split; [by apply Hm|]. intros v. rewrite Hp, Hv. naive_solver.
Qed.

Definition demo_out : bytes :=
  bytes_of_string "typedef int x;" ++ [10] ++ bytes_of_string "@@" ++ [34] ++ bytes_of_string "O_CREAT" ++ [34] ++
  bytes_of_string " (1 << 12)" ++ [10] ++ bytes_of_string "@@" ++ [34] ++ bytes_of_string "NSIG" ++ [34] ++ bytes_of_string " NSIG" ++ [10].

Lemma genabi_exact_witness :
  genabi demo_out [[bytes_of_string "NSIG"; bytes_of_string "O_CREAT"]] =
    (Values {[bytes_of_string "O_CREAT" := 4096]}, [([(bytes_of_string "O_CREAT", 4096)], [bytes_of_string "NSIG"])]) ∧
  bytes_of_string "NSIG" ∈ [bytes_of_string "NSIG"].
Proof.
  assert (genabi demo_out [[bytes_of_string "NSIG"; bytes_of_string "O_CREAT"]] =
    (Values {[bytes_of_string "O_CREAT" := 4096]}, [([(bytes_of_string "O_CREAT", 4096)], [bytes_of_string "NSIG"])])) as E
    by (vm_compute; reflexivity).
  split; [exact E|]. destruct (genabi_exact _ _ _ _ E) as [_ H].
  exact (proj1 (H 0%nat _ _ _ (bytes_of_string "NSIG") eq_refl eq_refl ltac:(left))).
Defined.
