(* ===== verification/Localize.v ===== *)
(** The command [wasmlocalize] ([src/wasm/cmd/wasmlocalize/main.go]): the file
    of names to keep, and what is written for an object. *)
From S2P Require Import Prelude Bytes Text WasmObj ObjLaws.

(** * The file of names *)
(** The name a line lists; [Some None] is the panic of [Fields(line)[0]]. *)
Definition keep_line (line : bytes) : option (option bytes) :=
  let line := TrimSpace line in
  match line with
  | [] => None
  | c :: _ => if c =? 35 then None else Some (head (Fields line))
  end.

Fixpoint read_keep (lines : list bytes) (keep : gset bytes) : option (gset bytes) :=
  match lines with
  | [] => Some keep
  | line :: lines =>
      match keep_line line with
      | None => read_keep lines keep
      | Some None => None
      | Some (Some name) => read_keep lines ({[name]} ∪ keep)
      end
  end.

(** [main]: [keepFile] is the contents of the file when there is one; the answer
    is the file written for the object [data]. *)
Definition wasmlocalize (keepFile : option bytes) (data spare : bytes) : res bytes :=
  match (match keepFile with None => Some ∅ | Some file => read_keep (scan_lines file) ∅ end) with
  | None => Crash
  | Some keep => localize (λ s, bool_decide (bytes_of_string s ∈ keep)) data spare
  end.

(** * What a line lists *)
Definition word (n : bytes) : Prop := n ≠ [] ∧ Forall (λ c, is_space c = false) n.

(** [line] is blank space, [n], and perhaps more after a space. *)
Definition lists (line n : bytes) : Prop :=
  word n ∧ head n ≠ Some 35 ∧ ∃ w rest, line = w ++ n ++ rest ∧ Forall (λ c, is_space c = true) w ∧
    (rest = [] ∨ ∃ c t, rest = c :: t ∧ is_space c = true).

Lemma trim_left_spec f s : ∃ w, s = w ++ trim_left f s ∧ Forall (λ c, f c = true) w ∧
  (∀ c, head (trim_left f s) = Some c → f c = false).
Proof.
  induction s as [|c s (w & Hs & Hw & Hh)]; simpl; [by exists []|]. destruct (f c) eqn:E.
  - exists (c :: w). simpl. split_and!; [congruence|by constructor|done].
  - exists []. split_and!; [done|done|]. by intros d [= <-].
Qed.

Lemma trim_right_spec f s : ∃ w, s = trim_right f s ++ w ∧ Forall (λ c, f c = true) w ∧
  (∀ c, last (trim_right f s) = Some c → f c = false).
Proof.
  destruct (trim_left_spec f (reverse s)) as (w & Hs & Hw & Hh). exists (reverse w). unfold trim_right. split_and!.
  - by rewrite <-reverse_app, <-Hs, reverse_involutive.
  - by apply Forall_reverse.
  - intros c. rewrite last_reverse. apply Hh.
Qed.

(** The first field, after the space in front of it. *)
Fixpoint first_word (s : bytes) : bytes :=
  match s with c :: s => if is_space c then [] else c :: first_word s | [] => [] end.

Lemma fields_head cur s : cur ≠ [] → head (fields_go cur s) = Some (cur ++ first_word s).
Proof.
  revert cur. induction s as [|c s IH]; intros cur Hc; simpl.
  - by rewrite decide_False, app_nil_r.
  - destruct (is_space c); [by rewrite decide_False, app_nil_r|]. rewrite IH by by destruct cur. by rewrite <-app_assoc.
Qed.

Lemma first_word_app n rest : Forall (λ c, is_space c = false) n →
  (rest = [] ∨ ∃ c t, rest = c :: t ∧ is_space c = true) → first_word (n ++ rest) = n.
Proof.
  intros Hn Hr. induction Hn as [|c n Hc _ IH]; simpl; [|by rewrite Hc, IH].
  destruct Hr as [->|(c & t & -> & Hc)]; [done|]. simpl. by rewrite Hc.
Qed.

Lemma first_word_spec s : ∃ rest, s = first_word s ++ rest ∧ Forall (λ c, is_space c = false) (first_word s) ∧
  (rest = [] ∨ ∃ c t, rest = c :: t ∧ is_space c = true).
Proof.
  induction s as [|c s (rest & Hs & Hf & Hr)]; simpl; [exists []; by split_and!; [..|left]|].
  destruct (is_space c) eqn:E; simpl.
  - exists (c :: s). split_and!; [done|done|]. right. by exists c, s.
  - exists rest. split_and!; [congruence|by constructor|done].
Qed.

Lemma first_word_spaces s w : Forall (λ c, is_space c = true) w → first_word (s ++ w) = first_word s.
Proof.
  intros Hw. induction s as [|c s IH]; simpl; [|by destruct (is_space c); rewrite ?IH].
  destruct Hw as [|c w Hc _]; [done|]. simpl. by rewrite Hc.
Qed.

Lemma keep_line_trimmed line : keep_line line =
  match trim_left is_space line with
  | [] => None
  | c :: t => if c =? 35 then None else Some (Some (first_word (c :: t)))
  end.
Proof.
  unfold keep_line, TrimSpace. destruct (trim_left_spec is_space line) as (w & _ & _ & Hh).
  destruct (trim_left is_space line) as [|c s] eqn:E; [done|]. specialize (Hh c eq_refl).
  destruct (trim_right_spec is_space (c :: s)) as (w' & Hs & Hw' & _).
  destruct (trim_right is_space (c :: s)) as [|d t].
  - simpl in Hs. subst w'. apply Forall_inv in Hw'. congruence.
  - injection Hs as <- Hs. destruct (c =? 35); [done|]. unfold Fields. cbn [fields_go].
    rewrite Hh. rewrite fields_head by done. cbn [app first_word]. rewrite Hh, Hs, first_word_spaces by done. done.
Qed.

Lemma keep_line_lists line : (∃ n, keep_line line = Some (Some n)) ∨ keep_line line = None.
Proof. rewrite keep_line_trimmed. destruct (trim_left _ _) as [|c t]; [by right|]. destruct (c =? 35); [by right|left; by eexists]. Qed.

Lemma keep_line_iff line n : keep_line line = Some (Some n) ↔ lists line n.
Proof.
  rewrite keep_line_trimmed. split.
  - destruct (trim_left_spec is_space line) as (w & Hl & Hw & Hh).
    destruct (trim_left is_space line) as [|c t] eqn:E; [done|]. specialize (Hh c eq_refl).
    destruct (Z.eqb_spec c 35) as [|Hc]; [done|]. intros [= <-].
    destruct (first_word_spec (c :: t)) as (rest & Hs & Hf & Hr). cbn [first_word] in *. rewrite Hh in *.
    split_and!; [by split|simpl; congruence|]. exists w, rest. split_and!; [congruence|done..].
  - intros ((Hne & Hn) & Hh & w & rest & -> & Hw & Hr). destruct n as [|c n]; [done|].
    pose proof (Forall_inv Hn) as Hc. rewrite trim_left_app; [|done|by intros d [= <-]].
    cbn [app]. cbv iota beta. destruct (Z.eqb_spec c 35) as [->|_]; [done|].
    do 2 f_equal. exact (first_word_app (c :: n) rest Hn Hr).
Qed.

Lemma read_keep_spec lines keep0 : ∃ keep, read_keep lines keep0 = Some keep ∧
  ∀ n, n ∈ keep ↔ n ∈ keep0 ∨ ∃ line, line ∈ lines ∧ lists line n.
Proof.
  revert keep0. induction lines as [|line lines IH]; intros keep0; cbn [read_keep].
  { exists keep0. split; [done|]. intros n. split; [by left|]. by intros [?|(l & ?%elem_of_nil & _)]. }
  destruct (keep_line_lists line) as [[n Hn]|Hn]; rewrite Hn.
  - destruct (IH ({[n]} ∪ keep0)) as (keep & -> & Hk). exists keep. split; [done|]. intros n'. rewrite Hk, elem_of_union, elem_of_singleton.
    apply keep_line_iff in Hn. split.
    + intros [[->|?]|(l & Hl & Hln)]; [right; by exists line; split; [left|]|by left|right; by exists l; split; [right|]].
    + intros [?|(l & [->|Hl]%elem_of_cons & Hln)]; [by left; right| |right; by exists l].
      left. left. apply keep_line_iff in Hn, Hln. congruence.
  - destruct (IH keep0) as (keep & -> & Hk). exists keep. split; [done|]. intros n'. rewrite Hk. split.
    + intros [?|(l & Hl & Hln)]; [by left|right; by exists l; split; [right|]].
    + intros [?|(l & [->|Hl]%elem_of_cons & Hln)]; [by left| |right; by exists l].
      apply keep_line_iff in Hln. congruence.
Qed.

(** Lines that fit are all read. *)
Lemma scan_short pieces : Forall (λ l, zlen l < MaxScanTokenSize) pieces →
  ∀ l, l ∈ pieces → l ≠ [] → l ∈ scan_pieces pieces.
Proof.
  induction 1 as [|p pieces Hp _ IH]; intros l; [by intros ?%elem_of_nil|]. intros [->|Hl]%elem_of_cons Hne.
  - assert (scan_pieces (p :: pieces) = p :: scan_pieces pieces) as ->; [|left].
    destruct p as [|c p]; [done|]. cbn [scan_pieces]. destruct (Z.leb_spec MaxScanTokenSize (zlen (c :: p))); [lia|done].
  - destruct p as [|c p].
    + destruct pieces as [|q pieces]; [by apply elem_of_nil in Hl|]. cbn [scan_pieces].
      change (MaxScanTokenSize <=? zlen []) with false. right. by apply IH.
    + cbn [scan_pieces]. destruct (Z.leb_spec MaxScanTokenSize (zlen (c :: p))); [lia|]. right. by apply IH.
Qed.

(** * Properties *)

(** The command, whatever its file of names holds, never panics on an object it
    can read: it writes the file of the same object in which exactly the
    defined, named, global functions and data are local that no line the
    scanner reads lists; and the scanner reads every line when none has 64 KiB. *)
Theorem wasmlocalize_exact (keepFile : option bytes) (o : object) (spare : bytes) (syms : list Symbol) :
  object_ok o → zlen (enc_object o) + zlen spare < 2 ^ 63 → Symbols (enc_object o) spare = Done syms →
  ∃ keep, wasmlocalize keepFile (enc_object o) spare = Done (enc_object (loc_object keep o)) ∧
    (∀ s, keep s = true ↔ ∃ file line, keepFile = Some file ∧ line ∈ scan_lines file ∧ lists line (bytes_of_string s)) ∧
    ∀ file s line, keepFile = Some file → Forall (λ l, zlen l < MaxScanTokenSize) (split_on 10 file) →
      line ∈ split_on 10 file → lists line (bytes_of_string s) → keep s = true.
Proof.
  intros Ho Hl Hs. unfold wasmlocalize.
  assert (∃ ks : gset bytes, match keepFile with None => Some ∅ | Some file => read_keep (scan_lines file) ∅ end = Some ks ∧
    ∀ n, n ∈ ks ↔ ∃ file line, keepFile = Some file ∧ line ∈ scan_lines file ∧ lists line n) as (ks & -> & Hk).
  { destruct keepFile as [file|]; [|exists ∅; split; [done|]; intros n; split; [by intros ?%elem_of_empty|by intros (? & ? & ? & _)]].
    destruct (read_keep_spec (scan_lines file) ∅) as (ks & Hks & Hk). exists ks. split; [done|]. intros n. rewrite Hk. split.
    - intros [?%elem_of_empty|(line & ? & ?)]; [done|]. by exists file, line.
    - intros (? & line & [= <-] & ? & ?). right. by exists line. }
  exists (λ s, bool_decide (bytes_of_string s ∈ ks)). split.
  { by apply (localize_enc _ o spare spare syms). }
  split; [intros s; by rewrite bool_decide_eq_true|]. intros file s line Hf Hshort Hin Hls.
  rewrite bool_decide_eq_true, Hk. exists file, line. split_and!; [done| |done]. apply scan_short; [done..|].
  intros ->. destruct Hls as ((Hne & _) & _ & w & rest & Heq & _). symmetry in Heq.
  apply app_nil in Heq as [_ Heq]. apply app_nil in Heq as [Heq _]. done.
Qed.

(** A line of 64 KiB ends the reading of the file without an error, and the names
    after it are made local. *)
Lemma long_line_ends_list n s : MaxScanTokenSize ≤ zlen n → ¬ (10 ∈ n) → scan_lines (n ++ 10 :: s) = [].
Proof.
  intros Hn H10. unfold scan_lines. assert (split_on 10 (n ++ 10 :: s) = n :: split_on 10 s) as ->.
  { clear Hn. induction n as [|c n IH]; [done|]. cbn [app split_on].
    destruct (Z.eqb_spec c 10) as [->|_]; [by destruct H10; left|]. rewrite IH; [done|]. intros ?. apply H10. by right. }
  destruct n as [|c n]; [vm_compute in Hn; done|]. cbn [scan_pieces]. by rewrite (proj2 (Z.leb_le _ _) Hn).
Qed.

Example wasmlocalize_demo :
  wasmlocalize (Some (bytes_of_string "# kept" ++ [10] ++ bytes_of_string "  pqsignal  (a function)" ++ [10])) (enc_object demo_object) [] =
    Done (enc_object (loc_object keep_signal demo_object)).
Proof. by vm_compute. Qed.
