(* ===== verification/MkTar.v ===== *)
(** From a directory tree to an archive and back: [mktar]
    ([src/wasm/cmd/mktar/main.go]), and what [AddTar] makes of its output.

    A tree is what [filepath.WalkDir] finds; the archive writer of
    [archive/tar] is modelled by what it is documented to refuse: a file that
    is longer or shorter than its header says. *)
From S2P Require Import Prelude Paths MemFS Clone Tar.
From Stdlib Require Import Ascii.

(** * Names *)
Definition rel (l : list string) : string := join_slash l.

Section names.
Context (l : list string) (Hl : Forall normal l) (Hne : l ≠ []).

Lemma rel_IsAbs : IsAbs (rel l) = false.
Proof. apply IsAbs_join. intros p Hp. rewrite Forall_forall in Hl. destruct (Hl p Hp) as (? & _ & _ & ?). done. Qed.

Lemma rel_split : split_slash (rel l) = l.
Proof. apply split_join; [done|]. eapply Forall_impl; [exact Hl|]. by intros p (_ & _ & _ & ?). Qed.

Lemma rel_nonempty : rel l ≠ "".
Proof. by apply join_normal_nonempty. Qed.

Lemma rel_clean_parts : clean_parts (rel l) = l.
Proof. unfold clean_parts. rewrite rel_IsAbs, rel_split. by rewrite clean_go_normals. Qed.

Lemma rel_Clean : Clean (rel l) = rel l.
Proof.
  pose proof (split_Clean (rel l)) as Hs. rewrite rel_IsAbs, rel_clean_parts in Hs.
  rewrite <-(join_split (Clean (rel l))), Hs. by destruct l.
Qed.

Lemma rel_slash_Clean : Clean (rel l +:+ "/") = rel l.
Proof.
  pose proof (split_Clean (rel l +:+ "/")) as Hs.
  assert (Ha : IsAbs (rel l +:+ "/") = false) by (rewrite IsAbs_app by apply rel_nonempty; apply rel_IsAbs).
  assert (Hc : clean_parts (rel l +:+ "/") = l).
  { unfold clean_parts. rewrite Ha. change "/" with (String slash ""). rewrite split_app_slash, rel_split.
    cbn [split_slash]. rewrite <-(app_nil_l (l ++ [""])).
    assert (∀ out, clean_go false (l ++ [""]) out = rev out ++ l) as ->; [|done].
    clear Hs Ha Hne. induction l as [|p l' IH]; intros out; simpl; [by rewrite app_nil_r|].
    apply Forall_cons in Hl as [(H1 & H2 & H3 & _) Hl']. rewrite decide_False by (by intros []).
    rewrite decide_False by done. rewrite IH by done. simpl. by rewrite <-app_assoc. }
  rewrite Ha, Hc in Hs. rewrite <-(join_split (Clean _)), Hs. by destruct l.
Qed.

Lemma rel_TrimSlash : TrimSlash (rel l) = rel l.
Proof.
  destruct (TrimSlash_spec (rel l)) as [E|E]; [done|]. exfalso.
  rewrite <-rel_Clean in E at 1. pose proof (Clean_trailing _ _ E) as Hr. rewrite rel_Clean in Hr.
  pose proof rel_IsAbs as Ha. by rewrite Hr in Ha.
Qed.

Lemma rel_TrimPrefix s : TrimPrefix (rel l +:+ s) "./" = rel l +:+ s.
Proof.
  assert (∀ c d r, rel l +:+ s = String c (String d r) → c = "."%char → d = slash → False) as Hno.
  { destruct l as [|p l']; [done|]. pose proof (Forall_inv Hl) as (H1 & H2 & _ & H4).
    assert (∃ t, rel (p :: l') +:+ s = p +:+ t) as [t ->].
    { unfold rel. destruct l' as [|q l']; [by exists s|]. rewrite join_cons by done. rewrite <-append_assoc. by eexists. }
    destruct p as [|c1 [|c2 p]]; [done| |]; intros c d r.
    - intros [= -> _] -> _. done.
    - intros [= -> -> _] -> ->. simpl in H4. naive_solver. }
  unfold TrimPrefix. destruct (strip_prefix "./" (rel l +:+ s)) as [r|] eqn:E; [|done].
  apply strip_prefix_Some in E. exfalso. exact (Hno _ _ r E eq_refl eq_refl).
Qed.

Lemma member_name_dir tf m t : member_name (mkHeader (rel l +:+ "/") tf m t) = rel l.
Proof. unfold member_name. cbn [h_Name]. by rewrite rel_TrimPrefix, rel_slash_Clean, rel_TrimSlash. Qed.
Lemma member_name_reg tf m t : member_name (mkHeader (rel l) tf m t) = rel l.
Proof.
  unfold member_name. cbn [h_Name]. pose proof (rel_TrimPrefix "") as Ht. rewrite append_nil_r in Ht.
  by rewrite Ht, rel_Clean, rel_TrimSlash.
Qed.
Lemma rel_not_dot : rel l ≠ ".".
Proof.
  intros E. pose proof rel_split as Hs. rewrite E in Hs. change (split_slash ".") with ["."] in Hs. subst l.
  by destruct (Forall_inv Hl) as (_ & ? & _).
Qed.
End names.

Lemma path_Dir_rel l b : Forall normal (l ++ [b]) → path_Dir (rel (l ++ [b])) = if decide (l = []) then "." else rel l.
Proof.
  intros Hl. unfold path_Dir. rewrite rel_split by (done || by destruct l). rewrite rev_app_distr. cbn [rev app].
  destruct (rev l) as [|x r] eqn:E; [apply (f_equal (@rev string)) in E; rewrite rev_involutive in E; by subst|].
  assert (l ≠ []) as Hne by by intros ->. rewrite decide_False by done. rewrite <-E, rev_involutive.
  apply rel_slash_Clean; [by apply Forall_app in Hl as []|done].
Qed.

Lemma rel_inj l l' : Forall normal l → Forall normal l' → l ≠ [] → l' ≠ [] → rel l = rel l' → l = l'.
Proof. intros ???? E. rewrite <-(rel_split l), <-(rel_split l'); [by rewrite E|done..]. Qed.

(** * Paths through a tree *)
Fixpoint reach (f : FS) (c : nat) (l : list string) : option nat :=
  match l with [] => Some c | b :: l => entry f c b ≫= λ c, reach f c l end.
#[local] Abbreviation at_path f l := (reach f (fs_root f) l).

Lemma reach_snoc f c l b : reach f c (l ++ [b]) = reach f c l ≫= λ d, entry f d b.
Proof.
  revert c. induction l as [|a l IH]; intros c; simpl; [by destruct (entry f c b)|].
  destruct (entry f c a); simpl; [apply IH|done].
Qed.

Lemma entry_dir f d b p : fs_ok f → entry f d b = Some p →
  ∃ n, fs_heap f !! d = Some n ∧ isDir n = true ∧ n_entries n !! b = Some p.
Proof.
  intros [Hwf _]. unfold entry. intros (n & Hn & Hb)%bind_Some. exists n. split; [done|]. split; [|done].
  destruct (isDir n) eqn:E; [done|]. rewrite (wf_file f Hwf d n Hn E) in Hb. by rewrite lookup_empty in Hb.
Qed.

Lemma reach_walk f c l p : fs_ok f → Forall normal l → reach f c l = Some p → walk f (Some c) l = Ok (Some p).
Proof.
  intros Hok Hl. revert c. induction Hl as [|b l Hb Hl IH]; intros c; simpl reach; [by intros [= <-]|].
  intros (d & He & Hd)%bind_Some. destruct (entry_dir f c b d Hok He) as (n & Hn & Hdir & Hnb).
  rewrite walk_normal, Hn, Hdir, Hnb by done. by apply IH.
Qed.

(** A filesystem that has exactly the paths [V], of the kinds it says (true for
    a directory), and the root. *)
Record tree_state (f : FS) (V : list (list string * bool)) : Prop := {
  ts_ok : fs_ok f;
  ts_strict : strict f;
  ts_only l p : at_path f l = Some p → l = [] ∨ ∃ k, (l, k) ∈ V;
  ts_dirs l : l = [] ∨ (l, true) ∈ V → ∃ p n, at_path f l = Some p ∧ fs_heap f !! p = Some n ∧ isDir n = true;
}.

(** The parent of a new name. *)
Lemma resolve_parent_rel f l b d n :
  fs_ok f → Forall normal (l ++ [b]) → at_path f l = Some d → fs_heap f !! d = Some n → isDir n = true →
  resolve_parent f (fs_root f) (rel (l ++ [b])) = Ok (d, b).
Proof.
  intros Hok Hl Hd Hn Hdir. assert (l ++ [b] ≠ []) as Hne by by destruct l.
  unfold resolve_parent. rewrite rel_IsAbs, rel_split, rev_app_distr by done. cbn [rev app].
  apply Forall_app in Hl as [Hl (H1 & H2 & H3 & _)%Forall_inv].
  rewrite drop_empty_cons, decide_False by naive_solver. rewrite rev_involutive.
  rewrite (reach_walk _ _ _ _ Hok Hl Hd). cbn [rbind]. unfold walk_end. by rewrite Hn, Hdir.
Qed.

(** What a new node makes of the paths. *)
Definition grown (f f' : FS) (dir : nat) (base : string) (new : nat) : Prop :=
  fs_root f' = fs_root f ∧
  ∀ d b, entry f' d b = if decide (d = dir ∧ b = base) then Some new
                        else if decide (d = new) then None else entry f d b.

Lemma grown_paths f f' dir base l p :
  dir ≠ fs_next f → grown f f' dir base (fs_next f) → at_path f' l = Some p →
  at_path f l = Some p ∨ ∃ l', l = l' ++ [base] ∧ at_path f l' = Some dir ∧ p = fs_next f.
Proof.
  intros Hnew [Hroot He]. rewrite Hroot. revert p. induction l as [|b l IH] using rev_ind; intros p; [by left|].
  rewrite !reach_snoc. intros (d & Hd & Hb)%bind_Some. rewrite He in Hb. case_decide as Hcase.
  - destruct Hcase as [-> ->]. injection Hb as <-. right. exists l. split_and!; [done| |done].
    destruct (IH _ Hd) as [|(_ & _ & _ & ?)]; done.
  - case_decide; [done|]. left. destruct (IH _ Hd) as [->|(_ & _ & _ & ?)]; done.
Qed.

Lemma frame_reach x f f' c l p : frame x f f' → reach f c l = Some p → reach f' c l = Some p.
Proof.
  intros Hf. revert c. induction l as [|b l IH]; intros c; simpl; [done|].
  intros (d & Hd & Hr)%bind_Some. rewrite (fr_entry _ _ _ Hf _ _ _ Hd). by apply IH.
Qed.

(** In a strict tree a path is determined by its node. *)
Lemma reach_unique f l1 l2 p :
  fs_ok f → strict f → at_path f l1 = Some p → at_path f l2 = Some p → l1 = l2.
Proof.
  intros [Hwf Hsl] Hs. assert (Hroot : ∀ d b, entry f d b = Some (fs_root f) → False).
  { intros d b He. destruct (entry_dir f d b _ (conj Hwf Hsl) He) as (n & Hn & _ & Hb).
    destruct (wf_root f Hwf) as (rn & Hrn & Hrd & _). by destruct (wf_up f Hwf d n b _ rn Hn Hb Hrn Hrd). }
  revert l2 p. induction l1 as [|b1 l1 IH] using rev_ind; intros l2 p H1 H2.
  - injection H1 as <-. destruct l2 as [|b2 l2 _] using rev_ind; [done|]. exfalso.
    rewrite reach_snoc in H2. apply bind_Some in H2 as (d & _ & He). by eapply Hroot.
  - rewrite reach_snoc in H1. apply bind_Some in H1 as (d1 & Hd1 & He1).
    destruct l2 as [|b2 l2 _] using rev_ind; [injection H2 as <-; exfalso; by eapply Hroot|].
    rewrite reach_snoc in H2. apply bind_Some in H2 as (d2 & Hd2 & He2).
    destruct (Hs _ _ _ _ _ He1 He2) as [-> ->]. f_equal. by apply (IH l2 d2).
Qed.

(** A step that adds one name keeps the state. *)
Lemma grow_state x f f' V l b d k :
  tree_state f V → fs_ok f' → strict f' → frame x f f' →
  at_path f l = Some d → d ≠ fs_next f → grown f f' d b (fs_next f) →
  (k = true → ∃ n, fs_heap f' !! fs_next f = Some n ∧ isDir n = true) →
  tree_state f' ((l ++ [b], k) :: V).
Proof.
  intros [Hok Hs Ho Hd] Hok' Hs' Hfr Hl Hnew Hg Hk. split; [done|done|..].
  - intros l' p Hp. destruct (grown_paths _ _ _ _ _ _ Hnew Hg Hp) as [Hp'|(l0 & -> & Hl0 & _)].
    + destruct (Ho _ _ Hp') as [|[k' Hin]]; [by left|right]. exists k'. by right.
    + right. exists k. rewrite (reach_unique _ _ _ _ Hok Hs Hl0 Hl). by left.
  - intros l' Hin.
    assert (l' = [] ∨ (l', true) ∈ V → ∃ p n, at_path f' l' = Some p ∧ fs_heap f' !! p = Some n ∧ isDir n = true) as Hold.
    { intros Hin'. destruct (Hd _ Hin') as (p & n & Hp & Hn & Hdir).
      destruct (fr_node _ _ _ Hfr _ _ Hn) as (n' & Hn' & Hd' & _). exists p, n'.
      rewrite (fr_root _ _ _ Hfr), Hd'. split_and!; [by eapply frame_reach|done..]. }
    destruct Hin as [Hin|Hin]; [by apply Hold; left|].
    apply elem_of_cons in Hin as [Heq|Hin]; [|by apply Hold; right]. injection Heq as -> Hkt.
    destruct (Hk (eq_sym Hkt)) as (n & Hn & Hdir). exists (fs_next f), n. split_and!; [|done..].
    rewrite reach_snoc, (fr_root _ _ _ Hfr), (frame_reach _ _ _ _ _ _ Hfr Hl). simpl.
    destruct Hg as [_ He]. by rewrite He, decide_True.
Qed.

(** ** Making directories *)
Lemma new_set_grown f nn dir base dn :
  n_entries nn = ∅ → fs_heap f !! dir = Some dn → dir ≠ fs_next f →
  grown f (set_entry dir base (fs_next f) (fs_new_node nn f).2) dir base (fs_next f).
Proof. intros. split; [done|]. intros. by eapply new_entry. Qed.

Lemma grown_update f f' d b p q g :
  (∀ n, n_entries (g n) = n_entries n) → grown f f' d b p → grown f (fs_update q g f') d b p.
Proof. intros Hg [Hr He]. split; [done|]. intros. by rewrite entry_update_same. Qed.

Lemma state_dir f V l : tree_state f V → l = [] ∨ (l, true) ∈ V →
  ∃ d n, at_path f l = Some d ∧ fs_heap f !! d = Some n ∧ isDir n = true ∧ d ≠ fs_next f.
Proof.
  intros Ht Hl. destruct (ts_dirs _ _ Ht l Hl) as (d & n & Hd & Hn & Hdir). exists d, n. split_and!; [done..|].
  intros ->. by rewrite (wf_fresh _ (proj1 (ts_ok _ _ Ht))) in Hn.
Qed.

Lemma MkdirAt_exists f V l b perm now :
  tree_state f V → Forall normal (l ++ [b]) → l = [] ∨ (l, true) ∈ V → (l ++ [b], true) ∈ V →
  MkdirAt (tar_root f) (rel (l ++ [b])) perm now f = (Err F_EEXIST, f).
Proof.
  intros Ht Hn Hl Hlb. destruct (state_dir _ _ _ Ht Hl) as (d & n & Hd & Hdn & Hdir & _).
  destruct (ts_dirs _ _ Ht _ (or_intror Hlb)) as (p & _ & Hp & _). rewrite reach_snoc, Hd in Hp. simpl in Hp.
  unfold MkdirAt, at_parent. change (f_node (tar_root f)) with (fs_root f).
  rewrite (resolve_parent_rel f l b d n (ts_ok _ _ Ht) Hn Hd Hdn Hdir), Hdn.
  unfold entry in Hp. rewrite Hdn in Hp. simpl in Hp. by rewrite Hp.
Qed.

Lemma MkdirAt_new f V l b perm now :
  tree_state f V → Forall normal (l ++ [b]) → l = [] ∨ (l, true) ∈ V → (∀ k, (l ++ [b], k) ∉ V) →
  ∃ f', MkdirAt (tar_root f) (rel (l ++ [b])) perm now f = (Ok tt, f') ∧ tree_state f' ((l ++ [b], true) :: V).
Proof.
  intros Ht Hn Hl Hlb. destruct (state_dir _ _ _ Ht Hl) as (d & n & Hd & Hdn & Hdir & Hnew).
  pose proof (ts_ok _ _ Ht) as Hok.
  assert (entry f d b = None) as Hno.
  { destruct (entry f d b) as [p|] eqn:E; [|done]. exfalso.
    destruct (ts_only _ _ Ht (l ++ [b]) p) as [|[k Hk]]; [by rewrite reach_snoc, Hd|by destruct l|by apply (Hlb k)]. }
  pose proof (MkdirAt_frame (rel (l ++ [b])) perm now f Hok) as [Hfr Hst].
  pose proof (fs_step_ok 0 _ _ Hok (st_mkdir 0 (tar_root f) (rel (l ++ [b])) perm now f)) as Hok1.
  revert Hfr Hst Hok1. unfold MkdirAt, at_parent. change (f_node (tar_root f)) with (fs_root f).
  rewrite (resolve_parent_rel f l b d n Hok Hn Hd Hdn Hdir), Hdn.
  assert (n_entries n !! b = None) as -> by (unfold entry in Hno; by rewrite Hdn in Hno).
  unfold newDir. cbn [fs_new_node fst snd]. cbv zeta. set (nn := Node _ _ _ _ _). set (g := λ n, n <| n_mode := _ |>).
  assert (fs_update (fs_next f) g (f <| fs_heap ::= <[fs_next f := nn]> |> <| fs_next ::= S |>) =
    (fs_new_node (g nn) f).2) as ->.
  { unfold fs_update, fs_new_node. simpl. f_equal. by rewrite alter_insert_eq. }
  intros Hfr Hst Hok1. eexists. split; [done|].
  eapply grow_state; [done|done|by apply Hst, (ts_strict _ _ Ht)|exact Hfr|done|done|..].
  - apply grown_update; [done|]. by apply (new_set_grown f (g nn) d b n).
  - intros _. unfold touch, set_entry. rewrite lookup_update, decide_False by done.
    rewrite lookup_update, decide_False by done. simpl. rewrite lookup_insert_eq. eexists. split; [done|].
    unfold isDir. simpl. by rewrite dir_mode.
Qed.

Lemma join_slash_snoc l b : l ≠ [] → join_slash (l ++ [b]) = join_slash l +:+ String slash b.
Proof.
  induction l as [|x l IH]; intros Hne; [done|]. destruct l as [|y l]; [done|].
  change ((x :: y :: l) ++ [b]) with (x :: ((y :: l) ++ [b])).
  rewrite join_cons by (by destruct l). rewrite (join_cons x (y :: l)) by done. rewrite IH by done.
  rewrite <-append_assoc. done.
Qed.

Lemma Join_rel l b : Forall normal (l ++ [b]) → Join [rel l; b] = rel (l ++ [b]).
Proof.
  intros Hn. pose proof Hn as [Hl (Hb & _)%Forall_inv]%Forall_app. unfold Join. destruct (decide (l = [])) as [->|Hne].
  - cbn [filter list_filter]. rewrite decide_False by naive_solver. rewrite decide_True by done.
    apply (rel_Clean [b]); [by apply Forall_app in Hn as []|done].
  - pose proof (rel_nonempty l Hl Hne). cbn [filter list_filter]. rewrite !decide_True by done.
    change (join_slash [rel l; b]) with (rel l +:+ String slash b). unfold rel at 1. rewrite <-join_slash_snoc by done.
    apply rel_Clean; [done|by destruct l].
Qed.

Lemma mkdirs_skip f V l0 b l perm now :
  tree_state f V → Forall normal (l0 ++ [b]) → l0 = [] ∨ (l0, true) ∈ V → (l0 ++ [b], true) ∈ V →
  mkdirs (b :: l) (rel l0) perm now f = mkdirs l (rel (l0 ++ [b])) perm now f.
Proof.
  intros Ht Hn Hl0 Hb. cbn [mkdirs]. cbv zeta. rewrite (Join_rel l0 b Hn).
  by rewrite (MkdirAt_exists f V l0 b) by done.
Qed.

(** The directories above a path are there. *)
Definition above (V : list (list string * bool)) (l : list string) : Prop :=
  ∀ l1 l2, l = l1 ++ l2 → l1 ≠ [] → (l1, true) ∈ V.

Lemma mkdirs_existing f V l0 l perm now :
  tree_state f V → Forall normal (l0 ++ l) → above V (l0 ++ l) → mkdirs l (rel l0) perm now f = (Ok tt, f).
Proof.
  intros Ht. revert l0. induction l as [|b l IH]; intros l0 Hn Ha; [done|].
  change (b :: l) with ([b] ++ l) in Hn, Ha. rewrite app_assoc in Hn, Ha. pose proof Hn as [Hn' _]%Forall_app.
  rewrite (mkdirs_skip f V l0 b l); [by apply IH|done|done| |by apply (Ha _ l); [|by destruct l0]].
  destruct l0; [by left|right]. by apply (Ha _ ([b] ++ l)); [rewrite <-app_assoc|].
Qed.

Lemma mkdirs_new f V l0 l b perm now :
  tree_state f V → Forall normal (l0 ++ l ++ [b]) → above V (l0 ++ l) → (∀ k, (l0 ++ l ++ [b], k) ∉ V) →
  ∃ f', mkdirs (l ++ [b]) (rel l0) perm now f = (Ok tt, f') ∧ tree_state f' ((l0 ++ l ++ [b], true) :: V).
Proof.
  intros Ht. revert l0. induction l as [|a l IH]; intros l0 Hn Ha Hnew.
  - cbn [app mkdirs]. cbv zeta. simpl in Hn. rewrite (Join_rel l0 b Hn).
    rewrite app_nil_r in Ha. destruct (MkdirAt_new f V l0 b perm now) as (f' & -> & Ht'); [done|done| |done|by exists f'].
    destruct l0; [by left|right]. by apply (Ha _ []); [rewrite app_nil_r|].
  - change ((a :: l) ++ [b]) with ([a] ++ (l ++ [b])) in *. change (a :: l) with ([a] ++ l) in Ha.
    rewrite !app_assoc in Ha. rewrite app_assoc in Hn. rewrite (app_assoc l0). pose proof Hn as [Hn' _]%Forall_app.
    cbn [app]. rewrite (mkdirs_skip f V l0 a); [|done|done| |by apply (Ha _ l); [|by destruct l0]].
    + destruct (IH (l0 ++ [a])) as (f' & Hf' & Ht'); [done|done| |by exists f'].
      intros k. rewrite <-(app_assoc l0). apply Hnew.
    + destruct l0; [by left|right]. by apply (Ha _ ([a] ++ l)); [rewrite <-app_assoc|].
Qed.

Lemma mkdirAll_new f V l b perm now :
  tree_state f V → Forall normal (l ++ [b]) → above V l → (∀ k, (l ++ [b], k) ∉ V) →
  ∃ f', mkdirAll (rel (l ++ [b])) perm now f = (Ok tt, f') ∧ tree_state f' ((l ++ [b], true) :: V).
Proof.
  intros. unfold mkdirAll. rewrite rel_split by (done || by destruct l). by apply (mkdirs_new f V []).
Qed.
Lemma mkdirAll_existing f V l perm now :
  tree_state f V → Forall normal l → l ≠ [] → above V l → mkdirAll (rel l) perm now f = (Ok tt, f).
Proof. intros. unfold mkdirAll. rewrite rel_split by done. by apply (mkdirs_existing f V []). Qed.

(** ** Making files *)
Lemma copy_ok maxAlloc fl reads now f l :
  file_at f (f_node fl) l → writable fl = true → has (f_flag fl) fs_O_APPEND = false → f_offset fl = zlen l →
  2 * (zlen l + zlen (concat reads)) ≤ maxAlloc → maxAlloc < 2 ^ 63 →
  ∃ f', copy_reads maxAlloc fl reads true now f = (TOk, f').
Proof.
  revert fl f l. induction reads as [|b reads IH]; intros fl f l Hat Hw Ha Ho Hlen Hmax; [by eexists|].
  cbn [copy_reads concat] in *. rewrite zlen_app in Hlen.
  pose proof (zlen_nonneg (concat reads)). pose proof (zlen_nonneg b). pose proof (zlen_nonneg l).
  destruct (Z.eqb_spec (zlen b) 0) as [Hb|Hb]; [apply (IH fl f l); try done; lia|].
  unfold Write, node_of. pose proof Hat as (nd & Hnd & _). rewrite Hnd, Ha.
  destruct (WriteAt maxAlloc fl b (f_offset fl) now f) as [r f1] eqn:E.
  assert (0 ≤ f_offset fl ∧ f_offset fl + zlen b < 2 ^ 63) as [Hlo Hhi] by (rewrite Ho; lia).
  destruct (WriteAt_spec _ _ _ _ _ _ _ _ _ Hat Hw Hlo Hhi E) as [(_ & _ & Hbig)|[-> Hat1]]; [rewrite Ho in Hbig; lia|].
  rewrite Ho, pwrite_end in Hat1. rewrite Z.eqb_refl.
  apply (IH (fl <| f_offset ::= λ o, i64 (o + zlen b) |>) f1 (l ++ b)); try done.
  - simpl. rewrite Ho, zlen_app. apply wrapS_small; lia.
  - rewrite zlen_app. lia.
Qed.

Lemma WriteAt_grown maxAlloc fl b off now f f0 d base p :
  grown f0 f d base p → grown f0 (WriteAt maxAlloc fl b off now f).2 d base p.
Proof.
  intros Hg. unfold WriteAt. destruct (node_of f fl) as [nd| |]; [|done..].
  repeat (case_match; [done|]). repeat (case_match; simpl; try done); by apply grown_update.
Qed.

Lemma copy_grown maxAlloc fl reads ok now f f0 d base p :
  grown f0 f d base p → grown f0 (copy_reads maxAlloc fl reads ok now f).2 d base p.
Proof.
  revert fl f. induction reads as [|b reads IH]; intros fl f Hg; [done|]. cbn [copy_reads].
  destruct (zlen b =? 0); [by apply IH|]. unfold Write. destruct (node_of f fl) as [nd| |]; [|done..].
  cbv zeta. set (fl' := if has _ _ then _ else _).
  pose proof (WriteAt_grown maxAlloc fl' b (f_offset fl') now f _ _ _ _ Hg) as Hg'.
  destruct (WriteAt _ _ _ _ _ _) as [[n|e|] f1]; cbn [fst snd] in *; [|done..].
  destruct (n =? zlen b); [by apply IH|done].
Qed.

Lemma OpenAt_new f V l b perm now :
  tree_state f V → Forall normal (l ++ [b]) → l = [] ∨ (l, true) ∈ V → (∀ k, (l ++ [b], k) ∉ V) →
  ∃ fl f' d, OpenAt (tar_root f) (rel (l ++ [b])) create_flags perm now f = (Ok fl, f') ∧
    at_path f l = Some d ∧ d ≠ fs_next f ∧ grown f f' d b (fs_next f).
Proof.
  intros Ht Hn Hl Hlb. destruct (state_dir _ _ _ Ht Hl) as (d & n & Hd & Hdn & Hdir & Hnew).
  assert (entry f d b = None) as Hno.
  { destruct (entry f d b) as [p|] eqn:E; [|done]. exfalso.
    destruct (ts_only _ _ Ht (l ++ [b]) p) as [|[k Hk]]; [by rewrite reach_snoc, Hd|by destruct l|by apply (Hlb k)]. }
  unfold OpenAt, open_node. change (has create_flags fs_O_CREAT) with true. cbv iota.
  change (f_node (tar_root f)) with (fs_root f).
  rewrite (resolve_parent_rel f l b d n (ts_ok _ _ Ht) Hn Hd Hdn Hdir), Hdn. cbn [mbind option_bind].
  assert (n_entries n !! b = None) as -> by (unfold entry in Hno; by rewrite Hdn in Hno).
  cbn [fs_new_node fst snd]. cbv zeta. set (nn := Node _ _ _ _ _).
  assert (isDir nn = false) as Hnd by (unfold isDir; simpl; by rewrite file_mode).
  change (f <| fs_heap ::= <[fs_next f := nn]> |> <| fs_next ::= S |>) with (fs_new_node nn f).2.
  change (fs_update d (λ d : node, d <| n_entries ::= <[b := fs_next f]> |>) (fs_new_node nn f).2)
    with (set_entry d b (fs_next f) (fs_new_node nn f).2).
  pose proof (new_set_grown f nn d b n eq_refl Hdn Hnew) as Hg.
  assert (fs_heap (set_entry d b (fs_next f) (fs_new_node nn f).2) !! fs_next f = Some nn) as Hnn.
  { unfold set_entry. rewrite lookup_update, decide_False by done. apply lookup_insert_eq. }
  set (f1 := set_entry _ _ _ _) in *. unfold touch at 1. rewrite lookup_update, decide_False, Hnn by done.
  rewrite Hnd. change (has create_flags fs_O_TRUNC) with true.
  change (writable (mkFile (f_fs (tar_root f)) (fs_next f) (Base (rel (l ++ [b]))) create_flags 0 0)) with true.
  cbn [andb]. cbv iota. do 3 eexists. do 3 (split; [done|]). apply grown_update; [done|]. by apply grown_update.
Qed.

Lemma rel_not_skipped l h : Forall normal l → l ≠ [] → member_name h = rel l → skipped h = false.
Proof.
  intros Hn Hne Hm. apply bool_decide_eq_false. rewrite Hm.
  intros [E|E]; [by apply (rel_not_dot l)|by apply (rel_nonempty l)].
Qed.

Section members.
Context (maxAlloc now : Z) (f : FS) (V : list (list string * bool)) (l : list string) (b : string) (m : member).
Context (Ht : tree_state f V) (Hn : Forall normal (l ++ [b])) (Ha : above V l) (Hnew : ∀ k, (l ++ [b], k) ∉ V).

Lemma parent_there : l = [] ∨ (l, true) ∈ V.
Proof. destruct (decide (l = [])) as [|Hne]; [by left|right]. apply (Ha l []); [by rewrite app_nil_r|done]. Qed.

Lemma add_dir_new : h_Name (m_header m) = rel (l ++ [b]) +:+ "/" → h_Typeflag (m_header m) = TypeDir →
  ∃ f', add_member maxAlloc m now f = (TOk, f') ∧ tree_state f' ((l ++ [b], true) :: V).
Proof.
  intros Hname Htf. assert (member_name (m_header m) = rel (l ++ [b])) as Hmn.
  { destruct (m_header m) as [nm tf mo ti]. simpl in Hname. subst nm. apply member_name_dir; [done|by destruct l]. }
  unfold add_member. cbv zeta.
  rewrite (rel_not_skipped (l ++ [b])), Htf by (done || by destruct l). rewrite Z.eqb_refl, Hmn.
  destruct (mkdirAll_new f V l b (u32 (h_Mode (m_header m))) now Ht Hn Ha Hnew) as (f' & -> & Ht').
  by exists f'.
Qed.

Lemma add_reg_new : h_Name (m_header m) = rel (l ++ [b]) → h_Typeflag (m_header m) = TypeReg →
  m_read_ok m = true → 2 * zlen (concat (m_reads m)) ≤ maxAlloc → maxAlloc < 2 ^ 63 →
  ∃ f', add_member maxAlloc m now f = (TOk, f') ∧ tree_state f' ((l ++ [b], false) :: V).
Proof.
  intros Hname Htf Hok Hlen Hmax. assert (l ++ [b] ≠ []) as Hne by by destruct l.
  assert (member_name (m_header m) = rel (l ++ [b])) as Hmn.
  { destruct (m_header m) as [nm tf mo ti]. simpl in Hname. subst nm. by apply member_name_reg. }
  assert (add_member maxAlloc m now f = add_regular maxAlloc m now f) as Heq.
  { unfold add_member. cbv zeta. rewrite (rel_not_skipped (l ++ [b])), Htf by done.
    change (TypeReg =? TypeDir) with false. rewrite Z.eqb_refl. cbv iota. rewrite Hmn, path_Dir_rel by done.
    destruct (decide (l = [])) as [->|Hl]; [by rewrite decide_True|].
    pose proof Hn as [Hn' _]%Forall_app. rewrite decide_False by by apply rel_not_dot.
    by rewrite (mkdirAll_existing f V l). }
  destruct (OpenAt_new f V l b (u32 (h_Mode (m_header m))) now Ht Hn parent_there Hnew) as (fl & f1 & d & Ho & Hd & Hdn & Hg).
  destruct (create_frame _ _ _ _ _ _ (ts_ok _ _ Ht) Ho) as (_ & _ & _ & _ & Hat & Hw & Hap & Hoff & Hfr & Hst).
  pose proof (zlen_nonneg (concat (m_reads m))).
  destruct (copy_ok maxAlloc fl (m_reads m) now f1 [] Hat Hw Hap Hoff) as [f2 Hc]; [zlia|done|].
  destruct (copy_spec maxAlloc fl (m_reads m) true now f1 [] f2 Hat Hw Hap Hoff) as (_ & Hfr2 & Hst2); [zlia|done|].
  pose proof (copy_grown maxAlloc fl (m_reads m) true now f1 _ _ _ _ Hg) as Hg2.
  pose proof (add_member_steps maxAlloc m now f) as Hsteps.
  revert Hsteps. rewrite Heq. unfold add_regular. cbv zeta. rewrite Hmn, Ho, Hok, Hc in *. cbn [snd] in *. intros Hsteps.
  eexists. split; [done|].
  apply (grow_state (Some (f_node fl)) f _ V l b d); try done.
  - by eapply fs_ok_steps; [apply (ts_ok _ _ Ht)|].
  - apply strict_update; [done|]. by apply Hst2, Hst, (ts_strict _ _ Ht).
  - eapply frame_trans; [exact Hfr|]. eapply frame_trans; [exact Hfr2|]. by apply update_frame; [|left].
  - by apply grown_update.
Qed.
End members.

(** * [mktar]

    What [filepath.WalkDir] finds at a path: a directory with the entries
    [os.ReadDir] gives, in its order, or [None] when reading it fails; a regular
    file with the size its [Info] says and what opening and reading it give; a
    thing of another kind; a thing whose [Info] fails. *)
#[warnings="-register-all"]
Inductive tree :=
| TDir (mode : Z) (kids : option (list (string * tree)))
| TReg (mode size : Z) (content : option (bytes * bool))
| TOther
| TGone.

(** What the callback is called with; [EFail] is a call with an error. *)
Inductive event := EDir (mode : Z) | EReg (mode size : Z) (content : option (bytes * bool)) | EOther | EGone | EFail.

Fixpoint WalkDir (l : list string) (t : tree) : list (list string * event) :=
  match t with
  | TDir mode None => [(l, EDir mode); (l, EFail)]
  | TDir mode (Some kids) => (l, EDir mode) :: flat_map (λ nt, WalkDir (l ++ [nt.1]) nt.2) kids
  | TReg mode size content => [(l, EReg mode size content)]
  | TOther => [(l, EOther)]
  | TGone => [(l, EGone)]
  end.

(** The archive writer: the members finished, and the one that is being
    written with the size of its header. *)
Inductive mk_err := MK_walk | MK_info | MK_header | MK_missed | MK_too_long | MK_open | MK_read.
Record tarWriter := mkTW { w_done : list (Header * bytes); w_cur : option (Header * Z * bytes) }.

Definition w_Flush (tw : tarWriter) : mk_err + tarWriter :=
  match w_cur tw with
  | None => inr tw
  | Some (h, size, b) => if zlen b <? size then inl MK_missed else inr (mkTW (w_done tw ++ [(h, b)]) None)
  end.

(** A name with a zero byte has no encoding. *)
Fixpoint encodable (name : string) : bool :=
  match name with EmptyString => true | String c name => negb (Ascii.eqb c "000"%char) && encodable name end.

Definition w_WriteHeader (h : Header) (size : Z) (tw : tarWriter) : mk_err + tarWriter :=
  match w_Flush tw with
  | inl e => inl e
  | inr tw => if encodable (h_Name h) then inr (mkTW (w_done tw) (Some (h, size, []))) else inl MK_header
  end.

Definition w_Write (b : bytes) (tw : tarWriter) : mk_err + tarWriter :=
  match w_cur tw with
  | None => inl MK_too_long
  | Some (h, size, b0) =>
      if zlen b0 + zlen b <=? size then inr (mkTW (w_done tw) (Some (h, size, b0 ++ b))) else inl MK_too_long
  end.

Definition w_Close (tw : tarWriter) : mk_err + tarWriter := w_Flush tw.

(** The callback of [main]; the root's own turn is skipped. *)
Definition visit (l : list string) (e : event) (tw : tarWriter) : mk_err + tarWriter :=
  match e with
  | EFail => inl MK_walk
  | _ =>
      if decide (l = []) then inr tw
      else
        match e with
        | EGone => inl MK_info
        | EOther => inr tw
        | EDir mode => w_WriteHeader (mkHeader (rel l +:+ "/") TypeDir (Z.land mode 511) 0) 0 tw
        | EReg mode size content =>
            match w_WriteHeader (mkHeader (rel l) TypeReg (Z.land mode 511) 0) size tw with
            | inl e => inl e
            | inr tw =>
                match content with
                | None => inl MK_open
                | Some (b, ok) =>
                    match w_Write b tw with
                    | inl e => inl e
                    | inr tw => if (ok : bool) then inr tw else inl MK_read
                    end
                end
            end
        | EFail => inl MK_walk
        end
  end.

Fixpoint visit_all (es : list (list string * event)) (tw : tarWriter) : mk_err + tarWriter :=
  match es with
  | [] => inr tw
  | (l, e) :: es => match visit l e tw with inl e => inl e | inr tw => visit_all es tw end
  end.

(** The members of the archive, or the error that [main] ends with. *)
Definition mktar (t : tree) : mk_err + list (Header * bytes) :=
  match visit_all (WalkDir [] t) (mkTW [] None) with
  | inl e => inl e
  | inr tw => match w_Close tw with inl e => inl e | inr tw => inr (w_done tw) end
  end.

(** ** The archive of a tree *)
Fixpoint tree_at (t : tree) (l : list string) : option tree :=
  match l with
  | [] => Some t
  | n :: l =>
      match t with
      | TDir _ (Some kids) => match find (λ nt, bool_decide (nt.1 = n)) kids with
                              | Some nt => tree_at nt.2 l | None => None end
      | _ => None
      end
  end.

(** The files and directories below a path: whether a directory, the mode and
    the contents. *)
Record item := mkItem { it_path : list string; it_dir : bool; it_mode : Z; it_bytes : bytes }.

Fixpoint items (l : list string) (t : tree) : list item :=
  match t with
  | TDir mode kids => mkItem l true mode [] :: match kids with
      | Some kids => flat_map (λ nt, items (l ++ [nt.1]) nt.2) kids | None => [] end
  | TReg mode _ (Some (b, _)) => [mkItem l false mode b]
  | _ => []
  end.

Definition item_member (i : item) : Header * bytes :=
  (mkHeader (if it_dir i then rel (it_path i) +:+ "/" else rel (it_path i)) (if it_dir i then TypeDir else TypeReg)
     (Z.land (it_mode i) 511) 0, it_bytes i).

Definition members_of (t : tree) : list (Header * bytes) := map item_member (tl (items [] t)).

(** A tree that can be archived: every directory and file can be read to its
    end, and no file changed its size on the way. *)
Definition archivable (n : string) (t : tree) : bool :=
  match t with TOther => true | _ => encodable n end.

Fixpoint readable (t : tree) : bool :=
  match t with
  | TDir _ (Some kids) => forallb (λ nt, archivable nt.1 nt.2 && readable nt.2) kids
  | TReg _ size (Some (b, ok)) => ok && (zlen b =? size)
  | TOther => true
  | _ => false
  end.

Section tree_ind.
Context (P : tree → Prop) (Hun : ∀ m, P (TDir m None)) (Hdir : ∀ m kids, Forall (λ nt, P nt.2) kids → P (TDir m (Some kids)))
  (Hreg : ∀ m s c, P (TReg m s c)) (Hother : P TOther) (Hgone : P TGone).
Fixpoint tree_rect' (t : tree) : P t :=
  match t with
  | TDir m None => Hun m
  | TDir m (Some kids) => Hdir m kids
      ((fix go (kids : list (string * tree)) : Forall (λ nt, P nt.2) kids :=
          match kids with
          | [] => Forall_nil_2 _
          | nt :: kids => Forall_cons_2 _ _ _ (tree_rect' nt.2) (go kids)
          end) kids)
  | TReg m s c => Hreg m s c
  | TOther => Hother
  | TGone => Hgone
  end.
End tree_ind.

(** ** What the callback makes of a sequence of events *)
Definition ev_good (le : list string * event) : Prop :=
  match le.2 with
  | EFail => False
  | _ =>
      le.1 = [] ∨
      match le.2 with
      | EReg _ size (Some (b, ok)) => ok = true ∧ zlen b = size ∧ encodable (rel le.1) = true
      | EDir _ => encodable (rel le.1) = true
      | EOther => True
      | _ => False
      end
  end.

Definition ev_members (le : list string * event) : list (Header * bytes) :=
  if decide (le.1 = []) then []
  else match le.2 with
       | EDir mode => [item_member (mkItem le.1 true mode [])]
       | EReg mode _ (Some (b, _)) => [item_member (mkItem le.1 false mode b)]
       | _ => []
       end.

Lemma encodable_app s1 s2 : encodable (s1 +:+ s2) = encodable s1 && encodable s2.
Proof. induction s1 as [|c s1 IH]; [done|]. simpl. by rewrite IH, andb_assoc. Qed.

Lemma encodable_rel l n : encodable (rel (l ++ [n])) = encodable (rel l) && encodable n.
Proof.
  destruct (decide (l = [])) as [->|Hl]; [done|]. unfold rel. rewrite join_slash_snoc, encodable_app by done. done.
Qed.

(** A member of which nothing is missing. *)
Definition filled (cur : option (Header * Z * bytes)) : Prop :=
  match cur with Some (_, size, b) => zlen b = size | None => True end.
Definition fits (cur : option (Header * Z * bytes)) : Prop :=
  match cur with Some (_, size, b) => zlen b ≤ size | None => True end.
Definition cur_members (cur : option (Header * Z * bytes)) : list (Header * bytes) :=
  match cur with Some (h, _, b) => [(h, b)] | None => [] end.

Lemma w_Flush_spec d cur : fits cur →
  match w_Flush (mkTW d cur) with
  | inl _ => ¬ filled cur
  | inr tw => filled cur ∧ tw = mkTW (d ++ cur_members cur) None
  end.
Proof.
  unfold w_Flush. destruct cur as [[[h size] b]|]; simpl; [|by rewrite app_nil_r].
  destruct (Z.ltb_spec (zlen b) size); intros; [lia|]. split; [lia|done].
Qed.

Lemma w_WriteHeader_spec h size d cur : fits cur →
  match w_WriteHeader h size (mkTW d cur) with
  | inl _ => ¬ (filled cur ∧ encodable (h_Name h) = true)
  | inr tw => filled cur ∧ encodable (h_Name h) = true ∧ tw = mkTW (d ++ cur_members cur) (Some (h, size, []))
  end.
Proof.
  intros Hf. pose proof (w_Flush_spec d cur Hf) as Hfl. unfold w_WriteHeader.
  destruct (w_Flush _) as [e|tw]; [naive_solver|]. destruct Hfl as [Hfi ->].
  destruct (encodable (h_Name h)) eqn:E; [by split_and!|]. by intros [_ ?].
Qed.

Lemma visit_spec l e d cur : fits cur →
  match visit l e (mkTW d cur) with
  | inl _ => ¬ (filled cur ∧ ev_good (l, e))
  | inr tw => fits (w_cur tw) ∧ (filled (w_cur tw) ↔ filled cur ∧ ev_good (l, e)) ∧
      (filled (w_cur tw) → w_done tw ++ cur_members (w_cur tw) = d ++ cur_members cur ++ ev_members (l, e))
  end.
Proof.
  intros Hf. unfold visit, ev_good, ev_members. cbn [fst snd].
  destruct (decide (l = [])) as [->|Hl].
  { destruct e; cbn [w_cur w_done]; [split_and!; [done|naive_solver|by rewrite app_nil_r]..|naive_solver]. }
  destruct e as [mode|mode size content| | |]; cbn [w_cur w_done].
  - pose proof (w_WriteHeader_spec (mkHeader (rel l +:+ "/") TypeDir (Z.land mode 511) 0) 0 d cur Hf) as Hw.
    simpl h_Name in Hw. rewrite encodable_app, andb_true_r in Hw.
    destruct (w_WriteHeader _ _ _) as [er|tw]; [naive_solver|]. destruct Hw as (Hc & He & ->). simpl.
    split_and!; [done|naive_solver|by rewrite <-app_assoc].
  - pose proof (w_WriteHeader_spec (mkHeader (rel l) TypeReg (Z.land mode 511) 0) size d cur Hf) as Hw.
    simpl h_Name in Hw. destruct (w_WriteHeader _ _ _) as [er|tw].
    { intros [Hc [?|Hg]]; [done|]. destruct content as [[b ok]|]; [|done]. naive_solver. }
    destruct Hw as (Hc & He & ->). destruct content as [[b ok]|]; [|naive_solver]. unfold w_Write. cbn [w_cur w_done].
    change (zlen [] + zlen b) with (0 + zlen b). destruct (Z.leb_spec (0 + zlen b) size) as [Hle|Hgt].
    + destruct ok; [|naive_solver]. simpl. split_and!; [lia|naive_solver|by rewrite <-app_assoc].
    + intros [_ [?|(_ & ? & _)]]; [done|lia].
  - split_and!; [done|naive_solver|by rewrite app_nil_r].
  - naive_solver.
  - naive_solver.
Qed.

Definition run (es : list (list string * event)) (tw : tarWriter) : mk_err + list (Header * bytes) :=
  match visit_all es tw with
  | inl e => inl e
  | inr tw => match w_Close tw with inl e => inl e | inr tw => inr (w_done tw) end
  end.

Lemma run_spec es d cur out : fits cur →
  run es (mkTW d cur) = inr out ↔
  filled cur ∧ Forall ev_good es ∧ out = d ++ cur_members cur ++ flat_map ev_members es.
Proof.
  revert d cur. induction es as [|[l e] es IH]; intros d cur Hf; unfold run; cbn [visit_all flat_map].
  - pose proof (w_Flush_spec d cur Hf) as Hw. unfold w_Close. destruct (w_Flush _) as [er|tw].
    + split; [done|naive_solver].
    + destruct Hw as [Hc ->]. simpl. rewrite app_nil_r. split; [intros [= <-]; by split_and!|]. by intros (_ & _ & ->).
  - pose proof (visit_spec l e d cur Hf) as Hv. destruct (visit l e _) as [er|[d' cur']].
    + split; [done|]. intros (Hc & Hg & _). apply Forall_cons in Hg as [Hg _]. by destruct Hv.
    + cbn [w_cur w_done] in Hv. destruct Hv as (Hf' & Hiff & Hout). fold (run es (mkTW d' cur')).
      rewrite IH, Forall_cons, Hiff by done. split.
      * intros ([Hc Hg] & Hgs & ->). split_and!; [done..|]. rewrite !app_assoc, Hout by naive_solver. by rewrite <-!app_assoc.
      * intros (Hc & [Hg Hgs] & ->). split_and!; [done..|]. rewrite !app_assoc, Hout by naive_solver. by rewrite <-!app_assoc.
Qed.

(** ** Trees *)
Lemma ev_named l n e : ev_good (l ++ [n], e) → e ≠ EOther → encodable (rel (l ++ [n])) = true.
Proof.
  unfold ev_good. cbn [fst snd]. intros Hg Ho. assert (l ++ [n] ≠ []) by by destruct l.
  destruct e as [|? ? [[]|]| | |]; naive_solver.
Qed.

Lemma WalkDir_good l n t :
  encodable (rel l) = true → Forall ev_good (WalkDir (l ++ [n]) t) ↔ archivable n t && readable t = true.
Proof.
  revert l n. induction t as [m|m kids IH|m s c| |] using tree_rect'; intros l n He; cbn [WalkDir readable archivable];
    (assert (l ++ [n] ≠ []) as Hl by by destruct l); pose proof (encodable_rel l n) as Hn; rewrite He in Hn; simpl in Hn.
  - rewrite !Forall_cons. unfold ev_good. simpl. rewrite andb_false_r. naive_solver.
  - rewrite Forall_cons, andb_true_iff, <-Hn. destruct (encodable (rel (l ++ [n]))) eqn:En.
    + transitivity (Forall ev_good (flat_map (λ nt, WalkDir ((l ++ [n]) ++ [nt.1]) nt.2) kids)).
      { split; [by intros [_ H]|]. intros H. split; [by right|done]. }
      transitivity (forallb (λ nt, archivable nt.1 nt.2 && readable nt.2) kids = true); [|by split; [split|intros [_ ?]]].
      induction IH as [|[n' t] kids Ht _ IHk]; simpl in *; [by split|].
      rewrite Forall_app, IHk, andb_true_iff, (Ht (l ++ [n]) n') by done. done.
    + split; [intros [Hg _]|naive_solver]. by apply ev_named in Hg; [rewrite En in Hg|].
  - rewrite Forall_singleton. unfold ev_good. cbn [fst snd]. rewrite Hn. destruct c as [[b ok]|]; [|rewrite andb_false_r; naive_solver].
    rewrite !andb_true_iff, Z.eqb_eq. naive_solver.
  - rewrite Forall_singleton. unfold ev_good. naive_solver.
  - rewrite Forall_singleton. unfold ev_good. rewrite andb_false_r. naive_solver.
Qed.

Lemma ev_members_items l t : l ≠ [] → readable t = true → flat_map ev_members (WalkDir l t) = map item_member (items l t).
Proof.
  revert l. induction t as [m|m kids IH|m s c| |] using tree_rect'; intros l Hl Hr; cbn [WalkDir readable items] in *; try done.
  - cbn [flat_map map]. unfold ev_members at 1. cbn [fst snd]. rewrite decide_False by done. simpl. f_equal.
    induction IH as [|[n' t] kids Ht _ IHk]; simpl in *; [done|].
    apply andb_true_iff in Hr as [[_ Hr]%andb_true_iff Hrs].
    rewrite flat_map_app, map_app, IHk by done. f_equal. apply Ht; [by destruct l|done].
  - destruct c as [[b ok]|]; [|done]. simpl. unfold ev_members. simpl. by rewrite decide_False.
  - simpl. unfold ev_members. simpl. by rewrite decide_False.
Qed.

Lemma mktar_iff mode kids es :
  mktar (TDir mode (Some kids)) = inr es ↔ readable (TDir mode (Some kids)) = true ∧ es = members_of (TDir mode (Some kids)).
Proof.
  unfold mktar. change (run (WalkDir [] (TDir mode (Some kids))) (mkTW [] None) = inr es ↔
    readable (TDir mode (Some kids)) = true ∧ es = members_of (TDir mode (Some kids))).
  rewrite run_spec by done. cbn [WalkDir flat_map readable]. unfold members_of. cbn [items tl cur_members].
  rewrite Forall_cons. change (?x ++ ?y ++ ev_members ([], EDir mode) ++ ?z) with z.
  assert (∀ P, filled None ∧ (ev_good ([], EDir mode) ∧ P) ∧ es = flat_map ev_members (flat_map (λ nt, WalkDir ([] ++ [nt.1]) nt.2) kids) ↔
    P ∧ es = flat_map ev_members (flat_map (λ nt, WalkDir ([] ++ [nt.1]) nt.2) kids)) as ->.
  { intros P. assert (ev_good ([], EDir mode)) by by left. naive_solver. }
  revert es. induction kids as [|[n t] kids IH]; intros es; [simpl; naive_solver|].
  cbn [flat_map forallb fst snd]. rewrite Forall_app, WalkDir_good, !andb_true_iff by done.
  rewrite flat_map_app, map_app. split.
  - intros [[[Ha Hr] Hg] ->]. destruct (proj1 (IH _) (conj Hg eq_refl)) as [Hrs ->].
    rewrite ev_members_items by done. done.
  - intros [[[Ha Hr] Hrs] ->]. destruct (proj2 (IH _) (conj Hrs eq_refl)) as [Hg ->].
    rewrite ev_members_items by done. done.
Qed.

(** ** Unpacking it

    The names of a directory's entries are different, and none is empty, ["."],
    [".."] or has a slash. *)
Fixpoint well_named (t : tree) : Prop :=
  match t with
  | TDir _ (Some kids) => NoDup (map fst kids) ∧ foldr (λ nt P, (normal nt.1 ∧ well_named nt.2) ∧ P) True kids
  | _ => True
  end.

(** A reader that delivers a member, in any pieces. *)
Definition delivers (e : Header * bytes) (m : member) : Prop :=
  m_header m = e.1 ∧ concat (m_reads m) = e.2 ∧ m_read_ok m = true.

Definition key (i : item) : list string * bool := (it_path i, it_dir i).

(** Items that can be made one after the other. *)
Inductive buildable : list (list string * bool) → list item → Prop :=
| bd_nil V : buildable V []
| bd_cons V i its l b : it_path i = l ++ [b] → Forall normal (l ++ [b]) → above V l → (∀ k, (l ++ [b], k) ∉ V) →
    buildable (key i :: V) its → buildable V (i :: its).

Lemma buildable_app V its1 its2 :
  buildable V its1 → buildable (rev (map key its1) ++ V) its2 → buildable V (its1 ++ its2).
Proof.
  induction 1 as [V|V i its l b Hp Hn Ha Hnew Hb IH]; [done|]. cbn [map rev app]. rewrite <-app_assoc. intros H2.
  econstructor; [done..|]. by apply IH.
Qed.

Lemma buildable_new V its i k : buildable V its → i ∈ its → (it_path i, k) ∉ V.
Proof.
  induction 1 as [V|V j its l b Hp Hn Ha Hnew Hb IH]; [by intros ?%elem_of_nil|]. intros [->|Hin]%elem_of_cons; [rewrite Hp; apply Hnew|].
  intros Hk. apply (IH Hin). by right.
Qed.

Lemma buildable_NoDup V its : buildable V its → NoDup (map it_path its).
Proof.
  induction 1 as [V|V j its l b Hp Hn Ha Hnew Hb IH]; [constructor|]. simpl. constructor; [|done].
  intros (i & Heq & Hin)%list_elem_of_fmap. apply (buildable_new _ _ i (it_dir j) Hb Hin). rewrite <-Heq. left.
Qed.

Lemma buildable_normal V its i : buildable V its → i ∈ its → Forall normal (it_path i) ∧ it_path i ≠ [].
Proof.
  induction 1 as [V|V j its l b Hp Hn Ha Hnew Hb IH]; [by intros ?%elem_of_nil|]. intros [->|Hin]%elem_of_cons; [|by apply IH].
  rewrite Hp. split; [done|by destruct l].
Qed.

Lemma AddTar_built maxAlloc ms its now f V :
  tree_state f V → buildable V its → Forall2 delivers (map item_member its) ms →
  Forall (λ i, 2 * zlen (it_bytes i) ≤ maxAlloc) its → maxAlloc < 2 ^ 63 →
  ∃ f', AddTar maxAlloc ms true now f = (TOk, f') ∧ tree_state f' (rev (map key its) ++ V).
Proof.
  intros Ht Hb. revert ms f Ht. induction Hb as [V|V i its l b Hp Hn Ha Hnew Hb IH]; intros ms f Ht Hd Hsz Hmax.
  { apply Forall2_nil_inv_l in Hd as ->. by exists f. }
  cbn [map] in Hd. apply Forall2_cons_inv_l in Hd as (m & ms' & (Hh & Hc & Hok) & Hd & ->).
  apply Forall_cons in Hsz as [Hi Hsz]. cbn [AddTar].
  assert (∃ f1, add_member maxAlloc m now f = (TOk, f1) ∧ tree_state f1 (key i :: V)) as (f1 & -> & Ht1).
  { unfold key. rewrite Hp. destruct i as [pth [|] mo by_]; simpl in Hp, Hh, Hc, Hi |- *; subst pth.
    - by apply add_dir_new; [..|rewrite Hh|rewrite Hh].
    - apply add_reg_new; [done..|by rewrite Hh|by rewrite Hh|done|by rewrite Hc|done]. }
  destruct (IH ms' f1 Ht1 Hd Hsz Hmax) as (f' & -> & Ht'). exists f'. split; [done|]. simpl. by rewrite <-app_assoc.
Qed.

(** ** The items of a tree *)
Lemma items_prefix l t i : i ∈ items l t → ∃ l', it_path i = l ++ l'.
Proof.
  revert l. induction t as [m|m kids IH|m s c| |] using tree_rect'; intros l; cbn [items]; try by intros ?%elem_of_nil.
  - intros ->%list_elem_of_singleton. exists []. by rewrite app_nil_r.
  - intros [->|Hin]%elem_of_cons; [exists []; by rewrite app_nil_r|].
    apply list_elem_of_In, in_flat_map in Hin as (nt & Hnt & Hin). apply list_elem_of_In in Hnt, Hin.
    rewrite Forall_forall in IH. destruct (IH nt Hnt _ Hin) as [l' Hl']. exists (nt.1 :: l'). by rewrite Hl', <-app_assoc.
  - destruct c as [[b ok]|]; [|by intros ?%elem_of_nil]. intros ->%list_elem_of_singleton. exists []. by rewrite app_nil_r.
Qed.

Definition builds (t : tree) : Prop := ∀ l n V, well_named t → Forall normal (l ++ [n]) → above V l →
  (∀ l' k, (l ++ n :: l', k) ∉ V) → buildable V (items (l ++ [n]) t).

Lemma above_mono V V' l : V ⊆ V' → above V l → above V' l.
Proof. intros Hs Ha l1 l2 E Hne. by apply Hs, (Ha l1 l2). Qed.

Lemma kids_build l kids V :
  Forall (λ nt, builds nt.2) kids → NoDup (map fst kids) →
  foldr (λ nt P, (normal nt.1 ∧ well_named nt.2) ∧ P) True kids → Forall normal l → above V l →
  (∀ n l' k, n ∈ map fst kids → (l ++ n :: l', k) ∉ V) →
  buildable V (flat_map (λ nt, items (l ++ [nt.1]) nt.2) kids).
Proof.
  intros Hk. revert V. induction Hk as [|[n t] kids Ht Hk IH]; intros V Hnd Hw Hn Ha Hnew; [constructor|].
  cbn [map foldr flat_map fst snd] in *. apply NoDup_cons in Hnd as [Hnn Hnd]. destruct Hw as [[Hnm Hwt] Hw].
  apply buildable_app.
  - apply Ht; [done|by apply Forall_app; split; [|apply Forall_singleton]|done|]. intros l' k. apply Hnew. by left.
  - apply IH; [done..|by eapply above_mono; [|exact Ha]; intros x Hx; apply elem_of_app; right|].
    intros n' l' k Hn' [Hin|Hin]%elem_of_app; [|by eapply Hnew; [right|]].
    apply list_elem_of_In, in_rev, list_elem_of_In in Hin. apply list_elem_of_fmap in Hin as (i & Heq & Hin).
    destruct (items_prefix _ _ _ Hin) as [l2 Hl2]. injection Heq as Heq _. rewrite Hl2, <-app_assoc in Heq.
    apply app_inv_head in Heq. injection Heq as -> _. done.
Qed.

Lemma above_cons V l n : above V l → above ((l ++ [n], true) :: V) (l ++ [n]).
Proof.
  intros Ha l1 l2 E Hne. destruct l2 as [|x l2 _] using rev_ind; [rewrite app_nil_r in E; subst; by left|].
  rewrite app_assoc in E. apply app_inj_tail in E as [-> ->]. right. by apply (Ha l1 l2).
Qed.

Lemma items_build t : builds t.
Proof.
  induction t as [m|m kids IH|m s c| |] using tree_rect'; intros l n V Hw Hn Ha Hnew; cbn [items]; try constructor.
  - econstructor; [done..|by intros; apply Hnew|constructor].
  - destruct Hw as [Hnd Hw]. econstructor; [done..|by intros; apply Hnew|].
    apply kids_build; [done..|by apply above_cons|].
    intros n' l' k _ [Heq|Hin]%elem_of_cons.
    + injection Heq as Heq _. rewrite <-app_assoc in Heq. by apply app_inv_head in Heq.
    + apply (Hnew (n' :: l') k). by rewrite <-app_assoc in Hin.
  - destruct c as [[b ok]|]; [|constructor]. econstructor; [done..|by intros; apply Hnew|constructor].
Qed.

Lemma tree_at_items t l l0 t' : tree_at t l = Some t' → items (l0 ++ l) t' ⊆ items l0 t.
Proof.
  revert t l0. induction l as [|n l IH]; intros t l0; cbn [tree_at].
  - intros [= ->]. by rewrite app_nil_r.
  - destruct t as [m [kids|]|m s c| |]; try done. destruct (find _ kids) as [nt|] eqn:Hf; [|done]. intros Ht.
    apply find_some in Hf as [Hin Hn%bool_decide_eq_true]. intros i Hi. cbn [items]. right.
    apply list_elem_of_In, in_flat_map. exists nt. split; [done|]. apply list_elem_of_In.
    apply (IH nt.2 (l0 ++ [nt.1]) Ht). by rewrite Hn, <-app_assoc.
Qed.

Lemma find_name (kids : list (string * tree)) nt : NoDup (map fst kids) → nt ∈ kids →
  find (λ x, bool_decide (x.1 = nt.1)) kids = Some nt.
Proof.
  induction kids as [|x kids IH]; [by intros _ ?%elem_of_nil|]. simpl. intros [Hx Hnd]%NoDup_cons [->|Hin]%elem_of_cons.
  - by rewrite bool_decide_eq_true_2.
  - rewrite bool_decide_eq_false_2; [by apply IH|]. intros E. apply Hx. rewrite E. by apply (list_elem_of_fmap_2 fst).
Qed.

Lemma items_tree_at t l0 i : well_named t → i ∈ items l0 t →
  ∃ l t', it_path i = l0 ++ l ∧ tree_at t l = Some t' ∧ head (items (l0 ++ l) t') = Some i.
Proof.
  revert l0. induction t as [m|m kids IH|m s c| |] using tree_rect'; intros l0 Hw; cbn [items]; try by intros ?%elem_of_nil.
  - intros ->%list_elem_of_singleton. exists [], (TDir m None). by rewrite app_nil_r.
  - destruct Hw as [Hnd Hw]. intros [->|Hin]%elem_of_cons; [exists [], (TDir m (Some kids)); by rewrite app_nil_r|].
    apply list_elem_of_In, in_flat_map in Hin as (nt & Hnt & Hin). apply list_elem_of_In in Hnt, Hin.
    rewrite Forall_forall in IH. assert (well_named nt.2) as Hwn.
    { clear -Hw Hnt. induction kids as [|x kids IHk]; [by apply elem_of_nil in Hnt|]. destruct Hw as [[_ Hx] Hw].
      apply elem_of_cons in Hnt as [->|Hnt]; [done|by apply IHk]. }
    destruct (IH nt Hnt _ Hwn Hin) as (l & t' & Hl & Ht & Hhd). exists (nt.1 :: l), t'. rewrite <-app_assoc in Hl, Hhd.
    split_and!; [done| |done]. cbn [tree_at]. by rewrite find_name.
  - destruct c as [[b ok]|]; [|by intros ?%elem_of_nil]. intros ->%list_elem_of_singleton.
    exists [], (TReg m s (Some (b, ok))). by rewrite app_nil_r.
Qed.

(** * What unpacking finds *)
Lemma resolve_rel f l p n : fs_ok f → Forall normal l → l ≠ [] → at_path f l = Some p → fs_heap f !! p = Some n →
  resolve f (fs_root f) (rel l) = Ok p.
Proof.
  intros Hok Hn Hne Hp Hnd. unfold resolve. rewrite rel_IsAbs, rel_split by done.
  rewrite (reach_walk _ _ _ _ Hok Hn Hp). cbn [rbind]. unfold walk_end. rewrite Hnd.
  rewrite bool_decide_eq_false_2; [by rewrite ?andb_false_r|]. intros [Hlast _]. apply last_Some_elem_of in Hlast.
  rewrite Forall_forall in Hn. by destruct (Hn _ Hlast) as [? _].
Qed.

Lemma above_nil V : above V [].
Proof. intros l1 l2 E Hne. by destruct l1. Qed.

Lemma fs_New_state t0 : tree_state (fs_New t0) [].
Proof.
  split; [apply fs_New_ok|apply strict_New|..].
  - intros [|b l] p; [by left|]. cbn [reach]. unfold entry, fs_New. simpl. rewrite lookup_insert_eq. simpl. by rewrite lookup_empty.
  - intros l [->|?%elem_of_nil]; [|done]. eexists _, _. split_and!; [done|apply lookup_insert_eq|done].
Qed.

Lemma root_build mode kids : well_named (TDir mode (Some kids)) → buildable [] (tl (items [] (TDir mode (Some kids)))).
Proof.
  intros [Hnd Hw]. cbn [items tl]. apply kids_build; try done.
  - apply Forall_forall. intros nt _. apply items_build.
  - apply above_nil.
  - by intros n l' k _ ?%elem_of_nil.
Qed.

Lemma in_bounds_of maxAlloc its ms : Forall2 delivers (map item_member its) ms →
  Forall (λ i, 2 * zlen (it_bytes i) ≤ maxAlloc) its → maxAlloc < 2 ^ 63 → Forall in_bounds ms.
Proof.
  intros Hd Hs Hm. revert ms Hd. induction Hs as [|i its Hi Hs IH]; intros ms Hd.
  { by apply Forall2_nil_inv_l in Hd as ->. }
  cbn [map] in Hd. apply Forall2_cons_inv_l in Hd as (m & ms' & (_ & Hc & _) & Hd & ->). constructor; [|by apply IH].
  unfold in_bounds. rewrite Hc. simpl. pose proof (zlen_nonneg (it_bytes i)). lia.
Qed.

Lemma delivered_name i m : Forall normal (it_path i) → it_path i ≠ [] → delivers (item_member i) m →
  member_name (m_header m) = rel (it_path i).
Proof.
  intros Hn Hne (-> & _). unfold item_member. destruct (it_dir i); [by apply member_name_dir|by apply member_name_reg].
Qed.

(** A file of the items is in the result. *)
Lemma built_file maxAlloc its ms now t0 f i :
  buildable [] its → Forall2 delivers (map item_member its) ms →
  Forall (λ i, 2 * zlen (it_bytes i) ≤ maxAlloc) its → maxAlloc < 2 ^ 63 →
  AddTar maxAlloc ms true now (fs_New t0) = (TOk, f) → i ∈ its → it_dir i = false →
  holds f (rel (it_path i)) (it_bytes i) 0.
Proof.
  intros Hb Hd Hs Hm Ha Hi Hk. pose proof (in_bounds_of _ _ _ Hd Hs Hm) as Hib.
  pose proof (buildable_NoDup _ _ Hb) as Hnd.
  apply list_elem_of_split in Hi as (its1 & its2 & ->). rewrite map_app in Hd.
  apply Forall2_app_inv_l in Hd as (ms1 & ms2 & Hd1 & Hd2 & ->). cbn [map] in Hd2.
  apply Forall2_cons_inv_l in Hd2 as (m & ms3 & Hdm & Hd3 & ->).
  apply AddTar_app in Ha as (f1 & Ha1 & Ha2). apply Forall_app in Hib as [Hib1 [Hbm Hib3]%Forall_cons].
  destruct (AddTar_inv _ _ _ _ _ _ (fs_New_ok t0) (strict_New t0) Hib1 Ha1) as [Hok1 Hs1].
  cbn [AddTar] in Ha2. destruct (add_member maxAlloc m now f1) as [[] f2] eqn:E; try done.
  destruct (add_member_spec maxAlloc m now f1 f2 Hok1 Hs1 Hbm E) as (Hok2 & Hs2 & Hh & _).
  destruct (buildable_normal _ _ i Hb) as [Hn Hne]; [apply elem_of_app; right; left|].
  pose proof (delivered_name i m Hn Hne Hdm) as Hname. destruct Hdm as (Hhd & Hc & _).
  rewrite <-Hname. replace (it_bytes i) with (concat (m_reads m)) by done.
  assert (h_ModTime (m_header m) = 0) as Ht by by rewrite Hhd. rewrite <-Ht.
  eapply (AddTar_keeps _ _ _ _ f2); [done..| |].
  - intros m' Hm' _. apply list_elem_of_lookup in Hm' as [k Hm'].
    destruct (Forall2_lookup_r _ _ _ _ _ Hd3 Hm') as (e & He & Hdm'). rewrite list_lookup_fmap in He.
    apply fmap_Some in He as (j & Hj & ->). apply list_elem_of_lookup_2 in Hj.
    destruct (buildable_normal _ _ j Hb) as [Hnj Hnej]; [apply elem_of_app; right; by right|].
    rewrite Hname, (delivered_name j m') by done. intros Heq%rel_inj; try done.
    rewrite map_app in Hnd. apply NoDup_app in Hnd as (_ & _ & Hnd). cbn [map] in Hnd. apply NoDup_cons in Hnd as [Hni _].
    apply Hni. rewrite Heq. by apply (list_elem_of_fmap_2 it_path).
  - apply Hh. split; [by apply (rel_not_skipped (it_path i))|]. rewrite Hhd. unfold item_member. by rewrite Hk.
Qed.

Lemma below_root mode kids l t' i : l ≠ [] → tree_at (TDir mode (Some kids)) l = Some t' → i ∈ items l t' →
  i ∈ tl (items [] (TDir mode (Some kids))).
Proof.
  intros Hl Hat Hi. destruct l as [|n l]; [done|]. cbn [tree_at] in Hat. destruct (find _ kids) as [nt|] eqn:Hf; [|done].
  apply find_some in Hf as [Hin Hn%bool_decide_eq_true]. cbn [items tl].
  apply list_elem_of_In, in_flat_map. exists nt. split; [done|]. apply list_elem_of_In.
  apply (tree_at_items nt.2 l ([] ++ [nt.1]) t' Hat). by rewrite Hn.
Qed.

(** * Properties *)

(** What [mktar] writes: it succeeds exactly when every directory and every
    file below the root could be read to the end and every file had the size it
    was found with, and then the archive has one member for each directory and
    each regular file, in the order of the walk, with its path from the root, its
    permission bits, the time zero and exactly its bytes; in every other case it
    ends with an error. *)
Theorem mktar_exact (mode : Z) (kids : list (string * tree)) (es : list (Header * bytes)) :
  mktar (TDir mode (Some kids)) = inr es ↔
  readable (TDir mode (Some kids)) = true ∧ es = members_of (TDir mode (Some kids)).
Proof. apply mktar_iff. Qed.

(** C28. A directory tree goes through [mktar] and [AddTar] unchanged: for a
    readable tree with names a filesystem allows and files the allocator takes,
    [mktar] succeeds, and unpacking what it wrote into a new filesystem, read in
    any pieces, succeeds; every regular file of the tree is there at its path
    with its bytes and the time zero, every directory is there as a directory,
    and nothing is there that the tree did not have. *)
Theorem tree_roundtrip (maxAlloc mode : Z) (kids : list (string * tree)) (t0 now : Z) :
  let t := TDir mode (Some kids) in
  readable t = true → well_named t → Forall (λ e, 2 * zlen e.2 ≤ maxAlloc) (members_of t) → maxAlloc < 2 ^ 63 →
  ∃ es, mktar t = inr es ∧ ∀ ms, Forall2 delivers es ms →
    ∃ f, AddTar maxAlloc ms true now (fs_New t0) = (TOk, f) ∧
      (∀ l m s b, l ≠ [] → tree_at t l = Some (TReg m s (Some (b, true))) →
         ∃ p n, resolve f (fs_root f) (rel l) = Ok p ∧ fs_heap f !! p = Some n ∧ isDir n = false ∧
           d_bytes (n_data n) = b ∧ n_modTime n = 0) ∧
      (∀ l m ks, l ≠ [] → tree_at t l = Some (TDir m ks) →
         ∃ p n, resolve f (fs_root f) (rel l) = Ok p ∧ fs_heap f !! p = Some n ∧ isDir n = true) ∧
      (∀ l p, at_path f l = Some p → ∃ t', tree_at t l = Some t' ∧ t' ≠ TOther).
Proof.
  intros t Hr Hw Hs Hm. exists (members_of t). split; [by apply mktar_iff|]. intros ms Hd.
  set (its := tl (items [] t)). pose proof (root_build mode kids Hw) as Hb.
  assert (Forall (λ i, 2 * zlen (it_bytes i) ≤ maxAlloc) its) as Hs' by by exact (proj1 (Forall_map item_member (λ e, 2 * zlen e.2 ≤ maxAlloc) its) Hs).
  destruct (AddTar_built maxAlloc ms its now (fs_New t0) [] (fs_New_state t0) Hb Hd Hs' Hm) as (f & Ha & Ht).
  rewrite app_nil_r in Ht.
  exists f. split; [done|]. split_and!.
  - intros l m s b Hl Hat.
    assert (mkItem l false m b ∈ its) as Hi by (by apply (below_root _ _ _ _ _ Hl Hat); left).
    by apply holds_resolve, (built_file maxAlloc its ms now t0 f _ Hb Hd Hs' Hm Ha Hi).
  - intros l m ks Hl Hat.
    assert (mkItem l true m [] ∈ its) as Hi by (by apply (below_root _ _ _ _ _ Hl Hat); left).
    destruct (buildable_normal _ _ _ Hb Hi) as [Hn _].
    destruct (ts_dirs _ _ Ht l) as (p & n & Hp & Hpn & Hdir).
    { right. apply list_elem_of_In, in_rev. rewrite rev_involutive. apply list_elem_of_In.
      by apply (list_elem_of_fmap_2 key _ _ Hi). }
    exists p, n. split_and!; [|done..]. by apply (resolve_rel f l p n (ts_ok _ _ Ht)).
  - intros l p Hp. destruct (ts_only _ _ Ht l p Hp) as [->|[k Hk]]; [by exists t|].
    apply list_elem_of_In, in_rev, list_elem_of_In, list_elem_of_fmap in Hk as (i & Heq & Hi).
    assert (i ∈ items [] t) as Hi' by (by right).
    destruct (items_tree_at t [] i Hw Hi') as (l' & t' & Hl' & Hat & Hhd). injection Heq as -> _.
    rewrite Hl'. exists t'. split; [done|]. by intros ->.
Qed.

Definition demo_tree : tree :=
  TDir 16877 (Some [
    ("base", TDir 16832 (Some [("1", TDir 16832 (Some [("PG_VERSION", TReg 33152 3 (Some ([49;56;10], true)))]))]));
    ("postmaster.pid", TOther);
    ("share", TReg 33188 0 (Some ([], true)))]).

Definition demo_members : list member :=
  [ mkMember (mkHeader "base/" TypeDir 448 0) [] true;
    mkMember (mkHeader "base/1/" TypeDir 448 0) [[]] true;
    mkMember (mkHeader "base/1/PG_VERSION" TypeReg 384 0) [[49]; []; [56;10]] true;
    mkMember (mkHeader "share" TypeReg 420 0) [] true ].

Lemma tree_roundtrip_witness :
  mktar demo_tree = inr (members_of demo_tree) ∧
  match AddTar (2 ^ 47) demo_members true 9 (fs_New 1) with
  | (TOk, f) => ∃ p n, resolve f (fs_root f) "base/1/PG_VERSION" = Ok p ∧ fs_heap f !! p = Some n ∧
      d_bytes (n_data n) = [49;56;10] ∧ n_modTime n = 0
  | _ => False
  end.
Proof.
  destruct (tree_roundtrip (2 ^ 47) 16877 match demo_tree with TDir _ (Some kids) => kids | _ => [] end 1 9)
    as (es & Hes & Hall).
  - reflexivity.
  - vm_compute. repeat split; try discriminate; repeat constructor; intros H; repeat (apply elem_of_cons in H as [H|H]; [discriminate|]); by apply elem_of_nil in H.
  - repeat constructor; vm_compute; discriminate.
  - reflexivity.
  - assert (es = members_of demo_tree) as -> by (vm_compute in Hes |- *; congruence).
    split; [exact Hes|]. destruct (Hall demo_members) as (f & Hf & Hfile & _).
    { repeat constructor. }
    rewrite Hf. destruct (Hfile ["base"; "1"; "PG_VERSION"] 33152 3 [49;56;10]) as (p & n & Hr & Hn & _ & Hb & Ht);
      [discriminate|reflexivity|].
    exists p, n. split_and!; [exact Hr|exact Hn|exact Hb|exact Ht].
Defined.
