(* ===== verification/PgRun.v ===== *)
(** The command [pgzero-run] ([src/wasm/cmd/pgzero-run/main.go]): what it asks of
    the kernel, what it cleans up and the status it exits with.

    The flags are parsed by the [flag] package; the operating system and the
    kernel answer through the [answers] record.  [run] is written with the
    [defer] statement of the source: a frame collects what was done and what is
    deferred, which is undone, the last one first, when the function returns. *)
From S2P Require Import Prelude Abi Paths Signals Process Host Modules Guest.
From Stdlib Require Import Ascii.

Definition guestPrefix : string := "/usr/local/pgsql".
Definition guestData : string := "/data".
Definition guestTmp : string := "/tmp".

(** [listFlag]: a flag that may be repeated. *)
Definition listFlag_Set (l : list string) (v : string) : list string := l ++ [v].

Record flags := Flags {
  fg_programs : string; fg_install : string; fg_data : string; fg_tmp : string; fg_debug : bool;
  fg_cache : string; fg_cpuprof : string; fg_trc : string; fg_dbgInfo : bool;
  fg_mounts : list string; fg_env : list string;
}.

(** What [kernel.New] is given, and [Start] with it. *)
Record KConfig := mkKConfig {
  kc_Programs : gmap string bytes; kc_DebugInfo : bool;
  kc_Mounts : list Mount; kc_Env : list (string * string); kc_Cwd : string; kc_Debug : bool;
}.

Record answers := Answers {
  os_Create : string → bool;
  filepath_Glob : string → option (list string);
  os_ReadFile : string → option bytes;
  os_MkdirAll : string → bool;
  os_MkdirTemp : option string;
  filepath_Abs : string → option string;
  cache_ok : bool;
  NewFactory : string → bool;
  kernel_Start : KConfig → list string → option Z;  (** the wait status, or an error *)
}.

(** * [loadPrograms] and [defaultCacheDir] *)
Definition program_name (file : string) : string := default (Base file) (strip_suffix ".wasm" (Base file)).

Fixpoint read_programs (ReadFile : string → option bytes) (files : list string) (progs : gmap string bytes)
    : option (gmap string bytes) :=
  match files with
  | [] => Some progs
  | f :: files =>
      match ReadFile f with
      | None => None
      | Some b => read_programs ReadFile files (<[program_name f := b]> progs)
      end
  end.

Definition loadPrograms (w : answers) (dir : string) : option (gmap string bytes) :=
  match filepath_Glob w (Join [dir; "*.wasm"]) with
  | None | Some [] => None
  | Some files => read_programs (os_ReadFile w) files ∅
  end.

Definition defaultCacheDir (UserCacheDir : option string) : string :=
  match UserCacheDir with None => "" | Some dir => Join [dir; "pgzero"] end.

(** * The monad of [run] *)
Inductive resource := CPUProfile | ExecTrace | TempDir (dir : string) | Engine | Kernel.
#[export] Instance resource_eq_dec : EqDecision resource.
Proof. solve_decision. Defined.

Inductive action := Get (r : resource) | Put (r : resource) | Started (cfg : KConfig) (argv : list string).

Record rframe := RFrame { r_trace : list action; r_defers : list resource }.
#[export] Instance eta_rframe : Eta rframe := λ r, {| r_trace := r_trace r; r_defers := r_defers r |}.

Definition prog (A : Type) : Type := rframe → (Z + A) * rframe.
Definition pure {A} (x : A) : prog A := λ f, (inr x, f).
Definition exit {A} (code : Z) : prog A := λ f, (inl code, f).
Definition seq {A B} (m : prog A) (g : A → prog B) : prog B := λ f,
  match m f with (inl code, f) => (inl code, f) | (inr x, f) => g x f end.
Definition act (a : action) : prog () := λ f, (inr (), f <| r_trace ::= λ t, t ++ [a] |>).
Definition hold (r : resource) : prog () := λ f,
  (inr (), f <| r_trace ::= λ t, t ++ [Get r] |> <| r_defers ::= cons r |>).
#[local] Notation "'do' x ← m ; n" := (seq m (λ x, n)) (at level 10, x name, m at level 100, n at level 200).
#[local] Notation "m ;;; n" := (seq m (λ _, n)) (at level 100, n at level 200, right associativity).

Definition try {A} (r : option A) (code : Z) : prog A :=
  match r with Some x => pure x | None => exit code end.
Definition check (b : bool) (code : Z) : prog () := if b then pure () else exit code.

(** * [run] *)
Fixpoint has_eq (s : string) : bool :=
  match s with EmptyString => false | String c s => bool_decide (c = "="%char) || has_eq s end.

Fixpoint add_mounts (l : list string) (ms : list Mount) : prog (list Mount) :=
  match l with
  | [] => pure ms
  | m :: l =>
      check (has_eq m) 2;;;
      add_mounts l (ms ++ [mkMount (cut_eq m).1 (cut_eq m).2 false])
  end.

Fixpoint abs_mounts (Abs : string → option string) (ms : list Mount) : prog (list Mount) :=
  match ms with
  | [] => pure []
  | m :: ms =>
      do h ← try (Abs (HostPath m)) 1;
      do ms ← abs_mounts Abs ms;
      pure (mkMount (GuestPath m) h (m_FS m) :: ms)
  end.

Definition base_environ : list (string * string) :=
  [("PATH", guestPrefix +:+ "/bin"); ("HOME", "/"); ("USER", "postgres"); ("LANG", "C"); ("TZ", "UTC")].

Definition exit_code (status : Z) : Z :=
  if Z.land status 127 =? 0 then Z.land (Z.shiftr status 8) 255 else 128 + Z.land status 127.

Definition optional (name : string) (m : prog ()) : prog () := if decide (name = "") then pure () else m.

(** Up to the runtime and the configuration of the kernel. *)
Definition run_setup (w : answers) (fl : flags) (argv : list string) : prog KConfig :=
  check (negb (bool_decide (argv = []))) 2;;;
  optional (fg_cpuprof fl) (check (os_Create w (fg_cpuprof fl)) 1;;; hold CPUProfile);;;
  optional (fg_trc fl) (check (os_Create w (fg_trc fl)) 1;;; hold ExecTrace);;;
  do progs ← try (loadPrograms w (fg_programs fl)) 1;
  let ms := [mkMount guestPrefix (fg_install fl) false] in
  do ms ← (if decide (fg_data fl = "") then pure ms
           else check (os_MkdirAll w (fg_data fl)) 1;;; pure (ms ++ [mkMount guestData (fg_data fl) false]));
  do tmpDir ← (if decide (fg_tmp fl = "") then
                 do d ← try (os_MkdirTemp w) 1; hold (TempDir d);;; pure d
               else pure (fg_tmp fl));
  let ms := ms ++ [mkMount guestTmp tmpDir false] in
  do ms ← add_mounts (fg_mounts fl) ms;
  do ms ← abs_mounts (filepath_Abs w) ms;
  let environ := base_environ ++ map cut_eq (fg_env fl) in
  try (NewRuntime (fg_cache fl) (cache_ok w) (NewFactory w)).1 1;;;
  pure (mkKConfig progs (fg_dbgInfo fl) ms environ "/" (fg_debug fl)).

Definition run_body (w : answers) (fl : flags) (argv : list string) : prog Z :=
  do cfg ← run_setup w fl argv;
  hold Engine;;;
  hold Kernel;;;
  act (Started cfg argv);;;
  do status ← try (kernel_Start w cfg argv) 1;
  pure (exit_code status).

Definition run (w : answers) (fl : flags) (argv : list string) : Z * list action :=
  let '(r, f) := run_body w fl argv (RFrame [] []) in
  (match r with inl code | inr code => code end, r_trace f ++ map Put (r_defers f)).

(** What the command forwards to the program. *)
Inductive os_signal := OS_Interrupt | OS_SIGTERM | OS_SIGQUIT | OS_SIGHUP.
Definition forward (s : os_signal) : Z :=
  match s with OS_Interrupt => SIGINT | OS_SIGTERM => SIGTERM | OS_SIGQUIT => SIGQUIT | OS_SIGHUP => SIGHUP end.

(** * What must hold of every run

    What is held, the last one first: only the last one may be given back, and a
    program is started with the kernel open. *)
Fixpoint holding (es : list action) (l : list resource) : option (list resource) :=
  match es with
  | [] => Some l
  | Get r :: es => holding es (r :: l)
  | Put r :: es => match l with r' :: l => if decide (r = r') then holding es l else None | [] => None end
  | Started _ _ :: es => match l with Kernel :: Engine :: _ => holding es l | _ => None end
  end.

Definition started_with (a : action) : option (KConfig * list string) :=
  match a with Started cfg argv => Some (cfg, argv) | _ => None end.

(** The mount table asked for, before host paths are made absolute. *)
Definition mount_table (fl : flags) (tmpDir : string) : list Mount :=
  [mkMount guestPrefix (fg_install fl) false] ++
  (if decide (fg_data fl = "") then [] else [mkMount guestData (fg_data fl) false]) ++
  [mkMount guestTmp tmpDir false] ++
  map (λ m, mkMount (cut_eq m).1 (cut_eq m).2 false) (fg_mounts fl).

Definition wanted (fl : flags) (w : answers) : option string :=
  if decide (fg_tmp fl = "") then os_MkdirTemp w else Some (fg_tmp fl).

(** The configuration of a command line, [None] when something it needs is not
    to be had. *)
Definition planned (w : answers) (fl : flags) (argv : list string) : option KConfig :=
  guard (argv ≠ []);;
  guard (fg_cpuprof fl = "" ∨ os_Create w (fg_cpuprof fl) = true);;
  guard (fg_trc fl = "" ∨ os_Create w (fg_trc fl) = true);;
  progs ← loadPrograms w (fg_programs fl);
  guard (fg_data fl = "" ∨ os_MkdirAll w (fg_data fl) = true);;
  tmpDir ← wanted fl w;
  guard (Forall (λ m, has_eq m = true) (fg_mounts fl));;
  ms ← mapM (λ m, h ← filepath_Abs w (HostPath m); Some (mkMount (GuestPath m) h (m_FS m))) (mount_table fl tmpDir);
  guard (is_Some (NewRuntime (fg_cache fl) (cache_ok w) (NewFactory w)).1);;
  Some (mkKConfig progs (fg_dbgInfo fl) ms (base_environ ++ map cut_eq (fg_env fl)) "/" (fg_debug fl)).

(** A computation that acquires [rs], all of them of the kind [Q], and gives the
    value [o], or ends with status 1 or 2. *)
Definition push (rs : list resource) (f : rframe) : rframe :=
  RFrame (r_trace f ++ map Get rs) (rev rs ++ r_defers f).

Definition gives {A} (Q : resource → Prop) (m : prog A) (o : option A) : Prop := ∀ f, ∃ rs, Forall Q rs ∧
  match o with
  | Some x => m f = (inr x, push rs f)
  | None => ∃ code, (code = 1 ∨ code = 2) ∧ m f = (inl code, push rs f)
  end.

Section gives.
Context {Q : resource → Prop}.
Lemma push_nil f : push [] f = f.
Proof. destruct f. unfold push. simpl. by rewrite app_nil_r. Qed.

Lemma gives_pure {A} (x : A) : gives Q (pure x) (Some x).
Proof. intros f. exists []. by rewrite push_nil. Qed.

Lemma gives_try {A} (o : option A) code : code = 1 ∨ code = 2 → gives Q (try o code) o.
Proof. intros Hc f. exists []. rewrite push_nil. split; [done|]. destruct o; [done|]. by exists code. Qed.

Lemma gives_check b code : code = 1 ∨ code = 2 → gives Q (check b code) (if b then Some () else None).
Proof. intros Hc f. exists []. rewrite push_nil. split; [done|]. destruct b; [done|]. by exists code. Qed.

Lemma gives_hold r : Q r → gives Q (hold r) (Some ()).
Proof. intros Hr f. exists [r]. split; [by constructor|done]. Qed.

Lemma gives_seq {A B} (m : prog A) (g : A → prog B) o o' :
  gives Q m o → (∀ x, o = Some x → gives Q (g x) (o' x)) → gives Q (seq m g) (o ≫= o').
Proof.
  intros Hm Hg f. unfold seq. destruct (Hm f) as (rs & Hrs & Hmf). destruct o as [x|]; simpl.
  - rewrite Hmf. destruct (Hg x eq_refl (push rs f)) as (rs' & Hrs' & Hgf). exists (rs ++ rs').
    assert (push rs' (push rs f) = push (rs ++ rs') f) as <-; [|split; [by apply Forall_app|done]].
    unfold push. simpl. by rewrite map_app, rev_app_distr, !app_assoc.
  - destruct Hmf as (code & Hc & ->). exists rs. split; [done|]. by exists code.
Qed.

Lemma gives_add_mounts l ms :
  gives Q (add_mounts l ms)
    (guard (Forall (λ m, has_eq m = true) l);; Some (ms ++ map (λ m, mkMount (cut_eq m).1 (cut_eq m).2 false) l)).
Proof.
  revert ms. induction l as [|m l IH]; intros ms; cbn [add_mounts map].
  - rewrite app_nil_r. apply gives_pure.
  - destruct (has_eq m) eqn:E.
    + assert ((guard (Forall (λ m, has_eq m = true) (m :: l));; Some (ms ++ mkMount (cut_eq m).1 (cut_eq m).2 false ::
        map (λ m, mkMount (cut_eq m).1 (cut_eq m).2 false) l)) = (Some () ≫= λ _,
        guard (Forall (λ m, has_eq m = true) l);; Some ((ms ++ [mkMount (cut_eq m).1 (cut_eq m).2 false]) ++
          map (λ m, mkMount (cut_eq m).1 (cut_eq m).2 false) l))) as ->.
      { rewrite <-app_assoc. simpl. repeat case_guard; try done; exfalso; rewrite Forall_cons in *; naive_solver. }
      apply gives_seq; [by apply (gives_check true); right|]. intros _ _. apply IH.
    + rewrite option_guard_False by (rewrite Forall_cons, E; naive_solver).
      apply (gives_seq _ _ None (λ _, None)); [by apply (gives_check false); right|done].
Qed.

Lemma gives_abs Abs ms :
  gives Q (abs_mounts Abs ms) (mapM (λ m, h ← Abs (HostPath m); Some (mkMount (GuestPath m) h (m_FS m))) ms).
Proof.
  induction ms as [|m ms IH]; [apply gives_pure|].
  assert (mapM (λ m, h ← Abs (HostPath m); Some (mkMount (GuestPath m) h (m_FS m))) (m :: ms) =
    (Abs (HostPath m) ≫= λ h, mapM (λ m, h ← Abs (HostPath m); Some (mkMount (GuestPath m) h (m_FS m))) ms ≫=
      λ ms, Some (mkMount (GuestPath m) h (m_FS m) :: ms))) as -> by (simpl; by destruct (Abs (HostPath m))).
  apply gives_seq; [by apply gives_try; left|]. intros h _. apply gives_seq; [done|]. intros ms' _. apply gives_pure.
Qed.
End gives.

Definition made_temp (w : answers) (fl : flags) (r : resource) : Prop :=
  match r with TempDir d => fg_tmp fl = "" ∧ os_MkdirTemp w = Some d | Kernel | Engine => False | _ => True end.

Lemma gives_optional {Q} name m (ok : bool) :
  gives Q m (if ok then Some () else None) →
  gives Q (optional name m) (guard (name = "" ∨ ok = true);; Some ()).
Proof.
  intros Hm. unfold optional. case_decide as E.
  - rewrite option_guard_True by by left. apply gives_pure.
  - destruct ok; [rewrite option_guard_True by (by right); exact Hm|]. rewrite option_guard_False by naive_solver. done.
Qed.

Lemma guard_bind {A B} (P : Prop) `{Decision P} (x : B) (k : option A) : (guard P;; k) = (guard P;; Some x) ≫= λ _, k.
Proof. by destruct (guard P). Qed.

Lemma is_Some_bind {A B} (o : option B) (k : option A) : (guard (is_Some o);; k) = o ≫= λ _, k.
Proof. case_guard as H; [by destruct H as [x ->]|]. destruct o; [|done]. by destruct H. Qed.

Lemma gives_profile w fl name r : made_temp w fl r →
  gives (made_temp w fl) (optional name (check (os_Create w name) 1;;; hold r))
    (guard (name = "" ∨ os_Create w name = true);; Some ()).
Proof.
  intros Hr. apply gives_optional.
  destruct (os_Create _ _); [apply (gives_seq _ _ (Some ()) (λ _, Some ()))|apply (gives_seq _ _ None (λ _, Some ()))].
  - by apply (gives_check true); left.
  - intros. by apply gives_hold.
  - by apply (gives_check false); left.
  - done.
Qed.

Lemma gives_tmp w fl :
  gives (made_temp w fl)
    (if decide (fg_tmp fl = "") then do d ← try (os_MkdirTemp w) 1; hold (TempDir d);;; pure d else pure (fg_tmp fl))
    (wanted fl w).
Proof.
  unfold wanted. case_decide as E; [|apply gives_pure].
  replace (os_MkdirTemp w) with (os_MkdirTemp w ≫= λ d, Some () ≫= λ _, Some d) at 2 by by destruct (os_MkdirTemp w).
  apply gives_seq; [by apply gives_try; left|]. intros d Hd. apply gives_seq; [by apply gives_hold|]. intros _ _. apply gives_pure.
Qed.

Lemma gives_data {Q} w fl ms :
  gives Q (if decide (fg_data fl = "") then pure ms
           else check (os_MkdirAll w (fg_data fl)) 1;;; pure (ms ++ [mkMount guestData (fg_data fl) false]))
    (guard (fg_data fl = "" ∨ os_MkdirAll w (fg_data fl) = true);;
     Some (ms ++ if decide (fg_data fl = "") then [] else [mkMount guestData (fg_data fl) false])).
Proof.
  case_decide as E; [rewrite option_guard_True, app_nil_r by (by left); apply gives_pure|].
  destruct (os_MkdirAll _ _) eqn:Em.
  - rewrite option_guard_True by (by right). apply (gives_seq _ _ (Some ()) (λ _, Some _)); [by apply (gives_check true); left|].
    intros. apply gives_pure.
  - rewrite option_guard_False by naive_solver. apply (gives_seq _ _ None (λ _, None)); [by apply (gives_check false); left|done].
Qed.

Lemma setup_gives w fl argv : gives (made_temp w fl) (run_setup w fl argv) (planned w fl argv).
Proof.
  unfold run_setup, planned. rewrite (guard_bind _ ()). apply gives_seq; [|intros _ _].
  { destruct (decide (argv = [])) as [->|Hne]; [by apply (gives_check false); right|].
    rewrite option_guard_True, bool_decide_eq_false_2 by done. by apply (gives_check true); right. }
  do 2 (rewrite (guard_bind _ ()); apply gives_seq; [by apply gives_profile|intros _ _]).
  apply gives_seq; [by apply gives_try; left|intros progs _]. cbv zeta.
  erewrite guard_bind. apply gives_seq; [apply gives_data|intros ms Hms].
  apply gives_seq; [apply gives_tmp|intros tmpDir _].
  erewrite guard_bind. apply gives_seq; [apply gives_add_mounts|intros ms' Hms'].
  assert (mount_table fl tmpDir = ms') as ->.
  { unfold mount_table. repeat case_guard; try done. cbn [mbind option_bind] in *. injection Hms as <-. injection Hms' as <-.
    by rewrite <-!app_assoc. }
  apply gives_seq; [apply gives_abs|intros ms2 _]. rewrite is_Some_bind.
  apply gives_seq; [by apply gives_try; left|intros made _]. apply gives_pure.
Qed.

Lemma holding_app es es' l : holding (es ++ es') l = holding es l ≫= holding es'.
Proof.
  revert l. induction es as [|[r|r|cfg argv] es IH]; intros l; simpl; [done|apply IH|..].
  - destruct l as [|r' l]; [done|]. case_decide; [apply IH|done].
  - destruct l as [|[] [|[] l]]; done.
Qed.
Lemma holding_get rs l : holding (map Get rs) l = Some (rev rs ++ l).
Proof. revert l. induction rs as [|r rs IH]; intros l; simpl; [done|]. by rewrite IH, <-app_assoc. Qed.
Lemma holding_put rs : holding (map Put rs) rs = Some [].
Proof. induction rs as [|r rs IH]; simpl; [done|]. by rewrite decide_True. Qed.

Lemma no_start {rs} (g : resource → action) : (∀ r, started_with (g r) = None) → omap started_with (map g rs) = [].
Proof. intros Hg. induction rs as [|r rs IH]; simpl; [done|]. by rewrite Hg. Qed.

Lemma put_in r pre ps : (∀ r', Put r' ∉ pre) → Put r ∈ pre ++ map Put ps → r ∈ ps.
Proof.
  intros Hpre [H|H]%elem_of_app; [by apply Hpre in H|]. apply list_elem_of_fmap in H as (r' & Heq & H). by injection Heq as ->.
Qed.
Lemma in_rev_iff {A} (x : A) l : x ∈ rev l ↔ x ∈ l.
Proof. by rewrite !list_elem_of_In, <-in_rev. Qed.
Lemma put_get r rs : Put r ∉ map Get rs.
Proof. by intros (r' & ? & _)%list_elem_of_fmap. Qed.

(** The programs are the files found, by their names. *)
Lemma read_programs_spec ReadFile files progs0 progs :
  NoDup (map program_name files) → read_programs ReadFile files progs0 = Some progs →
  (∀ f, f ∈ files → ∃ b, ReadFile f = Some b ∧ progs !! program_name f = Some b) ∧
  ∀ name, name ∉ map program_name files → progs !! name = progs0 !! name.
Proof.
  revert progs0. induction files as [|f files IH]; intros progs0; cbn [read_programs map].
  { intros _ [= ->]. split; [by intros f ?%elem_of_nil|done]. }
  intros [Hf Hnd]%NoDup_cons. destruct (ReadFile f) as [b|] eqn:E; [|done]. intros Hr.
  destruct (IH _ Hnd Hr) as [Hin Hout]. split.
  - intros f' [->|H]%elem_of_cons; [|by apply Hin]. exists b. rewrite Hout by done. by rewrite lookup_insert_eq.
  - intros name Hname. rewrite not_elem_of_cons in Hname. destruct Hname as [Hne Hname].
    rewrite Hout by done. by rewrite lookup_insert_ne.
Qed.

(** The status a shell sees: that of the program's [exit], 128 and the number of
    the signal it died of, 127 when it could not be started. *)
Lemma exit_code_exact e p :
  exit_code (execute_status e p) =
    match e with
    | GNoStart => 127
    | GError | GReturned _ =>
        if pr_exitSet p then exit_code (pr_status p)
        else if sg_killed (pr_sig p) then 137
        else match e with GReturned true => 0 | GReturned false => 1 | _ => 134 end
    end.
Proof. destruct e as [| |[]]; [done|..]; simpl; by destruct (pr_exitSet p), (sg_killed (pr_sig p)). Qed.

Lemma exit_code_exited c : exit_code (Z.shiftl (Z.land c 255) 8) = Z.land c 255.
Proof.
  unfold exit_code. assert (Z.land (Z.shiftl (Z.land c 255) 8) 127 = 0) as ->.
  { apply Z.bits_inj'. intros n Hn. rewrite Z.land_spec, Z.bits_0. destruct (Z.ltb_spec n 8).
    - by rewrite Z.shiftl_spec_low by lia.
    - change 127 with (Z.ones 7). rewrite Z.ones_spec_high by lia. apply andb_false_r. }
  simpl. rewrite Z.shiftr_shiftl_l by lia. change (8 - 8) with 0. rewrite Z.shiftl_0_r, <-Z.land_assoc. done.
Qed.

(** * Properties *)


(** A run of [initdb] with a temporary directory of its own. *)
Definition demo_answers : answers :=
  Answers (λ _, true) (λ _, Some ["build/bin/initdb.wasm"; "build/bin/postgres.wasm"]) (λ _, Some [0; 97; 115; 109])
    (λ _, true) (Some "/tmp/pgzero1") (λ p, Some (if IsAbs p then p else Join ["/w"; p])) true (λ _, true)
    (λ _ argv, if decide (argv = ["initdb"]) then Some 256 else None).
Definition demo_flags : flags :=
  Flags "build/bin" "build/install" "pgdata" "" false "" "" "trace.out" false ["/x=y"] ["A=b=c"].

Example run_demo :
  let '(code, es) := run demo_answers demo_flags ["initdb"] in
  code = 1 ∧ length es = 9%nat ∧
  kc_Mounts <$> (omap started_with es).*1 =
    [[mkMount "/usr/local/pgsql" "/w/build/install" false; mkMount "/data" "/w/pgdata" false;
      mkMount "/tmp" "/tmp/pgzero1" false; mkMount "/x" "/w/y" false]] ∧
  last es = Some (Put ExecTrace).
Proof. by vm_compute. Qed.
