(* ===== verification/PgX.v ===== *)
(** The adapter for pgx ([src/pgzerox/pgzerox.go]): the configurations it makes of a
    server's connection string, and that they lead to that server.

    pgx is not part of the program.  A [pgx] is what the adapter uses of it, and
    [pgx_laws] what its documentation says of that: a keyword/value string in
    the format of libpq is accepted, and its host, port, user and database are
    the configuration's. *)
From Stdlib Require Import Ascii.
From S2P Require Import Prelude Bytes Paths Server ServerLaws.
Open Scope Z_scope.

(** [Server.Dial]: the guest path of the socket it connects to. *)
Definition DialFunc : Type := string → string → string.
Definition Dial (port : Z) : DialFunc := λ network addr, socketPath port.

(** What is used of pgx and pgxpool. *)
Record pgx := mkPgx {
  x_Config : Type;
  x_PoolConfig : Type;
  x_Error : Type;
  x_ParseConfig : string → x_Error + x_Config;
  x_pool_ParseConfig : string → x_Error + x_PoolConfig;
  x_ConnConfig : x_PoolConfig → x_Config;
  x_set_ConnConfig : x_Config → x_PoolConfig → x_PoolConfig;
  x_set_DialFunc : DialFunc → x_Config → x_Config;
  x_DialFunc : x_Config → option DialFunc;
  x_setting : x_Config → string → string;
}.

(** A Go function that may panic. *)
Inductive panicky (E A : Type) := Returns (a : A) | Panicked (e : E).
Arguments Returns {E A} a.
Arguments Panicked {E A} e.

Section adapter.
Context (X : pgx).

Definition ConnConfig (port : Z) (database : string) : panicky (x_Error X) (x_Config X) :=
  match x_ParseConfig X (ConnString port database) with
  | inl err => Panicked err
  | inr cfg => Returns (x_set_DialFunc X (Dial port) cfg)
  end.

(** [cfg.ConnConfig] is a pointer in the pool's configuration. *)
Definition PoolConfig (port : Z) (database : string) : panicky (x_Error X) (x_PoolConfig X) :=
  match x_pool_ParseConfig X (ConnString port database) with
  | inl err => Panicked err
  | inr cfg => Returns (x_set_ConnConfig X (x_set_DialFunc X (Dial port) (x_ConnConfig X cfg)) cfg)
  end.
End adapter.

(** The settings of a string pgx documents to accept. *)
Definition valid_settings (kvs : list (string * string)) : Prop :=
  NoDup kvs.*1 ∧
  (∀ p, ("port", p) ∈ kvs → ∃ n, p = Itoa n ∧ 1 ≤ n ≤ 65535) ∧
  (∀ m, ("sslmode", m) ∈ kvs → m = "disable") ∧
  ∀ k v, (k, v) ∈ kvs → k ∈ ["host"; "port"; "user"; "dbname"; "sslmode"] ∧ v ≠ "".

Definition says (X : pgx) (cfg : x_Config X) (kvs : list (string * string)) : Prop :=
  ∀ k v, (k, v) ∈ kvs → k ≠ "sslmode" → x_setting X cfg k = v.

Record pgx_laws (X : pgx) : Prop := {
  x_parse s kvs : conninfo s = Some kvs → valid_settings kvs →
    ∃ cfg, x_ParseConfig X s = inr cfg ∧ says X cfg kvs;
  x_pool_parse s kvs : conninfo s = Some kvs → valid_settings kvs →
    ∃ cfg, x_pool_ParseConfig X s = inr cfg ∧ says X (x_ConnConfig X cfg) kvs;
  x_conn_set c cfg : x_ConnConfig X (x_set_ConnConfig X c cfg) = c;
  x_dial_set d cfg : x_DialFunc X (x_set_DialFunc X d cfg) = Some d;
  x_setting_set d cfg k : x_setting X (x_set_DialFunc X d cfg) k = x_setting X cfg k;
}.

(** The settings in a server's connection string. *)
Definition server_settings (port : Z) (db : string) : list (string * string) :=
  [("host", "/tmp"); ("port", Itoa port); ("user", "postgres"); ("dbname", db); ("sslmode", "disable")].

Lemma server_conninfo port db : bare db ∨ needs_quotes db = true → db ≠ "" →
  conninfo (ConnString port db) = Some (server_settings port db).
Proof. intros Hdb Hne. rewrite ConnString_head, quote_value; [done|]. destruct Hdb; auto. Qed.

Lemma server_settings_valid port db : 1 ≤ port ≤ 65535 → db ≠ "" → valid_settings (server_settings port db).
Proof.
  intros Hp Hdb. unfold server_settings. split_and!.
  - by apply (bool_decide_unpack _).
  - intros p. rewrite !elem_of_cons, elem_of_nil. intros H. exists port. naive_solver.
  - intros m. rewrite !elem_of_cons, elem_of_nil. naive_solver.
  - destruct (bare_Itoa port) as [_ Hne].
    intros k v. rewrite !elem_of_cons, !elem_of_nil. naive_solver.
Qed.

(** The adapter never panics: for a running server's port and any database whose
    name has no white space but blanks, the configuration names that database
    as the superuser, and whatever address pgx dials, it dials the server's
    socket, for single connections and for pools. *)
Theorem adapter_reaches_server (X : pgx) (port : Z) (db : string) :
  pgx_laws X → 1 ≤ port ≤ 65535 → db ≠ "" → bare db ∨ needs_quotes db = true →
  (∃ cfg, ConnConfig X port db = Returns cfg ∧ says X cfg (server_settings port db) ∧
     ∃ dial, x_DialFunc X cfg = Some dial ∧ ∀ network addr, dial network addr = "/tmp/.s.PGSQL." +:+ Itoa port) ∧
  ∃ pool, PoolConfig X port db = Returns pool ∧ says X (x_ConnConfig X pool) (server_settings port db) ∧
    ∃ dial, x_DialFunc X (x_ConnConfig X pool) = Some dial ∧
      ∀ network addr, dial network addr = "/tmp/.s.PGSQL." +:+ Itoa port.
Proof.
  intros [Hparse Hpool Hconn Hdial Hset] Hp Hne Hdb.
  pose proof (server_conninfo port db Hdb Hne) as Hs. pose proof (server_settings_valid port db Hp Hne) as Hv.
  split.
  - destruct (Hparse _ _ Hs Hv) as (cfg & Hc & Hsays). unfold ConnConfig. rewrite Hc.
    eexists. split_and!; [done| |exists (Dial port); by rewrite Hdial].
    intros k v Hk Hssl. rewrite Hset. by apply Hsays.
  - destruct (Hpool _ _ Hs Hv) as (cfg & Hc & Hsays). unfold PoolConfig. rewrite Hc.
    eexists. rewrite Hconn. split_and!; [done| |exists (Dial port); by rewrite Hdial].
    intros k v Hk Hssl. rewrite Hset. by apply Hsays.
Qed.

(** A pgx that keeps the settings it reads. *)
Definition demo_pgx : pgx := mkPgx
  (list (string * string) * option DialFunc) (list (string * string) * option DialFunc) ()
  (λ s, match conninfo s with Some kvs => inr (kvs, None) | None => inl () end)
  (λ s, match conninfo s with Some kvs => inr (kvs, None) | None => inl () end)
  (λ p, p) (λ c _, c) (λ d c, (c.1, Some d)) snd
  (λ c k, default "" (snd <$> list_find (λ kv, kv.1 = k) c.1 ≫= λ r, Some r.2)).

Lemma demo_pgx_laws : pgx_laws demo_pgx.
Proof.
  assert (∀ s kvs, conninfo s = Some kvs → valid_settings kvs →
    ∃ cfg, x_ParseConfig demo_pgx s = inr cfg ∧ says demo_pgx cfg kvs) as Hparse.
  { intros s kvs Hs (Hnd & _). exists (kvs, None). cbn. rewrite Hs. split; [done|].
    intros k v Hk _. cbn. apply list_elem_of_lookup in Hk as [i Hi].
    assert (list_find (λ kv, kv.1 = k) kvs = Some (i, (k, v))) as ->; [|done].
    apply list_find_Some. split_and!; [done|done|]. intros j [k' v'] Hj Hlt E. cbn in E. subst k'.
    assert (j = i); [|lia]. eapply NoDup_lookup; [exact Hnd|..]; rewrite list_lookup_fmap.
    - by rewrite Hj.
    - by rewrite Hi. }
  split; [exact Hparse|exact Hparse|done..].
Qed.

Lemma adapter_reaches_server_witness :
  ∃ cfg, ConnConfig demo_pgx 5432 "my db" = Returns cfg ∧ x_setting demo_pgx cfg "dbname" = "my db".
Proof.
  destruct (adapter_reaches_server demo_pgx 5432 "my db" demo_pgx_laws) as [(cfg & Hc & Hs & _) _];
    [lia|done|by right|].
  exists cfg. split; [exact Hc|]. apply Hs; [|done]. by do 3 (apply elem_of_cons; right); left.
Defined.
