(* ===== verification/Cluster.v ===== *)
(** The two places a server can have its cluster in ([setup], [Start] and
    [initDataDir] of [src/pgzero.go]): the in-memory filesystem, a clone of what
    [AddTar] unpacked, and a host directory, filled by [initDataDir].  Both come
    from one archive, which [mktar] made, and must hold the same.

    [disk] is a host directory tree that answers as POSIX says, without faults:
    an instance of the operating system of [Server]. *)
From S2P Require Import Prelude Paths MemFS Clone Tar Server ServerLaws MkTar.
From Stdlib Require Import Ascii.

(** * What is at a path *)
Inductive view := VDir | VFile (b : bytes).
#[export] Instance view_eq_dec : EqDecision view.
Proof. solve_decision. Defined.

Definition tree_view (t : tree) (l : list string) : option view :=
  match tree_at t l with
  | Some (TDir _ _) => Some VDir
  | Some (TReg _ _ (Some (b, _))) => Some (VFile b)
  | _ => None
  end.

Definition mem_view (f : FS) (name : string) : option view :=
  match resolve f (fs_root f) name with
  | Ok p => (λ n, if isDir n then VDir else VFile (d_bytes (n_data n))) <$> fs_heap f !! p
  | _ => None
  end.

(** * Host directories *)
#[local] Abbreviation disk := (gmap (list string) view).

Definition is_dir (d : disk) (k : list string) : bool := bool_decide (k = [] ∨ d !! k = Some VDir).

(** [MkdirAll]: every missing directory on the way; a file in the way is an
    error. *)
Fixpoint mkdir_all (k ks : list string) (d : disk) : option disk :=
  match ks with
  | [] => Some d
  | b :: ks =>
      match d !! (k ++ [b]) with
      | Some (VFile _) => None
      | _ => mkdir_all (k ++ [b]) ks (<[k ++ [b] := VDir]> d)
      end
  end.

Definition disk_op (d : disk) (op : os_op) : option disk :=
  match op with
  | OsStat path => if decide (is_Some (d !! clean_parts path)) then Some d else None
  | OsReadDir path => if is_dir d (clean_parts path) then Some d else None
  | OsMkdirAll path => mkdir_all [] (clean_parts path) d
  | OsOpen path =>
      let k := clean_parts path in
      if is_dir d (removelast k) && negb (is_dir d k) then Some (<[k := VFile []]> d) else None
  | OsWrite path b =>
      match d !! clean_parts path with
      | Some (VFile c) => Some (<[clean_parts path := VFile (c ++ b)]> d)
      | _ => None
      end
  | OsClose _ => Some d
  end.

(** The tree after the operations done, those that failed having no effect. *)
Definition replay (d : disk) (log : list os_op) : disk := foldl (λ d op, default d (disk_op d op)) d log.

Definition entries_in (d : disk) (k : list string) : nat :=
  size (filter (λ k', k' ≠ [] ∧ removelast k' = k) (dom d)).

Definition disk_os (d : disk) : OS := mkOS
  (λ log op, bool_decide (is_Some (disk_op (replay d log) op)))
  (λ log path, if is_dir (replay d log) (clean_parts path)
               then Some (entries_in (replay d log) (clean_parts path)) else None).

Lemma replay_app d log op d' : disk_op (replay d log) op = Some d' → replay d (log ++ [op]) = d'.
Proof. intros H. unfold replay in *. by rewrite foldl_app; simpl; rewrite H. Qed.

(** * The tree as a list of items *)
Definition item_view (i : item) : view := if it_dir i then VDir else VFile (it_bytes i).

(** [v] is what one of the items has at [l]. *)
Definition among (its : list item) (l : list string) (v : view) : Prop :=
  ∃ i, i ∈ its ∧ it_path i = l ∧ item_view i = v.

Lemma tree_view_head t l v :
  tree_view t l = Some v ↔ ∃ t' i, tree_at t l = Some t' ∧ head (items l t') = Some i ∧ item_view i = v.
Proof.
  unfold tree_view. destruct (tree_at t l) as [t'|]; [|split; [done|naive_solver]].
  destruct t' as [m ks|m s [[b ok]|]| |]; simpl; naive_solver.
Qed.

Section tree.
Context (mode : Z) (kids : list (string * tree)).
#[local] Abbreviation t := (TDir mode (Some kids)).
#[local] Abbreviation its := (tl (items [] (TDir mode (Some kids)))).

Lemma tree_view_among l v : well_named t → l ≠ [] → tree_view t l = Some v ↔ among its l v.
Proof.
  intros Hw Hl. rewrite tree_view_head. split.
  - intros (t' & i & Hat & Hh & Hv). assert (i ∈ items l t') as Hi by (destruct (items l t'); [done|]; injection Hh as ->; left).
    exists i. split_and!; [by apply (below_root mode kids l t')| |done].
    destruct t' as [m ks|m s [[b ok]|]| |]; try done; injection Hh as <-; done.
  - intros (i & Hi & Hp & Hv). destruct (items_tree_at t [] i Hw) as (l' & t' & Hl' & Hat & Hh); [by right|].
    cbn [app] in *. rewrite Hp in Hl'. subst l'. by exists t', i.
Qed.
End tree.

(** * In memory *)
Lemma walk_reach f c l p : Forall normal l → walk f (Some c) l = Ok (Some p) → reach f c l = Some p.
Proof.
  intros Hl. revert c. induction Hl as [|b l Hb Hl IH]; intros c; [by intros [= ->]|].
  rewrite walk_normal by done. cbn [reach]. unfold entry. destruct (fs_heap f !! c) as [n|]; [|done]. simpl.
  destruct (negb _); [done|]. destruct (n_entries n !! b); [apply IH|done].
Qed.

Lemma resolve_reach f l p : Forall normal l → l ≠ [] → resolve f (fs_root f) (rel l) = Ok p → reach f (fs_root f) l = Some p.
Proof.
  intros Hn Hne. unfold resolve. rewrite rel_IsAbs, rel_split by done.
  destruct (walk f _ l) as [r| |] eqn:Hw; cbn [rbind]; [|done..]. intros Hr.
  destruct (walk_normals_Some _ _ _ _ Hn Hw) as [q ->]. assert (q = p) as ->; [|by apply walk_reach].
  revert Hr. unfold walk_end. destruct (fs_heap f !! q); [|done]. destruct (_ && _); [done|]. by intros [= ->].
Qed.

Lemma unpacked_among maxAlloc its ms t0 now : buildable [] its → Forall2 delivers (map item_member its) ms →
  Forall (λ i, 2 * zlen (it_bytes i) ≤ maxAlloc) its → maxAlloc < 2 ^ 63 →
  ∃ f, AddTar maxAlloc ms true now (fs_New t0) = (TOk, f) ∧
    ∀ l v, Forall normal l → l ≠ [] → mem_view f (rel l) = Some v ↔ among its l v.
Proof.
  intros Hb Hd Hs Hm.
  destruct (AddTar_built maxAlloc ms its now (fs_New t0) [] (fs_New_state t0) Hb Hd Hs Hm) as (f & Ha & Ht).
  rewrite app_nil_r in Ht. exists f. split; [done|]. intros l v Hn Hne.
  assert (∀ i, i ∈ its → it_path i = l → mem_view f (rel l) = Some (item_view i)) as Hin.
  { intros i Hi <-. unfold item_view. destruct (it_dir i) eqn:Hk.
    - destruct (ts_dirs _ _ Ht (it_path i)) as (p & n & Hp & Hpn & Hdir).
      { right. apply list_elem_of_In, in_rev. rewrite rev_involutive. apply list_elem_of_In.
        rewrite <-Hk. by apply (list_elem_of_fmap_2 key). }
      unfold mem_view. rewrite (resolve_rel f _ p n (ts_ok _ _ Ht) Hn Hne Hp Hpn), Hpn. simpl. by rewrite Hdir.
    - pose proof (built_file maxAlloc its ms now t0 f i Hb Hd Hs Hm Ha Hi Hk) as Hh.
      destruct (holds_resolve _ _ _ _ Hh) as (p & n & Hr & Hpn & Hdir & Hbytes & _).
      unfold mem_view. rewrite Hr, Hpn. simpl. by rewrite Hdir, Hbytes. }
  split.
  - intros Hv. unfold mem_view in Hv. destruct (resolve f (fs_root f) (rel l)) as [p| |] eqn:Hr; try done.
    apply resolve_reach in Hr as Hp; [|done..].
    destruct (ts_only _ _ Ht l p Hp) as [->|[k Hk]]; [done|].
    apply list_elem_of_In, in_rev, list_elem_of_In, list_elem_of_fmap in Hk as (i & Heq & Hi). injection Heq as -> _.
    exists i. split_and!; [done..|]. specialize (Hin i Hi eq_refl). unfold mem_view in Hin. rewrite Hr in Hin. congruence.
  - intros (i & Hi & Hp & <-). by apply Hin.
Qed.

(** A clone shows the same. *)
Lemma clone_view order extra maxAlloc ms eof now t0 f : (∀ m, order m ≡ₚ map_to_list m) →
  AddTar maxAlloc ms eof now (fs_New t0) = (TOk, f) →
  ∃ g, Clone order extra (S (size (fs_heap f))) f = Some g ∧ ∀ name, mem_view g name = mem_view f name.
Proof.
  intros Hord Ha. assert (reachable (λ f, f = fs_New t0) (fs_step maxAlloc) f) as [[Hwf Hs] Ho]%reachable_fs.
  { exists (fs_New t0). split; [done|]. pose proof (AddTar_steps maxAlloc ms eof now (fs_New t0)) as Hst. by rewrite Ha in Hst. }
  destruct (Clone_copied order extra Hord f Hwf Hs) as (K & g & Hcl & Hc). exists g. split; [done|]. intros name.
  pose proof (resolve_copied f K g Hc name Ho) as Hr. unfold mem_view.
  destruct (resolve f _ _) as [n| |], (resolve g _ _) as [c| |]; simpl in Hr; try done.
  destruct (cp_node _ _ _ Hc n c Hr) as (nd & cd & Hnd & Hcd & (Hm & _ & _ & Hb & _) & _).
  rewrite Hnd, Hcd. simpl. unfold isDir. by rewrite Hm, Hb.
Qed.

(** * On disk *)
Lemma mkdir_all_app k ks1 ks2 d : mkdir_all k (ks1 ++ ks2) d = mkdir_all k ks1 d ≫= mkdir_all (k ++ ks1) ks2.
Proof.
  revert k d. induction ks1 as [|b ks1 IH]; intros k d; simpl; [by rewrite app_nil_r|].
  destruct (d !! (k ++ [b])) as [[|c]|]; [|done|]; by rewrite IH, <-app_assoc.
Qed.

(** The directories of a path are there. *)
Definition dirs_to (d : disk) (k : list string) : Prop := ∀ k1 k2, k = k1 ++ k2 → k1 ≠ [] → d !! k1 = Some VDir.

Lemma mkdir_all_there k ks d : dirs_to d (k ++ ks) → mkdir_all k ks d = Some d.
Proof.
  revert k. induction ks as [|b ks IH]; intros k Hd; [done|]. cbn [mkdir_all].
  rewrite (Hd (k ++ [b]) ks) by (by rewrite <-app_assoc || by destruct k).
  rewrite insert_id by (apply (Hd _ ks); [by rewrite <-app_assoc|by destruct k]).
  apply IH. by rewrite <-app_assoc.
Qed.

(** No file is in the way. *)
Definition no_file_on (d : disk) (k : list string) : Prop := ∀ k1 k2 b, k = k1 ++ k2 → d !! k1 ≠ Some (VFile b).

Lemma mkdir_all_makes k ks d : dirs_to d k → no_file_on d (k ++ ks) →
  ∃ d', mkdir_all k ks d = Some d' ∧ dirs_to d' (k ++ ks) ∧
    ∀ x, (∀ k1 k2, k ++ ks = k1 ++ k2 → x ≠ k1) → d' !! x = d !! x.
Proof.
  revert k d. induction ks as [|b ks IH]; intros k d Hd Hno; [exists d; by rewrite app_nil_r|]. cbn [mkdir_all].
  pose proof (Hno (k ++ [b]) ks) as Hb. rewrite <-app_assoc in Hb.
  destruct (IH (k ++ [b]) (<[k ++ [b] := VDir]> d)) as (d' & Hm & Hd' & Hx).
  - intros k1 k2 Heq Hne. destruct k2 as [|c k2 _] using rev_ind.
    + rewrite app_nil_r in Heq. subst k1. apply lookup_insert_eq.
    + rewrite app_assoc in Heq. apply app_inj_tail in Heq as [-> ->].
      rewrite lookup_insert_ne; [by apply (Hd k1 k2)|]. intros E. apply (f_equal length) in E. rewrite !length_app in E. simpl in E. lia.
  - intros k1 k2 c Heq. destruct (decide (k ++ [b] = k1)) as [<-|Hne]; [by rewrite lookup_insert_eq|].
    rewrite lookup_insert_ne by done. apply (Hno k1 k2). by rewrite <-app_assoc in Heq.
  - rewrite <-app_assoc in Hd', Hx. exists d'. split_and!; [|done|].
    + destruct (d !! (k ++ [b])) as [[|c]|] eqn:E; [done| |done]. by destruct (Hb c).
    + intros x Hnx. rewrite Hx by done. apply lookup_insert_ne. intros <-. by apply (Hnx (k ++ [b]) ks); [rewrite <-app_assoc|].
Qed.

Section disk.
Context (d0 : disk).

(** [m] succeeds with [a], and takes the tree [d] to [d']. *)
Definition goes {A} (m : osM A) (d : disk) (a : A) (d' : disk) : Prop :=
  ∀ log, replay d0 log = d → ∃ log', m log = (log', inl a) ∧ replay d0 log' = d'.

Lemma goes_ret {A} (a : A) d : goes (mret a) d a d.
Proof. intros log <-. by exists log. Qed.
Lemma goes_bind {A B} (m : osM A) (k : A → osM B) d a d1 b d2 : goes m d a d1 → goes (k a) d1 b d2 → goes (m ≫= k) d b d2.
Proof.
  intros Hm Hk log Hd. destruct (Hm log Hd) as (log1 & E & Hd1). destruct (Hk log1 Hd1) as (log2 & E2 & Hd2).
  exists log2. split; [|done]. unfold mbind, osM_bind. by rewrite E.
Qed.
Lemma goes_try op d d' : disk_op d op = Some d' → goes (os_try (disk_os d0) op) d true d'.
Proof.
  intros H log <-. exists (log ++ [op]). split; [|by apply replay_app]. unfold os_try. simpl.
  by rewrite H.
Qed.
Lemma goes_do op d d' : disk_op d op = Some d' → goes (os_do (disk_os d0) op) d () d'.
Proof.
  intros H log <-. exists (log ++ [op]). split; [|by apply replay_app]. unfold os_do. simpl.
  by rewrite H.
Qed.

Lemma goes_copy path reads d c : d !! clean_parts path = Some (VFile c) →
  goes (os_copy (disk_os d0) path reads true) d None (<[clean_parts path := VFile (c ++ concat reads)]> d).
Proof.
  revert d c. induction reads as [|b reads IH]; intros d c Hc; cbn [os_copy concat].
  - rewrite app_nil_r, insert_id by done. apply goes_ret.
  - destruct (Z.eqb_spec (zlen b) 0) as [Hb|Hb]; [apply zlen_zero in Hb as ->; by apply IH|].
    eapply goes_bind; [by apply goes_try; cbn [disk_op]; rewrite Hc|]. cbv beta iota.
    rewrite app_assoc.
    replace (<[clean_parts path := VFile ((c ++ b) ++ concat reads)]> d) with
      (<[clean_parts path := VFile ((c ++ b) ++ concat reads)]> (<[clean_parts path := VFile (c ++ b)]> d))
      by apply insert_insert_eq.
    apply IH. apply lookup_insert_eq.
Qed.

(** The directory [dir]. *)
Context (dir : string) (Habs : IsAbs dir = true) (Hdir : clean_parts dir ≠ []).
#[local] Abbreviation D := (clean_parts dir).

Lemma dir_nonempty : dir ≠ "".
Proof. by intros ->. Qed.

Lemma init_target_rel l : Forall normal l → l ≠ [] →
  init_target dir (rel l) = Some (Join [dir; rel l]) ∧ clean_parts (Join [dir; rel l]) = D ++ l.
Proof.
  intros Hn Hne. split; [|apply Join_normals; [apply dir_nonempty|done]].
  unfold rel. rewrite init_target_exact by (done || apply dir_nonempty). rewrite decide_False; [done|].
  pose proof (split_Clean dir) as Hs. destruct D as [|p l'] eqn:E; [done|]. rewrite Habs in Hs.
  intros [Hc|Hc]; rewrite Hc in Hs; [done|]. injection Hs as <- _.
  destruct (clean_parts_spec dir) as (k & ns & E' & Hns & Hk). rewrite E in E'.
  destruct k as [|k]; [|done]. destruct ns as [|n ns]; [done|]. injection E' as <- _. by destruct (Forall_inv Hns).
Qed.

Lemma init_target_slash l : Forall normal l → l ≠ [] →
  init_target dir (rel l +:+ "/") = Some (Join [dir; rel l]).
Proof.
  intros Hn Hne. destruct (init_target_rel l Hn Hne) as [Ht _].
  assert (Join [dir; rel l +:+ "/"] = Join [dir; rel l]) as HJ; [|unfold init_target in *; by rewrite HJ].
  pose proof (rel_nonempty l Hn Hne) as Hr. rewrite !Join_two by apply dir_nonempty.
  rewrite (decide_False (P := rel l = "")) by done. rewrite decide_False by by destruct (rel l).
  unfold Clean. rewrite !IsAbs_app by apply dir_nonempty. rewrite Habs.
  assert (clean_parts (dir +:+ String slash (rel l +:+ "/")) = clean_parts (dir +:+ String slash (rel l))) as ->; [|done].
  unfold clean_parts. rewrite !IsAbs_app by apply dir_nonempty. rewrite !split_app_slash.
  rewrite rel_split by done. cbn [split_slash].
  rewrite app_assoc.
  assert (∀ ps out, clean_go (IsAbs dir) (ps ++ [""]) out = clean_go (IsAbs dir) ps out) as Hgo; [|apply Hgo].
  intros ps. induction ps as [|p ps IH]; intros out; cbn [app clean_go]; [by rewrite decide_True by by left|].
  repeat (case_decide || case_match); apply IH.
Qed.
(** Below [dir] the disk has exactly the items made so far. *)
Record disk_state (d : disk) (made : list item) : Prop := {
  ds_dirs : dirs_to d D;
  ds_iff l v : l ≠ [] → d !! (D ++ l) = Some v ↔ among made l v;
}.

Lemma disk_state_insert d made i : disk_state d made → it_path i ≠ [] → (∀ j, j ∈ made → it_path j ≠ it_path i) →
  disk_state (<[D ++ it_path i := item_view i]> d) (i :: made).
Proof.
  intros [Hd Hiff] Hne Hnew. split.
  - intros k1 k2 Heq Hk1. rewrite lookup_insert_ne; [by apply (Hd k1 k2)|]. intros <-.
    apply (f_equal length) in Heq. rewrite !length_app in Heq. destruct (it_path i); [done|simpl in Heq; lia].
  - intros l v Hl. destruct (decide (l = it_path i)) as [->|Hli].
    + rewrite lookup_insert_eq. split; [intros [= <-]; by exists i; split; [left|]|].
      intros (j & [->|Hj]%elem_of_cons & Hp & <-); [done|]. by destruct (Hnew j Hj).
    + rewrite lookup_insert_ne by (by intros ?%app_inv_head). rewrite Hiff by done. split.
      * intros (j & Hj & Hp & Hv). by exists j; split; [right|].
      * intros (j & [->|Hj]%elem_of_cons & Hp & Hv); [done|]. by exists j.
Qed.

Lemma disk_state_dirs d made l : disk_state d made → above (map key made) l → dirs_to d (D ++ l).
Proof.
  intros [Hd Hiff] Ha k1 k2 Heq Hne. apply app_eq_inv in Heq as [(k & E1 & E2)|(k & E1 & E2)].
  - by apply (Hd k1 k).
  - destruct (decide (k = [])) as [->|Hk]; [rewrite app_nil_r in E1; subst k1; by apply (Hd D []); [rewrite app_nil_r|]|].
    subst k1. rewrite Hiff by done. destruct (proj1 (list_elem_of_fmap _ _ _) (Ha k k2 E2 Hk)) as (i & Heq & Hi).
    exists i. unfold key in Heq. injection Heq as Hp Hdi. split_and!; [done..|]. unfold item_view. by rewrite <-Hdi.
Qed.

(** What [initDataDir] reads of a member. *)
Definition template_member (m : member) : string * tar_kind :=
  (h_Name (m_header m),
   if h_Typeflag (m_header m) =? TypeDir then TarDir
   else if h_Typeflag (m_header m) =? TypeReg then TarReg (m_reads m) (m_read_ok m) else TarOther).

Lemma goes_member d made i l b m :
  disk_state d made → it_path i = l ++ [b] → Forall normal (l ++ [b]) → above (map key made) l →
  (∀ j, j ∈ made → it_path j ≠ it_path i) → delivers (item_member i) m →
  goes (init_member (disk_os d0) dir (template_member m)) d () (<[D ++ it_path i := item_view i]> d).
Proof.
  intros Hs Hp Hn Ha Hnew (Hh & Hc & Hok). assert (l ++ [b] ≠ []) as Hne by by destruct l.
  pose proof (disk_state_dirs d made l Hs Ha) as Hdirs.
  destruct (init_target_rel (l ++ [b]) Hn Hne) as [Htr Hcp].
  assert (d !! (D ++ l ++ [b]) = None) as Hno.
  { destruct (d !! (D ++ l ++ [b])) as [v|] eqn:E; [|done]. apply (ds_iff _ _ Hs) in E as (j & Hj & Hpj & _); [|done].
    destruct (Hnew j Hj). by rewrite Hpj, Hp. }
  unfold init_member, template_member. cbn [fst snd]. rewrite Hh, Hp. unfold item_member, item_view. rewrite Hp.
  destruct (it_dir i); cbn [fst snd h_Name h_Typeflag].
  - rewrite init_target_slash by done. apply goes_do. cbn [disk_op]. rewrite Hcp, app_assoc, mkdir_all_app.
    rewrite mkdir_all_there by done. cbn [mbind option_bind mkdir_all app]. rewrite <-app_assoc. by rewrite Hno.
  - change (TypeReg =? TypeDir) with false. rewrite Htr. cbv iota.
    eapply goes_bind.
    { apply goes_do. cbn [disk_op]. rewrite Hcp. rewrite app_assoc, removelast_last.
      assert (is_dir d (D ++ l) = true) as ->.
      { apply bool_decide_eq_true. right. apply (Hdirs _ []); [by rewrite app_nil_r|by destruct D]. }
      rewrite <-app_assoc. unfold is_dir. rewrite Hno, bool_decide_eq_false_2; [done|]. intros [E|?]; [by destruct D|done]. }
    eapply goes_bind; [rewrite Hok; apply (goes_copy _ _ _ []); rewrite Hcp; apply lookup_insert_eq|].
    eapply goes_bind; [by apply goes_try|]. cbv iota. rewrite Hcp, Hc, insert_insert_eq. apply goes_ret.
Qed.

Lemma goes_members its ms d made :
  disk_state d made → buildable (map key made) its → Forall2 delivers (map item_member its) ms →
  ∃ d', goes (init_members (disk_os d0) dir (map template_member ms) true) d () d' ∧ disk_state d' (rev its ++ made).
Proof.
  revert ms d made. induction its as [|i its IH]; intros ms d made Hs Hb Hd.
  { apply Forall2_nil_inv_l in Hd as ->. exists d. split; [apply goes_ret|done]. }
  cbn [map] in Hd. apply Forall2_cons_inv_l in Hd as (m & ms' & Hm & Hd & ->).
  inversion Hb as [|V i' its' l b Hp Hn Ha Hnew Hb' E1 E2]; subst.
  assert (∀ j, j ∈ made → it_path j ≠ it_path i) as Hnew'.
  { intros j Hj Heq. apply (Hnew (it_dir j)). rewrite <-Hp, <-Heq. by apply (list_elem_of_fmap_2 key). }
  destruct (IH ms' (<[D ++ it_path i := item_view i]> d) (i :: made)) as (d' & Hg & Hs').
  - apply disk_state_insert; [done| |done]. rewrite Hp. by destruct l.
  - done.
  - done.
  - exists d'. split; [|by cbn [rev]; rewrite <-app_assoc]. cbn [map init_members].
    eapply goes_bind; [by eapply goes_member|done].
Qed.
End disk.

(** ** An empty data directory *)
Lemma goes_try_fails d0 op d : disk_op d op = None → goes d0 (os_try (disk_os d0) op) d false d.
Proof.
  intros H log <-. exists (log ++ [op]). unfold os_try. simpl. rewrite H. split; [done|].
  unfold replay in *. rewrite foldl_app. simpl. by rewrite H.
Qed.

Lemma entries_none d k : (∀ l, l ≠ [] → d !! (k ++ l) = None) → entries_in d k = 0%nat.
Proof.
  intros Hd. unfold entries_in. apply size_empty_iff. intros k'. rewrite elem_of_filter, elem_of_dom.
  split; [|by intros ?%elem_of_empty]. intros [[Hne Hk] [v Hv]]. exfalso.
  rewrite (app_removelast_last "" Hne), Hk, Hd in Hv; done.
Qed.

Section empty_dir.
Context (d0 : disk) (dir : string) (Habs : IsAbs dir = true) (Hdir : clean_parts dir ≠ []).
Context (Hfree : no_file_on d0 (clean_parts dir)) (Hempty : ∀ l, l ≠ [] → d0 !! (clean_parts dir ++ l) = None).

Lemma init_empty its ms : buildable [] its → Forall2 delivers (map item_member its) ms →
  ∃ log, initDataDir (disk_os d0) true (map template_member ms) true dir [] = (log, inl ()) ∧
    ∀ l v, l ≠ [] → replay d0 log !! (clean_parts dir ++ l) = Some v ↔ among its l v.
Proof.
  intros Hb Hd.
  destruct (mkdir_all_makes [] (clean_parts dir) d0) as (d1 & Hm & Hd1 & Hsame); [by intros [] ?| |]; [done|].
  assert (disk_state dir d1 []) as Hs.
  { split; [done|]. intros l v Hl. rewrite Hsame, Hempty by (done || (intros k1 k2 E <-; apply (f_equal length) in E;
      rewrite !length_app in E; destruct l; [done|simpl in E; lia])).
    split; [done|]. by intros (i & ?%elem_of_nil & _). }
  destruct (goes_members d0 dir Habs Hdir its ms d1 [] Hs Hb Hd) as (d2 & Hg & Hs2).
  assert (goes d0 (initDataDir (disk_os d0) true (map template_member ms) true dir) d0 () d2) as Hgo.
  { unfold initDataDir. eapply goes_bind.
    { apply goes_try_fails. cbn [disk_op]. rewrite decide_False; [done|].
      destruct (Join_normals dir ["PG_VERSION"]) as [Hj _]; [by intros ->|by apply Forall_singleton; split_and!|].
      change (join_slash ["PG_VERSION"]) with "PG_VERSION" in Hj. rewrite Hj, Hempty by done. by intros []. }
    cbv iota beta. intros log Hlog. cbn [disk_os os_entries].
    assert (replay d0 (log ++ [OsReadDir dir]) = d0) as Hlog'.
    { unfold replay in *. rewrite foldl_app, Hlog. simpl. by destruct (is_dir _ _). }
    assert (goes d0 (_ ← os_do (disk_os d0) (OsMkdirAll dir); init_members (disk_os d0) dir (map template_member ms) true) d0 () d2)
      as Hrest by (eapply goes_bind; [by apply goes_do|done]).
    rewrite Hlog, entries_none by done. destruct (is_dir d0 (clean_parts dir)); by apply Hrest. }
  destruct (Hgo [] eq_refl) as (log & Hl & Hr). exists log. split; [done|]. intros l v Hne.
  rewrite Hr, (ds_iff _ _ _ Hs2) by done. rewrite app_nil_r. unfold among.
  split; intros (i & Hi & Hp); exists i; (split; [|done]).
  - by apply list_elem_of_In, in_rev, list_elem_of_In.
  - apply list_elem_of_In, in_rev. rewrite rev_involutive. by apply list_elem_of_In.
Qed.
End empty_dir.

(** ** From the guest's path to it *)
Lemma Clean_abs p l : normal p → Forall normal l → Clean (String slash (join_slash (p :: l))) = String slash (join_slash (p :: l)).
Proof.
  intros Hp Hl. unfold Clean. change (IsAbs _) with true. cbv iota. unfold clean_parts. change (IsAbs _) with true.
  assert (Forall no_slash (p :: l)) as Hns.
  { eapply (Forall_impl normal); [by constructor|]. by intros ? (_ & _ & _ & ?). }
  cbn [split_slash]. rewrite decide_True by done. rewrite split_join by done.
  change (clean_go true ("" :: p :: l) []) with (clean_go true (p :: l) []).
  by rewrite clean_go_normals by by constructor.
Qed.

Lemma data_mount data l : GuestPath data = guestData → Forall normal l → l ≠ [] →
  mountFor (start_mounts data) (guestData +:+ "/" +:+ rel l) = Some (data, rel l).
Proof.
  intros Hg Hn Hne. unfold mountFor. set (guest := guestData +:+ "/" +:+ rel l).
  assert (Clean guest = guest) as Hcl.
  { subst guest. assert (guestData +:+ "/" +:+ rel l = String slash (join_slash ("data"%string :: l))) as ->.
    - by rewrite join_cons.
    - apply Clean_abs; [by split_and!|done]. }
  assert (∀ c d, c ≠ "d"%char → HasPrefix guest (String slash (String c d)) = false) as Hno.
  { intros c d Hc. apply bool_decide_eq_false_2. intros [r Hr%strip_prefix_Some]. by injection Hr as E _. }
  assert (∀ m, Clean (GuestPath m) = "/usr/local/pgsql" ∨ Clean (GuestPath m) = "/tmp" → mount_covers guest m = false) as Hother.
  { intros m Hm. unfold mount_covers. apply orb_false_intro.
    - apply bool_decide_eq_false_2. intros E. rewrite <-E in Hm. destruct Hm; discriminate.
    - destruct Hm as [-> | ->]; cbn; by apply Hno. }
  assert (mount_covers guest data = true) as Hcov.
  { unfold mount_covers. rewrite Hg. apply orb_true_intro. right. apply HasPrefix_true. by exists (rel l). }
  rewrite Hcl. unfold start_mounts. cbn [mount_best]. rewrite Hcov, !Hother by (first [by left | by right]).
  f_equal. f_equal. rewrite Hg. change (Clean guestData) with guestData. unfold guest.
  rewrite (TrimPrefix_app guestData ("/" +:+ rel l)). apply (TrimPrefix_app "/").
Qed.

Lemma osfs_rel dir l : Forall normal l → l ≠ [] → osfs_resolve dir (rel l) = Some (Join [dir; rel l]).
Proof.
  intros Hn Hne. unfold osfs_resolve. rewrite rel_Clean, rel_IsAbs by done.
  assert (∀ r, rel l ≠ ".." ∧ rel l ≠ "../" +:+ r) as Hup.
  { intros r. pose proof (rel_split l Hn Hne) as Hs. split; intros E; rewrite E in Hs.
    - change (split_slash "..") with [".."] in Hs. subst l. by destruct (Forall_inv Hn) as (_ & _ & ? & _).
    - change ("../" +:+ r) with (".." +:+ String slash r) in Hs. rewrite split_app_slash in Hs.
      change (split_slash "..") with [".."] in Hs. subst l. by destruct (Forall_inv Hn) as (_ & _ & ? & _). }
  rewrite bool_decide_eq_false_2 by apply (Hup ""). cbn [orb].
  assert (HasPrefix (rel l) "../" = false) as ->; [|done].
  apply bool_decide_eq_false_2. intros [r Hr%strip_prefix_Some]. by apply (Hup r).
Qed.

(** * Properties *)

(** C12. A server finds the same cluster wherever it runs.  For a cluster directory
    that [mktar] archives: however the archive is read, [AddTar] unpacks it and
    [Clone] copies the result; [initDataDir] fills an empty host directory with
    it, all its operations succeeding; and then every path [/data/...] of the
    guest leads into the data mount, and there, in the clone as in the host
    directory, it is what it was in the cluster: a directory, a file with the
    same bytes, or nothing. *)
Theorem cluster_same (order : gmap string nat → list (string * nat)) (extra : Z → Z) (maxAlloc mode : Z) (kids : list (string * tree)) (t0 now : Z) (dir : string)
    (d0 : disk) :
  let t := TDir mode (Some kids) in
  (∀ m, order m ≡ₚ map_to_list m) →
  readable t = true → well_named t → Forall (λ e, 2 * zlen e.2 ≤ maxAlloc) (members_of t) → maxAlloc < 2 ^ 63 →
  IsAbs dir = true → clean_parts dir ≠ [] → no_file_on d0 (clean_parts dir) →
  (∀ l, l ≠ [] → d0 !! (clean_parts dir ++ l) = None) →
  ∃ es, mktar t = inr es ∧ ∀ ms ms', Forall2 delivers es ms → Forall2 delivers es ms' →
    ∃ f g log, AddTar maxAlloc ms true now (fs_New t0) = (TOk, f) ∧
      Clone order extra (S (size (fs_heap f))) f = Some g ∧
      initDataDir (disk_os d0) true (map template_member ms') true dir [] = (log, inl ()) ∧
      ∀ l, Forall normal l → l ≠ [] →
        (∀ data, GuestPath data = guestData →
           mountFor (start_mounts data) (guestData +:+ "/" +:+ rel l) = Some (data, rel l)) ∧
        mem_view g (rel l) = tree_view t l ∧
        ∃ p, osfs_resolve dir (rel l) = Some p ∧ replay d0 log !! clean_parts p = tree_view t l.
Proof.
  intros t Hord Hr Hw Hs Hm Habs Hdir Hfree Hempty. exists (members_of t). split; [by apply mktar_iff|].
  intros ms ms' Hd Hd'. pose proof (root_build mode kids Hw) as Hb. set (its := tl (items [] t)) in *.
  pose proof (proj1 (Forall_map item_member (λ e, 2 * zlen e.2 ≤ maxAlloc) its) Hs) as Hs'.
  destruct (unpacked_among maxAlloc its ms t0 now Hb Hd Hs' Hm) as (f & Ha & Hf).
  destruct (clone_view order extra maxAlloc ms true now t0 f Hord Ha) as (g & Hg & Hgf).
  destruct (init_empty d0 dir Habs Hdir Hfree Hempty its ms' Hb Hd') as (log & Hl & Hlog).
  exists f, g, log. split_and!; [done..|]. intros l Hn Hne. split_and!.
  - intros data Hdata. by apply data_mount.
  - rewrite Hgf. apply option_eq. intros v. rewrite Hf by done. symmetry. by apply tree_view_among.
  - exists (Join [dir; rel l]). split; [by apply osfs_rel|].
    destruct (Join_normals dir l) as [Hj _]; [by intros ->|done|]. unfold rel. rewrite Hj.
    apply option_eq. intros v. rewrite Hlog by done. symmetry. by apply tree_view_among.
Qed.

(** The demonstration cluster in an empty host directory and in memory. *)
Lemma cluster_same_witness : ∃ f g log,
  AddTar (2 ^ 47) demo_members true 9 (fs_New 1) = (TOk, f) ∧
  Clone map_to_list (λ _, 3) (S (size (fs_heap f))) f = Some g ∧
  initDataDir (disk_os ∅) true (map template_member demo_members) true "/srv/db" [] = (log, inl ()) ∧
  mem_view g "base/1/PG_VERSION" = Some (VFile [49;56;10]) ∧
  replay ∅ log !! ["srv"; "db"; "base"; "1"; "PG_VERSION"] = Some (VFile [49;56;10]) ∧
  mem_view g "base/2" = None ∧ replay ∅ log !! ["srv"; "db"; "base"; "2"] = None.
Proof.
  destruct (cluster_same map_to_list (λ _, 3) (2 ^ 47) 16877
    match demo_tree with TDir _ (Some kids) => kids | _ => [] end 1 9 "/srv/db" ∅) as (es & Hes & Hall).
  - done.
  - reflexivity.
  - vm_compute. repeat split; try discriminate; repeat constructor; intros H; repeat (apply elem_of_cons in H as [H|H]; [discriminate|]); by apply elem_of_nil in H.
  - repeat constructor; vm_compute; discriminate.
  - reflexivity.
  - reflexivity.
  - discriminate.
  - intros k1 k2 b _. by rewrite lookup_empty.
  - intros l _. apply lookup_empty.
  - assert (es = members_of demo_tree) as -> by (vm_compute in Hes |- *; congruence).
    destruct (Hall demo_members demo_members) as (f & g & log & Hf & Hg & Hl & Hsame); [by repeat constructor..|].
    exists f, g, log.
    destruct (Hsame ["base"; "1"; "PG_VERSION"]) as (_ & Hm & p & Hp & Hd); [by repeat constructor|done|].
    destruct (Hsame ["base"; "2"]) as (_ & Hm' & p' & Hp' & Hd'); [by repeat constructor|done|].
    vm_compute in Hp. injection Hp as <-. vm_compute in Hp'. injection Hp' as <-.
    split_and!; [exact Hf|exact Hg|exact Hl|exact Hm|exact Hd|exact Hm'|exact Hd'].
Defined.
